(* ===== verification/_CoqProject ===== *)
-Q . S2P
Prelude.v
Bits.v
Pm.v
Arena.v
Rings.v
Codec.v
Cstr.v
Net.v
MqttTopic.v
Mqtt.v
Ws.v
Httpd.v
Http.v
Sntp.v
Audio.v
Monitor.v
Queue.v
PosixStream.v
Events.v
Work.v
Timer.v
Media.v
AudioNodes.v
Loader.v
LoaderReloc.v
Fdpic.v
FdpicLoad.v
Storage.v
StorageInv.v
StorageBlocks.v
StorageFiles.v
Gpio.v
GpioInv.v
GpioRefine.v
Backtrace.v
