(* ===== verification/Prelude.v ===== *)
(** * oveRTOS verification library

    oveRTOS is a portable embedded C framework: one API over FreeRTOS,
    Zephyr, NuttX, POSIX and WebAssembly.  This library models the parts of
    it that carry logic of their own, independent of the kernel underneath,
    and proves them correct.  Source paths are relative to [src/].

    ** Files

    - [Prelude]: error codes ([include/ove/types.h]); machine integers as
      [Z] with explicit [wrap]/[swrap]; the state monads [M] (total) and
      [MO] (a bounds violation, a NULL dereference or exhausted fuel is
      [None]) with the total-correctness judgement [wp]; arrays, byte
      strings, table search and removal; the tactics and hint databases.
    - [Pm]: the power management framework, all of [src/ove_pm.c] and the
      data of [include/ove/pm.h].  [pm_ctx] is the static context; the
      clock, mutex, HAL and callbacks are the class [PmEnv].
    - [Arena]: the region allocator [backends/common/ove_arena.c], headers in
      the region linked both ways, 32- and 64-bit [size_t] (class
      [Platform]).
    - [Rings]: [backends/common/ove_trace_ring.c] (module [TraceRing]) and
      [ove_profiler_ring.c] (module [ProfilerRing]) as transition systems,
      one step per shared-memory access, any number of producers.
    - [Codec]: [ove_base64.c] and [ove_sha1.c].
    - [Cstr]: the C library functions on strings the network code uses.
    - [Net]: the socket, TLS, DNS, heap and time services
      ([include/ove/net.h]) as a class [NetEnv] over a world, with their
      documented behaviour as [NetLaws], [SendProgress] and [ByteStream];
      every call is recorded in a trace.  [Script] and [Stream] are concrete
      platforms for the witnesses.
    - [MqttTopic], [Mqtt]: [ove_mqtt_topic.c] and [ove_net_mqtt.c], the MQTT
      3.1.1 client over [Net].
    - [Ws]: the WebSocket server [ove_net_httpd_ws.c]; application handlers
      react with API calls that run on the same pool.
    - [Httpd]: the HTTP server [ove_net_httpd.c], which hands upgrades to [Ws]
      and polls its connections.
    - [Http]: the HTTP client [ove_net_http.c], composed with [Httpd] in its
      round-trip theorems.
    - [Sntp]: the SNTP client [ove_net_sntp.c].
    - [Audio]: the audio graph [ove_audio_graph.c] with the types of
      [include/ove/audio.h] and [audio_node.h]; node vtables are records of
      functions on a world, the buffers share one block of bytes.
    - [AudioNodes]: the built-in nodes [ove_audio_nodes.c] over [Audio]:
      converter, channel map, gain and tap on buffers of bytes, with IEEE
      single and double precision from [SpecFloat].
    - [Monitor]: threads over one mutex and its condition variables, with
      spurious wake-ups and timeouts; invariants and lost wake-ups once for
      all clients.
    - [Queue], [PosixStream], [Events], [Work], [Timer]: the kernel objects
      of [backends/posix] as programs of [Monitor]: message queues
      ([posix_queue.c], [src/ove_queue.c]), byte streams ([posix_stream.c]),
      event groups and events ([posix_eventgroup.c], [posix_sync.c]), work
      queues ([posix_workqueue.c]) and timers ([posix_timer.c]).
    - [Media]: removable-media ownership ([src/ove_media.c]), one step per
      atomic operation, and the block handles over it ([src/ove_block.c]).
    - [Bits]: bit-level lemmas on machine integers and little-endian bytes.
    - [Loader], [LoaderReloc]: the relocatable-object loader of
      [loader/ove_loader.c], both ELF classes, with the values its
      relocations store.
    - [Fdpic], [FdpicLoad]: [ove_loader_load_fdpic] of the same file and its
      theorems.
    - [Storage]: the storage provider of the Linux personality,
      [backends/common/lxp_ove_storage_adapter.c]: its handle table and every
      request its worker executes, over the block handles of [Media] and a
      native file system, the class [HostFs].  [StorageInv], [StorageBlocks]
      and [StorageFiles] hold the theorems on handles, on the raw device and
      on files and admission.
    - [Gpio], [GpioInv], [GpioRefine]: pins and interrupt lines,
      [src/ove_gpio.c], one step per atomic operation and slot access; the
      registry of lines, the invariant and the theorems.
    - [Backtrace]: the stack scan of [ove_arm_backtrace.c].

    ** What the theorems show

    - Invariants and safety.  Every API call of [Pm] keeps the
      representation invariant and the mutex protocol.  Any client of
      [Mqtt], [Ws], [Httpd], [Http] and [Audio], against any peer, gets an
      answer without an access outside a buffer, and sockets, sessions and
      blocks are released exactly once on every path.  Both rings are FIFO
      under every interleaving, with exclusive slots and wrapping counters.
      Live arena blocks are disjoint, aligned and inside the region.
    - Registration.  The GPIO interrupt table is a map from lines to
      callbacks under every interleaving that does not overlap registering
      with the other calls, and a run shows that this condition is needed.
      The stack scan stays in bounds and recovers a regular call chain.
    - Refinement.  The arena implements first fit with coalescing on a list
      of extents; the [Pm] notifier, wake and domain tables and the MQTT
      filter table implement bounded lists, bags and counters.
    - Equivalence with reference definitions.  The topic matcher against
      level-wise matching, the SHA-1 driver against the padded fold, the
      route table against longest prefix, the sort of the audio graph
      against acyclicity.
    - Round trips.  Base64, JSON escaping, MQTT remaining length and
      PUBLISH, WebSocket frames, and HTTP requests and responses between the
      client and the server.
    - Order of effects.  The exact calls of an idle tick of [Pm], the start
      and rollback order of the audio graph, and that in one audio period
      every node reads what its upstream wrote in that period.
    - Arithmetic.  Power budget, SNTP offset and audio buffer layout do not
      wrap in the stated ranges; sample conversion and gain saturate.
    - Concurrency.  Under every interleaving, timeouts and spurious wake-ups
      included, queues and streams are bounded FIFOs, an event group is one
      word of bits, every submission to a work queue is accounted for once,
      a cancelled item and a torn-down timer are released for good, and the
      media owner word encodes its holders exactly.
    - Loading.  A loaded object has its sections in order, aligned, disjoint
      and with the contents of the image outside the relocated fields; a
      patched Thumb-2 branch, decoded again, reaches its target; symbol
      lookup is exact.  The load map of an FDPIC program resolves every
      address of every segment to where its bytes are.
    - Storage.  Native files and directories are closed exactly once and
      only handles of the table are open; raw transfers over whole blocks
      read and write an array of bytes; positioned transfers leave the file
      position alone; admitted requests are a period apart.
    - Liveness.  When no thread can run by itself, no thread sleeps on a
      condition that holds: no wake-up is lost, although most of these
      objects wake one waiter only.

    ** Fuel and bounds

    Loops over a table are structural.  The other loops carry fuel, and the
    theorems give an amount that suffices: the arena walks at most one step
    per header, the sort of the audio graph one iteration per node, the
    network loops one per byte or per reading of the peer that the progress
    laws bound; the loops of the FDPIC loader get one iteration per table
    entry, and a table that makes the code loop for ever is [None]; the raw
    transfers of the storage provider get one iteration per byte.  Counters
    have their C width; [unsigned int] is 32 bits.

    ** Modelling choices

    A pointer argument that the code checks against NULL is an option where
    the check has an effect on the result; an object handle itself is the
    state and is not NULL. Atomics are sequentially consistent; an interrupt
    handler runs between two steps of the threads. Callbacks into the
    application are events, and where the code is re-entrant ([Ws], [Httpd])
    also the list of calls they make. Configuration macros are class
    parameters with the constraints the code needs.

    In [Monitor] a thread's code between taking the mutex and releasing it
    (or waiting) is one step, a [segment]; the scheduler, the choice of the
    waiter a signal wakes, spurious wake-ups and expiries are the list of
    actions, over which the theorems quantify.  The worker of a work queue
    and the dispatcher of a timer are thread 0.  A time limit is only
    whether a wait may expire.  Floating point rounds to nearest even after
    every operation; a conversion out of the range of the target type is
    undefined ([None]).

    In the loaders an address is a [Z]; the image and the region are byte
    arrays at two addresses and an access outside both is [None].  Their
    theorems assume that the two do not overlap and that the addresses fit
    the pointer width.

    In [Storage] requests run one after the other, as the submit lock and
    the single worker of the code make them; a handle is the index of its
    slot, an offset of [fseek] and the length of a transfer have their C
    width, and a sequence of requests is a list over which the theorems
    quantify.

    ** Not modelled

    The kernel backends ([freertos], [zephyr], [nuttx], [wasm], and the
    threads, sockets, files and consoles of [posix]), boards and drivers:
    platform code behind the interfaces above.  [ove_net_tls.c],
    [ove_infer.cc] and the other [lxp_ove_*] adapters: glue over libraries
    whose sources are not in the repository; the same holds for the part of
    the storage adapter that speaks the [lxp] interface (the asynchronous
    gate, metrics and error table).  [ove_net_httpd_routes.c] and the UI
    assets: report formatting and generated data.  The remaining handle
    wrappers of [src/ove_*.c], the bus front ends (a handle check, a lock and
    one call of the HAL per operation), the heap lock, the display drivers,
    the simulator, the bindings, applications and tests. *)

From stdpp Require Export base list numbers option gmap.
From Stdlib Require Export ZArith Lia.
From Stdlib Require String Ascii.
Export String.StringSyntax.

Global Open Scope Z_scope.

(** ** Error codes (include/ove/types.h, [enum ove_err]) *)

Definition OVE_OK : Z := 0.
Definition OVE_ERR_NOT_REGISTERED : Z := -1.
Definition OVE_ERR_INVALID_PARAM : Z := -2.
Definition OVE_ERR_NO_MEMORY : Z := -3.
Definition OVE_ERR_TIMEOUT : Z := -4.
Definition OVE_ERR_NOT_SUPPORTED : Z := -5.
Definition OVE_ERR_QUEUE_FULL : Z := -6.
Definition OVE_ERR_NET_CLOSED : Z := -13.
Definition OVE_ERR_BUS_BUSY : Z := -15.
Definition OVE_ERR_QUEUE_EMPTY : Z := -17.
Definition OVE_ERR_INVAL : Z := -20.
Definition OVE_ERR_NOT_FOUND : Z := -21.
Definition OVE_ERR_READ_ONLY : Z := -28.
Definition OVE_ERR_BUSY : Z := -30.
Definition OVE_ERR_PERMISSION : Z := -33.

(** ** Unsigned and signed machine integers

    A [w]-bit unsigned integer is a [Z]; every C operation that may leave
    the range is followed by an explicit [wrap]. *)

Definition wrap (w z : Z) : Z := z mod 2 ^ w.
Abbreviation u8 := (wrap 8).
Abbreviation u16 := (wrap 16).
Abbreviation u32 := (wrap 32).
Abbreviation u64 := (wrap 64).

(** Two's-complement reading of a [w]-bit pattern. *)
Definition swrap (w z : Z) : Z := (z + 2 ^ (w - 1)) mod 2 ^ w - 2 ^ (w - 1).

Definition is_word (w z : Z) : Prop := 0 <= z < 2 ^ w.
Abbreviation is_byte := (is_word 8).

Lemma wrap_range w z : 0 <= w -> is_word w (wrap w z).
Proof. intros. apply Z.mod_pos_bound. by apply Z.pow_pos_nonneg. Qed.

Lemma wrap_small w z : is_word w z -> wrap w z = z.
Proof. intros. by apply Z.mod_small. Qed.

Lemma wrap_wrap w z : wrap w (wrap w z) = wrap w z.
Proof. unfold wrap. apply Zmod_mod. Qed.

Lemma wrap_add_l w a b : wrap w (wrap w a + b) = wrap w (a + b).
Proof. unfold wrap. apply Zplus_mod_idemp_l. Qed.

Lemma wrap_add_r w a b : wrap w (a + wrap w b) = wrap w (a + b).
Proof. unfold wrap. apply Zplus_mod_idemp_r. Qed.

Lemma wrap_sub_l w a b : wrap w (wrap w a - b) = wrap w (a - b).
Proof. unfold wrap. apply Zminus_mod_idemp_l. Qed.

Lemma wrap_sub_r w a b : wrap w (a - wrap w b) = wrap w (a - b).
Proof. unfold wrap. apply Zminus_mod_idemp_r. Qed.

(** A decidable fact about all bytes, by evaluation. *)
Lemma byte_cases (P : Z -> Prop) :
  Forall P (Z.of_nat <$> seq 0 256) -> forall b, is_byte b -> P b.
Proof.
  intros Hf b Hb. rewrite Forall_forall in Hf. apply Hf. apply list_elem_of_fmap.
  exists (Z.to_nat b). unfold is_word in Hb. change (2 ^ 8) with 256 in Hb.
  split; [lia|]. apply elem_of_seq. lia.
Qed.

(** Concatenating bit fields is addition. *)
Lemma lor_shiftl_add x y n : 0 <= n -> 0 <= y < 2 ^ n -> Z.lor (Z.shiftl x n) y = x * 2 ^ n + y.
Proof.
  intros Hn Hy. rewrite <-Z.shiftl_mul_pow2 by done. symmetry. apply Z.add_nocarry_lor.
  apply Z.bits_inj'. intros i Hi. rewrite Z.land_spec, Z.bits_0, Z.shiftl_spec by done.
  destruct (decide (i < n)).
  - by rewrite Z.testbit_neg_r by lia.
  - rewrite <-(Z.mod_small y (2 ^ n)), Z.mod_pow2_bits_high by lia. by rewrite andb_false_r.
Qed.

Lemma land_ones_mod x n m : 0 <= n -> m = 2 ^ n - 1 -> Z.land x m = x mod 2 ^ n.
Proof. intros Hn ->. rewrite Z.sub_1_r, <-Z.ones_equiv. by apply Z.land_ones. Qed.

(** ** A state monad

    C functions that mutate state or call into the platform are state
    transformers; [x ← c; k] is sequential composition. *)

Definition M (S A : Type) : Type := S -> A * S.

Global Instance M_ret S : MRet (M S) := fun A a s => (a, s).
Global Instance M_bind S : MBind (M S) :=
  fun A B k m s => let '(a, s') := m s in k a s'.

Definition get {S} : M S S := fun s => (s, s).
Definition gets {S A} (f : S -> A) : M S A := fun s => (f s, s).
Definition modify {S} (f : S -> S) : M S unit := fun s => (tt, f s).

(** Iteration in index order over a list, for side effects. *)
Fixpoint for_each {S A} (f : A -> M S unit) (l : list A) : M S unit :=
  match l with
  | [] => mret tt
  | x :: l => f x ;; for_each f l
  end.

(** [triple P m Q]: from a state satisfying [P], [m] returns [a] in a
    state satisfying [Q a]. *)
Definition triple {S A} (P : S -> Prop) (m : M S A) (Q : A -> S -> Prop) : Prop :=
  forall s, P s -> Q (m s).1 (m s).2.

Section triple.
Context {S : Type}.
Implicit Types P : S -> Prop.

Lemma triple_ret {A} P (a : A) : triple P (mret a) (fun _ => P).
Proof. by intros s. Qed.

Lemma triple_gets {A} P (f : S -> A) : triple P (gets f) (fun _ => P).
Proof. by intros s. Qed.

Lemma triple_bind {A B} P (m : M S A) Q (k : A -> M S B) R :
  triple P m Q -> (forall a, triple (Q a) (k a) R) -> triple P (m ≫= k) R.
Proof.
  intros Hm Hk s Hs. unfold mbind, M_bind. specialize (Hm s Hs).
  destruct (m s) as [a s']. by apply Hk.
Qed.

Lemma triple_if {A} P (b : bool) (m1 m2 : M S A) Q :
  triple P m1 Q -> triple P m2 Q -> triple P (if b then m1 else m2) Q.
Proof. by destruct b. Qed.

Lemma triple_for_each {A} P (f : A -> M S unit) l :
  (forall x, triple P (f x) (fun _ => P)) -> triple P (for_each f l) (fun _ => P).
Proof.
  intros Hf. induction l as [|x l IH]; [apply triple_ret|].
  simpl. by eapply triple_bind.
Qed.
End triple.

(** ** A state monad with failure

    Code that reads through pointers or loops on its environment returns
    [None] when an access leaves its buffer or a loop outruns its fuel; a
    [wp] statement says that neither happens. *)

Definition MO (S A : Type) : Type := S -> option (A * S).

Global Instance MO_ret S : MRet (MO S) := fun A a s => Some (a, s).
Global Instance MO_bind S : MBind (MO S) :=
  fun A B k m s => match m s with Some (a, s') => k a s' | None => None end.

Definition ogets {S A} (f : S -> A) : MO S A := fun s => Some (f s, s).
Definition omodify {S} (f : S -> S) : MO S unit := fun s => Some (tt, f s).
Definition ofail {S A} : MO S A := fun _ => None.
Definition olift {S A} (o : option A) : MO S A := fun s => a ← o; Some (a, s).

(** Total correctness: [m] returns from [s], with a result in [Q]. *)
Definition wp {S A} (m : MO S A) (Q : A -> S -> Prop) (s : S) : Prop :=
  match m s with Some (a, s') => Q a s' | None => False end.

Section wp.
Context {S : Type}.

Lemma wp_ret {A} (a : A) Q (s : S) : Q a s -> wp (mret a) Q s.
Proof. done. Qed.

Lemma wp_bind {A B} (m : MO S A) (k : A -> MO S B) Q s :
  wp m (fun a => wp (k a) Q) s -> wp (m ≫= k) Q s.
Proof. unfold wp, mbind, MO_bind. by destruct (m s) as [[a s']|]. Qed.

Lemma wp_mono {A} (m : MO S A) (Q R : A -> S -> Prop) s :
  wp m Q s -> (forall a s', Q a s' -> R a s') -> wp m R s.
Proof. unfold wp. destruct (m s) as [[a s']|]; auto. Qed.

Lemma wp_gets {A} (f : S -> A) (Q : A -> S -> Prop) s : Q (f s) s -> wp (ogets f) Q s.
Proof. done. Qed.

Lemma wp_modify (f : S -> S) (Q : unit -> S -> Prop) s : Q tt (f s) -> wp (omodify f) Q s.
Proof. done. Qed.

Lemma wp_lift {A} (o : option A) a (Q : A -> S -> Prop) s : o = Some a -> Q a s -> wp (olift o) Q s.
Proof. by intros ->. Qed.

Lemma wp_Some {A} (m : MO S A) a s s' Q : m s = Some (a, s') -> wp m Q s -> Q a s'.
Proof. unfold wp. by intros ->. Qed.
End wp.

(** ** Automation *)

Create HintDb ove.
Create Rewrite HintDb wrap.
Create Rewrite HintDb ove.
#[export] Hint Resolve triple_ret triple_gets triple_if triple_for_each : ove.
#[export] Hint Rewrite wrap_wrap wrap_add_l wrap_add_r wrap_sub_l wrap_sub_r : wrap.

(** Case analysis on every [match]/[if] scrutinee in the goal or context. *)
Ltac cases :=
  repeat (case_match; simplify_eq/=; try done).

(** [lia] with division and remainder eliminated first. *)
Ltac dlia := Z.to_euclidean_division_equations; lia.

(** ** Arrays

    A C array of fixed size is a list; [aget d l i] reads [l[i]] and
    [aset l i x] writes it (both are used in range only, which the
    components' invariants establish). *)

Definition aget {A} (d : A) (l : list A) (i : nat) : A := default d (l !! i).
Definition aset {A} (l : list A) (i : nat) (x : A) : list A := <[i := x]> l.

Lemma aget_aset_eq {A} (d : A) l i x :
  (i < length l)%nat -> aget d (aset l i x) i = x.
Proof. intros. unfold aget, aset. by rewrite list_lookup_insert_eq. Qed.

Lemma aget_aset_ne {A} (d : A) l i j x :
  i <> j -> aget d (aset l i x) j = aget d l j.
Proof. intros. unfold aget, aset. by rewrite list_lookup_insert_ne. Qed.

Lemma length_aset {A} (l : list A) i x : length (aset l i x) = length l.
Proof. apply length_insert. Qed.

Lemma Forall_aset {A} (P : A -> Prop) l i x :
  Forall P l -> P x -> Forall P (aset l i x).
Proof. apply Forall_insert. Qed.

Lemma Forall_aget {A} (P : A -> Prop) d l i :
  Forall P l -> P d -> P (aget d l i).
Proof.
  intros Hl Hd. unfold aget. destruct (l !! i) eqn:E; simpl; [|done].
  by eapply Forall_lookup_1.
Qed.

(** [l[i] = x], failing outside the array. *)
Definition ostore {A} (l : list A) (i : nat) (x : A) : option (list A) :=
  if decide (i < length l)%nat then Some (aset l i x) else None.

Lemma ostore_Some {A} (l : list A) i x : (i < length l)%nat -> ostore l i x = Some (aset l i x).
Proof. intros. unfold ostore. by rewrite decide_True. Qed.

#[export] Hint Rewrite @length_aset : ove.
#[export] Hint Resolve Forall_aset : ove.

(** Overwriting a range of bytes, as [memcpy] does. *)
Definition overwrite {A} (st : list A) (off : nat) (bs : list A) : list A :=
  take off st ++ bs ++ drop (off + length bs) st.

Section overwrite.
Context {A : Type}.
Implicit Types st bs : list A.

Lemma overwrite_length st off bs : (off + length bs <= length st)%nat -> length (overwrite st off bs) = length st.
Proof. intros. unfold overwrite. rewrite !length_app, length_take, length_drop. lia. Qed.

Lemma overwrite_same st off bs : (off + length bs <= length st)%nat ->
  take (length bs) (drop off (overwrite st off bs)) = bs.
Proof.
  intros H. unfold overwrite. rewrite drop_app_ge by (rewrite length_take; lia).
  rewrite length_take, Nat.min_l, Nat.sub_diag by lia. cbn [drop]. apply take_app_length.
Qed.

Lemma overwrite_before st off bs n k : (k + n <= off)%nat -> (off + length bs <= length st)%nat ->
  take n (drop k (overwrite st off bs)) = take n (drop k st).
Proof.
  intros Hk H. unfold overwrite. rewrite drop_app_le by (rewrite length_take; lia).
  rewrite take_app_le by (rewrite length_drop, length_take; lia).
  rewrite skipn_firstn_comm, take_take, Nat.min_l by lia. done.
Qed.

Lemma overwrite_after st off bs n k : (off + length bs <= k)%nat -> (off + length bs <= length st)%nat ->
  take n (drop k (overwrite st off bs)) = take n (drop k st).
Proof.
  intros Hk H. unfold overwrite. rewrite app_assoc. rewrite drop_app_ge by (rewrite length_app, length_take; lia).
  rewrite length_app, length_take, drop_drop. repeat f_equal. lia.
Qed.

End overwrite.

(** Sum of a list of integers. *)
Definition sumZ (l : list Z) : Z := foldr Z.add 0 l.

Lemma sumZ_app l k : sumZ (l ++ k) = sumZ l + sumZ k.
Proof. induction l; simpl; lia. Qed.

Lemma sumZ_aset l i x :
  (i < length l)%nat -> sumZ (aset l i x) = sumZ l - aget 0 l i + x.
Proof.
  unfold aset, aget. revert i.
  induction l as [|y l IH]; intros [|i] Hi; simpl in *; try lia.
  rewrite IH by lia. lia.
Qed.

(** ** Byte strings

    A NUL-terminated C string is the list of its bytes before the
    terminator; [str] turns a literal into bytes. *)

Fixpoint str (s : String.string) : list Z :=
  match s with
  | String.EmptyString => []
  | String.String c s => Z.of_nat (Ascii.nat_of_ascii c) :: str s
  end.

Arguments str s%_string_scope.

Definition bytes_eqb (a b : list Z) : bool := bool_decide (a = b).

(** ** Searching a table

    [find_idx p l] is the index of the first element satisfying [p], the
    result of a C loop that returns at the first hit. *)

Fixpoint find_idx {A} (p : A -> bool) (l : list A) : option nat :=
  match l with
  | [] => None
  | x :: l => if p x then Some 0%nat else S <$> find_idx p l
  end.

Lemma find_idx_Some {A} (p : A -> bool) l i :
  find_idx p l = Some i <->
  (exists x, l !! i = Some x /\ p x = true) /\
  (forall j y, (j < i)%nat -> l !! j = Some y -> p y = false).
Proof.
  revert i. induction l as [|x l IH]; intros i; simpl.
  { split; [done|]. by intros [(y & ? & ?) _]. }
  destruct (p x) eqn:Hp.
  - split.
    + intros [= <-]. split; [by exists x|]. intros j y Hj; lia.
    + intros [(y & Hy & Hpy) Hj]. destruct i as [|i]; [done|].
      assert (p x = false) by (by apply (Hj 0%nat); [lia|]). congruence.
  - rewrite fmap_Some. split.
    + intros (k & Hk & ->). apply IH in Hk as [(y & Hy & Hpy) Hk].
      split; [by exists y|]. intros [|j] z Hj Hz; simplify_eq/=; [done|].
      apply (Hk j); [lia|done].
    + intros [(y & Hy & Hpy) Hj]. destruct i as [|i]; simplify_eq/=; [congruence|].
      exists i. split; [|done]. apply IH. split; [by exists y|].
      intros j z ? ?. apply (Hj (S j)); [lia|done].
Qed.

Lemma find_idx_None {A} (p : A -> bool) l :
  find_idx p l = None <-> Forall (fun x => p x = false) l.
Proof.
  induction l as [|x l IH]; simpl; [done|].
  rewrite Forall_cons. destruct (p x) eqn:Hp.
  - split; [done|]. by intros [? _].
  - rewrite fmap_None, IH. split; [done|]. by intros [_ ?].
Qed.

Lemma find_idx_lt {A} (p : A -> bool) l i :
  find_idx p l = Some i -> (i < length l)%nat.
Proof. intros [(x & Hx & _) _]%find_idx_Some. by eapply lookup_lt_Some. Qed.

(** ** Removing a table entry by shifting the tail down

    [for (j = i; j + 1 < count; j++) l[j] = l[j + 1];] *)

Definition shift_down {A} (d : A) (l : list A) (i count : nat) : list A :=
  foldl (fun l j => aset l j (aget d l (S j))) l (seq i (count - 1 - i)).

Lemma shift_loop_length {A} (d : A) js l :
  length (foldl (fun l j => aset l j (aget d l (S j))) l js) = length l.
Proof. revert l. induction js; intros; simpl; [done|]. by rewrite IHjs, length_aset. Qed.

Lemma shift_down_length {A} (d : A) l i n : length (shift_down d l i n) = length l.
Proof. apply shift_loop_length. Qed.

Lemma shift_loop_lookup {A} (d : A) k i l j :
  (i + k < length l)%nat ->
  foldl (fun l j => aset l j (aget d l (S j))) l (seq i k) !! j
  = if decide (i <= j < i + k)%nat then l !! S j else l !! j.
Proof.
  revert i l. induction k as [|k IH]; intros i l Hl; simpl.
  { case_decide; [lia|done]. }
  destruct (l !! S i) as [x|] eqn:Hx; [|apply lookup_ge_None in Hx; lia].
  rewrite IH by (rewrite length_aset; lia). unfold aget, aset. rewrite Hx. simpl.
  destruct (decide (j = i)) as [->|Hne].
  - rewrite decide_False by lia. rewrite decide_True by lia.
    rewrite list_lookup_insert_eq by lia. done.
  - case_decide.
    + rewrite list_lookup_insert_ne by lia. by rewrite decide_True by lia.
    + rewrite list_lookup_insert_ne by lia. by rewrite decide_False by lia.
Qed.

(** The live prefix loses exactly its [i]-th entry, in order. *)
Lemma shift_down_take {A} (d : A) l i n :
  (i < n)%nat -> (n <= length l)%nat ->
  take (n - 1) (shift_down d l i n) = delete i (take n l).
Proof.
  intros Hi Hn. apply list_eq. intros j. unfold shift_down.
  destruct (decide (j < n - 1)%nat).
  - rewrite lookup_take_lt by lia. rewrite shift_loop_lookup by lia.
    destruct (decide (j < i)%nat).
    + rewrite list_lookup_delete_lt, lookup_take_lt by lia.
      by rewrite decide_False by lia.
    + rewrite list_lookup_delete_ge, lookup_take_lt by lia.
      by rewrite decide_True by lia.
  - rewrite lookup_take_ge by lia. symmetry. apply lookup_ge_None.
    rewrite length_delete; [rewrite length_take; lia|].
    apply lookup_lt_is_Some. rewrite length_take. lia.
Qed.

Lemma shift_down_drop {A} (d : A) l i n :
  (i < n)%nat -> (n <= length l)%nat ->
  drop n (shift_down d l i n) = drop n l.
Proof.
  intros Hi Hn. apply list_eq. intros j. rewrite !lookup_drop. unfold shift_down.
  rewrite shift_loop_lookup by lia. by rewrite decide_False by lia.
Qed.
