(* ===== verification/Bits.v ===== *)
(** * Bits and bytes

    Bit-level lemmas on the machine integers, and little-endian byte
    strings. *)

From S2P Require Import Prelude.

(** ** Little-endian bytes *)

Fixpoint le_enc (n : nat) (v : Z) : list Z :=
  match n with O => [] | S n => v mod 256 :: le_enc n (v / 256) end.
Fixpoint le_dec (bs : list Z) : Z := match bs with [] => 0 | b :: bs => b + 256 * le_dec bs end.

Lemma le_enc_length n v : length (le_enc n v) = n.
Proof. revert v. induction n as [|n IH]; intros v; cbn; [done|by rewrite IH]. Qed.

Lemma le_enc_dec n : forall v, 0 <= v < 256 ^ Z.of_nat n -> le_dec (le_enc n v) = v.
Proof.
  induction n as [|n IH]; intros v Hv; cbn [le_enc le_dec]; [cbn in Hv; lia|].
  rewrite Nat2Z.inj_succ, Z.pow_succ_r in Hv by lia. rewrite IH; [|split; [apply Z.div_pos; lia|apply Z.div_lt_upper_bound; lia]].
  pose proof (Z.div_mod v 256 ltac:(lia)). lia.
Qed.

Lemma le_dec_range bs : Forall (is_word 8) bs -> 0 <= le_dec bs < 256 ^ Z.of_nat (length bs).
Proof.
  induction 1 as [|b bs Hb _ IH]; cbn [le_dec length]; [done|]. unfold is_word in Hb. change (2 ^ 8) with 256 in Hb.
  rewrite Nat2Z.inj_succ, Z.pow_succ_r by lia. nia.
Qed.

(** ** Bits *)

Lemma wrap_testbit w z i : 0 <= w -> Z.testbit (wrap w z) i = (i <? w) && Z.testbit z i.
Proof.
  intros Hw. unfold wrap. destruct (Z.ltb_spec i w) as [Hi|Hi]; cbn.
  - destruct (Z.le_gt_cases 0 i); [by apply Z.mod_pow2_bits_low|]. by rewrite !Z.testbit_neg_r.
  - by apply Z.mod_pow2_bits_high; lia.
Qed.

Lemma land_ones_testbit n x i : 0 <= n -> Z.testbit (Z.land x (Z.ones n)) i = (i <? n) && Z.testbit x i.
Proof. intros Hn. rewrite Z.land_ones by done. by apply wrap_testbit. Qed.

Lemma bit_of x k : 0 <= k -> Z.land (Z.shiftr x k) 1 = Z.b2z (Z.testbit x k).
Proof.
  intros Hk. change 1 with (Z.ones 1). rewrite Z.land_ones by lia. rewrite <- Z.bit0_mod, Z.shiftr_spec by lia. done.
Qed.

Lemma b2z_shiftl_testbit b k i : 0 <= i -> Z.testbit (Z.shiftl (Z.b2z b) k) i = (i =? k) && b.
Proof.
  intros Hi. rewrite Z.shiftl_spec by done. destruct (Z.eqb_spec i k) as [->|Hne]; cbn.
  - rewrite Z.sub_diag. apply Z.b2z_bit0.
  - destruct (Z.le_gt_cases k i); [|by rewrite Z.testbit_neg_r by lia].
    destruct b; cbn [Z.b2z]; [|apply Z.testbit_0_l]. apply (Z.pow2_bits_false 0). lia.
Qed.

Lemma lxor_b2z a b : Z.lxor (Z.b2z a) (Z.b2z b) = Z.b2z (xorb a b).
Proof. by destruct a, b. Qed.
Lemma land_b2z_1 a : Z.land (Z.b2z a) 1 = Z.b2z a.
Proof. by destruct a. Qed.
Lemma lnot_b2z_1 a : Z.land (Z.lnot (Z.b2z a)) 1 = Z.b2z (negb a).
Proof. by destruct a. Qed.

Lemma sign_testbit n x i : 0 <= n <= i -> - 2 ^ n <= x < 2 ^ n -> Z.testbit x i = (x <? 0).
Proof.
  intros Hi Hx. destruct (Z.ltb_spec x 0) as [Hn|Hn].
  - destruct (decide (x = -1)) as [->|]; [apply Z.bits_m1; lia|]. apply Z.bits_above_log2_neg; [done|].
    apply Z.log2_lt_pow2; [lia|]. assert (2 ^ n <= 2 ^ i) by (apply Z.pow_le_mono_r; lia). lia.
  - destruct (decide (x = 0)) as [->|]; [apply Z.testbit_0_l|]. apply Z.bits_above_log2; [done|].
    apply Z.log2_lt_pow2; [lia|]. assert (2 ^ n <= 2 ^ i) by (apply Z.pow_le_mono_r; lia). lia.
Qed.

Lemma swrap_range w z : 0 < w -> - 2 ^ (w - 1) <= swrap w z < 2 ^ (w - 1).
Proof.
  intros Hw. unfold swrap. assert (2 ^ w = 2 * 2 ^ (w - 1)) as -> by (rewrite <- Z.pow_succ_r by lia; f_equal; lia).
  assert (0 < 2 ^ (w - 1)) by (apply Z.pow_pos_nonneg; lia).
  pose proof (Z.mod_pos_bound (z + 2 ^ (w - 1)) (2 * 2 ^ (w - 1)) ltac:(lia)). lia.
Qed.

Lemma swrap_wrap w z : 0 < w -> wrap w (swrap w z) = wrap w z.
Proof.
  intros Hw. unfold wrap, swrap. rewrite Zminus_mod_idemp_l. f_equal. lia.
Qed.

Lemma swrap_testbit w z i : 0 < w -> 0 <= i -> Z.testbit (swrap w z) i = Z.testbit z (Z.min i (w - 1)).
Proof.
  intros Hw Hi.
  assert (forall j, 0 <= j < w -> Z.testbit (swrap w z) j = Z.testbit z j) as Hlow.
  { intros j Hj. pose proof (wrap_testbit w (swrap w z) j ltac:(lia)) as H1.
    pose proof (wrap_testbit w z j ltac:(lia)) as H2. rewrite swrap_wrap in H1 by done.
    rewrite H1 in H2. by rewrite (proj2 (Z.ltb_lt j w)) in H2 by lia. }
  destruct (Z.lt_ge_cases i w); [rewrite Z.min_l by lia; apply Hlow; lia|].
  rewrite Z.min_r, <- Hlow by lia. pose proof (swrap_range w z Hw).
  rewrite !(sign_testbit (w - 1)) by lia. done.
Qed.

(** Decide the integer comparisons of a boolean goal. *)
Ltac zcmp :=
  repeat match goal with
  | |- context [?a <? ?b] => destruct (Z.ltb_spec a b); try lia
  | |- context [?a <=? ?b] => destruct (Z.leb_spec a b); try lia
  | |- context [?a =? ?b] => destruct (Z.eqb_spec a b); try lia
  end; cbn [andb orb negb].

Lemma wrap_narrow w w' z : 0 <= w <= w' -> wrap w (wrap w' z) = wrap w z.
Proof. intros H. apply Z.bits_inj'. intros i Hi. rewrite !wrap_testbit by lia. zcmp; done. Qed.

Lemma swrap_unique w x y : 0 < w -> wrap w x = wrap w y -> swrap w x = swrap w y.
Proof.
  intros Hw H. apply Z.bits_inj'. intros i Hi. rewrite !swrap_testbit by lia.
  pose proof (wrap_testbit w x (Z.min i (w - 1)) ltac:(lia)) as H1. pose proof (wrap_testbit w y (Z.min i (w - 1)) ltac:(lia)) as H2.
  rewrite H, H2 in H1. by rewrite (proj2 (Z.ltb_lt _ w)) in H1 by lia.
Qed.

Lemma swrap_small w x : 0 < w -> - 2 ^ (w - 1) <= x < 2 ^ (w - 1) -> swrap w x = x.
Proof.
  intros Hw Hx. unfold swrap. assert (2 ^ w = 2 * 2 ^ (w - 1)) as H2 by (rewrite <- Z.pow_succ_r by lia; f_equal; lia).
  rewrite Z.mod_small by lia. lia.
Qed.

Lemma swrap_odd w x : 0 < w -> Z.testbit (swrap w x) 0 = Z.testbit x 0.
Proof. intros Hw. rewrite swrap_testbit by lia. f_equal. lia. Qed.

Lemma ldiff_ones x k : 0 <= k -> Z.ldiff x (Z.ones k) = x / 2 ^ k * 2 ^ k.
Proof. intros Hk. rewrite Z.ldiff_ones_r by done. by rewrite Z.shiftr_div_pow2, Z.shiftl_mul_pow2 by done. Qed.

(** ** Slices of an array of bytes *)

Definition sl (r : list Z) (o n : Z) : list Z := take (Z.to_nat n) (drop (Z.to_nat o) r).
Definition word (r : list Z) (o : Z) : Z := le_dec (sl r o 4).
Definition zeros (n : Z) : list Z := replicate (Z.to_nat n) 0.

Lemma sl_nil r o n : n <= 0 -> sl r o n = [].
Proof. intros H. unfold sl. by replace (Z.to_nat n) with 0%nat by lia. Qed.

Lemma sl_length r o n : 0 <= o -> 0 <= n -> o + n <= Z.of_nat (length r) -> length (sl r o n) = Z.to_nat n.
Proof. intros. unfold sl. rewrite length_take, length_drop. lia. Qed.

Lemma sl_sub r o n a m : 0 <= o -> 0 <= a -> 0 <= m -> a + m <= n -> sl r (o + a) m = sl (sl r o n) a m.
Proof.
  intros. unfold sl. rewrite skipn_firstn_comm, drop_drop, take_take. f_equal; [lia|f_equal; lia].
Qed.

Lemma sl_zeros r o n a m : 0 <= o -> 0 <= a -> 0 <= m -> a + m <= n -> sl r o n = zeros n -> sl r (o + a) m = zeros m.
Proof.
  intros ? ? ? ? H. rewrite (sl_sub _ _ n) by done. rewrite H. unfold sl, zeros.
  rewrite drop_replicate, take_replicate. f_equal. lia.
Qed.

Lemma sl_overwrite_same r o d n : 0 <= o -> n = Z.of_nat (length d) -> o + n <= Z.of_nat (length r) ->
  sl (overwrite r (Z.to_nat o) d) o n = d.
Proof. intros ? -> ?. unfold sl. rewrite Nat2Z.id. apply overwrite_same. lia. Qed.

Lemma sl_overwrite_other r o d o' n : 0 <= o -> 0 <= o' -> o + Z.of_nat (length d) <= Z.of_nat (length r) ->
  n <= 0 \/ o' + n <= o \/ o + Z.of_nat (length d) <= o' -> sl (overwrite r (Z.to_nat o) d) o' n = sl r o' n.
Proof.
  intros ? ? ? [Hn|H]; [by rewrite !sl_nil|]. destruct (decide (n <= 0)); [by rewrite !sl_nil|].
  unfold sl. destruct H as [H|H]; [apply overwrite_before|apply overwrite_after]; lia.
Qed.

(** [r'] differs from [r] only in [n] bytes at [o]. *)
Definition changed (o n : Z) (r r' : list Z) : Prop :=
  length r' = length r /\ forall o' m, 0 <= o' -> m <= 0 \/ o' + m <= o \/ o + n <= o' -> sl r' o' m = sl r o' m.

Lemma changed_overwrite r o d n : 0 <= o -> n = Z.of_nat (length d) -> o + n <= Z.of_nat (length r) ->
  changed o n r (overwrite r (Z.to_nat o) d).
Proof. intros ? -> ?. split; [apply overwrite_length; lia|]. intros. by apply sl_overwrite_other. Qed.

Lemma changed_refl o n r : changed o n r r.
Proof. by split. Qed.

Lemma changed_trans o n r r' r'' : changed o n r r' -> changed o n r' r'' -> changed o n r r''.
Proof. intros [L1 H1] [L2 H2]. split; [congruence|]. intros. by rewrite H2, H1. Qed.

Lemma changed_widen o n o' n' r r' : o' <= o -> o + n <= o' + n' -> changed o n r r' -> changed o' n' r r'.
Proof. intros ? ? [L H]. split; [done|]. intros. apply H; [done|lia]. Qed.

Lemma sl_app r o n m : 0 <= o -> 0 <= n -> 0 <= m -> sl r o (n + m) = sl r o n ++ sl r (o + n) m.
Proof.
  intros. unfold sl. rewrite Z2Nat.inj_add by done. rewrite <- (take_take_drop _ (Z.to_nat n) (Z.to_nat m)). f_equal. rewrite drop_drop. do 2 f_equal. lia.
Qed.

(** Patching part of a block and writing the block back patches the array. *)
Lemma overwrite_nested (d : list Z) a n w p : (w + length p <= n)%nat -> (a + n <= length d)%nat ->
  overwrite d a (overwrite (take n (drop a d)) w p) = overwrite d (a + w) p.
Proof.
  intros Hw Ha. unfold overwrite at 1. rewrite overwrite_length by (rewrite length_take, length_drop; lia).
  rewrite length_take, length_drop, Nat.min_l by lia. unfold overwrite. rewrite <- !app_assoc, take_take, Nat.min_l by lia.
  rewrite (app_assoc (take a d)). f_equal; [apply take_take_drop|]. f_equal.
  rewrite skipn_firstn_comm, drop_drop. replace (a + n)%nat with (a + (w + length p) + (n - (w + length p)))%nat by lia.
  rewrite <- (drop_drop d (n - (w + length p))). rewrite take_drop. f_equal. lia.
Qed.
