(* ===== verification/Pm.v ===== *)
(** * Power management (src/ove_pm.c)

    The framework keeps one static [pm_ctx]: the current power state, the
    activity flag, thresholds, wake sources, reference-counted peripheral
    domains, the policy, transition notifiers and statistics.  The clock,
    the mutex, the HAL and the application callbacks are an environment
    [W] reached through the class [PmEnv]; every call into it is also
    appended to a history [log], so that the order of locks, notifications,
    wake arming and HAL sleep entry can be stated and proved. *)

From S2P Require Import Prelude.

(** ** Data (include/ove/pm.h) *)

Definition OVE_PM_STATE_ACTIVE : nat := 0.
Definition OVE_PM_STATE_IDLE : nat := 1.
Definition OVE_PM_STATE_STANDBY : nat := 2.
Definition OVE_PM_STATE_DEEP_SLEEP : nat := 3.
Definition OVE_PM_STATE_COUNT : nat := 4.
Definition OVE_PM_DOMAIN_COUNT : nat := 8.
Definition CONFIG_OVE_PM_MAX_WAKE_SOURCES : nat := 8.
Definition CONFIG_OVE_PM_MAX_NOTIFIERS : nat := 4.

Inductive ove_pm_event := OVE_PM_EVENT_PRE_SLEEP | OVE_PM_EVENT_POST_WAKE.

Record ove_pm_cfg := {
  idle_threshold_ms : Z;
  standby_threshold_ms : Z;
  deep_sleep_threshold_ms : Z }.

(** The tagged union [struct ove_pm_wake_src]. *)
Inductive ove_pm_wake_src :=
  | OVE_PM_WAKE_GPIO (port pin edge : Z)
  | OVE_PM_WAKE_TIMER (timeout_ms : Z)
  | OVE_PM_WAKE_UART (instance : Z)
  | OVE_PM_WAKE_RTC (alarm_ms : Z).

Global Instance wake_src_eq_dec : EqDecision ove_pm_wake_src.
Proof. solve_decision. Defined.

Record ove_pm_stats := {
  st_time_in_state_us : list Z;
  st_transition_count : list Z;
  st_total_runtime_us : Z;
  st_active_pct_x100 : Z }.

(** ** Internal state *)

Record pm_wake_entry := { src : ove_pm_wake_src; registered : bool }.

(** Function pointers and user data are addresses; [0] is [NULL]. *)
Record pm_notifier_entry := { fn : Z; user_data : Z }.

Global Instance notifier_eq_dec : EqDecision pm_notifier_entry.
Proof. solve_decision. Defined.

Inductive pm_policy := POLICY_NULL | POLICY_DEFAULT | POLICY_USER (f : Z).

Record pm_ctx := {
  current_state : nat;
  activity_flag : bool;
  last_activity_us : Z;
  state_entry_us : Z;
  cfg : ove_pm_cfg;
  wake_table : list pm_wake_entry;
  domain_refcount : list Z;
  policy_fn : pm_policy;
  policy_user_data : Z;
  notifiers : list pm_notifier_entry;
  notifier_count : nat;
  time_in_state_us : list Z;
  transition_count : list Z;
  budget_target_x100 : Z;
  initialized : bool }.

Definition null_wake : pm_wake_entry :=
  {| src := OVE_PM_WAKE_GPIO 0 0 0; registered := false |}.
Definition null_notifier : pm_notifier_entry := {| fn := 0; user_data := 0 |}.

(** Static storage, and the result of [memset(&pm_ctx, 0, sizeof(pm_ctx))]. *)
Definition pm_ctx_zero : pm_ctx := {|
  current_state := OVE_PM_STATE_ACTIVE;
  activity_flag := false;
  last_activity_us := 0;
  state_entry_us := 0;
  cfg := {| idle_threshold_ms := 0; standby_threshold_ms := 0;
            deep_sleep_threshold_ms := 0 |};
  wake_table := replicate CONFIG_OVE_PM_MAX_WAKE_SOURCES null_wake;
  domain_refcount := replicate OVE_PM_DOMAIN_COUNT 0;
  policy_fn := POLICY_NULL;
  policy_user_data := 0;
  notifiers := replicate CONFIG_OVE_PM_MAX_NOTIFIERS null_notifier;
  notifier_count := 0;
  time_in_state_us := replicate OVE_PM_STATE_COUNT 0;
  transition_count := replicate OVE_PM_STATE_COUNT 0;
  budget_target_x100 := 0;
  initialized := false |}.

(** ** The environment: clock, mutex, HAL, application callbacks *)

Class PmEnv (W : Type) := {
  env_time_get_us : W -> option Z * W;   (* [None]: the out-pointer is untouched *)
  env_mutex_init : W -> Z * W;
  env_mutex_deinit : W -> W;
  env_mutex_lock : W -> W;
  env_mutex_unlock : W -> W;
  env_setup : W -> Z * W;
  env_teardown : W -> W;
  env_enter_state : nat -> Z -> W -> W;
  env_wake_arm : ove_pm_wake_src -> W -> W;
  env_wake_disarm : ove_pm_wake_src -> W -> W;
  env_domain_enable : nat -> W -> Z * W;
  env_domain_disable : nat -> W -> Z * W;
  env_next_timeout_ms : W -> Z * W;
  env_policy : Z -> nat -> Z -> Z -> Z -> W -> nat * W;
  env_notify : Z -> ove_pm_event -> nat -> nat -> Z -> W -> W }.

(** History of environment calls. *)
Inductive pm_ev :=
  | EvLock | EvUnlock | EvMutexDeinit
  | EvSetup (rc : Z) | EvTeardown
  | EvNotify (f : Z) (ev : ove_pm_event) (from to : nat) (ud : Z)
  | EvArm (s : ove_pm_wake_src) | EvDisarm (s : ove_pm_wake_src)
  | EvEnter (state : nat) (timeout_ms : Z)
  | EvEnable (d : nat) (rc : Z) | EvDisable (d : nat) (rc : Z).

Record pm (W : Type) := mk_pm { ctx : pm_ctx; env : W; log : list pm_ev }.
Arguments mk_pm {W}.
Arguments ctx {W}.
Arguments env {W}.
Arguments log {W}.

(** ** Helpers on a bare context *)

Definition default_policy (c : ove_pm_cfg) (idle_ms next_timeout_ms : Z) : nat :=
  if idle_ms <? idle_threshold_ms c then OVE_PM_STATE_ACTIVE
  else if next_timeout_ms <? standby_threshold_ms c then OVE_PM_STATE_IDLE
  else if idle_ms <? deep_sleep_threshold_ms c then OVE_PM_STATE_STANDBY
  else OVE_PM_STATE_DEEP_SLEEP.

Definition wake_src_match (a b : ove_pm_wake_src) : bool :=
  match a, b with
  | OVE_PM_WAKE_GPIO p n _, OVE_PM_WAKE_GPIO p' n' _ => (p =? p') && (n =? n')
  | OVE_PM_WAKE_TIMER t, OVE_PM_WAKE_TIMER t' => t =? t'
  | OVE_PM_WAKE_UART i, OVE_PM_WAKE_UART i' => i =? i'
  | OVE_PM_WAKE_RTC a, OVE_PM_WAKE_RTC a' => a =? a'
  | _, _ => false
  end.

(** [update_stats(old_state, now_us)]. *)
Definition ctx_update_stats (old_state : nat) (now_us : Z) (c : pm_ctx) : pm_ctx :=
  let elapsed := u64 (now_us - state_entry_us c) in
  {| c with
     time_in_state_us :=
       aset (time_in_state_us c) old_state
            (u64 (aget 0 (time_in_state_us c) old_state + elapsed));
     state_entry_us := now_us |}.

(** [pm_ctx.transition_count[state]++]. *)
Definition ctx_count (state : nat) (c : pm_ctx) : pm_ctx :=
  {| c with transition_count :=
       aset (transition_count c) state
            (u32 (aget 0 (transition_count c) state + 1)) |}.

(** The figures of [ove_pm_get_stats] at time [now]. *)
Definition ctx_stats (now : Z) (c : pm_ctx) : ove_pm_stats :=
  let cur := current_state c in
  let tis := aset (time_in_state_us c) cur
               (u64 (aget 0 (time_in_state_us c) cur
                     + u64 (now - state_entry_us c))) in
  let total := foldl (fun t x => u64 (t + x)) 0 tis in
  {| st_time_in_state_us := tis;
     st_transition_count := transition_count c;
     st_total_runtime_us := total;
     st_active_pct_x100 :=
       if 0 <? total
       then u32 (u64 (aget 0 tis OVE_PM_STATE_ACTIVE * 10000) / total)
       else 10000 |}.

Section ops.
Context {W : Type} {E : PmEnv W}.

(** Call into the environment, recording the event. *)
Definition call (f : W -> W) (e : pm_ev) : M (pm W) unit :=
  modify (fun s => mk_pm (ctx s) (f (env s)) (log s ++ [e])).

Definition call_rc (f : W -> Z * W) (e : Z -> pm_ev) : M (pm W) Z :=
  fun s => let '(rc, w) := f (env s) in
         (rc, mk_pm (ctx s) w (log s ++ [e rc])).

(** Environment reads that take no part in the ordering properties. *)
Definition ask {A} (f : W -> A * W) : M (pm W) A :=
  fun s => let '(a, w) := f (env s) in (a, mk_pm (ctx s) w (log s)).

Definition upd (f : pm_ctx -> pm_ctx) : M (pm W) unit :=
  modify (fun s => mk_pm (f (ctx s)) (env s) (log s)).

Definition lock : M (pm W) unit := call env_mutex_lock EvLock.
Definition unlock : M (pm W) unit := call env_mutex_unlock EvUnlock.

Definition pm_now_us : M (pm W) Z :=
  t ← ask env_time_get_us; mret (u64 (default 0 t)).

Definition current_state_load : M (pm W) nat := gets (fun s => current_state (ctx s)).
Definition current_state_store (st : nat) : M (pm W) unit :=
  upd (fun c => {| c with current_state := st |}).

Definition update_stats (old_state : nat) (now_us : Z) : M (pm W) unit :=
  upd (ctx_update_stats old_state now_us).

Definition fire_notifications (event : ove_pm_event) (from to : nat) : M (pm W) unit :=
  c ← gets ctx;
  for_each (fun n =>
    if fn n =? 0 then mret tt
    else call (env_notify (fn n) event from to (user_data n))
              (EvNotify (fn n) event from to (user_data n)))
  (take (notifier_count c) (notifiers c)).

(** ** Lifecycle *)

Definition ove_pm_init (cfg' : option ove_pm_cfg) : M (pm W) Z :=
  c ← gets ctx;
  match cfg' with
  | None => mret OVE_ERR_INVALID_PARAM
  | Some cfg' =>
      if initialized c then mret OVE_ERR_INVALID_PARAM else
      upd (fun _ => {| pm_ctx_zero with cfg := cfg' |}) ;;
      current_state_store OVE_PM_STATE_ACTIVE ;;
      upd (fun c => {| c with policy_fn := POLICY_DEFAULT |}) ;;
      now ← pm_now_us;
      upd (fun c => {| c with last_activity_us := now; state_entry_us := now |}) ;;
      rc ← ask env_mutex_init;
      if negb (rc =? OVE_OK) then mret rc else
      upd (fun c => {| c with initialized := true;
                   transition_count := aset (transition_count c) OVE_PM_STATE_ACTIVE 1 |}) ;;
      rc ← call_rc env_setup EvSetup;
      if negb (rc =? OVE_OK) then
        call env_mutex_deinit EvMutexDeinit ;;
        upd (fun c => {| c with initialized := false |}) ;;
        mret rc
      else mret OVE_OK
  end.

Definition ove_pm_deinit : M (pm W) unit :=
  c ← gets ctx;
  if negb (initialized c) then mret tt else
  call env_teardown EvTeardown ;;
  call env_mutex_deinit EvMutexDeinit ;;
  upd (fun c => {| c with initialized := false |}).

(** ** State machine *)

Definition ove_pm_set_state (state : nat) : M (pm W) Z :=
  c ← gets ctx;
  if negb (initialized c) then mret OVE_ERR_INVALID_PARAM else
  if (OVE_PM_STATE_COUNT <=? state)%nat then mret OVE_ERR_INVALID_PARAM else
  lock ;;
  old ← current_state_load;
  if (old =? state)%nat then unlock ;; mret OVE_OK else
  now ← pm_now_us;
  update_stats old now ;;
  current_state_store state ;;
  upd (ctx_count state) ;;
  (if (OVE_PM_STATE_ACTIVE <? state)%nat
   then upd (fun c => {| c with last_activity_us := now |})
   else mret tt) ;;
  unlock ;;
  mret OVE_OK.

Definition ove_pm_get_state : M (pm W) nat := current_state_load.

Definition ove_pm_activity : M (pm W) unit :=
  upd (fun c => {| c with activity_flag := true |}).

(** ** Wake sources *)

Definition ove_pm_wake_register (s : option ove_pm_wake_src) : M (pm W) Z :=
  c ← gets ctx;
  match s, initialized c with
  | Some s, true =>
      lock ;;
      match find_idx (fun e => negb (registered e)) (wake_table c) with
      | Some i =>
        upd (fun c => {| c with wake_table :=
               aset (wake_table c) i {| src := s; registered := true |} |}) ;;
        unlock ;; mret OVE_OK
      | None => unlock ;; mret OVE_ERR_NO_MEMORY
      end
  | _, _ => mret OVE_ERR_INVALID_PARAM
  end.

Definition ove_pm_wake_unregister (s : option ove_pm_wake_src) : M (pm W) Z :=
  c ← gets ctx;
  match s, initialized c with
  | Some s, true =>
      lock ;;
      match find_idx (fun e => registered e && wake_src_match (src e) s) (wake_table c) with
      | Some i =>
        upd (fun c => {| c with wake_table :=
               aset (wake_table c) i
                 {| src := src (aget null_wake (wake_table c) i); registered := false |} |}) ;;
        unlock ;; mret OVE_OK
      | None => unlock ;; mret OVE_ERR_NOT_REGISTERED
      end
  | _, _ => mret OVE_ERR_INVALID_PARAM
  end.

(** ** Peripheral power domains *)

Definition ove_pm_domain_request (domain : nat) : M (pm W) Z :=
  c ← gets ctx;
  if (OVE_PM_DOMAIN_COUNT <=? domain)%nat || negb (initialized c)
  then mret OVE_ERR_INVALID_PARAM else
  lock ;;
  rc ← (if aget 0 (domain_refcount c) domain =? 0
      then call_rc (env_domain_enable domain) (EvEnable domain)
      else mret OVE_OK);
  (if rc =? OVE_OK
   then upd (fun c => {| c with domain_refcount :=
             aset (domain_refcount c) domain (aget 0 (domain_refcount c) domain + 1) |})
   else mret tt) ;;
  unlock ;;
  mret rc.

Definition ove_pm_domain_release (domain : nat) : M (pm W) Z :=
  c ← gets ctx;
  if (OVE_PM_DOMAIN_COUNT <=? domain)%nat || negb (initialized c)
  then mret OVE_ERR_INVALID_PARAM else
  lock ;;
  if aget 0 (domain_refcount c) domain <=? 0
  then unlock ;; mret OVE_ERR_INVALID_PARAM else
  upd (fun c => {| c with domain_refcount :=
       aset (domain_refcount c) domain (aget 0 (domain_refcount c) domain - 1) |}) ;;
  c ← gets ctx;
  rc ← (if aget 0 (domain_refcount c) domain =? 0
      then call_rc (env_domain_disable domain) (EvDisable domain)
      else mret OVE_OK);
  unlock ;;
  mret rc.

Definition ove_pm_domain_get_refcount (domain : nat) : M (pm W) Z :=
  c ← gets ctx;
  if (OVE_PM_DOMAIN_COUNT <=? domain)%nat || negb (initialized c)
  then mret OVE_ERR_INVALID_PARAM
  else mret (aget 0 (domain_refcount c) domain).

(** ** Policy; [policy = 0] is the [NULL] argument *)

Definition ove_pm_set_policy (policy ud : Z) : M (pm W) Z :=
  c ← gets ctx;
  if negb (initialized c) then mret OVE_ERR_INVALID_PARAM else
  lock ;;
  upd (fun c => {| c with
       policy_fn := if policy =? 0 then POLICY_DEFAULT else POLICY_USER policy;
       policy_user_data := if policy =? 0 then 0 else ud |}) ;;
  unlock ;;
  mret OVE_OK.

(** ** Notifications *)

Definition ove_pm_notify_register (cb ud : Z) : M (pm W) Z :=
  c ← gets ctx;
  if (cb =? 0) || negb (initialized c) then mret OVE_ERR_INVALID_PARAM else
  lock ;;
  if (CONFIG_OVE_PM_MAX_NOTIFIERS <=? notifier_count c)%nat
  then unlock ;; mret OVE_ERR_NO_MEMORY else
  upd (fun c => {| c with
       notifiers := aset (notifiers c) (notifier_count c) {| fn := cb; user_data := ud |};
       notifier_count := S (notifier_count c) |}) ;;
  unlock ;;
  mret OVE_OK.

Definition ove_pm_notify_unregister (cb ud : Z) : M (pm W) Z :=
  c ← gets ctx;
  if (cb =? 0) || negb (initialized c) then mret OVE_ERR_INVALID_PARAM else
  lock ;;
  match find_idx (fun n => (fn n =? cb) && (user_data n =? ud))
               (take (notifier_count c) (notifiers c)) with
  | Some i =>
      upd (fun c =>
        let l := shift_down null_notifier (notifiers c) i (notifier_count c) in
        let n := (notifier_count c - 1)%nat in
        {| c with notifiers := aset l n null_notifier; notifier_count := n |}) ;;
      unlock ;; mret OVE_OK
  | None => unlock ;; mret OVE_ERR_NOT_REGISTERED
  end.

(** ** Statistics and budget; the out-parameter is returned as an option.
    [have_out = false] is the [NULL] out-pointer. *)

Definition ove_pm_get_stats (have_out : bool) : M (pm W) (Z * option ove_pm_stats) :=
  c ← gets ctx;
  if negb have_out || negb (initialized c) then mret (OVE_ERR_INVALID_PARAM, None) else
  lock ;;
  now ← pm_now_us;
  c ← gets ctx;
  unlock ;;
  mret (OVE_OK, Some (ctx_stats now c)).

Definition ove_pm_reset_stats : M (pm W) unit :=
  c ← gets ctx;
  if negb (initialized c) then mret tt else
  lock ;;
  now ← pm_now_us;
  upd (fun c => {| c with
       time_in_state_us := replicate OVE_PM_STATE_COUNT 0;
       transition_count :=
         aset (replicate OVE_PM_STATE_COUNT 0) (current_state c) 1;
       state_entry_us := now |}) ;;
  unlock.

Definition ove_pm_set_budget (target : Z) : M (pm W) Z :=
  c ← gets ctx;
  if negb (initialized c) then mret OVE_ERR_INVALID_PARAM else
  upd (fun c => {| c with budget_target_x100 := target |}) ;;
  mret OVE_OK.

Definition ove_pm_get_budget_status (have_out : bool) : M (pm W) (Z * option Z) :=
  c ← gets ctx;
  if negb have_out || negb (initialized c) then mret (OVE_ERR_INVALID_PARAM, None) else
  r ← ove_pm_get_stats true;
  match r with
  | (rc, Some stats) =>
      if negb (rc =? OVE_OK) then mret (rc, None)
      else mret (OVE_OK, Some (u32 (10000 - st_active_pct_x100 stats)))
  | (rc, None) => mret (rc, None)
  end.

(** ** Idle processing *)

Definition call_policy (c : pm_ctx) (idle_ms next_timeout_ms : Z) : M (pm W) nat :=
  match policy_fn c with
  | POLICY_USER f =>
      ask (env_policy f (current_state c) idle_ms next_timeout_ms (policy_user_data c))
  | _ => mret (default_policy (cfg c) idle_ms next_timeout_ms)
  end.

(** Loops over the wake table, for the registered entries. *)
Definition arm_all : M (pm W) unit :=
  c ← gets ctx;
  for_each (fun e => if registered e
                   then call (env_wake_arm (src e)) (EvArm (src e)) else mret tt)
         (wake_table c).
Definition disarm_all : M (pm W) unit :=
  c ← gets ctx;
  for_each (fun e => if registered e
                   then call (env_wake_disarm (src e)) (EvDisarm (src e)) else mret tt)
         (wake_table c).

(** The branch taken when activity was posted. *)
Definition idle_activity : M (pm W) unit :=
  now ← pm_now_us;
  upd (fun c => {| c with last_activity_us := now |}) ;;
  cur ← current_state_load;
  if (cur =? OVE_PM_STATE_ACTIVE)%nat then mret tt else
  lock ;;
  now ← pm_now_us;
  cur ← current_state_load;
  update_stats cur now ;;
  current_state_store OVE_PM_STATE_ACTIVE ;;
  upd (ctx_count OVE_PM_STATE_ACTIVE) ;;
  unlock.

(** The transition into [recommended] and back, under the mutex. *)
Definition idle_sleep (recommended : nat) (next_timeout_ms : Z) : M (pm W) unit :=
  lock ;;
  old_state ← current_state_load;
  now ← pm_now_us;
  update_stats old_state now ;;
  fire_notifications OVE_PM_EVENT_PRE_SLEEP old_state recommended ;;
  arm_all ;;
  current_state_store recommended ;;
  upd (ctx_count recommended) ;;
  call (env_enter_state recommended next_timeout_ms)
     (EvEnter recommended next_timeout_ms) ;;
  now ← pm_now_us;
  update_stats recommended now ;;
  current_state_store OVE_PM_STATE_ACTIVE ;;
  upd (ctx_count OVE_PM_STATE_ACTIVE) ;;
  disarm_all ;;
  fire_notifications OVE_PM_EVENT_POST_WAKE recommended OVE_PM_STATE_ACTIVE ;;
  unlock.

Definition ove_pm_idle_process : M (pm W) unit :=
  c ← gets ctx;
  if negb (initialized c) then mret tt else
  upd (fun c => {| c with activity_flag := false |}) ;;
  if activity_flag c then idle_activity else
  now ← pm_now_us;
  c ← gets ctx;
  let idle_ms := u32 (u64 (now - last_activity_us c) / 1000) in
  next_timeout_ms ← ask env_next_timeout_ms;
  recommended ← call_policy c idle_ms next_timeout_ms;
  let recommended := if (OVE_PM_STATE_COUNT <=? recommended)%nat
                   then OVE_PM_STATE_ACTIVE else recommended in
  if (recommended <=? current_state c)%nat then mret tt
  else idle_sleep recommended next_timeout_ms.

(** ** The API as one transition system *)

Inductive pm_op :=
  | OpInit (c : option ove_pm_cfg) | OpDeinit | OpSetState (st : nat)
  | OpActivity | OpWakeRegister (s : option ove_pm_wake_src)
  | OpWakeUnregister (s : option ove_pm_wake_src)
  | OpDomainRequest (d : nat) | OpDomainRelease (d : nat)
  | OpSetPolicy (p ud : Z) | OpNotifyRegister (cb ud : Z)
  | OpNotifyUnregister (cb ud : Z) | OpGetStats (o : bool)
  | OpResetStats | OpSetBudget (t : Z) | OpGetBudgetStatus (o : bool)
  | OpIdleProcess.

Definition pm_exec (o : pm_op) (s : pm W) : pm W :=
  match o with
  | OpInit c => (ove_pm_init c s).2
  | OpDeinit => (ove_pm_deinit s).2
  | OpSetState st => (ove_pm_set_state st s).2
  | OpActivity => (ove_pm_activity s).2
  | OpWakeRegister x => (ove_pm_wake_register x s).2
  | OpWakeUnregister x => (ove_pm_wake_unregister x s).2
  | OpDomainRequest d => (ove_pm_domain_request d s).2
  | OpDomainRelease d => (ove_pm_domain_release d s).2
  | OpSetPolicy p ud => (ove_pm_set_policy p ud s).2
  | OpNotifyRegister cb ud => (ove_pm_notify_register cb ud s).2
  | OpNotifyUnregister cb ud => (ove_pm_notify_unregister cb ud s).2
  | OpGetStats b => (ove_pm_get_stats b s).2
  | OpResetStats => (ove_pm_reset_stats s).2
  | OpSetBudget t => (ove_pm_set_budget t s).2
  | OpGetBudgetStatus b => (ove_pm_get_budget_status b s).2
  | OpIdleProcess => (ove_pm_idle_process s).2
  end.

(** States reachable from static storage by any sequence of API calls. *)
Inductive pm_reachable : pm W -> Prop :=
  | reach_boot w : pm_reachable (mk_pm pm_ctx_zero w [])
  | reach_step s o : pm_reachable s -> pm_reachable (pm_exec o s).
End ops.
Arguments pm_exec {W E} o s.

(** ** The locking discipline

    [lock_step] is the protocol: the mutex is taken when free and released
    when held; domain switching, wake arming, sleep entry and application
    callbacks run with it held; HAL setup, teardown and mutex destruction
    run with it free. *)

Definition lock_step (held : bool) (e : pm_ev) : option bool :=
  match e, held with
  | EvLock, false => Some true
  | EvUnlock, true => Some false
  | (EvMutexDeinit | EvSetup _ | EvTeardown), false => Some false
  | (EvNotify _ _ _ _ _ | EvArm _ | EvDisarm _ | EvEnter _ _
     | EvEnable _ _ | EvDisable _ _), true => Some true
  | _, _ => None
  end.

Definition lock_run (l : list pm_ev) : option bool :=
  foldl (fun h e => h ≫= fun h => lock_step h e) (Some false) l.

Section locking.
Context {W : Type} {E : PmEnv W}.

Definition hold (h : bool) (s : pm W) : Prop := lock_run (log s) = Some h.

Lemma hold_snoc h s e h' w c :
  hold h s -> lock_step h e = Some h' -> hold h' (mk_pm c w (log s ++ [e])).
Proof. unfold hold, lock_run. simpl. rewrite foldl_snoc. by intros -> ?. Qed.

Lemma hold_call h e h' f :
  lock_step h e = Some h' -> triple (hold h) (call f e) (fun _ => hold h').
Proof. intros He s Hs. by eapply hold_snoc. Qed.

Lemma hold_call_rc h e f :
  (forall rc, lock_step h (e rc) = Some h) -> triple (hold h) (call_rc f e) (fun _ => hold h).
Proof.
  intros He s Hs. unfold call_rc. destruct (f (env s)). simpl.
  by eapply hold_snoc.
Qed.

Lemma hold_ask {A} h (f : W -> A * W) : triple (hold h) (ask f) (fun _ => hold h).
Proof. intros s Hs. unfold ask. by destruct (f (env s)). Qed.

Lemma hold_upd h f : triple (hold h) (upd f) (fun _ => hold h).
Proof. by intros s Hs. Qed.

Lemma hold_lock : triple (hold false) lock (fun _ => hold true).
Proof. by apply hold_call. Qed.

Lemma hold_unlock : triple (hold true) unlock (fun _ => hold false).
Proof. by apply hold_call. Qed.

Lemma hold_now h : triple (hold h) pm_now_us (fun _ => hold h).
Proof. eapply triple_bind; [apply hold_ask|intros; apply triple_ret]. Qed.

Hint Resolve hold_lock hold_unlock hold_ask hold_upd hold_now : ove.

(** Walk a body statement by statement. *)
Ltac lk :=
  repeat first
  [ progress eauto with ove
  | apply hold_call; done | apply hold_call_rc; done
  | apply triple_for_each; intros
  | eapply triple_bind; [|intros]
  | case_match ].

Lemma hold_fire ev f t : triple (hold true) (fire_notifications ev f t) (fun _ => hold true).
Proof. unfold fire_notifications. lk. Qed.

Lemma hold_arm : triple (hold true) arm_all (fun _ => hold true).
Proof. unfold arm_all. lk. Qed.

Lemma hold_disarm : triple (hold true) disarm_all (fun _ => hold true).
Proof. unfold disarm_all. lk. Qed.

Hint Resolve hold_fire hold_arm hold_disarm : ove.

Lemma hold_idle_sleep r t : triple (hold false) (idle_sleep r t) (fun _ => hold false).
Proof. unfold idle_sleep, update_stats, current_state_load, current_state_store. lk. Qed.

Lemma hold_idle_activity : triple (hold false) idle_activity (fun _ => hold false).
Proof. unfold idle_activity, update_stats, current_state_load, current_state_store. lk. Qed.

Hint Resolve hold_idle_sleep hold_idle_activity : ove.

Lemma hold_triple {A} (m : M (pm W) A) s :
  triple (hold false) m (fun _ => hold false) -> hold false s -> hold false (m s).2.
Proof. intros Hm Hs. by apply Hm. Qed.

Lemma hold_get_stats b : triple (hold false) (ove_pm_get_stats b) (fun _ => hold false).
Proof. unfold ove_pm_get_stats. lk. Qed.

Hint Resolve hold_get_stats : ove.

Lemma hold_exec o s : hold false s -> hold false (pm_exec o s).
Proof.
  destruct o; cbn [pm_exec]; apply hold_triple;
    unfold ove_pm_init, ove_pm_deinit, ove_pm_set_state, ove_pm_activity,
    ove_pm_wake_register, ove_pm_wake_unregister, ove_pm_domain_request,
    ove_pm_domain_release, ove_pm_set_policy, ove_pm_notify_register,
    ove_pm_notify_unregister, ove_pm_reset_stats, ove_pm_set_budget,
    ove_pm_get_budget_status, ove_pm_idle_process, call_policy,
    update_stats, current_state_load, current_state_store; lk.
Qed.

(** C33. The mutex protocol holds on every path of every power-management
    entry point: in any state reachable from boot, the whole history of
    environment calls respects the locking discipline and the mutex is
    free between calls.  So no operation takes the mutex twice, returns
    with it held, or arms a wake source, switches a domain, calls a
    notifier or enters a sleep state without it. *)
Theorem pm_lock_discipline (s : pm W) :
  pm_reachable s -> lock_run (log s) = Some false.
Proof. induction 1; [done|by apply hold_exec]. Qed.
End locking.

(** ** The representation invariant of [pm_ctx] *)

Record pm_inv (c : pm_ctx) : Prop := {
  inv_state : (current_state c < OVE_PM_STATE_COUNT)%nat;
  inv_len_time : length (time_in_state_us c) = OVE_PM_STATE_COUNT;
  inv_len_trans : length (transition_count c) = OVE_PM_STATE_COUNT;
  inv_len_dom : length (domain_refcount c) = OVE_PM_DOMAIN_COUNT;
  inv_len_wake : length (wake_table c) = CONFIG_OVE_PM_MAX_WAKE_SOURCES;
  inv_len_notif : length (notifiers c) = CONFIG_OVE_PM_MAX_NOTIFIERS;
  inv_count : (notifier_count c <= CONFIG_OVE_PM_MAX_NOTIFIERS)%nat;
  inv_live : Forall (fun n => fn n <> 0) (take (notifier_count c) (notifiers c));
  inv_dead : Forall (fun n => n = null_notifier) (drop (notifier_count c) (notifiers c));
  inv_refs : Forall (fun r => 0 <= r) (domain_refcount c);
  inv_time_words : Forall (is_word 64) (time_in_state_us c);
  inv_trans_words : Forall (is_word 32) (transition_count c);
  inv_entry_word : is_word 64 (state_entry_us c);
  inv_policy : initialized c = true -> policy_fn c <> POLICY_NULL }.

Lemma pm_inv_zero : pm_inv pm_ctx_zero.
Proof.
  split; simpl; try done; try lia; repeat constructor; done.
Qed.

Section invariant.
Context {W : Type} {E : PmEnv W}.
Implicit Types s : pm W.

(** [emits m es]: [m] leaves the context alone and performs the calls [es]. *)
Definition emits (m : M (pm W) unit) (es : list pm_ev) : Prop :=
  forall s, ctx (m s).2 = ctx s /\ log (m s).2 = log s ++ es.

Lemma emits_ret : emits (mret tt) [].
Proof. intros s. simpl. by rewrite app_nil_r. Qed.

Lemma emits_call f e : emits (call f e) [e].
Proof. by intros s. Qed.

Lemma emits_for_each {A} (f : A -> M (pm W) unit) g l :
  (forall x, emits (f x) (g x)) -> emits (for_each f l) (concat (g <$> l)).
Proof.
  intros Hf. induction l as [|x l IH]; [apply emits_ret|].
  intros s. simpl. unfold mbind, M_bind.
  destruct (Hf x s) as [Hc Hl]. destruct (f x s) as [u s']. simpl in *.
  destruct (IH s') as [-> ->]. by rewrite Hc, Hl, <-app_assoc.
Qed.

(** The calls made by [fire_notifications], [arm_all] and [disarm_all]. *)
Definition notify_evs (ev : ove_pm_event) (from to : nat) (c : pm_ctx) : list pm_ev :=
  concat ((fun n => if fn n =? 0 then [] else [EvNotify (fn n) ev from to (user_data n)])
        <$> take (notifier_count c) (notifiers c)).
Definition wake_evs (mk : ove_pm_wake_src -> pm_ev) (c : pm_ctx) : list pm_ev :=
  concat ((fun e => if registered e then [mk (src e)] else []) <$> wake_table c).

Lemma emits_fire ev f t s :
  ctx (fire_notifications ev f t s).2 = ctx s /\
  log (fire_notifications ev f t s).2 = log s ++ notify_evs ev f t (ctx s).
Proof.
  apply emits_for_each. intros n. case_match; [apply emits_ret|apply emits_call].
Qed.

Lemma emits_arm s :
  ctx (arm_all s).2 = ctx s /\ log (arm_all s).2 = log s ++ wake_evs EvArm (ctx s).
Proof. apply emits_for_each. intros n. case_match; [apply emits_call|apply emits_ret]. Qed.

Lemma emits_disarm s :
  ctx (disarm_all s).2 = ctx s /\ log (disarm_all s).2 = log s ++ wake_evs EvDisarm (ctx s).
Proof. apply emits_for_each. intros n. case_match; [apply emits_call|apply emits_ret]. Qed.

Lemma now_word s : is_word 64 (pm_now_us s).1.
Proof.
  unfold pm_now_us, ask, mbind, M_bind. destruct (env_time_get_us (env s)).
  simpl. by apply wrap_range.
Qed.

Lemma now_ctx s : ctx (pm_now_us s).2 = ctx s /\ log (pm_now_us s).2 = log s.
Proof.
  unfold pm_now_us, ask, mbind, M_bind. by destruct (env_time_get_us (env s)).
Qed.
End invariant.

Lemma inv_update_stats st now c :
  pm_inv c -> is_word 64 now -> pm_inv (ctx_update_stats st now c).
Proof.
  intros [] Hnow. split; simpl; rewrite ?length_aset; try done.
  apply Forall_aset; [done|]. by apply wrap_range.
Qed.

Lemma inv_ctx_count st c : pm_inv c -> pm_inv (ctx_count st c).
Proof.
  intros []. split; simpl; rewrite ?length_aset; try done.
  apply Forall_aset; [done|]. by apply wrap_range.
Qed.

Lemma inv_set_current st c :
  (st < OVE_PM_STATE_COUNT)%nat -> pm_inv c -> pm_inv {| c with current_state := st |}.
Proof. intros ? []. by split. Qed.

Lemma inv_set_activity b t c :
  pm_inv c -> pm_inv {| c with activity_flag := b; last_activity_us := t |}.
Proof. intros []. by split. Qed.

Lemma inv_set_wake l c :
  length l = CONFIG_OVE_PM_MAX_WAKE_SOURCES -> pm_inv c -> pm_inv {| c with wake_table := l |}.
Proof. intros ? []. by split. Qed.

Lemma inv_set_refcount d r c :
  0 <= r -> pm_inv c ->
  pm_inv {| c with domain_refcount := aset (domain_refcount c) d r |}.
Proof. intros ? []. split; simpl; rewrite ?length_aset; try done. by apply Forall_aset. Qed.

Lemma inv_reset_stats now c :
  is_word 64 now -> pm_inv c ->
  pm_inv {| c with
    time_in_state_us := replicate OVE_PM_STATE_COUNT 0;
    transition_count := aset (replicate OVE_PM_STATE_COUNT 0) (current_state c) 1;
    state_entry_us := now |}.
Proof.
  intros ? []. split; cbn -[replicate aset is_word]; rewrite ?length_aset; try done.
  - by apply (Forall_replicate _ 4).
  - apply Forall_aset; [by apply (Forall_replicate _ 4)|done].
Qed.

Lemma inv_notify_register cb ud c :
  cb <> 0 -> (notifier_count c < CONFIG_OVE_PM_MAX_NOTIFIERS)%nat -> pm_inv c ->
  pm_inv {| c with
    notifiers := aset (notifiers c) (notifier_count c) {| fn := cb; user_data := ud |};
    notifier_count := S (notifier_count c) |}.
Proof.
  intros Hcb Hn []. split; simpl; rewrite ?length_aset; try done.
  - erewrite take_S_r by (apply list_lookup_insert_eq; lia).
    unfold aset. rewrite take_insert_ge by lia. rewrite Forall_app. by repeat constructor.
  - unfold aset. rewrite drop_insert_lt by lia.
    eapply Forall_drop with (n := 1%nat) in inv_dead0. by rewrite drop_drop, Nat.add_1_r in inv_dead0.
Qed.

Lemma inv_notify_unregister i c :
  (i < notifier_count c)%nat -> pm_inv c ->
  pm_inv {| c with
    notifiers := aset (shift_down null_notifier (notifiers c) i (notifier_count c))
                      (notifier_count c - 1) null_notifier;
    notifier_count := (notifier_count c - 1)%nat |}.
Proof.
  intros Hi []. split; simpl; rewrite ?length_aset, ?shift_down_length; try done; [lia|..].
  - unfold aset. rewrite take_insert_ge by lia. rewrite shift_down_take by lia.
    by apply Forall_delete.
  - unfold aset. rewrite (drop_S _ null_notifier).
    2:{ apply list_lookup_insert_eq. rewrite shift_down_length. lia. }
    constructor; [done|]. rewrite drop_insert_lt by lia.
    replace (S (notifier_count c - 1)) with (notifier_count c) by lia.
    by rewrite shift_down_drop by lia.
Qed.

(** [lia] knowing the enum values and table sizes. *)
Ltac pm_lia :=
  unfold OVE_PM_STATE_ACTIVE, OVE_PM_STATE_IDLE, OVE_PM_STATE_STANDBY,
    OVE_PM_STATE_DEEP_SLEEP, OVE_PM_STATE_COUNT, OVE_PM_DOMAIN_COUNT,
    CONFIG_OVE_PM_MAX_WAKE_SOURCES, CONFIG_OVE_PM_MAX_NOTIFIERS in *; lia.

(** Symbolic execution of a straight-line body. *)
Ltac run :=
  unfold lock, unlock, update_stats, current_state_load, current_state_store,
    call, call_rc, ask, upd, modify, gets in *;
  unfold mret, M_ret, mbind, M_bind in *; cbn [fst snd ctx env log] in *.

Section invariant_exec.
Context {W : Type} {E : PmEnv W}.
Implicit Types s : pm W.

(** Execute the next clock read or call-out loop of the goal, keeping what
    it does to the context and the history. *)
Ltac ev_step :=
  let Hc := fresh "Hc" in let Hl := fresh "Hl" in let s' := fresh "s" in
  match goal with
  | |- context [pm_now_us ?s] =>
  let Hw := fresh "Hw" in let t := fresh "now" in
  pose proof (now_word s) as Hw; pose proof (now_ctx s) as [Hc Hl];
  destruct (pm_now_us s) as [t s']
  | |- context [fire_notifications ?e ?f ?t ?s] =>
  pose proof (emits_fire e f t s) as [Hc Hl];
  destruct (fire_notifications e f t s) as [[] s']
  | |- context [arm_all ?s] =>
  pose proof (emits_arm s) as [Hc Hl]; destruct (arm_all s) as [[] s']
  | |- context [disarm_all ?s] =>
  pose proof (emits_disarm s) as [Hc Hl]; destruct (disarm_all s) as [[] s']
  end; cbn [fst snd ctx env log] in *.

Lemma inv_idle_activity s : pm_inv (ctx s) -> pm_inv (ctx (idle_activity s).2).
Proof.
  intros Hi. unfold idle_activity. run. ev_step.
  case_match; [simpl; rewrite Hc; by apply (inv_set_activity _ _ (ctx s))|].
  ev_step. rewrite Hc0. apply inv_ctx_count, inv_set_current; [pm_lia|].
  apply inv_update_stats; [|done]. rewrite Hc. by apply (inv_set_activity _ _ (ctx s)).
Qed.

(** The context after one sleep cycle entered at [t1] and left at [t2]. *)
Definition sleep_ctx (r : nat) (t1 t2 : Z) (c : pm_ctx) : pm_ctx :=
  let c1 := ctx_update_stats (current_state c) t1 c in
  let c2 := ctx_count r {| c1 with current_state := r |} in
  let c3 := ctx_update_stats r t2 c2 in
  ctx_count OVE_PM_STATE_ACTIVE {| c3 with current_state := OVE_PM_STATE_ACTIVE |}.

(** The environment calls of one sleep cycle, in order. *)
Definition sleep_evs (r : nat) (timeout : Z) (c : pm_ctx) : list pm_ev :=
  [EvLock] ++ notify_evs OVE_PM_EVENT_PRE_SLEEP (current_state c) r c
  ++ wake_evs EvArm c ++ [EvEnter r timeout] ++ wake_evs EvDisarm c
  ++ notify_evs OVE_PM_EVENT_POST_WAKE r OVE_PM_STATE_ACTIVE c ++ [EvUnlock].

Lemma idle_sleep_spec r timeout s :
  exists t1 t2, is_word 64 t1 /\ is_word 64 t2 /\
  ctx (idle_sleep r timeout s).2 = sleep_ctx r t1 t2 (ctx s) /\
  log (idle_sleep r timeout s).2 = log s ++ sleep_evs r timeout (ctx s).
Proof.
  unfold idle_sleep. run. repeat ev_step.
  exists now, now0. split_and!; [done|done|..].
  - repeat match goal with H : ctx _ = _ |- _ => rewrite H; clear H end. done.
  - repeat match goal with H : log _ = _ |- _ => rewrite H; clear H end.
    repeat match goal with H : ctx _ = _ |- _ => rewrite H; clear H end.
    unfold sleep_evs. by rewrite <-!app_assoc.
Qed.

Lemma inv_sleep_ctx r t1 t2 c :
  (r < OVE_PM_STATE_COUNT)%nat -> is_word 64 t1 -> is_word 64 t2 ->
  pm_inv c -> pm_inv (sleep_ctx r t1 t2 c).
Proof.
  intros. apply inv_ctx_count, inv_set_current; [pm_lia|].
  apply inv_update_stats; [|done].
  apply inv_ctx_count, inv_set_current; [done|]. by apply inv_update_stats.
Qed.

(** Context and history of the remaining entry points, branch by branch. *)

Lemma idle_process_cases s :
  let s' := (ove_pm_idle_process s).2 in
  (initialized (ctx s) = false /\ s' = s) \/
  (initialized (ctx s) = true /\ activity_flag (ctx s) = true /\
   s' = (idle_activity (mk_pm {| (ctx s) with activity_flag := false |} (env s) (log s))).2) \/
  (initialized (ctx s) = true /\ activity_flag (ctx s) = false /\
   ctx s' = {| (ctx s) with activity_flag := false |} /\ log s' = log s) \/
  (initialized (ctx s) = true /\ activity_flag (ctx s) = false /\
   exists r t s0, ctx s0 = {| (ctx s) with activity_flag := false |} /\ log s0 = log s /\
   (current_state (ctx s) < r < OVE_PM_STATE_COUNT)%nat /\ s' = (idle_sleep r t s0).2).
Proof.
  cbv zeta. unfold ove_pm_idle_process. run.
  destruct (initialized (ctx s)) eqn:Hi; cbn [negb]; [right|by left].
  destruct (activity_flag (ctx s)) eqn:Ha; [left; by rewrite Hi|right].
  ev_step. unfold call_policy.
  destruct (env_next_timeout_ms (env s0)) as [t w]. cbn [fst snd ctx env log] in *.
  match goal with |- context [match ?p with _ => _ end] => destruct p as [rec s1] eqn:Hp end.
  assert (Hs1 : ctx s1 = ctx s0 /\ log s1 = log s0).
  { destruct (policy_fn (ctx s0)); run; simplify_eq/=; try done.
    destruct (env_policy _ _ _ _ _ _); by simplify_eq/=. }
  destruct Hs1 as [Hc1 Hl1]. rewrite Hc. cbn [current_state].
  set (r := if (OVE_PM_STATE_COUNT <=? rec)%nat then OVE_PM_STATE_ACTIVE else rec).
  destruct (r <=? current_state (ctx s))%nat eqn:Hr; cbn [fst snd].
  - left. rewrite Hc1, Hl1, Hc, Hl, Hi. done.
  - right. split; [done|]. split; [done|]. exists r, t, s1. split_and!.
    + by rewrite Hc1, Hc, Hi.
    + by rewrite Hl1.
    + by apply Nat.leb_gt.
    + subst r. case_match; [pm_lia|]. by apply Nat.leb_gt.
    + done.
Qed.

Lemma inv_init_ctx cf now tc b :
  is_word 64 now -> length tc = OVE_PM_STATE_COUNT -> Forall (is_word 32) tc ->
  pm_inv {| pm_ctx_zero with cfg := cf; policy_fn := POLICY_DEFAULT;
          last_activity_us := now; state_entry_us := now;
          transition_count := tc; initialized := b |}.
Proof. intros. destruct pm_inv_zero. by split. Qed.

Lemma init_trans_words :
  Forall (is_word 32) (aset (transition_count pm_ctx_zero) OVE_PM_STATE_ACTIVE 1).
Proof. apply Forall_aset; [apply (inv_trans_words _ pm_inv_zero)|done]. Qed.

Lemma inv_init c s : pm_inv (ctx s) -> pm_inv (ctx (ove_pm_init c s).2).
Proof.
  intros Hi. unfold ove_pm_init. destruct c as [cf|]; [|done]. run.
  destruct (initialized (ctx s)); [done|].
  ev_step. destruct (env_mutex_init (env s0)) as [rc w]. cbn [fst snd ctx env log].
  rewrite Hc. case_match.
  { apply inv_init_ctx; [done|done|apply (inv_trans_words _ pm_inv_zero)]. }
  cbn [fst snd ctx env log]. destruct (env_setup w) as [rc' w'].
  cbn [fst snd ctx env log]. destruct (negb (rc' =? OVE_OK)); cbn [fst snd ctx];
    (apply inv_init_ctx;
    [done|done|exact init_trans_words]).
Qed.

Lemma inv_set_state st s : pm_inv (ctx s) -> pm_inv (ctx (ove_pm_set_state st s).2).
Proof.
  intros Hi. unfold ove_pm_set_state. run.
  case_match; [done|]. case_match; [done|]. case_match; [done|].
  ev_step. rewrite Hc.
  assert (Hst : (st < OVE_PM_STATE_COUNT)%nat) by (by apply Nat.leb_gt).
  assert (Hb : pm_inv (ctx_count st
    {| (ctx_update_stats (current_state (ctx s)) now (ctx s)) with current_state := st |})).
  { by apply inv_ctx_count, inv_set_current, inv_update_stats. }
  destruct (OVE_PM_STATE_ACTIVE <? st)%nat; cbn [fst snd ctx]; [|done].
  by apply (inv_set_activity (activity_flag (ctx s)) now _) in Hb.
Qed.

Lemma inv_domain_request d s :
  pm_inv (ctx s) -> pm_inv (ctx (ove_pm_domain_request d s).2).
Proof.
  intros Hi. unfold ove_pm_domain_request. run. case_match; [done|].
  pose proof (Forall_aget _ 0 _ d (inv_refs _ Hi) (Z.le_refl 0)) as Hd.
  simpl in Hd.
  destruct (_ =? 0).
  - destruct (env_domain_enable _ _) as [rc w]. cbn [fst snd ctx env log].
    destruct (rc =? OVE_OK); simpl; [|done]. apply inv_set_refcount; [lia|done].
  - simpl. apply inv_set_refcount; [lia|done].
Qed.

Lemma inv_domain_release d s :
  pm_inv (ctx s) -> pm_inv (ctx (ove_pm_domain_release d s).2).
Proof.
  intros Hi. unfold ove_pm_domain_release. run. case_match; [done|].
  destruct (aget 0 (domain_refcount (ctx s)) d <=? 0) eqn:Hz; [done|].
  destruct (_ =? 0); [destruct (env_domain_disable _ _)|]; simpl;
    (apply inv_set_refcount; [lia|done]).
Qed.

Lemma inv_exec o s : pm_inv (ctx s) -> pm_inv (ctx (pm_exec o s)).
Proof.
  intros Hi. destruct o; cbn [pm_exec].
  - by apply inv_init.
  - unfold ove_pm_deinit. run. case_match; [done|]. destruct Hi. by split.
  - by apply inv_set_state.
  - destruct Hi. by split.
  - unfold ove_pm_wake_register. run. repeat (case_match; try done).
    apply inv_set_wake; [|done]. rewrite length_aset. apply Hi.
  - unfold ove_pm_wake_unregister. run. repeat (case_match; try done).
    apply inv_set_wake; [|done]. rewrite length_aset. apply Hi.
  - by apply inv_domain_request.
  - by apply inv_domain_release.
  - unfold ove_pm_set_policy. run. case_match; [done|]. destruct Hi. split; try done.
    simpl. by case_match.
  - unfold ove_pm_notify_register. run. case_match; [done|]. case_match; [done|].
    apply inv_notify_register; [|by apply Nat.leb_gt|done].
    destruct (cb =? 0) eqn:?; [done|lia].
  - unfold ove_pm_notify_unregister. run. case_match; [done|].
    destruct (find_idx _ _) as [i|] eqn:Hf; [|done].
    apply inv_notify_unregister; [|done]. apply find_idx_lt in Hf.
    rewrite length_take in Hf. simpl in *. lia.
  - unfold ove_pm_get_stats. run. case_match; [done|]. ev_step. by rewrite Hc.
  - unfold ove_pm_reset_stats. run. case_match; [done|]. ev_step.
    rewrite Hc. by apply inv_reset_stats.
  - unfold ove_pm_set_budget. run. case_match; [done|]. destruct Hi. by split.
  - unfold ove_pm_get_budget_status, ove_pm_get_stats. run.
    destruct o, (initialized (ctx s)) eqn:Hin; try done.
    cbn [negb orb fst snd ctx env log]. rewrite Hin. cbn [negb orb fst snd ctx env log].
    ev_step. by rewrite Hc.
  - destruct (idle_process_cases s) as
      [[_ ->]|[(_ & _ & ->)|[(_ & _ & -> & _)|(_ & _ & r & t & s0 & Hc & _ & Hr & ->)]]].
    + done.
    + apply inv_idle_activity. by destruct Hi; split.
    + by destruct Hi; split.
    + destruct (idle_sleep_spec r t s0) as (t1 & t2 & Hw1 & Hw2 & -> & _).
      apply inv_sleep_ctx; [lia|done..|]. rewrite Hc. by destruct Hi; split.
Qed.

(** ** Time accounting

    [acct t0 c]: the per-state times add up to the span from [t0] to the
    last state entry (all of it modulo [2^64]). *)
Definition acct (t0 : Z) (c : pm_ctx) : Prop :=
  u64 (sumZ (time_in_state_us c)) = u64 (state_entry_us c - t0).

Lemma acct_update t0 st now c :
  pm_inv c -> (st < OVE_PM_STATE_COUNT)%nat -> acct t0 c ->
  acct t0 (ctx_update_stats st now c).
Proof.
  intros Hi Hst Ha. unfold acct, ctx_update_stats in *. cbn [time_in_state_us state_entry_us].
  rewrite sumZ_aset by (rewrite (inv_len_time _ Hi); done).
  autorewrite with wrap.
  set (a := aget 0 _ _). set (e := state_entry_us c) in *.
  transitivity (u64 (u64 (sumZ (time_in_state_us c)) + (now - e))).
  - rewrite wrap_add_l, Z.add_assoc, wrap_add_r. f_equal. lia.
  - rewrite Ha, wrap_add_l. f_equal. lia.
Qed.

Lemma acct_sleep t0 r t1 t2 c :
  pm_inv c -> (r < OVE_PM_STATE_COUNT)%nat -> is_word 64 t1 ->
  acct t0 c -> acct t0 (sleep_ctx r t1 t2 c).
Proof.
  intros Hi Hr Hw Ha.
  pose proof (acct_update t0 (current_state c) t1 c Hi (inv_state _ Hi) Ha) as Ha1.
  set (c1 := ctx_update_stats (current_state c) t1 c) in *.
  assert (pm_inv c1) as Hi1 by by apply inv_update_stats.
  assert (pm_inv (ctx_count r {| c1 with current_state := r |})) as Hi2
    by by apply inv_ctx_count, inv_set_current.
  exact (acct_update t0 r t2 _ Hi2 Hr Ha1).
Qed.

Definition keeps_clock (o : pm_op) : Prop :=
  match o with OpInit _ | OpResetStats => False | _ => True end.

Lemma acct_exec t0 o s :
  keeps_clock o -> pm_inv (ctx s) -> acct t0 (ctx s) -> acct t0 (ctx (pm_exec o s)).
Proof.
  intros Ho Hi Ha. destruct o; try done; cbn [pm_exec].
  - unfold ove_pm_deinit. run. by case_match.
  - unfold ove_pm_set_state. run. case_match; [done|]. case_match; [done|].
    case_match; [done|]. ev_step. rewrite Hc.
    pose proof (acct_update t0 _ now _ Hi (inv_state _ Hi) Ha).
    by destruct (OVE_PM_STATE_ACTIVE <? st)%nat.
  - unfold ove_pm_wake_register. run. by repeat (case_match; try done).
  - unfold ove_pm_wake_unregister. run. by repeat (case_match; try done).
  - unfold ove_pm_domain_request. run. case_match; [done|].
    destruct (_ =? 0); [|done]. destruct (env_domain_enable _ _) as [rc w].
    cbn [fst snd ctx env log]. by destruct (rc =? OVE_OK).
  - unfold ove_pm_domain_release. run. case_match; [done|]. case_match; [done|].
    destruct (_ =? 0); [|done]. by destruct (env_domain_disable _ _).
  - unfold ove_pm_set_policy. run. by case_match.
  - unfold ove_pm_notify_register. run. by repeat (case_match; try done).
  - unfold ove_pm_notify_unregister. run. case_match; [done|].
    by destruct (find_idx _ _).
  - unfold ove_pm_get_stats. run. case_match; [done|]. ev_step. by rewrite Hc.
  - unfold ove_pm_set_budget. run. by case_match.
  - unfold ove_pm_get_budget_status, ove_pm_get_stats. run.
    destruct o, (initialized (ctx s)) eqn:Hin; try done.
    cbn [negb orb fst snd ctx env log]. rewrite Hin. cbn [negb orb fst snd ctx env log].
    ev_step. by rewrite Hc.
  - destruct (idle_process_cases s) as
      [[_ ->]|[(_ & _ & ->)|[(_ & _ & -> & _)|(_ & _ & r & t & s0 & Hc & _ & Hr & ->)]]];
      [done| |done|].
    + unfold idle_activity. run. ev_step. case_match; [simpl; by rewrite Hc|].
      ev_step. rewrite Hc0.
      apply (acct_update t0 _ _ {| (ctx s0) with last_activity_us := now |}); rewrite Hc.
      * by destruct Hi; split.
      * apply (inv_state _ Hi).
      * done.
    + destruct (idle_sleep_spec r t s0) as (t1 & t2 & Hw1 & Hw2 & -> & _).
      rewrite Hc. apply acct_sleep; [by destruct Hi; split|lia|done..].
Qed.

(** [tracked t0 s]: [s] was reached from the last initialisation or
    statistics reset, performed at clock value [t0]. *)
Inductive tracked : Z -> pm W -> Prop :=
  | tracked_init cf s s' :
    ove_pm_init (Some cf) s = (OVE_OK, s') -> tracked (state_entry_us (ctx s')) s'
  | tracked_reset t0 s :
    tracked t0 s -> initialized (ctx s) = true ->
    tracked (state_entry_us (ctx (pm_exec OpResetStats s))) (pm_exec OpResetStats s)
  | tracked_step t0 s o :
    tracked t0 s -> keeps_clock o -> tracked t0 (pm_exec o s).

Lemma init_ok cf s s' :
  ove_pm_init (Some cf) s = (OVE_OK, s') ->
  pm_inv (ctx s') /\ initialized (ctx s') = true /\
  time_in_state_us (ctx s') = replicate OVE_PM_STATE_COUNT 0 /\
  domain_refcount (ctx s') = replicate OVE_PM_DOMAIN_COUNT 0 /\
  exists rc, log s' = log s ++ [EvSetup rc].
Proof.
  unfold ove_pm_init. run. destruct (initialized (ctx s)); [done|]. ev_step.
  destruct (env_mutex_init (env s0)) as [rc w]. cbn [fst snd ctx env log].
  rewrite Hc. destruct (negb (rc =? OVE_OK)) eqn:Hrc.
  { intros [= -> _]. done. }
  cbn [fst snd ctx env log]. destruct (env_setup w) as [rc' w'].
  cbn [fst snd ctx env log]. destruct (negb (rc' =? OVE_OK)) eqn:Hrc'.
  { intros [= -> _]. done. }
  intros [= <-]. cbn -[replicate aset]. split_and!; try done.
  - apply inv_init_ctx; [done|done|exact init_trans_words].
  - exists rc'. by rewrite Hl.
Qed.

Lemma reset_ok s :
  initialized (ctx s) = true ->
  time_in_state_us (ctx (pm_exec OpResetStats s)) = replicate OVE_PM_STATE_COUNT 0.
Proof.
  intros Hi. cbn [pm_exec]. unfold ove_pm_reset_stats. run. rewrite Hi. cbn [negb].
  ev_step. done.
Qed.

Lemma acct_fresh c :
  time_in_state_us c = replicate OVE_PM_STATE_COUNT 0 -> acct (state_entry_us c) c.
Proof. unfold acct. intros ->. by rewrite Z.sub_diag. Qed.

Lemma tracked_acct t0 s : tracked t0 s -> pm_inv (ctx s) /\ acct t0 (ctx s).
Proof.
  induction 1 as [cf s s' Hinit|t0 s _ [Hi _] Hin|t0 s o _ [Hi Ha] Ho].
  - apply init_ok in Hinit as (? & _ & ? & _). split; [done|by apply acct_fresh].
  - split; [by apply inv_exec|]. by apply acct_fresh, reset_ok.
  - split; [by apply inv_exec|by apply acct_exec].
Qed.

Lemma foldl_u64 l a : is_word 64 a -> foldl (fun t x => u64 (t + x)) a l = u64 (a + sumZ l).
Proof.
  revert a. induction l as [|x l IH]; intros a Ha; simpl.
  - by rewrite Z.add_0_r, wrap_small.
  - rewrite IH by by apply wrap_range. rewrite wrap_add_l. f_equal. lia.
Qed.

Lemma stats_total now c :
  pm_inv c ->
  st_total_runtime_us (ctx_stats now c)
  = u64 (sumZ (time_in_state_us c) + (now - state_entry_us c)).
Proof.
  intros Hi. unfold ctx_stats. cbn [st_total_runtime_us].
  rewrite foldl_u64 by done. rewrite Z.add_0_l.
  rewrite sumZ_aset by (rewrite (inv_len_time _ Hi); apply Hi).
  autorewrite with wrap. rewrite Z.add_assoc, wrap_add_r. f_equal. lia.
Qed.

(** The clock value [ove_pm_get_stats] reads once it holds the mutex. *)
Definition stats_clock (s : pm W) : Z := (pm_now_us (lock s).2).1.

(** Time accounting: at any point after initialisation (or the last
    statistics reset) at clock value [t0], whatever mix of manual state
    changes, idle processing and sleep cycles happened in between,
    [ove_pm_get_stats] reports a total runtime equal to the current clock
    minus [t0]; no interval is lost or counted twice. *)
Theorem pm_time_accounting t0 s :
  tracked t0 s -> initialized (ctx s) = true ->
  exists st, (ove_pm_get_stats true s).1 = (OVE_OK, Some st) /\
  st_total_runtime_us st = u64 (stats_clock s - t0).
Proof.
  intros [Hi Ha]%tracked_acct Hin. unfold ove_pm_get_stats, stats_clock. run.
  rewrite Hin. cbn [negb orb]. ev_step. eexists. split; [done|].
  rewrite Hc, stats_total by done. unfold acct in Ha.
  rewrite <-wrap_add_l, Ha, wrap_add_l. f_equal. lia.
Qed.


(** What [ove_pm_idle_process] does to the outside world, on every
    branch.  Either nothing (not initialised, or the policy asks for no
    deeper state); or, when activity was posted, a state return to ACTIVE
    under the mutex; or exactly one sleep cycle into a strictly deeper
    state [r]: lock, all PRE_SLEEP notifiers in registration order, arm
    every registered wake source, enter [r], disarm the same sources, all
    POST_WAKE notifiers, unlock.  A sleep cycle ends in ACTIVE and leaves
    the idle baseline [last_activity_us] alone. *)
Theorem pm_idle_process_protocol s :
  let s' := (ove_pm_idle_process s).2 in
  (log s' = log s /\ current_state (ctx s') = current_state (ctx s)) \/
  (activity_flag (ctx s) = true /\ log s' = log s ++ [EvLock; EvUnlock] /\
   current_state (ctx s') = OVE_PM_STATE_ACTIVE) \/
  (activity_flag (ctx s) = false /\ exists r t,
   (current_state (ctx s) < r < OVE_PM_STATE_COUNT)%nat /\
   log s' = log s ++ sleep_evs r t (ctx s) /\
   current_state (ctx s') = OVE_PM_STATE_ACTIVE /\
   last_activity_us (ctx s') = last_activity_us (ctx s)).
Proof.
  cbv zeta.
  destruct (idle_process_cases s) as
    [[_ ->]|[(_ & Ha & ->)|[(_ & _ & -> & ->)|(_ & Ha & r & t & s0 & Hc & Hl & Hr & ->)]]].
  - by left.
  - unfold idle_activity. run. ev_step. case_match; [left; simpl; by rewrite Hc, Hl|].
    ev_step. right; left. rewrite Hl0, Hl. by rewrite <-app_assoc.
  - by left.
  - right; right. split; [done|]. exists r, t. split; [done|].
    destruct (idle_sleep_spec r t s0) as (t1 & t2 & _ & _ & -> & ->).
    rewrite Hl, Hc. done.
Qed.

(** With the default policy installed and no pending activity, one
    idle tick sleeps exactly as deep as the thresholds say for the time
    since the last activity and the HAL's next timeout, and stays put
    when that is not deeper than the current state. *)
Theorem pm_idle_default_policy s :
  initialized (ctx s) = true -> activity_flag (ctx s) = false ->
  policy_fn (ctx s) = POLICY_DEFAULT ->
  let s0 := mk_pm {| (ctx s) with activity_flag := false |} (env s) (log s) in
  let now := (pm_now_us s0).1 in
  let timeout := (env_next_timeout_ms (env (pm_now_us s0).2)).1 in
  let idle_ms := u32 (u64 (now - last_activity_us (ctx s)) / 1000) in
  let r := default_policy (cfg (ctx s)) idle_ms timeout in
  log (ove_pm_idle_process s).2 =
  log s ++ (if (r <=? current_state (ctx s))%nat then [] else sleep_evs r timeout (ctx s)).
Proof.
  intros Hi Ha Hp. cbv zeta. unfold ove_pm_idle_process. run.
  pose (s1 := mk_pm {| (ctx s) with activity_flag := false |} (env s) (log s)).
  repeat match goal with |- context [pm_now_us (mk_pm ?c ?w ?l)] =>
    change (mk_pm c w l) with s1 end.
  rewrite Hi, Ha. cbn [negb].
  repeat match goal with |- context [pm_now_us (mk_pm ?c ?w ?l)] =>
    change (mk_pm c w l) with s1 end.
  ev_step. unfold s1 in Hc, Hl. cbn [ctx log] in Hc, Hl. destruct (env_next_timeout_ms (env s0)) as [t w].
  cbn [fst snd ctx env log]. unfold call_policy. rewrite Hc. cbn [policy_fn]. rewrite Hp. run.
  cbn [cfg last_activity_us current_state].
  set (r := default_policy _ _ _).
  assert ((OVE_PM_STATE_COUNT <=? r)%nat = false) as ->.
  { apply Nat.leb_gt. unfold r, default_policy. repeat case_match; pm_lia. }
  destruct (r <=? current_state (ctx s))%nat; cbn [fst snd log].
  - by rewrite Hl, app_nil_r.
  - match goal with |- context [idle_sleep r t ?x] =>
      destruct (idle_sleep_spec r t x) as (t1 & t2 & _ & _ & _ & ->) end.
    cbn [ctx log]. by rewrite Hl.
Qed.

(** ** Power domains *)

(** Whether domain [d] is switched on, according to the HAL calls made. *)
Definition domain_step (d : nat) (on : bool) (e : pm_ev) : bool :=
  match e with
  | EvEnable d' rc => if (d' =? d)%nat && (rc =? OVE_OK) then true else on
  | EvDisable d' _ => if (d' =? d)%nat then false else on
  | _ => on
  end.
Definition domain_on (d : nat) (l : list pm_ev) : bool := foldl (domain_step d) false l.

Lemma domain_on_app d l k : domain_on d (l ++ k) = foldl (domain_step d) (domain_on d l) k.
Proof. apply foldl_app. Qed.

(** Events that do not touch domains. *)
Definition no_domain (e : pm_ev) : Prop :=
  match e with EvEnable _ _ | EvDisable _ _ => False | _ => True end.

Lemma domain_on_inert d l k :
  Forall no_domain k -> domain_on d (l ++ k) = domain_on d l.
Proof.
  intros Hk. rewrite domain_on_app. induction Hk as [|e k He _ IH]; [done|].
  simpl. by destruct e.
Qed.

(** [inert s s']: no domain was switched and no count changed. *)
Definition inert (s s' : pm W) : Prop :=
  domain_refcount (ctx s') = domain_refcount (ctx s) /\
  exists k, log s' = log s ++ k /\ Forall no_domain k.

Lemma inert_same s s' :
  domain_refcount (ctx s') = domain_refcount (ctx s) -> log s' = log s -> inert s s'.
Proof. split; [done|]. exists []. by rewrite app_nil_r. Qed.

Lemma inert_locked s s' :
  domain_refcount (ctx s') = domain_refcount (ctx s) ->
  log s' = (log s ++ [EvLock]) ++ [EvUnlock] -> inert s s'.
Proof.
  split; [done|]. exists [EvLock; EvUnlock]. rewrite <-app_assoc in H0.
  split; [done|]. by repeat constructor.
Qed.

Lemma sleep_evs_no_domain r t c : Forall no_domain (sleep_evs r t c).
Proof.
  unfold sleep_evs, notify_evs, wake_evs.
  repeat apply Forall_app_2; try (by repeat constructor);
    apply Forall_concat, Forall_fmap, Forall_true; intros x; simpl;
    case_match; by repeat constructor.
Qed.

Definition switches_domain (o : pm_op) : bool :=
  match o with OpInit _ | OpDomainRequest _ | OpDomainRelease _ => true | _ => false end.

Lemma exec_inert o s : switches_domain o = false -> inert s (pm_exec o s).
Proof.
  intros Ho. destruct o; try done; cbn [pm_exec].
  - unfold ove_pm_deinit. run. case_match; [by apply inert_same|]. split; [done|].
    exists [EvTeardown; EvMutexDeinit]. cbn [fst snd ctx env log]. rewrite <-app_assoc.
    split; [done|]. by repeat constructor.
  - unfold ove_pm_set_state. run. case_match; [by apply inert_same|].
    case_match; [by apply inert_same|]. case_match; [by apply inert_locked|]. ev_step.
    destruct (OVE_PM_STATE_ACTIVE <? st)%nat; apply inert_locked; simpl; by rewrite ?Hc, ?Hl.
  - by apply inert_same.
  - unfold ove_pm_wake_register. run.
    destruct s0, (initialized (ctx s)); try by apply inert_same.
    destruct (find_idx _ _); by apply inert_locked.
  - unfold ove_pm_wake_unregister. run.
    destruct s0, (initialized (ctx s)); try by apply inert_same.
    destruct (find_idx _ _); by apply inert_locked.
  - unfold ove_pm_set_policy. run. case_match; [by apply inert_same|by apply inert_locked].
  - unfold ove_pm_notify_register. run. case_match; [by apply inert_same|].
    case_match; by apply inert_locked.
  - unfold ove_pm_notify_unregister. run. case_match; [by apply inert_same|].
    destruct (find_idx _ _); by apply inert_locked.
  - unfold ove_pm_get_stats. run. case_match; [by apply inert_same|]. ev_step.
    apply inert_locked; simpl; by rewrite ?Hc, ?Hl.
  - unfold ove_pm_reset_stats. run. case_match; [by apply inert_same|]. ev_step.
    apply inert_locked; simpl; by rewrite ?Hc, ?Hl.
  - unfold ove_pm_set_budget. run. case_match; by apply inert_same.
  - unfold ove_pm_get_budget_status, ove_pm_get_stats. run.
    destruct o, (initialized (ctx s)) eqn:Hin; try by apply inert_same.
    cbn [negb orb fst snd ctx env log]. rewrite Hin. cbn [negb orb fst snd ctx env log].
    ev_step. apply inert_locked; simpl; by rewrite ?Hc, ?Hl.
  - destruct (idle_process_cases s) as
      [[_ ->]|[(_ & _ & ->)|[(_ & _ & Hc & Hl)|(_ & _ & r & t & s0 & Hc & Hl & Hr & ->)]]].
    + by apply inert_same.
    + unfold idle_activity. run. ev_step.
      case_match; [apply inert_same; simpl; by rewrite ?Hc, ?Hl|]. ev_step.
      apply inert_locked; simpl; by rewrite ?Hc0, ?Hl0, ?Hc, ?Hl.
    + apply inert_same; [by rewrite Hc|done].
    + destruct (idle_sleep_spec r t s0) as (t1 & t2 & _ & _ & Hc' & Hl').
      split; [by rewrite Hc', Hc|]. exists (sleep_evs r t (ctx s0)).
      rewrite Hl', Hl. split; [done|apply sleep_evs_no_domain].
Qed.

Definition domains_agree (s : pm W) : Prop :=
  forall d, (d < OVE_PM_DOMAIN_COUNT)%nat ->
  domain_on d (log s) = (0 <? aget 0 (domain_refcount (ctx s)) d).

Lemma agree_inert s s' : inert s s' -> domains_agree s -> domains_agree s'.
Proof.
  intros [Hr (k & Hl & Hk)] Ha d Hd. rewrite Hl, Hr, domain_on_inert by done. by apply Ha.
Qed.

(** A step that only changes domain [d] preserves agreement if it does so
    for [d]. *)
Lemma agree_update s s' d r k :
  domain_refcount (ctx s') = aset (domain_refcount (ctx s)) d r -> log s' = log s ++ k ->
  pm_inv (ctx s) -> (d < OVE_PM_DOMAIN_COUNT)%nat ->
  (forall d' on, d' <> d -> foldl (domain_step d') on k = on) ->
  foldl (domain_step d) (domain_on d (log s)) k = (0 <? r) ->
  domains_agree s -> domains_agree s'.
Proof.
  intros Hr Hl Hi Hd Hother Hself Ha d' Hd'. rewrite Hl, Hr, domain_on_app.
  destruct (decide (d' = d)) as [->|Hne].
  - rewrite aget_aset_eq by (rewrite (inv_len_dom _ Hi); done). done.
  - rewrite aget_aset_ne by done. rewrite Hother by done. by apply Ha.
Qed.

Lemma agree_request d s :
  pm_inv (ctx s) -> domains_agree s -> domains_agree (ove_pm_domain_request d s).2.
Proof.
  intros Hi Ha. unfold ove_pm_domain_request. run.
  destruct (_ || _) eqn:Hg; [done|].
  assert (Hd : (d < OVE_PM_DOMAIN_COUNT)%nat).
  { apply orb_false_iff in Hg as [Hg _]. by apply Nat.leb_gt. }
  pose proof (Forall_aget _ 0 _ d (inv_refs _ Hi) (Z.le_refl 0)) as Hnn. simpl in Hnn.
  pose proof (Ha d Hd) as Had.
  destruct (_ =? 0) eqn:Hz.
  - destruct (env_domain_enable d _) as [rc w]. cbn [fst snd ctx env log].
    destruct (rc =? OVE_OK) eqn:Hrc; cbn [fst snd ctx env log].
    + eapply (agree_update s _ d _ [EvLock; EvEnable d rc; EvUnlock]); [done|..|done].
      * cbn [log]. by rewrite <-!app_assoc.
      * done.
      * done.
      * intros d' on Hne. simpl. by rewrite (proj2 (Nat.eqb_neq d d')).
      * simpl. rewrite Nat.eqb_refl, Hrc. simpl. lia.
    + intros d' Hd'. cbn [log ctx]. rewrite <-!app_assoc, domain_on_app. simpl.
      rewrite Hrc, andb_false_r. by apply Ha.
  - rewrite Z.eqb_refl. cbn [fst snd ctx env log].
    eapply (agree_update s _ d _ [EvLock; EvUnlock]); [done|..|done]; try done.
    + cbn [log]. by rewrite <-!app_assoc.
    + simpl. rewrite Had. lia.
Qed.

Lemma agree_release d s :
  pm_inv (ctx s) -> domains_agree s -> domains_agree (ove_pm_domain_release d s).2.
Proof.
  intros Hi Ha. unfold ove_pm_domain_release. run.
  destruct (_ || _) eqn:Hg; [done|].
  assert (Hd : (d < OVE_PM_DOMAIN_COUNT)%nat).
  { apply orb_false_iff in Hg as [Hg _]. by apply Nat.leb_gt. }
  destruct (aget 0 (domain_refcount (ctx s)) d <=? 0) eqn:Hz.
  { eapply agree_inert; [|done]. by apply inert_locked. }
  cbn [fst snd ctx env log domain_refcount].
  rewrite aget_aset_eq by (rewrite (inv_len_dom _ Hi); done).
  destruct (_ =? 0) eqn:Hz'.
  - destruct (env_domain_disable d _) as [rc w]. cbn [fst snd ctx env log].
    eapply (agree_update s _ d _ [EvLock; EvDisable d rc; EvUnlock]); [done|..|done].
    + cbn [log]. by rewrite <-!app_assoc.
    + done.
    + done.
    + intros d' on Hne. simpl. by rewrite (proj2 (Nat.eqb_neq d d')).
    + simpl. rewrite Nat.eqb_refl. lia.
  - cbn [fst snd ctx env log].
    eapply (agree_update s _ d _ [EvLock; EvUnlock]); [done|..|done]; try done.
    + cbn [log]. by rewrite <-!app_assoc.
    + simpl. rewrite (Ha d Hd). lia.
Qed.

(** One initialisation followed by any calls but another [ove_pm_init]. *)
Inductive pm_session : pm W -> Prop :=
  | session_init cf w s :
    ove_pm_init (Some cf) (mk_pm pm_ctx_zero w []) = (OVE_OK, s) -> pm_session s
  | session_step s o :
    pm_session s -> (forall c, o <> OpInit c) -> pm_session (pm_exec o s).

Lemma session_agree s : pm_session s -> pm_inv (ctx s) /\ domains_agree s.
Proof.
  induction 1 as [cf w s Hinit|s o _ [Hi Ha] Ho].
  - apply init_ok in Hinit as (Hi & _ & _ & Hd & rc & Hl). split; [done|].
    intros d Hd'. rewrite Hl, Hd. unfold aget. by rewrite lookup_replicate_2.
  - split; [by apply inv_exec|].
    destruct (switches_domain o) eqn:Hsw; [|by eapply agree_inert; [apply exec_inert|]].
    destruct o; try done; cbn [pm_exec].
    + by destruct (Ho c).
    + by apply agree_request.
    + by apply agree_release.
Qed.

(** Reference-counted power domains refine an on/off switch per domain:
    throughout a session, a domain is switched on at the HAL (its last
    successful enable was not followed by a disable) exactly when its
    reference count is positive, including when the HAL refuses to enable
    it. *)
Theorem pm_domain_switch s d :
  pm_session s -> (d < OVE_PM_DOMAIN_COUNT)%nat ->
  domain_on d (log s) = (0 <? aget 0 (domain_refcount (ctx s)) d).
Proof. intros [_ Ha]%session_agree Hd. by apply Ha. Qed.

(** ** Notifier table *)

(** The registered notifiers, in order. *)
Definition live (c : pm_ctx) : list pm_notifier_entry := take (notifier_count c) (notifiers c).
Definition is_entry (cb ud : Z) (n : pm_notifier_entry) : bool :=
  (fn n =? cb) && (user_data n =? ud).

(** The notifier table refines an ordered list of at most four
    callbacks: registration appends or reports NO_MEMORY when full, and
    unregistration deletes the first matching entry, keeping the order of
    the rest, or reports NOT_REGISTERED. *)
Theorem pm_notifier_refines_list s cb ud :
  pm_inv (ctx s) -> initialized (ctx s) = true -> cb <> 0 ->
  let l := live (ctx s) in
  (let '(rc, s') := ove_pm_notify_register cb ud s in
   if (length l <? CONFIG_OVE_PM_MAX_NOTIFIERS)%nat
   then rc = OVE_OK /\ live (ctx s') = l ++ [{| fn := cb; user_data := ud |}]
   else rc = OVE_ERR_NO_MEMORY /\ ctx s' = ctx s) /\
  (let '(rc, s') := ove_pm_notify_unregister cb ud s in
   match find_idx (is_entry cb ud) l with
   | Some i => rc = OVE_OK /\ live (ctx s') = delete i l
   | None => rc = OVE_ERR_NOT_REGISTERED /\ ctx s' = ctx s
   end).
Proof.
  intros Hi Hin Hcb. cbv zeta.
  assert (Hlen : length (live (ctx s)) = notifier_count (ctx s)).
  { unfold live. rewrite length_take, (inv_len_notif _ Hi). pose proof (inv_count _ Hi). lia. }
  assert (Hz : (cb =? 0) = false) by lia.
  split.
  - unfold ove_pm_notify_register. run. rewrite Hin, Hz. cbn [orb negb].
    rewrite Hlen, Nat.ltb_antisym.
    destruct (_ <=? _)%nat eqn:Hfull; cbn [negb]; [done|]. split; [done|].
    apply Nat.leb_gt in Hfull. unfold live. cbn [notifier_count notifiers ctx].
    erewrite take_S_r; [|apply list_lookup_insert_eq; rewrite (inv_len_notif _ Hi); done].
    unfold aset. by rewrite take_insert_ge.
  - unfold ove_pm_notify_unregister. run. rewrite Hin, Hz. cbn [orb negb].
    fold (is_entry cb ud). change (take _ _) with (live (ctx s)).
    destruct (find_idx _ _) as [i|] eqn:Hf; [|done]. split; [done|].
    apply find_idx_lt in Hf. rewrite Hlen in Hf. unfold live. cbn [notifier_count notifiers ctx].
    unfold aset. rewrite take_insert_ge by lia.
    rewrite shift_down_take; [done|lia|rewrite (inv_len_notif _ Hi); apply Hi].
Qed.

(** ** Wake table *)

(** The registered wake sources. *)
Definition sources (l : list pm_wake_entry) : list ove_pm_wake_src :=
  src <$> filter (fun e => registered e = true) l.

Lemma sources_app l k : sources (l ++ k) = sources l ++ sources k.
Proof. unfold sources. by rewrite filter_app, fmap_app. Qed.

Lemma sources_cons e l :
  sources (e :: l) = (if registered e then [src e] else []) ++ sources l.
Proof. unfold sources. rewrite filter_cons. by destruct (registered e). Qed.

Lemma sources_aset l i x y :
  l !! i = Some x ->
  (if registered x then [src x] else []) ++ sources (aset l i y) ≡ₚ
  (if registered y then [src y] else []) ++ sources l.
Proof.
  intros Hx. rewrite <-(take_drop_middle l i x Hx) at 2. unfold aset.
  rewrite insert_take_drop by (by eapply lookup_lt_Some).
  rewrite !sources_app, !sources_cons. solve_Permutation.
Qed.

Lemma sources_full l : Forall (fun e => negb (registered e) = false) l ->
  length (sources l) = length l.
Proof.
  induction 1 as [|e l He _ IH]; [done|]. rewrite sources_cons.
  destruct (registered e); [|done]. simpl. by rewrite IH.
Qed.

(** The wake table refines a bag of at most eight sources:
    registration adds the source, or reports NO_MEMORY when all eight
    slots are taken; unregistration removes one registered source
    matching the argument, or reports NOT_REGISTERED when none does. *)
Theorem pm_wake_refines_bag s x :
  pm_inv (ctx s) -> initialized (ctx s) = true ->
  let l := sources (wake_table (ctx s)) in
  (let '(rc, s') := ove_pm_wake_register (Some x) s in
   rc = OVE_OK /\ sources (wake_table (ctx s')) ≡ₚ x :: l \/
   rc = OVE_ERR_NO_MEMORY /\ ctx s' = ctx s /\
   length l = CONFIG_OVE_PM_MAX_WAKE_SOURCES) /\
  (let '(rc, s') := ove_pm_wake_unregister (Some x) s in
   rc = OVE_OK /\ (exists y, wake_src_match y x = true /\
                  l ≡ₚ y :: sources (wake_table (ctx s'))) \/
   rc = OVE_ERR_NOT_REGISTERED /\ ctx s' = ctx s /\
   Forall (fun y => wake_src_match y x = false) l).
Proof.
  intros Hi Hin. cbv zeta. split.
  - unfold ove_pm_wake_register. run. rewrite Hin.
    destruct (find_idx _ _) as [i|] eqn:Hf.
    + left. split; [done|]. apply find_idx_Some in Hf as [(e & He & Hr) _].
      pose proof (sources_aset _ i e {| src := x; registered := true |} He) as Hp.
      by destruct (registered e).
    + right. split_and!; [done..|]. rewrite sources_full; [apply Hi|].
      by apply find_idx_None.
  - unfold ove_pm_wake_unregister. run. rewrite Hin.
    destruct (find_idx _ _) as [i|] eqn:Hf.
    + left. split; [done|]. apply find_idx_Some in Hf as [(e & He & Hr) _].
      apply andb_true_iff in Hr as [Hr Hm]. exists (src e). split; [done|].
      pose proof (sources_aset _ i e
        {| src := src (aget null_wake (wake_table (ctx s)) i); registered := false |} He) as Hp.
      rewrite Hr in Hp. by symmetry.
    + right. split_and!; [done..|]. apply find_idx_None in Hf.
      unfold sources. rewrite Forall_fmap, Forall_forall. intros e [Hr He]%list_elem_of_filter.
      rewrite Forall_forall in Hf. specialize (Hf e He). simpl in *. by rewrite Hr in Hf.
Qed.

(** ** Budget *)

Lemma sumZ_bound i l : Forall (fun x => 0 <= x) l -> 0 <= aget 0 l i <= sumZ l.
Proof.
  unfold aget. intros Hl. revert i. induction Hl as [|x l Hx Hl IH]; intros i; simpl; [lia|].
  assert (0 <= sumZ l) by (specialize (IH 0%nat); lia).
  destruct i as [|i]; simpl; [lia|]. specialize (IH i). lia.
Qed.

Lemma stats_pct_bound now c :
  pm_inv c -> state_entry_us c <= now ->
  (sumZ (time_in_state_us c) + (now - state_entry_us c)) * 10000 < 2 ^ 64 ->
  0 <= st_active_pct_x100 (ctx_stats now c) <= 10000.
Proof.
  intros Hi Hmono Hup.
  assert (Hnn : Forall (fun x => 0 <= x) (time_in_state_us c)).
  { eapply Forall_impl; [apply Hi|]. by intros x [? ?]. }
  set (l := time_in_state_us c) in *. set (d := now - state_entry_us c) in *.
  pose proof (sumZ_bound (current_state c) l Hnn) as Hcur.
  assert (Hlt : (current_state c < length l)%nat).
  { subst l. rewrite (inv_len_time _ Hi). apply Hi. }
  unfold ctx_stats. cbn [st_active_pct_x100]. fold l d.
  rewrite (wrap_small 64 d) by (unfold is_word; lia).
  rewrite (wrap_small 64 (_ + d)) by (unfold is_word; lia).
  set (tis := aset l _ _).
  assert (Hsum : sumZ tis = sumZ l + d) by (unfold tis; rewrite sumZ_aset by done; lia).
  assert (Htn : Forall (fun x => 0 <= x) tis) by (apply Forall_aset; [done|lia]).
  pose proof (sumZ_bound OVE_PM_STATE_ACTIVE tis Htn) as Hact.
  rewrite foldl_u64 by done. rewrite Z.add_0_l, Hsum.
  rewrite (wrap_small 64 (sumZ l + d)) by (unfold is_word; lia).
  destruct (0 <? sumZ l + d) eqn:Hpos; [|lia].
  rewrite (wrap_small 64 (_ * 10000)) by (unfold is_word; lia).
  set (a := aget 0 tis OVE_PM_STATE_ACTIVE) in *.
  assert (0 <= a * 10000 / (sumZ l + d) <= 10000).
  { split; [apply Z.div_pos; lia|]. apply Z.div_le_upper_bound; lia. }
  rewrite wrap_small by (unfold is_word; lia). done.
Qed.

(** While the tracked uptime stays below [2^64 / 10000] microseconds
    (some 58 years), the low-power percentage reported by
    [ove_pm_get_budget_status] is within 0..10000 hundredths: neither the
    percentage multiplication nor the final subtraction wraps. *)
Theorem pm_budget_in_range s :
  pm_inv (ctx s) -> initialized (ctx s) = true ->
  state_entry_us (ctx s) <= stats_clock s ->
  (sumZ (time_in_state_us (ctx s)) + (stats_clock s - state_entry_us (ctx s))) * 10000 < 2 ^ 64 ->
  exists p, (ove_pm_get_budget_status true s).1 = (OVE_OK, Some p) /\ 0 <= p <= 10000.
Proof.
  intros Hi Hin Hmono Hup. unfold ove_pm_get_budget_status, ove_pm_get_stats, stats_clock in *.
  run. rewrite Hin. cbn [negb orb fst snd ctx env log]. rewrite Hin. cbn [negb orb].
  ev_step. eexists. split; [done|]. rewrite Hc.
  pose proof (stats_pct_bound now (ctx s) Hi Hmono Hup).
  rewrite wrap_small; [lia|]. unfold is_word. lia.
Qed.
End invariant_exec.

(** The default policy never recommends a shallower state for a longer idle
    time or a later next timeout. *)
Lemma default_policy_monotone c i1 i2 t1 t2 :
  i1 <= i2 -> t1 <= t2 -> (default_policy c i1 t1 <= default_policy c i2 t2)%nat.
Proof. intros. unfold default_policy. repeat case_match; pm_lia. Qed.

(** ** A concrete environment

    A free-running clock that advances 250 ms per read, a HAL that accepts
    every request and reports the next timeout in one minute. *)

Module Demo.
#[local] Instance env : PmEnv Z := {|
  env_time_get_us := fun t => (Some t, t + 250000);
  env_mutex_init := fun t => (OVE_OK, t);
  env_mutex_deinit := fun t => t;
  env_mutex_lock := fun t => t;
  env_mutex_unlock := fun t => t;
  env_setup := fun t => (OVE_OK, t);
  env_teardown := fun t => t;
  env_enter_state := fun _ _ t => t + 5000;
  env_wake_arm := fun _ t => t;
  env_wake_disarm := fun _ t => t;
  env_domain_enable := fun _ t => (OVE_OK, t);
  env_domain_disable := fun _ t => (OVE_OK, t);
  env_next_timeout_ms := fun t => (60000, t);
  env_policy := fun _ _ _ _ _ t => (OVE_PM_STATE_IDLE, t);
  env_notify := fun _ _ _ _ _ t => t |}.

Definition boot : pm Z := mk_pm pm_ctx_zero 0 [].
Definition thresholds : ove_pm_cfg :=
  {| idle_threshold_ms := 10; standby_threshold_ms := 50; deep_sleep_threshold_ms := 1000 |}.
Definition up : pm Z := pm_exec (OpInit (Some thresholds)) boot.
Definition wired : pm Z :=
  pm_exec (OpNotifyRegister 4096 7)
    (pm_exec (OpWakeRegister (Some (OVE_PM_WAKE_TIMER 100)))
      (pm_exec (OpDomainRequest 2) up)).

(** One idle tick of a configured system, 750 ms after the last activity. *)
Example idle_tick_log :
  log (pm_exec OpIdleProcess wired) =
  log wired ++
  [EvLock; EvNotify 4096 OVE_PM_EVENT_PRE_SLEEP 0 2 7; EvArm (OVE_PM_WAKE_TIMER 100);
   EvEnter 2 60000; EvDisarm (OVE_PM_WAKE_TIMER 100);
   EvNotify 4096 OVE_PM_EVENT_POST_WAKE 2 0 7; EvUnlock].
Proof. vm_compute. reflexivity. Qed.

Lemma pm_lock_discipline_witness :
  lock_run (log (pm_exec OpIdleProcess wired)) = Some false.
Proof. apply pm_lock_discipline. unfold wired, up. repeat constructor. Defined.


Lemma up_ok : ove_pm_init (Some thresholds) boot = (OVE_OK, up).
Proof. reflexivity. Qed.

Lemma pm_time_accounting_witness :
  exists st, (ove_pm_get_stats true (pm_exec OpIdleProcess wired)).1 = (OVE_OK, Some st) /\
    st_total_runtime_us st = u64 (stats_clock (pm_exec OpIdleProcess wired) - 0).
Proof.
  apply pm_time_accounting; [|reflexivity].
  unfold wired. repeat (apply tracked_step; [|exact I]).
  exact (tracked_init thresholds boot up up_ok).
Defined.

Lemma pm_idle_default_policy_witness :
  log (ove_pm_idle_process wired).2 = log wired ++ sleep_evs 2 60000 (ctx wired).
Proof.
  exact (pm_idle_default_policy wired eq_refl eq_refl eq_refl).
Defined.

Lemma pm_domain_switch_witness :
  domain_on 2 (log wired) = (0 <? aget 0 (domain_refcount (ctx wired)) 2).
Proof.
  apply pm_domain_switch; [|unfold OVE_PM_DOMAIN_COUNT; lia].
  unfold wired. repeat (apply session_step; [|by intros c]).
  exact (session_init thresholds 0 up up_ok).
Defined.

Lemma wired_inv : pm_inv (ctx wired).
Proof. unfold wired, up. do 4 apply inv_exec. apply pm_inv_zero. Qed.

Lemma pm_notifier_refines_list_witness :
  let l := live (ctx wired) in
  (let '(rc, s') := ove_pm_notify_register 4096 7 wired in
   rc = OVE_OK /\ live (ctx s') = l ++ [{| fn := 4096; user_data := 7 |}]) /\
  (let '(rc, s') := ove_pm_notify_unregister 4096 7 wired in
   rc = OVE_OK /\ live (ctx s') = delete 0%nat l).
Proof. exact (pm_notifier_refines_list wired 4096 7 wired_inv eq_refl ltac:(done)). Defined.

Lemma pm_wake_refines_bag_witness :
  let l := sources (wake_table (ctx wired)) in
  let x := OVE_PM_WAKE_TIMER 100 in
  let '(rc, s') := ove_pm_wake_unregister (Some x) wired in
  rc = OVE_OK /\ (exists y, wake_src_match y x = true /\ l ≡ₚ y :: sources (wake_table (ctx s'))) \/
  rc = OVE_ERR_NOT_REGISTERED /\ ctx s' = ctx wired /\
  Forall (fun y => wake_src_match y x = false) l.
Proof. exact (proj2 (pm_wake_refines_bag wired (OVE_PM_WAKE_TIMER 100) wired_inv eq_refl)). Defined.

Lemma pm_budget_in_range_witness :
  exists p, (ove_pm_get_budget_status true wired).1 = (OVE_OK, Some p) /\ 0 <= p <= 10000.
Proof.
  apply (pm_budget_in_range wired wired_inv eq_refl); vm_compute; done.
Defined.
End Demo.
