(* ===== verification/Arena.v ===== *)
(** * Region allocator (backends/common/ove_arena.c)

    A first-fit free-list allocator over a caller-supplied buffer.  Block
    headers sit in the buffer itself and are linked both ways in address
    order.  The model keeps the pointer structure: headers are stored by
    address in a finite map, links are addresses ([0] is [NULL]).  The
    theorems relate it to an abstract allocator on the list of blocks that
    tile the region. *)

From S2P Require Import Prelude.

(** ** Data *)

(** The width of [size_t] and of pointers; the allocator is built for
    32-bit targets and for the 64-bit host. *)
Class Platform := { size_bits : Z; size_bits_cases : size_bits = 32 \/ size_bits = 64 }.

Definition ARENA_MAGIC : Z := 0x4f415242.
Definition OVE_ARENA_ALIGN : Z := 16.

Record ove_arena_blk := {
  next : Z;
  prev : Z;
  payload : Z;
  is_free : bool;
  magic : Z }.

Record ove_arena := {
  base : Z;
  size : Z;
  used : Z;
  high_water : Z;
  first : Z }.

(** The control block, the headers by address, and the payload bytes. *)
Record arena_st := mk_arena {
  ctl : ove_arena;
  hdrs : gmap Z ove_arena_blk;
  data : Z -> Z }.

Section arena.
Context {P : Platform}.

(** What a header read returns at an address that holds no header:
    whatever bytes the application left there. *)
Context (raw : Z -> ove_arena_blk).

Definition usz (z : Z) : Z := wrap size_bits z.

(** [n & ~(size_t)(OVE_ARENA_ALIGN - 1)] *)
Definition align_down (n : Z) : Z := Z.land n (Z.lnot (OVE_ARENA_ALIGN - 1)).

Definition arena_align (n : Z) : Z := align_down (usz (n + (OVE_ARENA_ALIGN - 1))).

(** [sizeof(struct ove_arena_blk)]: three pointer-sized fields and two
    [uint32_t]; no tail padding on either platform. *)
Definition sizeof_blk : Z := 3 * (size_bits / 8) + 8.
Definition ARENA_HDR : Z := arena_align sizeof_blk.

Definition blk_payload (b : Z) : Z := b + ARENA_HDR.
Definition payload_blk (p : Z) : Z := p - ARENA_HDR.

Definition rd (m : gmap Z ove_arena_blk) (b : Z) : ove_arena_blk := default (raw b) (m !! b).
Definition wr (b : Z) (f : ove_arena_blk -> ove_arena_blk) (m : gmap Z ove_arena_blk) :
  gmap Z ove_arena_blk := <[b := f (rd m b)]> m.

(** [memset(p, v, n)] on payload bytes. *)
Definition fill (p n v : Z) (d : Z -> Z) : Z -> Z :=
  fun a => if (p <=? a) && (a <? p + n) then v else d a.

Definition arena_lay_first (s : arena_st) : arena_st :=
  let a := ctl s in
  let f := base a in
  let h := {| next := 0; prev := 0;
          payload := align_down (usz (size a - ARENA_HDR));
          is_free := true; magic := ARENA_MAGIC |} in
  mk_arena {| a with first := f; used := 0 |} (<[f := h]> (hdrs s)) (data s).

(** [arena = None] is a NULL control block, [buf = 0] a NULL buffer. *)
Definition ove_arena_init (arena : option arena_st) (buf sz : Z) : Z * option arena_st :=
  match arena with
  | None => (OVE_ERR_INVALID_PARAM, None)
  | Some s =>
      if buf =? 0 then (OVE_ERR_INVALID_PARAM, Some s) else
      let raw_ := buf in
      let start := align_down (usz (raw_ + (OVE_ARENA_ALIGN - 1))) in
      let adjust := usz (start - raw_) in
      if (sz <=? adjust) || (usz (sz - adjust) <? ARENA_HDR + OVE_ARENA_ALIGN)
      then (OVE_ERR_NO_MEMORY, Some s) else
      let usable := usz (sz - adjust) in
      (OVE_OK,
       Some (arena_lay_first
       (mk_arena {| (ctl s) with base := buf + adjust; size := usable; high_water := 0 |}
                 (hdrs s) (data s))))
  end.

(** [while (b && !(b->is_free && b->payload >= need)) b = b->next;]
    [None]: the fuel ran out. *)
Fixpoint find_fit (fuel : nat) (m : gmap Z ove_arena_blk) (b need : Z) : option Z :=
  match fuel with
  | O => None
  | S fuel =>
      if b =? 0 then Some 0
      else let h := rd m b in
         if is_free h && (need <=? payload h) then Some b
         else find_fit fuel m (next h) need
  end.

(** The split of block [b] into [need] bytes and a free remainder. *)
Definition arena_split (b need : Z) (m : gmap Z ove_arena_blk) : gmap Z ove_arena_blk :=
  let h := rd m b in
  if usz (need + ARENA_HDR + OVE_ARENA_ALIGN) <=? payload h then
  let rem := b + ARENA_HDR + need in
  let m := <[rem := {| payload := usz (payload h - need - ARENA_HDR); is_free := true;
                     magic := ARENA_MAGIC; prev := b; next := next h |}]> m in
  let m := if next h =? 0 then m
         else wr (next h) (fun x => {| x with prev := rem |}) m in
  wr b (fun x => {| x with next := rem; payload := need |}) m
  else m.

(** The returned pointer ([0] is NULL) and the new state; [None] when the
    list walk runs out of fuel, which the invariant rules out. *)
Definition ove_arena_alloc (arena : option arena_st) (sz : Z) : option (Z * option arena_st) :=
  match arena with
  | None => Some (0, None)
  | Some s =>
      let a := ctl s in
      if first a =? 0 then Some (0, Some s) else
      let need := arena_align (if sz =? 0 then 1 else sz) in
      b ← find_fit (S (map_size (hdrs s))) (hdrs s) (first a) need;
      if b =? 0 then Some (0, Some s) else
      let m := arena_split b need (hdrs s) in
      let m := wr b (fun x => {| x with is_free := false |}) m in
      let u := usz (used a + usz (ARENA_HDR + payload (rd m b))) in
      let a := {| a with used := u;
                high_water := if high_water a <? u then u else high_water a |} in
      Some (blk_payload b, Some (mk_arena a m (data s)))
  end.

Definition ove_arena_calloc (arena : option arena_st) (sz : Z) : option (Z * option arena_st) :=
  r ← ove_arena_alloc arena sz;
  match r with
  | (p, Some s) =>
      if p =? 0 then Some (p, Some s)
      else Some (p, Some (mk_arena (ctl s) (hdrs s)
                          (fill p (payload (rd (hdrs s) (payload_blk p))) 0 (data s))))
  | (p, None) => Some (p, None)
  end.

Definition ove_arena_owns (arena : option arena_st) (ptr : Z) : bool :=
  match arena with
  | None => false
  | Some s => if ptr =? 0 then false
          else (base (ctl s) <=? ptr) && (ptr <? base (ctl s) + size (ctl s))
  end.

(** Forward coalescing of [b] with its successor. *)
Definition coalesce_fwd (b : Z) (m : gmap Z ove_arena_blk) : gmap Z ove_arena_blk :=
  let n := next (rd m b) in
  if negb (n =? 0) && is_free (rd m n) then
  let hn := rd m n in
  let m := wr b (fun x => {| x with payload := usz (payload x + usz (ARENA_HDR + payload hn));
                           next := next hn |}) m in
  let m := if next hn =? 0 then m
         else wr (next hn) (fun x => {| x with prev := b |}) m in
  wr n (fun x => {| x with magic := 0 |}) m
  else m.

(** Backward coalescing of [b] into its predecessor. *)
Definition coalesce_bwd (b : Z) (m : gmap Z ove_arena_blk) : gmap Z ove_arena_blk :=
  let p := prev (rd m b) in
  if negb (p =? 0) && is_free (rd m p) then
  let hb := rd m b in
  let m := wr p (fun x => {| x with payload := usz (payload x + usz (ARENA_HDR + payload hb));
                           next := next hb |}) m in
  let m := if next hb =? 0 then m
         else wr (next hb) (fun x => {| x with prev := p |}) m in
  wr b (fun x => {| x with magic := 0 |}) m
  else m.

Definition ove_arena_free (arena : option arena_st) (ptr : Z) : option arena_st :=
  match arena with
  | None => None
  | Some s =>
      if (ptr =? 0) || negb (ove_arena_owns (Some s) ptr) then Some s else
      let b := payload_blk ptr in
      let h := rd (hdrs s) b in
      if negb (magic h =? ARENA_MAGIC) || is_free h then Some s else
      let m := wr b (fun x => {| x with is_free := true |}) (hdrs s) in
      let a := {| (ctl s) with used := usz (used (ctl s) - usz (ARENA_HDR + payload h)) |} in
      Some (mk_arena a (coalesce_bwd b (coalesce_fwd b m)) (data s))
  end.

Definition ove_arena_reset (arena : option arena_st) : option arena_st :=
  match arena with
  | None => None
  | Some s => if base (ctl s) =? 0 then Some s else Some (arena_lay_first s)
  end.

Definition ove_arena_used (arena : option arena_st) : Z := if arena is Some s then used (ctl s) else 0.
Definition ove_arena_capacity (arena : option arena_st) : Z := if arena is Some s then size (ctl s) else 0.
Definition ove_arena_high_water (arena : option arena_st) : Z :=
  if arena is Some s then high_water (ctl s) else 0.

End arena.

(** ** The abstract allocator: a list of blocks tiling the region *)

Record ablk := { addr : Z; len : Z; fr : bool }.

Definition HDR : Z := 32.

(** First fit, splitting when the tail can host a header and a minimum slot. *)
Fixpoint spec_alloc (need : Z) (bs : list ablk) : option (Z * list ablk) :=
  match bs with
  | [] => None
  | b :: r =>
    if fr b && (need <=? len b) then
      Some (addr b + HDR,
            if need + HDR + OVE_ARENA_ALIGN <=? len b
            then {| addr := addr b; len := need; fr := false |}
                 :: {| addr := addr b + HDR + need; len := len b - need - HDR; fr := true |} :: r
            else {| addr := addr b; len := len b; fr := false |} :: r)
    else '(p, r') ← spec_alloc need r; Some (p, b :: r')
  end.

(** Push a block onto a coalesced list, merging it with a free head. *)
Definition merge (b : ablk) (bs : list ablk) : list ablk :=
  match bs with
  | n :: r => if fr b && fr n
              then {| addr := addr b; len := len b + HDR + len n; fr := true |} :: r
              else b :: n :: r
  | [] => [b]
  end.

(** Append [r] to [l], merging across the seam. *)
Fixpoint join (l r : list ablk) : list ablk :=
  match l with
  | [] => r
  | b :: l' => match l' with [] => merge b r | _ :: _ => b :: join l' r end
  end.

(** Free the block [b] that sits between [l1] and [l2]: mark it free and
    coalesce it with both neighbours. *)
Definition spec_free (l1 : list ablk) (b : ablk) (l2 : list ablk) : list ablk :=
  join l1 (merge {| addr := addr b; len := len b; fr := true |} l2).

(** Footprint of the allocated blocks. *)
Definition footprint (b : ablk) : Z := if fr b then 0 else HDR + len b.
Definition sum_used (bs : list ablk) : Z := sumZ (footprint <$> bs).

(** [tiles a bs e]: the blocks cover [a, e) without gaps or overlaps, with
    aligned, non-empty payloads. *)
Fixpoint tiles (a : Z) (bs : list ablk) (e : Z) : Prop :=
  match bs with
  | [] => a = e
  | b :: r => addr b = a /\ 0 < len b /\ len b mod OVE_ARENA_ALIGN = 0 /\
              tiles (a + HDR + len b) r e
  end.

(** No two neighbouring free blocks. *)
Fixpoint coalesced (bs : list ablk) : Prop :=
  match bs with
  | b :: r => match r with n :: _ => fr b && fr n = false | [] => True end /\ coalesced r
  | [] => True
  end.

(** ** The pointer structure represents a block list *)

Definition hd_addr (bs : list ablk) (n : Z) : Z :=
  match bs with [] => n | b :: _ => addr b end.
Fixpoint last_addr (p : Z) (bs : list ablk) : Z :=
  match bs with [] => p | b :: r => last_addr (addr b) r end.

Definition hdr_of (b : ablk) (p n : Z) : ove_arena_blk :=
  {| next := n; prev := p; payload := len b; is_free := fr b; magic := ARENA_MAGIC |}.

(** A doubly linked segment for [bs], entered from [p], leaving to [n]. *)
Fixpoint dll (m : gmap Z ove_arena_blk) (p : Z) (bs : list ablk) (n : Z) : Prop :=
  match bs with
  | [] => True
  | b :: r => m !! addr b = Some (hdr_of b p (hd_addr r n)) /\ dll m (addr b) r n
  end.

Lemma dll_app m p l1 l2 n :
  dll m p (l1 ++ l2) n <-> dll m p l1 (hd_addr l2 n) /\ dll m (last_addr p l1) l2 n.
Proof.
  revert p. induction l1 as [|b l1 IH]; intros p; simpl; [tauto|].
  rewrite IH. destruct l1; simpl; tauto.
Qed.

Lemma dll_frame m p bs n a h :
  a ∉ (addr <$> bs) -> dll m p bs n -> dll (<[a := h]> m) p bs n.
Proof.
  revert p. induction bs as [|b bs IH]; intros p; simpl; [done|].
  rewrite not_elem_of_cons. intros [Hne Hni] [Hb Hd]. split; [|by apply IH].
  by rewrite lookup_insert_ne.
Qed.

Lemma tiles_app a l1 l2 e :
  tiles a (l1 ++ l2) e <-> exists c, tiles a l1 c /\ tiles c l2 e.
Proof.
  revert a. induction l1 as [|b l1 IH]; intros a; simpl.
  - split; [by eauto|]. by intros (c & -> & ?).
  - rewrite IH. split.
    + intros (? & ? & ? & c & ? & ?). by exists c.
    + intros (c & (? & ? & ? & ?) & ?). split_and!; try done. by exists c.
Qed.

Lemma tiles_bounds a bs e :
  tiles a bs e -> a <= e /\ Forall (fun b => a <= addr b /\ 0 < len b /\ addr b + HDR + len b <= e) bs.
Proof.
  revert a. induction bs as [|b bs IH]; intros a; simpl; [intros ->; split; [lia|done]|].
  intros (Ha & Hl & _ & Ht). apply IH in Ht as [He Hf]. unfold HDR in *. split; [lia|].
  constructor; [lia|]. eapply Forall_impl; [done|]. simpl. lia.
Qed.

Lemma tiles_NoDup a bs e : tiles a bs e -> NoDup (addr <$> bs).
Proof.
  revert a. induction bs as [|b bs IH]; intros a; simpl; [constructor|].
  intros (Ha & Hl & _ & Ht). constructor; [|by eapply IH].
  intros (b' & Hb' & Hin)%list_elem_of_fmap.
  apply tiles_bounds in Ht as [_ Hf]. rewrite Forall_forall in Hf. apply Hf in Hin.
  unfold HDR in *. lia.
Qed.

(** Addresses strictly inside a block belong to no block. *)
Lemma tiles_fresh a l1 b l2 e x :
  tiles a (l1 ++ b :: l2) e -> addr b < x < addr b + HDR + len b ->
  x ∉ (addr <$> (l1 ++ b :: l2)).
Proof.
  rewrite tiles_app. intros (c & H1 & Hc & Hl & _ & H2) Hx (y & -> & Hin)%list_elem_of_fmap.
  apply tiles_bounds in H1 as [_ H1]. apply tiles_bounds in H2 as [_ H2].
  rewrite Forall_forall in H1, H2. unfold HDR in *.
  apply elem_of_app in Hin as [Hin|Hin]; [apply H1 in Hin; lia|].
  apply elem_of_cons in Hin as [->|Hin]; [lia|apply H2 in Hin; lia].
Qed.

Lemma not_in_addrs (a lo hi : Z) bs :
  Forall (fun b => lo <= addr b /\ 0 < len b /\ addr b + HDR + len b <= hi) bs ->
  a < lo \/ hi <= a -> a ∉ (addr <$> bs).
Proof.
  intros Hf Ha (b & -> & Hin)%list_elem_of_fmap. rewrite Forall_forall in Hf.
  apply Hf in Hin. unfold HDR in *. lia.
Qed.

Lemma sum_used_app l k : sum_used (l ++ k) = sum_used l + sum_used k.
Proof. unfold sum_used. by rewrite fmap_app, sumZ_app. Qed.

Lemma sum_used_cons b l : sum_used (b :: l) = footprint b + sum_used l.
Proof. done. Qed.

Lemma sum_used_bounds a bs e : tiles a bs e -> 0 <= sum_used bs <= e - a.
Proof.
  revert a. induction bs as [|b bs IH]; intros a; simpl; [intros ->; unfold sum_used; simpl; lia|].
  intros (Ha & Hl & _ & Ht). apply IH in Ht. rewrite sum_used_cons.
  unfold footprint, HDR in *. destruct (fr b); lia.
Qed.

(** ** Representation invariant *)

Section rep.
Context {P : Platform}.

Record arena_rep (s : arena_st) (bs : list ablk) : Prop := {
  rep_first : first (ctl s) = base (ctl s);
  rep_base : 0 < base (ctl s);
  rep_aligned : base (ctl s) mod OVE_ARENA_ALIGN = 0;
  rep_room : HDR + OVE_ARENA_ALIGN <= size (ctl s);
  rep_fits : base (ctl s) + size (ctl s) < 2 ^ size_bits;
  rep_tiles : tiles (base (ctl s)) bs
            (base (ctl s) + HDR + align_down (size (ctl s) - HDR));
  rep_dll : dll (hdrs s) 0 bs 0;
  rep_used : used (ctl s) = sum_used bs;
  rep_hw : used (ctl s) <= high_water (ctl s);
  rep_coalesced : coalesced bs }.

Lemma HDR_eq : ARENA_HDR = HDR.
Proof.
  unfold ARENA_HDR, arena_align, usz, sizeof_blk, wrap.
  by destruct size_bits_cases as [-> | ->].
Qed.

Lemma size_bits_ge : 2 ^ 32 <= 2 ^ size_bits.
Proof. destruct size_bits_cases as [-> | ->]; lia. Qed.

Lemma align_down_eq n : 0 <= n -> align_down n = n - n mod 16.
Proof.
  intros Hn. unfold align_down, OVE_ARENA_ALIGN. rewrite <-Z.ldiff_land.
  change (16 - 1) with (Z.ones 4). rewrite Z.ldiff_ones_r by lia.
  rewrite Z.shiftl_mul_pow2, Z.shiftr_div_pow2 by lia. change (2 ^ 4) with 16. dlia.
Qed.

Lemma usz_small n : 0 <= n < 2 ^ size_bits -> usz n = n.
Proof. intros. by apply wrap_small. Qed.

(** Rounding up, when it does not overflow [size_t]. *)
Lemma arena_align_spec n :
  0 < n -> n + 15 < 2 ^ size_bits ->
  arena_align n mod OVE_ARENA_ALIGN = 0 /\ n <= arena_align n < n + 16.
Proof.
  intros Hn Hb. unfold arena_align. change (OVE_ARENA_ALIGN - 1) with 15.
  rewrite usz_small by lia. rewrite align_down_eq by lia.
  unfold OVE_ARENA_ALIGN. dlia.
Qed.

(** Header reads, for any contents [raw] of the other bytes. *)
Context (raw : Z -> ove_arena_blk).

Lemma rd_insert m a h : rd raw (<[a := h]> m) a = h.
Proof. unfold rd. by rewrite lookup_insert_eq. Qed.

Lemma rd_insert_ne m a b h : a <> b -> rd raw (<[a := h]> m) b = rd raw m b.
Proof. intros. unfold rd. by rewrite lookup_insert_ne. Qed.

Lemma rd_lookup m a h : m !! a = Some h -> rd raw m a = h.
Proof. unfold rd. by intros ->. Qed.

(** The first-fit walk terminates within its fuel and finds the first block
    that fits. *)
Definition fits (need : Z) (b : ablk) : bool := fr b && (need <=? len b).

Lemma find_fit_spec m need bs p fuel :
  dll m p bs 0 -> Forall (fun b => 0 < addr b) bs -> (length bs < fuel)%nat ->
  (exists l1 b l2, bs = l1 ++ b :: l2 /\ Forall (fun x => fits need x = false) l1 /\
   fits need b = true /\ find_fit raw fuel m (hd_addr bs 0) need = Some (addr b)) \/
  (Forall (fun x => fits need x = false) bs /\
   find_fit raw fuel m (hd_addr bs 0) need = Some 0).
Proof.
  revert p fuel. induction bs as [|b bs IH]; intros p fuel Hd Ha Hf;
    (destruct fuel as [|fuel]; [simpl in Hf; lia|]); simpl in *.
  { by right. }
  destruct Hd as [Hb Hd]. inversion Ha as [|? ? Hpos Ha']; subst.
  rewrite (proj2 (Z.eqb_neq (addr b) 0)) by lia.
  rewrite (rd_lookup _ _ _ Hb). cbn [is_free payload next hdr_of].
  destruct (fr b && (need <=? len b)) eqn:Hfit.
  { left. exists [], b, bs. by split_and!. }
  destruct (IH (addr b) fuel Hd Ha') as [(l1 & c & l2 & -> & ? & ? & ?)|[? ?]]; [lia|..].
  - left. exists (b :: l1), c, l2. split_and!; try done. by constructor.
  - right. split; [by constructor|done].
Qed.

Lemma dll_size m p bs n : dll m p bs n -> NoDup (addr <$> bs) -> (length bs <= map_size m)%nat.
Proof.
  intros Hd Hnd. rewrite <-(length_fmap addr).
  rewrite <-(size_list_to_set (C:=gset Z) _ Hnd).
  change (map_size m) with (base.size m). rewrite <-size_dom.
  apply subseteq_size. intros a. rewrite elem_of_list_to_set, elem_of_dom.
  intros (b & -> & Hin)%list_elem_of_fmap. clear Hnd. revert p Hd.
  induction bs as [|c bs IH]; intros p; [by apply not_elem_of_nil in Hin|].
  intros [Hc Hd]. apply elem_of_cons in Hin as [->|Hin]; [by rewrite Hc|]. by eapply IH.
Qed.

(** ** Updating the links *)

(** [if (n) n->prev = q;] for the segment [l] that starts at [n]. *)
Definition set_prev (l : list ablk) (q : Z) (m : gmap Z ove_arena_blk) : gmap Z ove_arena_blk :=
  if hd_addr l 0 =? 0 then m
  else wr raw (hd_addr l 0) (fun x => {| x with prev := q |}) m.

Lemma dll_set_prev m p q l n :
  dll m p l n -> NoDup (addr <$> l) -> Forall (fun b => 0 < addr b) l ->
  dll (set_prev l q m) q l n.
Proof.
  intros Hd Hnd Hp. unfold set_prev. destruct l as [|d l]; [done|].
  inversion Hp as [|? ? Hpos _]; subst. inversion Hnd as [|? ? Hni _]; subst.
  cbn [hd_addr]. rewrite (proj2 (Z.eqb_neq (addr d) 0)) by lia.
  destruct Hd as [Hd Hr]. unfold wr. rewrite (rd_lookup _ _ _ Hd). simpl.
  rewrite lookup_insert_eq. split; [done|]. by apply dll_frame.
Qed.

Lemma set_prev_frame m p l' n l q :
  (forall d r, l = d :: r -> addr d ∉ (addr <$> l')) -> dll m p l' n -> dll (set_prev l q m) p l' n.
Proof.
  intros Hni Hd. unfold set_prev. destruct l as [|d l]; [done|].
  case_match; [done|]. apply dll_frame; [by eapply Hni|done].
Qed.

Lemma set_prev_lookup m l q a :
  (forall d r, l = d :: r -> addr d <> a) -> set_prev l q m !! a = m !! a.
Proof.
  intros Hne. unfold set_prev. destruct l as [|d l]; [done|].
  case_match; [done|]. unfold wr. rewrite lookup_insert_ne; [done|]. by eapply Hne.
Qed.

Lemma NoDup_mid (l1 l2 : list ablk) b :
  NoDup (addr <$> (l1 ++ b :: l2)) ->
  (addr b ∉ (addr <$> l1)) /\ (addr b ∉ (addr <$> l2)) /\ NoDup (addr <$> l2) /\
  (forall d r, l2 = d :: r -> (addr d ∉ (addr <$> l1)) /\ addr d <> addr b).
Proof.
  rewrite fmap_app, fmap_cons, NoDup_app, NoDup_cons. intros (_ & Hd & Hb & Hn).
  split_and!; [|done|done|].
  - intros Hin. by destruct (Hd _ Hin (list_elem_of_here _ _)).
  - intros d r ->. split.
    + intros Hin. apply (Hd _ Hin). right. left.
    + intros Heq. apply Hb. rewrite <-Heq. left.
Qed.

(** Rewriting the header of one block in place. *)
Lemma dll_replace m p l1 b b' l2 n :
  NoDup (addr <$> (l1 ++ b :: l2)) -> addr b' = addr b ->
  dll m p (l1 ++ b :: l2) n ->
  dll (<[addr b := hdr_of b' (last_addr p l1) (hd_addr l2 n)]> m) p (l1 ++ b' :: l2) n.
Proof.
  intros (Hb1 & Hb2 & _)%NoDup_mid Ha. rewrite !dll_app. simpl.
  intros (H1 & _ & H2). rewrite Ha. split_and!.
  - by apply dll_frame.
  - by rewrite lookup_insert_eq.
  - by apply dll_frame.
Qed.

(** Inserting a fresh block [c] after [b]. *)
Lemma dll_insert m p l1 b b' c l2 :
  NoDup (addr <$> (l1 ++ b :: l2)) -> Forall (fun x => 0 < addr x) l2 ->
  addr b' = addr b -> addr c ∉ (addr <$> (l1 ++ b :: l2)) ->
  dll m p (l1 ++ b :: l2) 0 ->
  dll (<[addr b := hdr_of b' (last_addr p l1) (addr c)]>
    (set_prev l2 (addr c) (<[addr c := hdr_of c (addr b) (hd_addr l2 0)]> m)))
  p (l1 ++ b' :: c :: l2) 0.
Proof.
  intros Hnd Hpos Ha Hc. pose proof (NoDup_mid _ _ _ Hnd) as (Hb1 & Hb2 & Hn2 & Hd).
  rewrite fmap_app, fmap_cons, not_elem_of_app, not_elem_of_cons in Hc.
  destruct Hc as (Hc1 & Hcb & Hc2).
  rewrite !dll_app. simpl. intros (H1 & H0 & H2). rewrite Ha. split_and!.
  - apply dll_frame; [done|]. apply set_prev_frame; [by intros d r ->; eapply Hd|].
    by apply dll_frame.
  - by rewrite lookup_insert_eq.
  - rewrite lookup_insert_ne by done. rewrite set_prev_lookup; [by rewrite lookup_insert_eq|].
    intros d r ->. rewrite fmap_cons, not_elem_of_cons in Hc2. destruct Hc2; congruence.
  - apply dll_frame; [done|]. eapply dll_set_prev; [|done|done]. by apply dll_frame.
Qed.

(** Absorbing the successor [c] into [b]. *)
Lemma dll_absorb m p l1 b b' c l2 h :
  NoDup (addr <$> (l1 ++ b :: c :: l2)) -> Forall (fun x => 0 < addr x) l2 ->
  addr b' = addr b ->
  dll m p (l1 ++ b :: c :: l2) 0 ->
  dll (<[addr c := h]> (set_prev l2 (addr b)
    (<[addr b := hdr_of b' (last_addr p l1) (hd_addr l2 0)]> m)))
  p (l1 ++ b' :: l2) 0.
Proof.
  intros Hnd Hpos Ha. pose proof (NoDup_mid _ _ _ Hnd) as (Hb1 & Hb2 & Hn2 & Hd).
  rewrite fmap_cons, not_elem_of_cons in Hb2. destruct Hb2 as [Hbc Hb2].
  inversion Hn2 as [|? ? Hc2 Hn2']; subst.
  destruct (Hd c l2 eq_refl) as [Hc1 Hcb].
  rewrite !dll_app. simpl. intros (H1 & H0 & H3 & H2). rewrite Ha.
  assert (Hd2 : forall d r, l2 = d :: r -> addr d <> addr b).
  { intros d r ->. rewrite fmap_cons, not_elem_of_cons in Hb2. destruct Hb2; congruence. }
  split_and!.
  - apply dll_frame; [done|]. apply set_prev_frame; [|by apply dll_frame].
    intros d r ->. rewrite fmap_app, !fmap_cons, NoDup_app in Hnd.
    destruct Hnd as (_ & Hnd & _). intros Hin. apply (Hnd _ Hin). right. right. left.
  - rewrite lookup_insert_ne by done. rewrite set_prev_lookup by done.
    by rewrite lookup_insert_eq.
  - apply dll_frame; [done|]. eapply dll_set_prev; [|done|done]. by apply dll_frame.
Qed.

(** ** Allocation *)

(** The blocks replacing a fitting block [b]. *)
Definition carve (need : Z) (b : ablk) : list ablk :=
  if need + HDR + OVE_ARENA_ALIGN <=? len b
  then [{| addr := addr b; len := need; fr := false |};
    {| addr := addr b + HDR + need; len := len b - need - HDR; fr := true |}]
  else [{| addr := addr b; len := len b; fr := false |}].

Lemma spec_alloc_hit need l1 b l2 :
  Forall (fun x => fits need x = false) l1 -> fits need b = true ->
  spec_alloc need (l1 ++ b :: l2) = Some (addr b + HDR, l1 ++ carve need b ++ l2).
Proof.
  unfold fits, carve. intros H1 Hb. induction H1 as [|x l1 Hx _ IH]; simpl.
  - rewrite Hb. by case_match.
  - by rewrite Hx, IH.
Qed.

Lemma spec_alloc_miss need bs :
  Forall (fun x => fits need x = false) bs -> spec_alloc need bs = None.
Proof. unfold fits. induction 1 as [|x l Hx _ IH]; simpl; [done|]. by rewrite Hx, IH. Qed.

Lemma tiles_carve need a l1 b l2 e :
  0 < need -> need mod OVE_ARENA_ALIGN = 0 -> fits need b = true ->
  tiles a (l1 ++ b :: l2) e -> tiles a (l1 ++ carve need b ++ l2) e.
Proof.
  clear raw. intros Hn Hm [_ Hfit]%andb_true_iff. rewrite !tiles_app.
  intros (c & H1 & Hb). exists c. split; [done|]. simpl in Hb. destruct Hb as (Hc & Hl & Hlm & Ht).
  unfold carve, HDR, OVE_ARENA_ALIGN in *.
  case_match; simpl; unfold HDR; split_and!; try done; try lia.
  - unfold OVE_ARENA_ALIGN. dlia.
  - by replace (c + 32 + need + 32 + (len b - need - 32)) with (c + 32 + len b) by lia.
Qed.

Lemma sum_used_carve need l1 b l2 :
  fr b = true ->
  sum_used (l1 ++ carve need b ++ l2) = sum_used (l1 ++ b :: l2)
  + HDR + (if need + HDR + OVE_ARENA_ALIGN <=? len b then need else len b).
Proof.
  intros Hb. rewrite !sum_used_app, sum_used_cons. unfold carve, footprint. rewrite Hb.
  case_match; unfold sum_used; simpl; unfold footprint; simpl; lia.
Qed.

Definition seam (l k : list ablk) : Prop :=
  forall x y, last l = Some x -> head k = Some y -> fr x && fr y = false.

Lemma coalesced_app l k : coalesced (l ++ k) <-> coalesced l /\ coalesced k /\ seam l k.
Proof.
  induction l as [|b l IH]; simpl.
  { split; [|tauto]. intros. by split_and!. }
  rewrite IH. destruct l as [|c l]; simpl.
  - unfold seam. destruct k as [|y k]; simpl; [split; [|tauto]; intros; by split_and!|].
    split.
    + intros (Hbk & _ & Hk & _). split; [done|]. split; [done|].
      by intros ? ? [= <-] [= <-].
    + intros (_ & Hk & Hs). specialize (Hs b y eq_refl eq_refl).
      split; [done|]. split; [done|]. split; [done|]. by intros ? ? ?.
  - unfold seam. rewrite last_cons_cons. tauto.
Qed.

Lemma coalesced_carve need l1 b l2 :
  fr b = true -> coalesced (l1 ++ b :: l2) -> coalesced (l1 ++ carve need b ++ l2).
Proof.
  rewrite !(coalesced_app l1). intros Hb (H1 & [Hn H2] & Hs). split; [done|].
  assert (Hhd : forall y, head l2 = Some y -> fr y = false).
  { intros y Hy. destruct l2 as [|z l2]; simplify_eq/=. by rewrite Hb in Hn. }
  unfold carve. destruct (_ <=? len b); cbn [app];
    (split; [|intros x y _ Hy; simplify_eq/=; by rewrite andb_false_r]); simpl.
  - split; [done|]. split; [|done]. destruct l2 as [|z l2]; simpl; [done|]. by rewrite (Hhd z).
  - split; [by destruct l2|done].
Qed.

(** The header updates of [ove_arena_alloc] on a fitting block [b]. *)
Lemma alloc_headers m l1 b l2 need :
  dll m 0 (l1 ++ b :: l2) 0 -> NoDup (addr <$> (l1 ++ b :: l2)) ->
  Forall (fun x => 0 < addr x) (l1 ++ b :: l2) ->
  (need + HDR + OVE_ARENA_ALIGN <= len b ->
   addr b + HDR + need ∉ (addr <$> (l1 ++ b :: l2))) ->
  fr b = true -> need <= len b -> 0 < need -> len b + 48 < 2 ^ size_bits ->
  let m' := wr raw (addr b) (fun x => {| x with is_free := false |})
          (arena_split raw (addr b) need m) in
  dll m' 0 (l1 ++ carve need b ++ l2) 0 /\
  payload (rd raw m' (addr b)) =
  (if need + HDR + OVE_ARENA_ALIGN <=? len b then need else len b).
Proof.
  intros Hd Hnd Hpos Hfresh Hb Hle Hn Hov m'.
  assert (Hm : m !! addr b = Some (hdr_of b (last_addr 0 l1) (hd_addr l2 0))).
  { apply dll_app in Hd. by destruct Hd as (_ & Hd & _). }
  assert (Hp2 : Forall (fun x => 0 < addr x) l2).
  { apply Forall_app in Hpos as [_ Hpos]. by inversion Hpos. }
  subst m'. unfold arena_split. rewrite (rd_lookup _ _ _ Hm). cbn [payload next hdr_of].
  rewrite HDR_eq. rewrite (usz_small (need + _ + _)) by (unfold HDR, OVE_ARENA_ALIGN; lia).
  unfold carve. destruct (need + HDR + OVE_ARENA_ALIGN <=? len b) eqn:Hsplit.
  - specialize (Hfresh ltac:(lia)). rewrite (usz_small (len b - need - HDR)) by (unfold HDR, OVE_ARENA_ALIGN in *; lia).
    set (c := {| addr := addr b + HDR + need; len := len b - need - HDR; fr := true |}).
    set (b' := {| addr := addr b; len := need; fr := false |}).
    change (addr b + HDR + need) with (addr c) in Hfresh |- *.
    set (m1 := <[addr c := _]> m).
    change (if hd_addr l2 0 =? 0 then m1 else _) with (set_prev l2 (addr c) m1).
    assert (Hrd : rd raw (set_prev l2 (addr c) m1) (addr b)
                = hdr_of b (last_addr 0 l1) (hd_addr l2 0)).
    { apply rd_lookup. rewrite set_prev_lookup.
      - unfold m1. rewrite lookup_insert_ne; [done|]. intros Heq. apply Hfresh.
        rewrite Heq, fmap_app, fmap_cons. apply elem_of_app. right. left.
      - intros d r ->. by apply (NoDup_mid _ _ _ Hnd) with (r := r). }
    unfold wr. rewrite Hrd, !rd_insert, insert_insert_eq. split; [|done].
    exact (dll_insert m 0 l1 b b' c l2 Hnd Hp2 eq_refl Hfresh Hd).
  - unfold wr. rewrite (rd_lookup _ _ _ Hm), rd_insert. split; [|done].
    exact (dll_replace m 0 l1 b {| addr := addr b; len := len b; fr := false |} l2 0 Hnd eq_refl Hd).
Qed.

(** Every block of a represented arena lies in the buffer, above address 16. *)
Lemma rep_bounds s bs :
  arena_rep s bs ->
  16 <= base (ctl s) /\
  Forall (fun b => base (ctl s) <= addr b /\ 0 < len b /\
               addr b + HDR + len b <= base (ctl s) + size (ctl s)) bs.
Proof.
  clear raw. intros []. unfold HDR, OVE_ARENA_ALIGN in *. split; [dlia|].
  apply tiles_bounds in rep_tiles0 as [_ Hf].
  eapply Forall_impl; [done|]. intros b (? & ? & ?).
  pose proof (align_down_eq (size (ctl s) - 32)). unfold HDR in *.
  pose proof (Z.mod_pos_bound (size (ctl s) - 32) 16). lia.
Qed.

Lemma rep_pos s bs : arena_rep s bs -> Forall (fun b => 0 < addr b) bs.
Proof.
  intros Hr. pose proof (rep_bounds _ _ Hr) as [Hb Hf].
  eapply Forall_impl; [done|]. simpl. lia.
Qed.

(** What [ove_arena_alloc] does to a represented arena, given that the
    request does not overflow [size_t] when rounded up. *)
Lemma alloc_spec s bs sz :
  arena_rep s bs -> 0 <= sz -> sz + 15 < 2 ^ size_bits ->
  let need := arena_align (if sz =? 0 then 1 else sz) in
  exists s',
  match spec_alloc need bs with
  | Some (p, bs') =>
  ove_arena_alloc raw (Some s) sz = Some (p, Some s') /\ arena_rep s' bs'
  | None => ove_arena_alloc raw (Some s) sz = Some (0, Some s) /\ s' = s
  end /\ base (ctl s') = base (ctl s) /\ size (ctl s') = size (ctl s) /\ data s' = data s.
Proof.
  intros Hr Hsz Hov need.
  pose proof (rep_bounds _ _ Hr) as [Hb16 Hbd]. pose proof (rep_pos _ _ Hr) as Hpos.
  pose proof size_bits_ge as Hsb. change (2 ^ 32) with 4294967296 in Hsb.
  assert (Hneed : need mod OVE_ARENA_ALIGN = 0 /\ 0 < need).
  { unfold need. destruct (sz =? 0) eqn:Hz.
    - destruct (arena_align_spec 1); [lia..|]. by split; [|lia].
    - destruct (arena_align_spec sz); [lia..|]. by split; [|lia]. }
  destruct Hneed as [Hnm Hn0]. destruct Hr as [Hf Hb Ha Hrm Hfit Ht Hd Hu Hw Hc].
  pose proof (tiles_NoDup _ _ _ Ht) as Hnd.
  assert (Hlen : (length bs < S (map_size (hdrs s)))%nat).
  { pose proof (dll_size _ _ _ _ Hd Hnd). lia. }
  assert (Hne : first (ctl s) = hd_addr bs 0 /\ first (ctl s) <> 0).
  { destruct bs as [|b bs]; simpl in *.
    - unfold HDR, OVE_ARENA_ALIGN in *.
      pose proof (align_down_eq (size (ctl s) - 32)).
      pose proof (Z.mod_pos_bound (size (ctl s) - 32) 16). lia.
    - destruct Ht as (? & _). lia. }
  destruct Hne as [Hfa Hf0]. unfold ove_arena_alloc. fold need.
  rewrite (proj2 (Z.eqb_neq _ _) Hf0), Hfa.
  destruct (find_fit_spec (hdrs s) need bs 0 _ Hd Hpos Hlen)
    as [(l1 & b & l2 & -> & Hl1 & Hfb & ->)|[Hmiss ->]]; cbn [mbind option_bind].
  2:{ rewrite spec_alloc_miss by done. exists s. by rewrite Z.eqb_refl. }
  rewrite spec_alloc_hit by done.
  pose proof Hbd as Hbd'. apply Forall_app in Hbd' as [_ Hbd']. inversion Hbd' as [|? ? Hbb _]; subst.
  apply Forall_app in Hpos as Hpos'. destruct Hpos' as [_ Hpos']. inversion Hpos' as [|? ? Hb0 _]; subst.
  rewrite (proj2 (Z.eqb_neq (addr b) 0)) by lia.
  apply andb_true_iff in Hfb as Hfb'. destruct Hfb' as [Hfree Hle]. unfold HDR in Hbb.
  destruct (alloc_headers (hdrs s) l1 b l2 need) as [Hd' Hpl]; try done; try lia.
  { intros Hs. eapply tiles_fresh; [done|]. unfold HDR, OVE_ARENA_ALIGN in *. lia. }
  pose proof (tiles_carve need _ _ _ _ _ Hn0 Hnm Hfb Ht) as Htc.
  pose proof (sum_used_bounds _ _ _ Htc) as Hsu.
  pose proof (sum_used_carve need l1 b l2 Hfree) as Hsc.
  set (m' := wr raw (addr b) _ _) in *. rewrite Hpl, HDR_eq.
  set (k := if _ <=? len b then need else len b) in *.
  assert (Hk : 0 < k <= len b) by (unfold k; case_match; lia).
  rewrite (usz_small (HDR + k)) by (unfold HDR; lia).
  assert (Hus : usz (used (ctl s) + (HDR + k)) = sum_used (l1 ++ carve need b ++ l2)).
  { rewrite usz_small; [unfold HDR in *; lia|]. rewrite Hu. unfold HDR, OVE_ARENA_ALIGN in *.
    pose proof (align_down_eq (size (ctl s) - 32)).
    pose proof (Z.mod_pos_bound (size (ctl s) - 32) 16). lia. }
  eexists. split; [split; [unfold blk_payload; by rewrite HDR_eq|]|done].
  split; cbn [ctl hdrs data base size used high_water first]; try done.
  - by rewrite <-Hfa.
  - rewrite Hus. case_match; lia.
  - by apply coalesced_carve.
Qed.

(** ** Freeing *)

Lemma join_snoc l q r : join (l ++ [q]) r = l ++ merge q r.
Proof.
  induction l as [|x l IH]; [done|]. simpl. rewrite IH. by destruct l.
Qed.

Lemma last_addr_snoc p l q : last_addr p (l ++ [q]) = addr q.
Proof. revert p. by induction l; intros; simpl. Qed.

Lemma tiles_merge a b l e : tiles a (b :: l) e -> tiles a (merge b l) e.
Proof.
  clear raw. destruct l as [|n r]; [done|]. simpl. intros (? & ? & Hm & ? & ? & Hm' & Ht).
  destruct (fr b && fr n); [|done]. simpl. unfold HDR, OVE_ARENA_ALIGN in *.
  replace (a + 32 + (len b + 32 + len n)) with (a + 32 + len b + 32 + len n) by lia.
  split; [done|]. split; [lia|]. split; [dlia|done].
Qed.

Lemma tiles_join a l r e : tiles a (l ++ r) e -> tiles a (join l r) e.
Proof.
  destruct l as [|x l' _] using rev_ind; [done|]. rewrite join_snoc, <-app_assoc, !tiles_app.
  intros (c & ? & ?). exists c. split; [done|]. by apply tiles_merge.
Qed.

Lemma sum_used_merge b l : sum_used (merge b l) = sum_used (b :: l).
Proof.
  destruct l as [|n r]; [done|]. simpl. destruct (fr b) eqn:Hb, (fr n) eqn:Hn; try done; simpl.
  rewrite !sum_used_cons. unfold footprint. rewrite Hb, Hn. done.
Qed.

Lemma sum_used_join l r : sum_used (join l r) = sum_used (l ++ r).
Proof.
  destruct l as [|x l' _] using rev_ind; [done|].
  rewrite join_snoc, <-app_assoc, !(sum_used_app l'), sum_used_merge. done.
Qed.

Lemma coalesced_merge b l : coalesced l -> coalesced (merge b l).
Proof.
  destruct l as [|n r]; [done|]. simpl. intros [Hn Hr].
  destruct (fr b) eqn:Hb, (fr n) eqn:Hf; simpl; rewrite ?Hb, ?Hf; simpl; try done.
Qed.

Lemma coalesced_join l r : coalesced l -> coalesced r -> coalesced (join l r).
Proof.
  destruct l as [|x l' _] using rev_ind; [done|]. rewrite join_snoc, !coalesced_app.
  intros (Hl & _ & Hs) Hr. split_and!; [done|by apply coalesced_merge|].
  intros y z Hy Hz. rewrite andb_comm.
  assert (fr z = fr x) as ->.
  { destruct r as [|n r]; simplify_eq/=; [done|]. case_match; simplify_eq/=; [|done].
    by apply andb_true_iff in H as [-> _]. }
  rewrite andb_comm. by apply Hs.
Qed.

Lemma Forall_pos_app (l k : list ablk) :
  Forall (fun x => 0 < addr x) (l ++ k) -> Forall (fun x => 0 < addr x) k.
Proof. by intros [_ ?]%Forall_app. Qed.

Lemma fwd_spec m l1 b l2 a e :
  dll m 0 (l1 ++ b :: l2) 0 -> tiles a (l1 ++ b :: l2) e -> 0 < a -> e < 2 ^ size_bits ->
  fr b = true -> dll (coalesce_fwd raw (addr b) m) 0 (l1 ++ merge b l2) 0.
Proof.
  intros Hd Ht Ha He Hb. pose proof (tiles_NoDup _ _ _ Ht) as Hnd.
  pose proof Hd as Hd'. apply dll_app in Hd' as (_ & Hm & Hr). unfold coalesce_fwd.
  rewrite (rd_lookup _ _ _ Hm). cbn [next hdr_of]. destruct l2 as [|n r]; [done|].
  cbn [hd_addr]. destruct Hr as [Hn Hr]. rewrite (rd_lookup _ _ _ Hn).
  apply tiles_app in Ht as (c & Ht1 & Hc & Hl & _ & Hcn & Hln & _ & Ht2).
  apply tiles_bounds in Ht1 as [Hac _]. apply tiles_bounds in Ht2 as [Hce Hf2]. unfold HDR in *.
  rewrite (proj2 (Z.eqb_neq (addr n) 0)) by lia. cbn [negb andb is_free hdr_of merge].
  rewrite Hb. cbn [andb]. destruct (fr n) eqn:Hfn; [|done].
  cbv zeta. cbn [payload next prev hdr_of].
  set (b' := {| addr := addr b; len := len b + HDR + len n; fr := true |}).
  set (m1 := wr raw (addr b) _ m).
  change (if hd_addr r 0 =? 0 then m1 else _) with (set_prev r (addr b) m1).
  assert (m1 = <[addr b := hdr_of b' (last_addr 0 l1) (hd_addr r 0)]> m) as ->.
  { unfold m1, wr, hdr_of. rewrite (rd_lookup _ _ _ Hm), HDR_eq. cbn.
    unfold HDR. rewrite (usz_small (32 + len n)), usz_small by lia. by rewrite Hb, Z.add_assoc. }
  apply (dll_absorb m 0 l1 b b' n r); try done.
  eapply Forall_impl; [done|]. simpl. lia.
Qed.

Lemma bwd_spec m l1 b r a e :
  dll m 0 (l1 ++ b :: r) 0 -> tiles a (l1 ++ b :: r) e -> 0 < a -> e < 2 ^ size_bits ->
  fr b = true -> dll (coalesce_bwd raw (addr b) m) 0 (join l1 (b :: r)) 0.
Proof.
  intros Hd Ht Ha He Hb. pose proof (tiles_NoDup _ _ _ Ht) as Hnd.
  pose proof Hd as Hd'. apply dll_app in Hd' as (Hq & Hm & Hr). unfold coalesce_bwd.
  rewrite (rd_lookup _ _ _ Hm). cbn [prev next payload hdr_of].
  destruct l1 as [|q l0 _] using rev_ind; [done|]. rewrite last_addr_snoc, join_snoc.
  rewrite <-app_assoc in *. cbn [app] in *.
  apply dll_app in Hq as (_ & Hq & _). cbn [hd_addr] in Hq. rewrite (rd_lookup _ _ _ Hq).
  apply tiles_app in Ht as (c & Ht1 & Hc & Hl & _ & Hcn & Hln & _ & Ht2).
  apply tiles_bounds in Ht1 as [Hac _]. apply tiles_bounds in Ht2 as [Hce Hf2]. unfold HDR in *.
  rewrite (proj2 (Z.eqb_neq (addr q) 0)) by lia. cbn [negb andb is_free hdr_of merge].
  rewrite Hb, andb_true_r. destruct (fr q) eqn:Hfq; [|done].
  cbv zeta. cbn [payload next prev hdr_of].
  set (q' := {| addr := addr q; len := len q + HDR + len b; fr := true |}).
  set (m1 := wr raw (addr q) _ m).
  change (if hd_addr r 0 =? 0 then m1 else _) with (set_prev r (addr q) m1).
  assert (m1 = <[addr q := hdr_of q' (last_addr 0 l0) (hd_addr r 0)]> m) as ->.
  { unfold m1, wr, hdr_of. rewrite (rd_lookup _ _ _ Hq), HDR_eq. cbn.
    unfold HDR. rewrite (usz_small (32 + len b)), usz_small by lia. by rewrite Hfq, Z.add_assoc. }
  apply (dll_absorb m 0 l0 q q' b r); try done.
  eapply Forall_impl; [done|]. simpl. lia.
Qed.

(** The header updates of [ove_arena_free]. *)
Lemma free_headers m l1 b l2 a e :
  dll m 0 (l1 ++ b :: l2) 0 -> tiles a (l1 ++ b :: l2) e -> 0 < a -> e < 2 ^ size_bits ->
  let b' := {| addr := addr b; len := len b; fr := true |} in
  let m' := coalesce_bwd raw (addr b) (coalesce_fwd raw (addr b)
          (wr raw (addr b) (fun x => {| x with is_free := true |}) m)) in
  dll m' 0 (spec_free l1 b l2) 0 /\ tiles a (spec_free l1 b l2) e.
Proof.
  intros Hd Ht Ha He b' m'. pose proof (tiles_NoDup _ _ _ Ht) as Hnd.
  assert (Hm : m !! addr b = Some (hdr_of b (last_addr 0 l1) (hd_addr l2 0))).
  { apply dll_app in Hd. by destruct Hd as (_ & Hd & _). }
  assert (Ht' : tiles a (l1 ++ b' :: l2) e) by (by rewrite tiles_app in *).
  assert (Ht2 : tiles a (l1 ++ merge b' l2) e).
  { rewrite tiles_app in *. destruct Ht' as (c & ? & ?). exists c. split; [done|].
    by apply tiles_merge. }
  split; [|by apply tiles_join].
  pose proof (dll_replace m 0 l1 b b' l2 0 Hnd eq_refl Hd) as Hd'.
  subst m'. unfold wr. rewrite (rd_lookup _ _ _ Hm).
  pose proof (fwd_spec _ l1 b' l2 a e Hd' Ht' Ha He eq_refl) as Hf. unfold spec_free.
  fold b'. destruct (merge b' l2) as [|b2 r] eqn:Hmg.
  { destruct l2; simpl in Hmg; [done|]. by case_match. }
  assert (addr b2 = addr b /\ fr b2 = true) as [Hab Hb2].
  { destruct l2; simpl in Hmg; [by simplify_eq|]. case_match; by simplify_eq. }
  rewrite <-Hab at 1. exact (bwd_spec _ l1 b2 r a e Hf Ht2 Ha He Hb2).
Qed.

Lemma spec_free_used l1 b l2 :
  fr b = false -> sum_used (spec_free l1 b l2) = sum_used (l1 ++ b :: l2) - (HDR + len b).
Proof.
  intros Hb. unfold spec_free. rewrite sum_used_join, !sum_used_app, sum_used_merge.
  rewrite !sum_used_cons. unfold footprint. rewrite Hb. simpl. lia.
Qed.

Lemma coalesced_free l1 b l2 :
  coalesced (l1 ++ b :: l2) -> coalesced (spec_free l1 b l2).
Proof.
  rewrite coalesced_app. intros (H1 & [_ H2] & _). apply coalesced_join; [done|].
  by apply coalesced_merge.
Qed.

(** What [ove_arena_free] does to an allocated block of a represented arena. *)
Lemma free_spec s l1 b l2 :
  arena_rep s (l1 ++ b :: l2) -> fr b = false ->
  exists s', ove_arena_free raw (Some s) (addr b + HDR) = Some s' /\
  arena_rep s' (spec_free l1 b l2) /\ base (ctl s') = base (ctl s) /\
  size (ctl s') = size (ctl s) /\ high_water (ctl s') = high_water (ctl s) /\
  data s' = data s.
Proof.
  intros Hr Hb. pose proof (rep_bounds _ _ Hr) as [Hb16 Hbd].
  apply Forall_app in Hbd as [_ Hbd]. inversion Hbd as [|? ? Hbb _]; subst.
  destruct Hr as [Hf Hb0 Ha Hrm Hfit Ht Hd Hu Hw Hc].
  pose proof (align_down_eq (size (ctl s) - 32)) as Hal.
  pose proof (Z.mod_pos_bound (size (ctl s) - 32) 16) as Hmb.
  assert (Hm : hdrs s !! addr b = Some (hdr_of b (last_addr 0 l1) (hd_addr l2 0))).
  { apply dll_app in Hd. by destruct Hd as (_ & Hd & _). }
  destruct (free_headers _ _ _ _ _ _ Hd Ht) as [Hd' Ht']; [done|unfold HDR, OVE_ARENA_ALIGN in *; lia|].
  pose proof (sum_used_bounds _ _ _ Ht') as Hsu. rewrite spec_free_used in Hsu by done.
  pose proof (sum_used_bounds _ _ _ Ht) as Hsu'.
  unfold ove_arena_free, ove_arena_owns, payload_blk. rewrite HDR_eq.
  replace (addr b + HDR - HDR) with (addr b) by lia. unfold HDR in Hbb.
  assert ((addr b + HDR =? 0) = false) as -> by (unfold HDR; lia).
  assert ((base (ctl s) <=? addr b + HDR) && (addr b + HDR <? base (ctl s) + size (ctl s)) = true)
    as -> by (unfold HDR; lia).
  rewrite (rd_lookup _ _ _ Hm). cbn [magic is_free payload hdr_of negb orb].
  rewrite Z.eqb_refl, Hb. cbn [negb orb].
  eexists. split; [done|]. split; [|done].
  split; cbn [ctl hdrs data base size used high_water first]; try done.
  - rewrite spec_free_used by done. rewrite Hu. unfold HDR, OVE_ARENA_ALIGN in *.
    rewrite (usz_small (32 + len b)) by lia. rewrite usz_small by lia. lia.
  - rewrite (usz_small (HDR + len b)) by (unfold HDR; lia).
    rewrite usz_small; unfold HDR, OVE_ARENA_ALIGN in *; lia.
  - by apply coalesced_free.
Qed.

(** ** Initialisation and reset *)

(** One free extent spanning the region. *)
Definition one_extent (s : arena_st) : list ablk :=
  [{| addr := base (ctl s); len := align_down (size (ctl s) - HDR); fr := true |}].

Lemma lay_first_spec s :
  0 < base (ctl s) -> base (ctl s) mod OVE_ARENA_ALIGN = 0 ->
  HDR + OVE_ARENA_ALIGN <= size (ctl s) -> base (ctl s) + size (ctl s) < 2 ^ size_bits ->
  0 <= high_water (ctl s) -> arena_rep (arena_lay_first s) (one_extent s).
Proof.
  clear raw. intros Hb Ha Hr Hf Hw.
  pose proof (align_down_eq (size (ctl s) - 32)) as Hal.
  pose proof (Z.mod_pos_bound (size (ctl s) - 32) 16) as Hmb.
  unfold arena_lay_first. rewrite HDR_eq. unfold HDR, OVE_ARENA_ALIGN in *.
  rewrite usz_small by lia.
  split; cbn [ctl hdrs data base size used high_water first]; unfold OVE_ARENA_ALIGN; try done.
  - unfold one_extent, HDR. simpl. unfold HDR, OVE_ARENA_ALIGN.
    split; [done|]. rewrite Hal by lia. split; [dlia|]. split; [dlia|]. done.
  - simpl. by rewrite lookup_insert_eq.
Qed.

Lemma init_spec s buf sz :
  0 < buf -> 0 <= sz -> buf + sz + 15 < 2 ^ size_bits ->
  let adjust := (- buf) mod OVE_ARENA_ALIGN in
  if sz - adjust <? HDR + OVE_ARENA_ALIGN
  then ove_arena_init (Some s) buf sz = (OVE_ERR_NO_MEMORY, Some s)
  else exists s', ove_arena_init (Some s) buf sz = (OVE_OK, Some s') /\
     base (ctl s') = buf + adjust /\ size (ctl s') = sz - adjust /\
     arena_rep s' (one_extent s').
Proof.
  clear raw. intros Hb Hs Hov adjust.
  assert (Hadj : usz (align_down (usz (buf + (OVE_ARENA_ALIGN - 1))) - buf) = adjust).
  { unfold adjust, OVE_ARENA_ALIGN. change (16 - 1) with 15.
    rewrite (usz_small (buf + 15)) by lia. rewrite align_down_eq by lia.
    rewrite usz_small; [|dlia]. dlia. }
  assert (Ha : 0 <= adjust < 16) by (apply Z.mod_pos_bound; done).
  unfold ove_arena_init. rewrite (proj2 (Z.eqb_neq buf 0)) by lia. cbv zeta. rewrite Hadj, HDR_eq.
  destruct (sz - adjust <? HDR + OVE_ARENA_ALIGN) eqn:Hlt; unfold HDR, OVE_ARENA_ALIGN in *.
  { destruct (sz <=? adjust) eqn:Hle; cbn [orb]; [done|].
    rewrite usz_small by lia. change (32 + 16) with 48 in *. by rewrite Hlt. }
  assert ((sz <=? adjust) = false) as -> by lia. cbn [orb].
  rewrite usz_small by lia. rewrite Hlt.
  eexists. split; [done|]. split; [done|]. split; [done|].
  match goal with |- arena_rep (arena_lay_first ?x) _ => apply (lay_first_spec x) end;
    cbn [ctl base size high_water]; unfold HDR, OVE_ARENA_ALIGN; try lia.
  unfold adjust. dlia.
Qed.

Lemma reset_spec s bs :
  arena_rep s bs ->
  exists s', ove_arena_reset (Some s) = Some s' /\ arena_rep s' (one_extent s) /\
  base (ctl s') = base (ctl s) /\ size (ctl s') = size (ctl s) /\
  high_water (ctl s') = high_water (ctl s).
Proof.
  intros Hr. pose proof (rep_bounds _ _ Hr) as [Hb16 _]. destruct Hr.
  pose proof (sum_used_bounds _ _ _ rep_tiles0). unfold ove_arena_reset.
  rewrite (proj2 (Z.eqb_neq _ _)) by lia. eexists. split; [done|]. split; [|done].
  apply lay_first_spec; try done. lia.
Qed.

(** A free that the guards reject: NULL, a pointer outside the region, or a
    block that is already free. *)
Lemma free_ignored s bs p :
  arena_rep s bs ->
  p = 0 \/ ove_arena_owns (Some s) p = false \/
  (exists b, b ∈ bs /\ fr b = true /\ p = addr b + HDR) ->
  ove_arena_free raw (Some s) p = Some s.
Proof.
  intros Hr Hp. unfold ove_arena_free. destruct (p =? 0) eqn:Hp0; [done|].
  destruct Hp as [->|[->|(b & Hin & Hb & ->)]]; [lia|done|].
  cbn [orb]. case_match; [done|]. unfold payload_blk. rewrite HDR_eq.
  replace (addr b + HDR - HDR) with (addr b) by lia.
  apply list_elem_of_split in Hin as (l1 & l2 & ->). destruct Hr.
  apply dll_app in rep_dll0 as (_ & Hm & _). rewrite (rd_lookup _ _ _ Hm). simpl.
  by rewrite Hb.
Qed.

(** ** Client view: the pointers handed out *)

Definition live_ptrs (bs : list ablk) : list Z :=
  (fun b => addr b + HDR) <$> filter (fun b => fr b = false) bs.

Lemma live_ptrs_app l k : live_ptrs (l ++ k) = live_ptrs l ++ live_ptrs k.
Proof. unfold live_ptrs. by rewrite filter_app, fmap_app. Qed.

Lemma live_ptrs_cons b l :
  live_ptrs (b :: l) = if fr b then live_ptrs l else (addr b + HDR) :: live_ptrs l.
Proof. unfold live_ptrs. rewrite filter_cons. destruct (fr b) eqn:E; by case_decide. Qed.

Lemma live_ptrs_alloc need bs p bs' :
  spec_alloc need bs = Some (p, bs') -> live_ptrs bs' ≡ₚ p :: live_ptrs bs.
Proof.
  revert p bs'. induction bs as [|b bs IH]; intros p bs'; simpl; [done|].
  destruct (fr b && _) eqn:Hf.
  - apply andb_true_iff in Hf as [Hf _]. intros [= <- <-].
    case_match; rewrite !live_ptrs_cons, Hf; simpl; done.
  - destruct (spec_alloc need bs) as [[p' r']|] eqn:Hs; [|done]. simpl. intros [= -> <-].
    rewrite !live_ptrs_cons. specialize (IH p r' eq_refl). destruct (fr b); [done|].
    rewrite IH. apply Permutation_swap.
Qed.

Lemma live_ptrs_merge b l : live_ptrs (merge b l) = live_ptrs (b :: l).
Proof.
  destruct l as [|n r]; [done|]. simpl. destruct (fr b) eqn:Hb, (fr n) eqn:Hn; try done; simpl.
  rewrite !live_ptrs_cons. by rewrite Hb, Hn.
Qed.

Lemma live_ptrs_free l1 b l2 :
  fr b = false ->
  live_ptrs (l1 ++ b :: l2) ≡ₚ (addr b + HDR) :: live_ptrs (spec_free l1 b l2).
Proof.
  intros Hb.
  assert (live_ptrs (spec_free l1 b l2) = live_ptrs l1 ++ live_ptrs l2) as ->.
  { unfold spec_free. destruct l1 as [|x l' _] using rev_ind; simpl.
    - by rewrite live_ptrs_merge, live_ptrs_cons.
    - rewrite join_snoc, !live_ptrs_app, live_ptrs_merge, live_ptrs_cons, live_ptrs_merge.
      rewrite live_ptrs_cons. simpl. rewrite (live_ptrs_cons x []). destruct (fr x); simpl;
        by rewrite <-app_assoc. }
  rewrite live_ptrs_app, live_ptrs_cons, Hb. by rewrite Permutation_middle.
Qed.

Lemma elem_of_live p bs :
  p ∈ live_ptrs bs <-> exists l1 b l2, bs = l1 ++ b :: l2 /\ fr b = false /\ p = addr b + HDR.
Proof.
  unfold live_ptrs. rewrite list_elem_of_fmap. split.
  - intros (b & -> & [Hb Hin]%list_elem_of_filter).
    apply list_elem_of_split in Hin as (l1 & l2 & ->). by exists l1, b, l2.
  - intros (l1 & b & l2 & -> & Hb & ->). exists b. split; [done|].
    apply list_elem_of_filter. split; [done|]. apply elem_of_app. right. left.
Qed.

(** One client operation on the arena and the multiset of pointers the
    client holds.  A client frees pointers it holds, NULL, or pointers that
    are not the arena's. *)
Inductive arena_step : arena_st * list Z -> arena_st * list Z -> Prop :=
  | step_alloc s live sz p s' :
  0 <= sz -> sz + 15 < 2 ^ size_bits ->
  ove_arena_alloc raw (Some s) sz = Some (p, Some s') ->
  arena_step (s, live) (s', if p =? 0 then live else p :: live)
  | step_calloc s live sz p s' :
  0 <= sz -> sz + 15 < 2 ^ size_bits ->
  ove_arena_calloc raw (Some s) sz = Some (p, Some s') ->
  arena_step (s, live) (s', if p =? 0 then live else p :: live)
  | step_free s l1 p l2 s' :
  ove_arena_free raw (Some s) p = Some s' ->
  arena_step (s, l1 ++ p :: l2) (s', l1 ++ l2)
  | step_free_foreign s live p s' :
  p = 0 \/ ove_arena_owns (Some s) p = false ->
  ove_arena_free raw (Some s) p = Some s' ->
  arena_step (s, live) (s', live)
  | step_reset s live s' :
  ove_arena_reset (Some s) = Some s' -> arena_step (s, live) (s', []).

(** Arenas in use: initialised, then any sequence of client operations. *)
Inductive arena_reach : arena_st * list Z -> Prop :=
  | reach_init s0 buf sz s :
  0 < buf -> 0 <= sz -> buf + sz + 15 < 2 ^ size_bits ->
  ove_arena_init (Some s0) buf sz = (OVE_OK, Some s) -> arena_reach (s, [])
  | reach_step c c' : arena_reach c -> arena_step c c' -> arena_reach c'.

Definition arena_ok (c : arena_st * list Z) : Prop :=
  exists bs, arena_rep c.1 bs /\ c.2 ≡ₚ live_ptrs bs.

Lemma rep_data s bs d : arena_rep s bs -> arena_rep (mk_arena (ctl s) (hdrs s) d) bs.
Proof. by intros []. Qed.

Lemma alloc_ok s live sz p s' :
  arena_ok (s, live) -> 0 <= sz -> sz + 15 < 2 ^ size_bits ->
  ove_arena_alloc raw (Some s) sz = Some (p, Some s') ->
  arena_ok (s', if p =? 0 then live else p :: live).
Proof.
  intros (bs & Hr & Hl) H0 Hov He. destruct (alloc_spec s bs sz Hr H0 Hov) as (s2 & Hs & _).
  destruct (spec_alloc _ bs) as [[q bs']|] eqn:Hsp.
  - destruct Hs as [Hs Hr']. rewrite Hs in He. simplify_eq. exists bs'. split; [done|].
    apply live_ptrs_alloc in Hsp. simpl in *. rewrite Hsp.
    assert (p <> 0) as ->%Z.eqb_neq; [|by rewrite Hl].
    intros ->. assert (0 ∈ live_ptrs bs') as Hin by (rewrite Hsp; left).
    apply elem_of_live in Hin as (l1 & b & l2 & -> & _ & Hz).
    pose proof (rep_pos _ _ Hr') as Hp. apply Forall_app in Hp as [_ Hp].
    inversion Hp. unfold HDR in Hz. lia.
  - destruct Hs as [Hs ->]. rewrite Hs in He. simplify_eq. by exists bs.
Qed.

Lemma free_ok s l1 p l2 s' :
  arena_ok (s, l1 ++ p :: l2) -> ove_arena_free raw (Some s) p = Some s' ->
  arena_ok (s', l1 ++ l2).
Proof.
  intros (bs & Hr & Hl) He. cbn [fst snd] in *.
  assert (p ∈ live_ptrs bs) as (k1 & b & k2 & -> & Hb & ->)%elem_of_live.
  { rewrite <-Hl. apply elem_of_app. right. left. }
  destruct (free_spec _ _ _ _ Hr Hb) as (s2 & Hs & Hr' & _). rewrite Hs in He. simplify_eq.
  exists (spec_free k1 b k2). split; [done|]. simpl.
  rewrite live_ptrs_free, <-Permutation_middle in Hl by done. by apply Permutation_cons_inv in Hl.
Qed.

Lemma arena_reach_ok c : arena_reach c -> arena_ok c.
Proof.
  induction 1 as [s0 buf sz s Hb Hs Hov Hi|c c' _ IH Hst].
  - pose proof (init_spec s0 buf sz Hb Hs Hov) as Hsp. cbv zeta in Hsp.
    destruct (_ <? _); [by rewrite Hi in Hsp|]. destruct Hsp as (s' & Hsp & _ & _ & Hr).
    rewrite Hi in Hsp. simplify_eq. by exists (one_extent s').
  - destruct Hst as [s live sz p s' H0 Hov He|s live sz p s' H0 Hov He|
      s l1 p l2 s' He|s live p s' Hp He|s live s' He].
    + by eapply alloc_ok.
    + unfold ove_arena_calloc in He.
      destruct (ove_arena_alloc raw (Some s) sz) as [[q [s1|]]|] eqn:Ha; simplify_eq/=.
      pose proof (alloc_ok _ _ _ _ _ IH H0 Hov Ha) as Hok.
      destruct (q =? 0) eqn:Hq; simplify_eq; rewrite ?Hq in *; [done|].
      destruct Hok as (bs & Hr & Hl). exists bs. split; [by apply rep_data|done].
    + by eapply free_ok.
    + destruct IH as (bs & Hr & Hl). cbn [fst snd] in *.
      rewrite (free_ignored s bs p Hr) in He by (destruct Hp; auto). simplify_eq. by exists bs.
    + destruct IH as (bs & Hr & Hl). cbn [fst snd] in *. destruct (reset_spec _ _ Hr) as (s2 & Hs & Hr2 & _).
      rewrite Hs in He. simplify_eq. by exists (one_extent s).
Qed.

(** The header of a live pointer. *)
Lemma live_header s bs p :
  arena_rep s bs -> p ∈ live_ptrs bs ->
  exists l1 b l2, bs = l1 ++ b :: l2 /\ fr b = false /\ p = addr b + HDR /\
  rd raw (hdrs s) (payload_blk p) = hdr_of b (last_addr 0 l1) (hd_addr l2 0).
Proof.
  intros Hr (l1 & b & l2 & -> & Hb & ->)%elem_of_live. exists l1, b, l2. split_and!; try done.
  unfold payload_blk. rewrite HDR_eq. replace (addr b + HDR - HDR) with (addr b) by lia.
  apply rd_lookup. destruct Hr. apply dll_app in rep_dll0. by destruct rep_dll0 as (_ & ? & _).
Qed.

Lemma tiles_aligned a bs e :
  a mod OVE_ARENA_ALIGN = 0 -> tiles a bs e ->
  Forall (fun b => (addr b + HDR) mod OVE_ARENA_ALIGN = 0) bs.
Proof.
  clear raw. unfold HDR, OVE_ARENA_ALIGN. revert a.
  induction bs as [|b bs IH]; intros a Ha; simpl; [constructor|].
  unfold HDR, OVE_ARENA_ALIGN. intros (Hab & Hl & Hm & Ht). constructor; [rewrite Hab; dlia|].
  apply (IH (a + 32 + len b)); [dlia|done].
Qed.

(** Two blocks of a tiling do not overlap. *)
Lemma tiles_disjoint a bs e b c :
  tiles a bs e -> b ∈ bs -> c ∈ bs -> addr b <> addr c ->
  addr b + HDR + len b <= addr c \/ addr c + HDR + len c <= addr b.
Proof.
  revert a. induction bs as [|x bs IH]; intros a; [by intros _ ?%elem_of_nil|].
  intros (Hx & Hl & _ & Ht) Hb Hc Hne. pose proof (tiles_bounds _ _ _ Ht) as [_ Hf].
  rewrite Forall_forall in Hf.
  apply elem_of_cons in Hb as [->|Hb]; apply elem_of_cons in Hc as [->|Hc]; [done|..].
  - apply Hf in Hc. lia.
  - apply Hf in Hb. lia.
  - by eapply IH.
Qed.

(** With nothing allocated and everything coalesced, one extent is left. *)
Lemma all_free_single a bs e :
  tiles a bs e -> a < e -> coalesced bs -> live_ptrs bs = [] ->
  bs = [{| addr := a; len := e - a - HDR; fr := true |}].
Proof.
  intros Ht Hae Hc Hl. destruct bs as [|b [|c bs]]; simpl in Ht; [lia|..].
  - rewrite live_ptrs_cons in Hl. destruct b as [x l [|]]; simplify_eq/=.
    destruct Ht as (-> & _ & _ & <-). f_equal. f_equal. lia.
  - rewrite !live_ptrs_cons in Hl. simpl in Hc. destruct (fr b), (fr c); simplify_eq/=.
    by destruct Hc.
Qed.

Lemma sum_used_live bs : live_ptrs bs = [] -> sum_used bs = 0.
Proof.
  induction bs as [|b bs IH]; [done|]. rewrite live_ptrs_cons, sum_used_cons. unfold footprint.
  destruct (fr b); [|done]. intros H. rewrite IH by done. lia.
Qed.

(** The block behind a pointer from [spec_alloc] is large enough. *)
Lemma spec_alloc_payload m pv need bs p bs' :
  spec_alloc need bs = Some (p, bs') -> dll m pv bs' 0 ->
  need <= payload (rd raw m (payload_blk p)).
Proof.
  revert pv bs'. induction bs as [|b bs IH]; intros pv bs' Hsp Hdll; [done|]. simpl in Hsp.
  destruct (fr b && _) eqn:Hf.
  - apply andb_true_iff in Hf as [_ Hf%Z.leb_le]. simplify_eq.
    unfold payload_blk. rewrite HDR_eq. replace (addr b + HDR - HDR) with (addr b) by lia.
    destruct (_ <=? len b); destruct Hdll as [Hb _]; cbn [addr] in Hb;
      rewrite (rd_lookup _ _ _ Hb); simpl; lia.
  - destruct (spec_alloc _ bs) as [[q r]|]; simplify_eq/=. destruct Hdll as [_ Hdll].
    by eapply IH.
Qed.

(** ** Main theorems *)

(** C1. Allocation implements the abstract first-fit allocator: on every
    arena that represents a block list, and for every request that survives
    the rounding, [ove_arena_alloc] terminates within its fuel, returns the
    pointer the first-fit specification returns (NULL exactly when no free
    block is large enough, then without any change) and leaves a represented
    arena with the specified blocks, statistics and unchanged payload. *)
Theorem arena_alloc_refines s bs sz :
  arena_rep s bs -> 0 <= sz -> sz + 15 < 2 ^ size_bits ->
  exists s',
  match spec_alloc (arena_align (if sz =? 0 then 1 else sz)) bs with
  | Some (p, bs') =>
  ove_arena_alloc raw (Some s) sz = Some (p, Some s') /\ arena_rep s' bs'
  | None => ove_arena_alloc raw (Some s) sz = Some (0, Some s) /\ s' = s
  end /\ base (ctl s') = base (ctl s) /\ size (ctl s') = size (ctl s) /\ data s' = data s.
Proof. apply alloc_spec. Qed.

(** C2. Freeing implements the abstract free: the block is marked free and
    merged with a free successor and a free predecessor, [used] drops by its
    footprint, the peak is kept, and the result is again a represented
    arena; a free of NULL, of a pointer outside the region or of a block
    that is already free changes nothing. *)
Theorem arena_free_refines s bs :
  arena_rep s bs ->
  (forall l1 b l2, bs = l1 ++ b :: l2 -> fr b = false ->
   exists s', ove_arena_free raw (Some s) (addr b + HDR) = Some s' /\
   arena_rep s' (spec_free l1 b l2) /\ data s' = data s /\
   ove_arena_used (Some s') = ove_arena_used (Some s) - (HDR + len b) /\
   ove_arena_high_water (Some s') = ove_arena_high_water (Some s)) /\
  (forall p, p = 0 \/ ove_arena_owns (Some s) p = false \/
   (exists b, b ∈ bs /\ fr b = true /\ p = addr b + HDR) ->
   ove_arena_free raw (Some s) p = Some s).
Proof.
  intros Hr. split; [|by intros p; eapply free_ignored].
  intros l1 b l2 -> Hb. destruct (free_spec _ _ _ _ Hr Hb) as (s' & He & Hr' & _ & _ & Hw & Hd).
  exists s'. split_and!; try done. simpl. rewrite (rep_used _ _ Hr), (rep_used _ _ Hr').
  by apply spec_free_used.
Qed.

(** C34. Memory safety of a client that only frees pointers it holds: at
    every point of every run, each held pointer is aligned, its payload lies
    in the managed region behind its header, and the payloads of two held
    pointers (headers included) do not overlap. *)
Theorem arena_live_disjoint s live :
  arena_reach (s, live) ->
  NoDup live /\
  forall p, p ∈ live ->
  let n := payload (rd raw (hdrs s) (payload_blk p)) in
  p mod OVE_ARENA_ALIGN = 0 /\ 0 < n /\
  base (ctl s) + HDR <= p /\ p + n <= base (ctl s) + size (ctl s) /\
  forall q, q ∈ live -> p <> q ->
  p + n <= q - HDR \/ q + payload (rd raw (hdrs s) (payload_blk q)) <= p - HDR.
Proof.
  intros (bs & Hr & Hl)%arena_reach_ok. cbn [fst snd] in *.
  pose proof (rep_bounds _ _ Hr) as [_ Hbd]. rewrite Forall_forall in Hbd.
  pose proof (tiles_aligned _ _ _ (rep_aligned _ _ Hr) (rep_tiles _ _ Hr)) as Hal.
  rewrite Forall_forall in Hal. split.
  { rewrite Hl. unfold live_ptrs. pose proof (tiles_NoDup _ _ _ (rep_tiles _ _ Hr)) as Hnd.
    clear -Hnd. induction bs as [|b bs IH]; [constructor|]. inversion Hnd as [|? ? Hni Hnd']; subst.
    rewrite filter_cons. case_decide; [|by apply IH]. simpl. constructor; [|by apply IH].
    intros (c & Hc & [_ Hin]%list_elem_of_filter)%list_elem_of_fmap. apply Hni.
    apply list_elem_of_fmap. exists c. split; [lia|done]. }
  intros p Hp. rewrite Hl in Hp. destruct (live_header _ _ _ Hr Hp) as (l1 & b & l2 & Hbs & _ & -> & Hh).
  assert (Hin : b ∈ bs) by (rewrite Hbs; apply elem_of_app; right; left).
  rewrite Hh. cbn [payload hdr_of]. destruct (Hbd _ Hin) as (? & ? & ?).
  split; [by apply Hal|]. split; [done|]. split; [lia|]. split; [lia|].
  intros q Hq Hne. rewrite Hl in Hq.
  destruct (live_header _ _ _ Hr Hq) as (k1 & c & k2 & Hbs' & _ & -> & Hh'). rewrite Hh'.
  assert (Hin' : c ∈ bs) by (rewrite Hbs'; apply elem_of_app; right; left). cbn [payload hdr_of].
  destruct (tiles_disjoint _ _ _ b c (rep_tiles _ _ Hr) Hin Hin') as [?|?]; lia.
Qed.

(** No fragmentation is left behind: once a client has freed everything
    it holds, whatever the history of allocations and frees, the arena is
    one extent again, nothing is counted as used, and a single allocation
    of the whole capacity succeeds. *)
Theorem arena_drained_whole s :
  arena_reach (s, []) ->
  ove_arena_used (Some s) = 0 /\
  forall sz, 0 <= sz <= align_down (size (ctl s) - HDR) ->
  exists s', ove_arena_alloc raw (Some s) sz = Some (base (ctl s) + HDR, Some s').
Proof.
  intros (bs & Hr & Hl)%arena_reach_ok. cbn [fst snd] in *.
  symmetry in Hl. apply Permutation_nil_r in Hl.
  split; [simpl; rewrite (rep_used _ _ Hr); by apply sum_used_live|].
  intros sz Hsz.
  pose proof (align_down_eq (size (ctl s) - 32)) as Hal.
  pose proof (Z.mod_pos_bound (size (ctl s) - 32) 16) as Hmb.
  pose proof (rep_room _ _ Hr) as Hroom. pose proof (rep_fits _ _ Hr) as Hfits.
  pose proof (rep_bounds _ _ Hr) as [Hb16 _].
  assert (Hbs := all_free_single _ _ _ (rep_tiles _ _ Hr)).
  unfold HDR, OVE_ARENA_ALIGN in *. rewrite Hbs in Hr; [|lia|by destruct Hr|done]. clear Hbs.
  destruct (alloc_spec _ _ sz Hr) as (s' & Hs & _); [lia|lia|].
  set (need := arena_align _) in *.
  assert (Hn : need <= size (ctl s) - 32 - (size (ctl s) - 32) mod 16).
  { rewrite Hal in Hsz by lia. unfold need. destruct (sz =? 0) eqn:Hz.
    - destruct (arena_align_spec 1); [lia..|]. unfold OVE_ARENA_ALIGN in *. dlia.
    - destruct (arena_align_spec sz); [lia..|]. unfold OVE_ARENA_ALIGN in *.
      clearbody need. dlia. }
  assert (Hfit : fits need {| addr := base (ctl s);
    len := base (ctl s) + 32 + align_down (size (ctl s) - 32) - base (ctl s) - 32; fr := true |} = true).
  { unfold fits. simpl. rewrite Hal by lia. lia. }
  pose proof (spec_alloc_hit need [] _ [] ltac:(constructor) Hfit) as Hsp. cbn [app] in Hsp.
  rewrite Hsp in Hs.
  destruct Hs as [Hs _]. by exists s'.
Qed.

(** [ove_arena_calloc] hands out a block of at least the requested
    size whose whole payload (the rounded size, not only the request) reads
    zero, and it changes no byte outside that payload. *)
Theorem arena_calloc_zeroed s bs sz p s' :
  arena_rep s bs -> 0 <= sz -> sz + 15 < 2 ^ size_bits ->
  ove_arena_calloc raw (Some s) sz = Some (p, Some s') -> p <> 0 ->
  let n := payload (rd raw (hdrs s') (payload_blk p)) in
  sz <= n /\
  (forall a, p <= a < p + n -> data s' a = 0) /\
  (forall a, a < p \/ p + n <= a -> data s' a = data s a).
Proof.
  intros Hr H0 Hov Hc Hp. unfold ove_arena_calloc in Hc.
  destruct (alloc_spec s bs sz Hr H0 Hov) as (s1 & Hs & _ & _ & Hd).
  destruct (spec_alloc _ bs) as [[q bs']|] eqn:Hsp; destruct Hs as [Hs Hr1];
    rewrite Hs in Hc; cbn [mbind option_bind] in Hc.
  2:{ simplify_eq/=. }
  destruct (q =? 0) eqn:Hq; simplify_eq; [lia|]. cbn [hdrs data].
  assert (Hge : sz <= payload (rd raw (hdrs s1) (payload_blk p))).
  { assert (Hneed : sz <= arena_align (if sz =? 0 then 1 else sz)).
    { destruct (sz =? 0) eqn:Hz.
      - destruct (arena_align_spec 1); [pose proof size_bits_ge; lia..|]. lia.
      - destruct (arena_align_spec sz); [lia..|]. lia. }
    pose proof (spec_alloc_payload _ _ _ _ _ _ Hsp (rep_dll _ _ Hr1)). lia. }
  unfold fill. rewrite <-Hd. split_and!; [done|..]; intros a Ha.
  - by rewrite (proj2 (andb_true_iff _ _)) by lia.
  - by rewrite (proj2 (andb_false_iff _ _)) by lia.
Qed.

(** A request within 15 bytes of [SIZE_MAX] wraps to a zero-byte one: the
    walk accepts the first free block, whatever its size. *)
Lemma alloc_request_wraps sz :
  2 ^ size_bits - 15 <= sz < 2 ^ size_bits -> arena_align sz = 0.
Proof.
  intros Hsz. pose proof size_bits_ge. unfold arena_align, OVE_ARENA_ALIGN. change (16 - 1) with 15.
  assert (usz (sz + 15) = sz + 15 - 2 ^ size_bits) as ->.
  { unfold usz, wrap. replace (sz + 15) with ((sz + 15 - 2 ^ size_bits) + 1 * 2 ^ size_bits) at 1 by lia.
    rewrite Z.mod_add by lia. apply Z.mod_small. lia. }
  rewrite align_down_eq by lia. rewrite Z.mod_small by lia. lia.
Qed.

End rep.

(** ** Concrete runs *)

Module Demo.

(** The 64-bit host; memory that holds no header reads as zeroes. *)
#[export] Instance host64 : Platform := {| size_bits := 64; size_bits_cases := or_intror eq_refl |}.
Definition raw0 (_ : Z) : ove_arena_blk :=
  {| next := 0; prev := 0; payload := 0; is_free := false; magic := 0 |}.

Definition blank : arena_st :=
  mk_arena {| base := 0; size := 0; used := 0; high_water := 0; first := 0 |} ∅ (fun _ => 170).

(** A 300-byte buffer at an unaligned address. *)
Definition fresh : arena_st := default blank (ove_arena_init (Some blank) 0x1008 300).2.

Definition alloc_in (s : arena_st) (n : Z) : arena_st :=
  match ove_arena_alloc raw0 (Some s) n with Some (_, Some s') => s' | _ => s end.
Definition free_in (s : arena_st) (p : Z) : arena_st :=
  default s (ove_arena_free raw0 (Some s) p).

(** Three blocks, the middle one freed again. *)
Definition busy : arena_st := free_in (alloc_in (alloc_in (alloc_in fresh 20) 10) 40) 0x1070.
Definition busy_blocks : list ablk :=
  [{| addr := 0x1010; len := 32; fr := false |};
   {| addr := 0x1050; len := 16; fr := true |};
   {| addr := 0x1080; len := 48; fr := false |};
   {| addr := 0x10d0; len := 64; fr := true |}].

Lemma busy_rep : arena_rep busy busy_blocks.
Proof.
  split; try (vm_compute; first [done | repeat split; done]).
Qed.

(** The finding: a request of [SIZE_MAX] bytes succeeds on a fresh arena,
    with a block whose recorded payload is 0 bytes. *)
Lemma alloc_size_max_succeeds :
  exists s', ove_arena_alloc raw0 (Some fresh) (2 ^ 64 - 1) = Some (0x1030, Some s') /\
    payload (rd raw0 (hdrs s') 0x1010) = 0.
Proof. eexists. vm_compute. split; reflexivity. Qed.

Lemma arena_alloc_refines_witness :
  exists s', ove_arena_alloc raw0 (Some busy) 30 = Some (0x10f0, Some s') /\ data s' = data busy.
Proof.
  destruct (arena_alloc_refines raw0 busy busy_blocks 30 busy_rep) as (s' & Hs & _ & _ & Hd);
    [done|done|].
  exists s'. split; [exact (proj1 Hs)|done].
Defined.

Lemma arena_free_refines_witness :
  exists s', ove_arena_free raw0 (Some busy) 0x10a0 = Some s' /\
    arena_rep s' [{| addr := 0x1010; len := 32; fr := false |};
                  {| addr := 0x1050; len := 192; fr := true |}].
Proof.
  destruct (arena_free_refines raw0 busy busy_blocks busy_rep) as [Hf _].
  destruct (Hf (take 2 busy_blocks) {| addr := 0x1080; len := 48; fr := false |}
               (drop 3 busy_blocks) eq_refl eq_refl) as (s' & He & Hr & _).
  exists s'. split; [exact He|exact Hr].
Defined.

Definition live2 : arena_st := alloc_in (alloc_in fresh 20) 10.

Lemma live2_reach : arena_reach raw0 (live2, [0x1070; 0x1030]).
Proof.
  change [0x1070; 0x1030] with (if 0x1070 =? 0 then [0x1030] else [0x1070; 0x1030]).
  eapply reach_step; [|eapply (step_alloc raw0 (alloc_in fresh 20) [0x1030] 10 0x1070);
    [done|done|vm_compute; reflexivity]].
  change [0x1030] with (if 0x1030 =? 0 then [] else [0x1030]).
  eapply reach_step; [|eapply (step_alloc raw0 fresh [] 20 0x1030);
    [done|done|vm_compute; reflexivity]].
  eapply (reach_init raw0 blank 0x1008 300); [done|done|done|reflexivity].
Qed.

Lemma arena_live_disjoint_witness :
  NoDup [0x1070; 0x1030] /\
  (0x1070 + payload (rd raw0 (hdrs live2) 0x1050) <= 0x1030 - HDR \/
   0x1030 + payload (rd raw0 (hdrs live2) 0x1010) <= 0x1070 - HDR).
Proof.
  destruct (arena_live_disjoint raw0 live2 [0x1070; 0x1030] live2_reach) as [Hn Hp].
  split; [exact Hn|].
  destruct (Hp 0x1070 ltac:(left)) as (_ & _ & _ & _ & Hq).
  exact (Hq 0x1030 ltac:(right; left) ltac:(done)).
Defined.

Lemma drained_reach : arena_reach raw0 (free_in (free_in live2 0x1030) 0x1070, []).
Proof.
  eapply reach_step; [|apply (step_free raw0 (free_in live2 0x1030) [] 0x1070 []);
    vm_compute; reflexivity].
  eapply reach_step; [apply live2_reach|].
  apply (step_free raw0 live2 [0x1070] 0x1030 []). vm_compute. reflexivity.
Qed.

Lemma arena_drained_whole_witness :
  exists s', ove_arena_alloc raw0 (Some (free_in (free_in live2 0x1030) 0x1070)) 256
    = Some (0x1030, Some s').
Proof.
  destruct (arena_drained_whole raw0 _ drained_reach) as [_ Ha].
  destruct (Ha 256) as (s' & Hs); [vm_compute; by split|]. exists s'. exact Hs.
Defined.

Definition zeroed : arena_st :=
  match ove_arena_calloc raw0 (Some busy) 30 with Some (_, Some s') => s' | _ => busy end.

Lemma arena_calloc_zeroed_witness : data zeroed 0x10f0 = 0 /\ data zeroed 0x10ef = 170.
Proof.
  destruct (arena_calloc_zeroed raw0 busy busy_blocks 30 0x10f0 zeroed busy_rep)
    as (_ & Hz & Hk); [done|done|vm_compute; reflexivity|done|].
  split; [apply Hz; vm_compute; by split|rewrite Hk; [done|left; done]].
Defined.

End Demo.
