(* ===== verification/Rings.v ===== *)
(** * Lock-protected and lock-free event rings
      (backends/common/ove_trace_ring.c, ove_profiler_ring.c)

    Both rings are shared by many producers and one consumer.  They are
    modelled as transition systems: one transition is one access to shared
    memory (an atomic operation, or the copy of one slot), and a run is any
    interleaving of the transitions of all threads, memory being
    sequentially consistent.  [hist] and [taken] are ghost logs: the records
    in the order the ring accepted them, and the records the consumer has
    been handed.  The theorems hold for every number of producers and for
    counters that wrap. *)

From S2P Require Import Prelude.

(** ** Free-running counters modulo 2^32 over a ring of [size] slots *)

Section counters.
Context (size : nat) (size_pos : (0 < size)%nat) (size_div : (Z.of_nat size | 2 ^ 32)).

(** [k % SIZE] for the unsigned counter value [k]. *)
Definition slot (w : Z) : nat := Z.to_nat (w mod Z.of_nat size).

Lemma slot_lt w : (slot w < size)%nat.
Proof. unfold slot. pose proof (Z.mod_pos_bound w (Z.of_nat size)). lia. Qed.

(** The slot of a wrapped counter is the slot of the running count. *)
Lemma slot_u32 a : slot (u32 a) = slot a.
Proof.
  unfold slot, wrap. f_equal. destruct size_div as [q Hq].
  rewrite Hq, (Z.mul_comm q), Z.rem_mul_r by lia.
  rewrite Z.mul_comm, Z.mod_add, Z.mod_mod by lia. done.
Qed.

(** Counts less than [size] apart use different slots. *)
Lemma slot_inj a b :
  slot (Z.of_nat a) = slot (Z.of_nat b) -> (a < b + size)%nat -> (b < a + size)%nat -> a = b.
Proof.
  unfold slot. intros Hs H1 H2.
  apply Z2Nat.inj in Hs; [|apply Z.mod_pos_bound; lia..].
  pose proof (Z.div_mod (Z.of_nat a) (Z.of_nat size)) as Ha.
  pose proof (Z.div_mod (Z.of_nat b) (Z.of_nat size)) as Hb.
  set (qa := Z.of_nat a / _) in *. set (qb := Z.of_nat b / _) in *.
  assert (qa = qb) by nia. nia.
Qed.
End counters.

(** The distance of two wrapped counters. *)
Lemma u32_dist a b : 0 <= a - b < 2 ^ 32 -> u32 (u32 a - u32 b) = a - b.
Proof. intros H. rewrite wrap_sub_l, wrap_sub_r. by apply wrap_small. Qed.

Lemma u32_inj a b : 0 <= a - b < 2 ^ 32 -> u32 a = u32 b -> a = b.
Proof.
  intros Hd He. assert (u32 (u32 a - u32 b) = a - b) as H by (by apply u32_dist).
  rewrite He, Z.sub_diag in H. change (u32 0) with 0 in H. lia.
Qed.

(** ** The trace ring: try-lock producers *)

Module TraceRing.

Record ove_trace_record := {
  ts_us : Z;
  tid : Z;
  kind : Z;
  code : Z;
  arg : Z }.

#[export] Instance ove_trace_record_eq_dec : EqDecision ove_trace_record.
Proof. solve_decision. Defined.

Definition rec0 : ove_trace_record := {| ts_us := 0; tid := 0; kind := 0; code := 0; arg := 0 |}.

(** [static struct { ... } ring] *)
Record ring := {
  buf : list ove_trace_record;
  write : Z;
  read : Z;
  dropped : Z;
  lock : bool }.

(** A producer inside [ove_trace_ring_push], by the next statement. *)
Inductive ppc :=
  | PDone (ret : bool)
  | PTestAndSet (r : ove_trace_record)
  | PLoadWrite (r : ove_trace_record)
  | PLoadRead (r : ove_trace_record) (w : Z)
  | PCheck (r : ove_trace_record) (w rd : Z)
  | PStoreBuf (r : ove_trace_record) (w : Z)
  | PStoreWrite (r : ove_trace_record) (w : Z)
  | PClearOk
  | PClearFull
  | PDropped.

(** The consumer inside [ove_trace_ring_drain]; [CDone out] has returned
    [length out] with the records in [out]. *)
Inductive cpc :=
  | CDone (out : list ove_trace_record)
  | CLoadWrite (max : Z)
  | CLoadRead (max w : Z)
  | CCopy (r avail i : Z) (out : list ove_trace_record)
  | CStoreRead (r avail : Z) (out : list ove_trace_record).

Record sys := {
  rg : ring;
  prods : list ppc;
  cons_ : cpc;
  hist : list ove_trace_record;
  taken : list ove_trace_record }.

Section machine.
Context (size : nat).
Abbreviation slot := (slot size).

(** One statement of [ove_trace_ring_push]; the third component is the
    record the statement publishes, if any. *)
Definition push_step (g : ring) (pc : ppc) : ring * ppc * option ove_trace_record :=
  match pc with
  | PDone b => (g, PDone b, None)
  | PTestAndSet r =>
      if lock g then (g, PDropped, None) else ({| g with lock := true |}, PLoadWrite r, None)
  | PLoadWrite r => (g, PLoadRead r (write g), None)
  | PLoadRead r w => (g, PCheck r w (read g), None)
  | PCheck r w rd =>
      (g, if Z.of_nat size <=? u32 (w - rd) then PClearFull else PStoreBuf r w, None)
  | PStoreBuf r w => ({| g with buf := aset (buf g) (slot w) r |}, PStoreWrite r w, None)
  | PStoreWrite r w => ({| g with write := u32 (w + 1) |}, PClearOk, Some r)
  | PClearOk => ({| g with lock := false |}, PDone true, None)
  | PClearFull => ({| g with lock := false |}, PDropped, None)
  | PDropped => ({| g with dropped := u32 (dropped g + 1) |}, PDone false, None)
  end.

(** One statement of [ove_trace_ring_drain]; [max] is a [size_t]. *)
Definition drain_step (g : ring) (pc : cpc) : ring * cpc :=
  match pc with
  | CDone out => (g, CDone out)
  | CLoadWrite max => (g, CLoadRead max (write g))
  | CLoadRead max w =>
      let r := read g in
      let avail := u32 (w - r) in
      (g, CCopy r (if max <? avail then u32 max else avail) 0 [])
  | CCopy r avail i out =>
      if i <? avail
      then (g, CCopy r avail (i + 1) (out ++ [aget rec0 (buf g) (slot (u32 (r + i)))]))
      else (g, CStoreRead r avail out)
  | CStoreRead r avail out => ({| g with read := u32 (r + avail) |}, CDone out)
  end.

(** [ove_trace_ring_dropped_get]: an atomic exchange. *)
Definition ove_trace_ring_dropped_get (g : ring) : Z * ring := (dropped g, {| g with dropped := 0 |}).

(** What can happen next: a producer enters [ove_trace_ring_push], a thread
    takes its next statement, the consumer enters the drain, or the drop
    counter is collected. *)
Inductive act :=
  | APush (t : nat) (r : ove_trace_record)
  | AProd (t : nat)
  | ADrain (max : Z)
  | ACons
  | ADropped.

Definition step (s : sys) (a : act) : option sys :=
  match a with
  | APush t r =>
      match prods s !! t with
      | Some (PDone _) => Some {| s with prods := <[t := PTestAndSet r]> (prods s) |}
      | _ => None
      end
  | AProd t =>
      pc ← prods s !! t;
      let '(g, pc', pub) := push_step (rg s) pc in
      Some {| s with rg := g; prods := <[t := pc']> (prods s);
            hist := hist s ++ (if pub is Some r then [r] else []) |}
  | ADrain max =>
      match cons_ s with
      | CDone _ => Some {| s with cons_ := CLoadWrite max |}
      | _ => None
      end
  | ACons =>
      let '(g, pc') := drain_step (rg s) (cons_ s) in
      Some {| s with rg := g; cons_ := pc';
            taken := taken s ++ (if cons_ s is CStoreRead _ _ out then out else []) |}
  | ADropped => Some {| s with rg := (ove_trace_ring_dropped_get (rg s)).2 |}
  end.

Fixpoint run (s : sys) (l : list act) : option sys :=
  match l with
  | [] => Some s
  | a :: l => s' ← step s a; run s' l
  end.

(** All-zero static storage and [n] threads outside the ring's code. *)
Definition start (n : nat) : sys :=
  {| rg := {| buf := replicate size rec0; write := 0; read := 0; dropped := 0; lock := false |};
   prods := replicate n (PDone true); cons_ := CDone []; hist := []; taken := [] |}.

(** The drain bound is a [size_t]. *)
Definition act_ok (a : act) : Prop := if a is ADrain max then 0 <= max else True.

(** A producer between its successful test-and-set and its clear. *)
Definition in_cs (pc : ppc) : bool :=
  match pc with
  | PLoadWrite _ | PLoadRead _ _ | PCheck _ _ _ | PStoreBuf _ _ | PStoreWrite _ _
  | PClearOk | PClearFull => true
  | _ => false
  end.

(** *** Invariant *)

(** The running counts behind [write] and [read]. *)
Abbreviation W s := (length (hist s)).
Abbreviation R s := (length (taken s)).

(** What a producer's locals say about the shared state. *)
Definition prod_ok (s : sys) (pc : ppc) : Prop :=
  match pc with
  | PLoadRead _ w => w = write (rg s)
  | PCheck _ w rd =>
      w = write (rg s) /\ exists k, rd = u32 (Z.of_nat k) /\ (k <= R s)%nat /\ (W s <= k + size)%nat
  | PStoreBuf _ w => w = write (rg s) /\ (W s < R s + size)%nat
  | PStoreWrite r w =>
      w = write (rg s) /\ (W s < R s + size)%nat /\ aget rec0 (buf (rg s)) (slot w) = r
  | _ => True
  end.

Definition cons_ok (s : sys) : Prop :=
  match cons_ s with
  | CLoadWrite max => 0 <= max
  | CLoadRead max w => 0 <= max /\ exists k, w = u32 (Z.of_nat k) /\ (R s <= k <= W s)%nat
  | CCopy r avail i out =>
      r = read (rg s) /\ exists n m, avail = Z.of_nat n /\ i = Z.of_nat m /\ (m <= n)%nat /\
      (R s + n <= W s)%nat /\ out = take m (drop (R s) (hist s))
  | CStoreRead r avail out =>
      r = read (rg s) /\ exists n, avail = Z.of_nat n /\ (R s + n <= W s)%nat /\
      out = take n (drop (R s) (hist s))
  | _ => True
  end.

(** Mutual exclusion: the flag is set exactly while one producer is in the
    critical section. *)
Definition lock_inv (l : bool) (ps : list ppc) : Prop :=
  (forall t pc, ps !! t = Some pc -> in_cs pc = true ->
   l = true /\ forall t' pc', ps !! t' = Some pc' -> in_cs pc' = true -> t' = t) /\
  (l = true -> exists t pc, ps !! t = Some pc /\ in_cs pc = true).

Record inv (s : sys) : Prop := {
  inv_buf : length (buf (rg s)) = size;
  inv_write : write (rg s) = u32 (Z.of_nat (W s));
  inv_read : read (rg s) = u32 (Z.of_nat (R s));
  inv_order : (R s <= W s <= R s + size)%nat;
  inv_fifo : taken s = take (R s) (hist s);
  inv_slots : forall k, (R s <= k < W s)%nat ->
  hist s !! k = buf (rg s) !! slot (Z.of_nat k);
  inv_lock : lock_inv (lock (rg s)) (prods s);
  inv_prods : forall t pc, prods s !! t = Some pc -> prod_ok s pc;
  inv_cons : cons_ok s }.

Lemma lock_stay l ps t pc pc' :
  lock_inv l ps -> ps !! t = Some pc -> in_cs pc' = in_cs pc -> lock_inv l (<[t := pc']> ps).
Proof.
  intros [H1 H2] Ht Hcs. pose proof (lookup_lt_Some _ _ _ Ht) as Hlt. split.
  - intros u q Hu Hq. apply list_lookup_insert_Some in Hu as [(<- & <- & _)|[Hne Hu]].
    + rewrite Hcs in Hq. destruct (H1 _ _ Ht Hq) as [-> Hun]. split; [done|].
      intros v q' Hv Hq'. apply list_lookup_insert_Some in Hv as [(<- & _)|[_ Hv]]; [done|].
      by eapply Hun.
    + destruct (H1 _ _ Hu Hq) as [-> Hun]. split; [done|].
      intros v q' Hv Hq'. apply list_lookup_insert_Some in Hv as [(<- & <- & _)|[_ Hv]].
      * rewrite Hcs in Hq'. by apply (Hun t pc).
      * by eapply Hun.
  - intros Hl. destruct (H2 Hl) as (u & q & Hu & Hq). destruct (decide (u = t)) as [->|Hne].
    + exists t, pc'. rewrite list_lookup_insert_eq by done. simplify_eq. by rewrite Hcs.
    + exists u, q. by rewrite list_lookup_insert_ne.
Qed.

Lemma lock_enter ps t pc pc' :
  lock_inv false ps -> ps !! t = Some pc -> in_cs pc' = true -> lock_inv true (<[t := pc']> ps).
Proof.
  intros [H1 _] Ht Hcs. pose proof (lookup_lt_Some _ _ _ Ht) as Hlt.
  assert (Hout : forall u q, <[t := pc']> ps !! u = Some q -> in_cs q = true -> u = t).
  { intros u q Hu Hq. apply list_lookup_insert_Some in Hu as [(<- & _)|[_ Hu]]; [done|].
    by destruct (H1 _ _ Hu Hq). }
  split.
  - intros u q Hu Hq. split; [done|]. intros v q' Hv Hq'.
    rewrite (Hout _ _ Hu Hq). by eapply Hout.
  - intros _. exists t, pc'. by rewrite list_lookup_insert_eq.
Qed.

Lemma lock_leave l ps t pc pc' :
  lock_inv l ps -> ps !! t = Some pc -> in_cs pc = true -> in_cs pc' = false ->
  lock_inv false (<[t := pc']> ps).
Proof.
  intros [H1 _] Ht Hcs Hcs'. destruct (H1 _ _ Ht Hcs) as [_ Hun]. split; [|done].
  intros u q Hu Hq. apply list_lookup_insert_Some in Hu as [(<- & <- & _)|[Hne Hu]]; [congruence|].
  by destruct Hne; symmetry; eapply Hun.
Qed.

(** The producers other than the one in the critical section have no
    expectations. *)
Lemma prod_ok_out s pc : in_cs pc = false -> prod_ok s pc.
Proof. by destruct pc. Qed.

Lemma prods_in_cs s s' t pc pc' :
  lock_inv (lock (rg s)) (prods s) -> prods s !! t = Some pc -> in_cs pc = true ->
  prod_ok s' pc' ->
  forall u q, <[t := pc']> (prods s) !! u = Some q -> prod_ok s' q.
Proof.
  intros [H1 _] Ht Hcs Hok u q Hu. apply list_lookup_insert_Some in Hu as [(<- & <- & _)|[Hne Hu]]; [done|].
  apply prod_ok_out. destruct (in_cs q) eqn:Hq; [|done].
  destruct (H1 _ _ Ht Hcs) as [_ Hun]. by destruct Hne; symmetry; eapply Hun.
Qed.

(** A producer's knowledge survives the consumer's progress. *)
Lemma prod_ok_mono s s' pc :
  write (rg s') = write (rg s) -> buf (rg s') = buf (rg s) -> hist s' = hist s ->
  (R s <= R s')%nat -> prod_ok s pc -> prod_ok s' pc.
Proof.
  intros Hw Hb Hh Hr. destruct pc; simpl; rewrite ?Hw, ?Hb, ?Hh; try done.
  - intros [-> (k & -> & ? & ?)]. split; [done|]. exists k. lia.
  - intros [-> ?]. split; [done|lia].
  - intros (-> & ? & ?). split; [done|]. split; [lia|done].
Qed.

(** The configured size divides 2^32 (every power of two does) and is
    smaller than it. *)
Context (size_pos : (0 < size)%nat) (size_div : (Z.of_nat size | 2 ^ 32))
  (size_fits : Z.of_nat size < 2 ^ 32).

(** A consumer's knowledge survives more pushes. *)
Lemma cons_ok_mono s s' r :
  cons_ s' = cons_ s -> read (rg s') = read (rg s) -> taken s' = taken s ->
  hist s' = hist s ++ r -> cons_ok s -> cons_ok s'.
Proof.
  unfold cons_ok. intros -> Hr Ht Hh. rewrite Hr, Ht, Hh, length_app.
  destruct (cons_ s); try done.
  - intros [? (k & -> & ?)]. split; [done|]. exists k. split; [done|lia].
  - intros [-> (n & m & -> & -> & ? & ? & ->)]. split; [done|]. exists n, m.
    split_and!; try done; [lia|]. rewrite drop_app_le by lia.
    rewrite take_app_le; [done|]. rewrite length_drop. lia.
  - intros [-> (n & -> & ? & ->)]. split; [done|]. exists n.
    split_and!; try done; [lia|]. rewrite drop_app_le by lia.
    rewrite take_app_le; [done|]. rewrite length_drop. lia.
Qed.

Lemma prods_insert s s' t pc' :
  (forall u q, prods s !! u = Some q -> prod_ok s q) ->
  (forall q, prod_ok s q -> prod_ok s' q) -> prod_ok s' pc' ->
  forall u q, <[t := pc']> (prods s) !! u = Some q -> prod_ok s' q.
Proof.
  intros Hp Hm Hok u q Hu. apply list_lookup_insert_Some in Hu as [(<- & <- & _)|[_ Hu]]; [done|].
  by eapply Hm, Hp.
Qed.

(** Storing into the slot at the write index. *)
Lemma store_slots s r :
  inv s -> (W s < R s + size)%nat ->
  forall k, (R s <= k < W s)%nat ->
  hist s !! k = aset (buf (rg s)) (slot (write (rg s))) r !! slot (Z.of_nat k).
Proof.
  intros Hi Hfull k Hk. unfold aset. rewrite list_lookup_insert_ne.
  - by apply (inv_slots _ Hi).
  - rewrite (inv_write _ Hi), slot_u32 by done. intros He.
    apply slot_inj in He; lia.
Qed.

Lemma push_step_inv s t pc g pc' pub :
  inv s -> prods s !! t = Some pc -> push_step (rg s) pc = (g, pc', pub) ->
  inv {| s with rg := g; prods := <[t := pc']> (prods s);
     hist := hist s ++ (if pub is Some r then [r] else []) |}.
Proof.
  intros Hi Ht Hs. pose proof (inv_prods _ Hi _ _ Ht) as Hok.
  pose proof (inv_order _ Hi) as Hord.
  pose proof Hi as [Hbuf Hw Hr _ Hf Hsl Hl Hp Hc].
  destruct pc as [b|r|r|r w|r w rd|r w|r w| | |]; simpl in Hs, Hok.
  - (* outside *) simplify_eq. rewrite list_insert_id by done. rewrite app_nil_r. by destruct s.
  - (* test and set *) destruct (lock (rg s)) eqn:Hlk; simplify_eq; rewrite app_nil_r.
    + split; simpl; try done.
      * rewrite Hlk. by eapply lock_stay.
      * by apply (prods_insert s).
    + split; simpl; try done; [by eapply lock_enter|]. by apply (prods_insert s).
  - (* load write *) simplify_eq. rewrite app_nil_r.
    split; simpl; try done; [by eapply lock_stay|]. by apply (prods_insert s).
  - (* load read *) simplify_eq. rewrite app_nil_r.
    split; simpl; try done; [by eapply lock_stay|]. apply (prods_insert s); [done|done|].
    simpl. split; [done|]. exists (R s). split; [done|]. lia.
  - (* check *) destruct Hok as [-> (k & -> & Hk & Hk')]. simplify_eq. rewrite app_nil_r.
    rewrite Hw, u32_dist by lia.
    split; simpl; try done.
    + eapply lock_stay; [done|done|]. by case_match.
    + apply (prods_insert s); [done|done|]. case_match; simpl; [done|].
      split; [by rewrite Hw|lia].
  - (* store the record *) destruct Hok as [-> Hfull]. simplify_eq. rewrite app_nil_r.
    split; simpl; try done.
    + by rewrite length_aset.
    + by apply store_slots.
    + by eapply lock_stay.
    + apply (prods_in_cs s _ t (PStoreBuf r (write (rg s)))); try done. simpl.
      split_and!; [done|done|]. apply aget_aset_eq. rewrite Hbuf. by apply slot_lt.
  - (* publish *) destruct Hok as (-> & Hfull & Hrec). simplify_eq.
    split; simpl; try done; rewrite ?length_app; simpl.
    + rewrite Hw, wrap_add_l. f_equal. lia.
    + lia.
    + rewrite Hf at 1. rewrite take_app_le by lia. done.
    + intros k Hk. destruct (decide (k = W s)) as [->|Hne].
      * rewrite lookup_app_r, Nat.sub_diag by lia. simpl. symmetry.
        rewrite <-(slot_u32 size size_pos size_div), <-Hw. unfold aget.
        destruct (buf (rg s) !! _) eqn:E; [done|]. apply lookup_ge_None in E.
        pose proof (slot_lt size size_pos (write (rg s))). lia.
      * rewrite lookup_app_l by lia. apply Hsl. lia.
    + by eapply lock_stay.
    + by apply (prods_in_cs s _ t (PStoreWrite (aget rec0 (buf (rg s)) (slot (write (rg s)))) (write (rg s)))).
    + by eapply (cons_ok_mono s).
  - (* release *) simplify_eq. rewrite app_nil_r.
    split; simpl; try done; [by eapply lock_leave|]. by apply (prods_in_cs s _ t PClearOk).
  - (* release, full *) simplify_eq. rewrite app_nil_r.
    split; simpl; try done; [by eapply lock_leave|]. by apply (prods_in_cs s _ t PClearFull).
  - (* count the drop *) simplify_eq. rewrite app_nil_r.
    split; simpl; try done; [by eapply lock_stay|]. by apply (prods_insert s).
Qed.

Lemma drain_step_inv s g pc' :
  inv s -> drain_step (rg s) (cons_ s) = (g, pc') ->
  inv {| s with rg := g; cons_ := pc';
     taken := taken s ++ (if cons_ s is CStoreRead _ _ out then out else []) |}.
Proof.
  intros Hi Hs. pose proof (inv_cons _ Hi) as Hok. unfold cons_ok in Hok.
  pose proof (inv_order _ Hi) as Hord.
  pose proof Hi as [Hbuf Hw Hr _ Hf Hsl Hl Hp Hc].
  destruct (cons_ s) as [out|max|max w|r avail i out|r avail out] eqn:Hcs; simpl in Hs; simplify_eq;
    rewrite ?app_nil_r.
  - by split.
  - split; try done. simpl. split; [done|]. exists (W s). split; [done|]. simpl. lia.
  - destruct Hok as [Hmax (k & -> & Hk)]. split; try done. simpl. split; [done|].
    unfold cons_ok. cbn [cons_ rg taken hist]. rewrite Hr, u32_dist by lia.
    exists (Z.to_nat (if max <? Z.of_nat k - Z.of_nat (R s) then u32 max else Z.of_nat k - Z.of_nat (R s))), 0%nat.
    destruct (max <? _) eqn:Hlt; [rewrite wrap_small by (unfold is_word; lia)|];
      (split; [lia|]); (split; [done|]); (split; [lia|]); (split; [cbn [taken hist]; lia|done]).
  - destruct Hok as [-> (n & m & -> & -> & Hmn & Hn & ->)].
    destruct (Z.of_nat m <? Z.of_nat n) eqn:Hlt; simplify_eq; split; try done; simpl.
    + split; [done|]. exists n, (S m). split; [done|]. split; [lia|]. split; [lia|]. split; [done|].
      assert (Hx : (hist s) !! (R s + m)%nat = buf (rg s) !! slot (u32 (read (rg s) + Z.of_nat m))).
      { rewrite Hr, wrap_add_l, slot_u32 by done. rewrite Hsl by lia. f_equal. f_equal. lia. }
      unfold aget. rewrite <-Hx. destruct (lookup_lt_is_Some_2 (hist s) (R s + m)) as [x Hx']; [lia|].
      rewrite Hx'. simpl. symmetry. apply take_S_r. by rewrite lookup_drop.
    + split; [done|]. exists n. assert (m = n) as -> by lia. done.
  - destruct Hok as [-> (n & -> & Hn & ->)].
    assert (Hlen : length (taken s ++ take n (drop (R s) (hist s))) = (R s + n)%nat).
    { rewrite length_app, length_take, length_drop. lia. }
    split; simpl; rewrite ?Hlen; try done.
    + rewrite Hr, wrap_add_l. f_equal. lia.
    + lia.
    + rewrite Hf at 1. by rewrite <-take_take_drop.
    + intros k Hk. apply Hsl. lia.
    + intros t pc Ht. eapply (prod_ok_mono s); [done..| |by eapply Hp]. simpl. rewrite Hlen. lia.
Qed.

Lemma start_inv n : inv (start n).
Proof.
  split; simpl; try done; try lia.
  - by rewrite length_replicate.
  - split; [|done]. intros t pc [-> _]%lookup_replicate. done.
  - intros t pc [-> _]%lookup_replicate. done.
Qed.

Lemma step_inv s a s' : inv s -> act_ok a -> step s a = Some s' -> inv s'.
Proof.
  intros Hi Ha Hs. destruct a as [t r|t|max| |]; simpl in Hs.
  - destruct (prods s !! t) as [[]|] eqn:Ht; simplify_eq.
    pose proof Hi as [? ? ? ? ? ? ? Hp ?].
    split; simpl; try done; [by eapply lock_stay|]. by apply (prods_insert s).
  - destruct (prods s !! t) as [pc|] eqn:Ht; simplify_eq/=.
    destruct (push_step (rg s) pc) as [[g pc'] pub] eqn:Hst. simplify_eq. by eapply push_step_inv.
  - destruct (cons_ s) eqn:Hc; simplify_eq. pose proof Hi as []. by split.
  - destruct (drain_step (rg s) (cons_ s)) as [g pc'] eqn:Hst. simplify_eq. by apply drain_step_inv.
  - simplify_eq. pose proof Hi as []. by split.
Qed.

Lemma run_inv l s s' : inv s -> Forall act_ok l -> run s l = Some s' -> inv s'.
Proof.
  revert s. induction l as [|a l IH]; intros s Hi Hl Hs; simplify_eq/=; [done|].
  inversion Hl as [|? ? Ha Hl']; subst.
  destruct (step s a) as [s1|] eqn:Hst; simplify_eq/=. eapply IH; [|done|done]. by eapply step_inv.
Qed.

(** Copying runs to the end of the batch without changing the ring. *)
Lemma run_copy s r n m out :
  cons_ s = CCopy r (Z.of_nat (n + m)) (Z.of_nat n) out ->
  exists out', run s (replicate m ACons) =
  Some {| s with cons_ := CCopy r (Z.of_nat (n + m)) (Z.of_nat (n + m)) out' |} /\
  (m = 0%nat -> out' = out).
Proof.
  revert s n out. induction m as [|m IH]; intros s n out Hc.
  { exists out. rewrite Nat.add_0_r in *. rewrite <-Hc. by destruct s. }
  cbn [replicate run step drain_step]. rewrite Hc. cbn [drain_step].
  rewrite (proj2 (Z.ltb_lt _ _)) by lia. cbn [mbind option_bind]. rewrite app_nil_r.
  destruct (IH {| s with cons_ := CCopy r (Z.of_nat (S n + m)) (Z.of_nat (S n))
    (out ++ [aget rec0 (buf (rg s)) (slot (u32 (r + Z.of_nat n)))]) |} (S n)
    (out ++ [aget rec0 (buf (rg s)) (slot (u32 (r + Z.of_nat n)))]))
    as (out' & Hrun & _); [done|].
  exists out'. split; [|done]. replace (n + S m)%nat with (S n + m)%nat by lia.
  replace (Z.of_nat n + 1) with (Z.of_nat (S n)) by lia. destruct s. exact Hrun.
Qed.

Lemma run_app s l k : run s (l ++ k) = (s' ← run s l; run s' k).
Proof. revert s. induction l as [|a l IH]; intros s; simpl; [done|]. destruct (step s a); simpl; auto. Qed.

(** The trace ring is a bounded FIFO under every interleaving of any
    number of producers with the single consumer: what the consumer has been
    handed is exactly the first records the ring accepted, in order and
    without loss, duplication or tearing; at most [size] accepted records are
    waiting, and the ring's slots hold exactly those; and at most one
    producer is between test-and-set and clear. *)
Theorem trace_ring_fifo n l s :
  Forall act_ok l -> run (start n) l = Some s ->
  hist s = taken s ++ ((fun k => aget rec0 (buf (rg s)) (slot (Z.of_nat k)))
                     <$> seq (R s) (W s - R s)) /\
  (W s <= R s + size)%nat /\
  (forall t t' pc pc', prods s !! t = Some pc -> prods s !! t' = Some pc' ->
   in_cs pc = true -> in_cs pc' = true -> t = t').
Proof.
  intros Hl Hr. pose proof (run_inv _ _ _ (start_inv n) Hl Hr) as Hi.
  destruct Hi as [Hb Hw _ Hord Hf Hsl [Hlk _] _ _]. split_and!.
  - rewrite Hf at 1. rewrite <-(take_drop (R s) (hist s)) at 1. f_equal.
    apply list_eq. intros i. rewrite lookup_drop, list_lookup_fmap.
    destruct (decide (i < W s - R s)%nat).
    + rewrite lookup_seq_lt by done. simpl. unfold aget. rewrite <-Hsl by lia.
      destruct (lookup_lt_is_Some_2 (hist s) (R s + i)) as [x ->]; [lia|done].
    + rewrite lookup_ge_None_2 by lia. by rewrite lookup_seq_ge by lia.
  - lia.
  - intros t t' pc pc' Ht Ht' Hc Hc'. symmetry. by eapply Hlk.
Qed.

(** A drain that is not interrupted terminates and hands over
    everything that was waiting, up to [max] records, oldest first, and
    frees exactly those slots. *)
Theorem trace_drain_delivers n l s max :
  Forall act_ok l -> run (start n) l = Some s -> 0 <= max -> cons_ s = CLoadWrite max ->
  let k := Nat.min (Z.to_nat max) (W s - R s) in
  exists s', run s (replicate (k + 4) ACons) = Some s' /\
  cons_ s' = CDone (take k (drop (R s) (hist s))) /\
  taken s' = take (R s + k) (hist s) /\ hist s' = hist s /\
  read (rg s') = u32 (Z.of_nat (R s + k)).
Proof.
  intros Hl Hr Hmax Hc k. pose proof (run_inv _ _ _ (start_inv n) Hl Hr) as Hi.
  pose proof (inv_order _ Hi) as Hord. set (r := read (rg s)).
  assert (H2 : run s [ACons; ACons] = Some {| s with cons_ := CCopy r (Z.of_nat (0 + k)) (Z.of_nat 0) [] |}).
  { cbn [run step]. rewrite Hc. cbn [drain_step mbind option_bind cons_ rg]. rewrite !app_nil_r.
    unfold r. rewrite (inv_write _ Hi), (inv_read _ Hi), u32_dist by lia.
    do 3 f_equal. destruct (max <? _) eqn:E; [rewrite wrap_small by (unfold is_word; lia)|]; lia. }
  destruct (run_copy {| s with cons_ := CCopy r (Z.of_nat (0 + k)) (Z.of_nat 0) [] |} r 0 k [] eq_refl)
    as (out & Hcopy & _). cbn [rg prods cons_ hist taken] in Hcopy.
  set (s1 := {| s with cons_ := CCopy r (Z.of_nat (0 + k)) (Z.of_nat (0 + k)) out |}).
  change (run {| s with cons_ := CCopy r (Z.of_nat (0 + k)) (Z.of_nat 0) [] |}
        (replicate k ACons) = Some s1) in Hcopy.
  set (s2 := {| s with rg := {| (rg s) with read := u32 (r + Z.of_nat k) |};
           cons_ := CDone out; taken := taken s ++ out |}).
  assert (Hrun : run s (replicate (k + 4) ACons) = Some s2).
  { replace (k + 4)%nat with (2 + (k + 2))%nat by lia. rewrite replicate_add, run_app.
    change (replicate 2 ACons) with [ACons; ACons]. rewrite H2. cbn [mbind option_bind].
    rewrite replicate_add, run_app, Hcopy. unfold s1.
    cbn [mbind option_bind run step replicate drain_step cons_ rg prods hist taken].
    rewrite Z.ltb_irrefl. cbn [mbind option_bind drain_step cons_ rg prods hist taken].
    rewrite app_nil_r. done. }
  assert (Hi1 : inv s1).
  { apply (run_inv ([ACons; ACons] ++ replicate k ACons) s); [done| |].
    - apply Forall_app. split; [by repeat constructor|]. by apply Forall_replicate.
    - rewrite run_app, H2. exact Hcopy. }
  destruct (inv_cons _ Hi1) as [_ (n' & m & Hn & Hm & _ & Hle & Hout)].
  assert (m = k /\ n' = k) as [-> ->] by lia. simpl in Hout.
  exists s2. split; [exact Hrun|]. unfold s2. simpl. split_and!; try done.
  - by rewrite Hout.
  - rewrite Hout, (inv_fifo _ Hi) at 1. by rewrite <-take_take_drop.
  - unfold r. rewrite (inv_read _ Hi), wrap_add_l. f_equal. lia.
Qed.

End machine.
End TraceRing.

(** ** The profiler ring: lock-free reservation with commit flags *)

Module ProfilerRing.

Record ove_profiler_sample := {
  ts_us : Z;
  tid : Z;
  depth : Z;
  state : Z;
  pad : list Z;
  pcs : list Z }.

#[export] Instance ove_profiler_sample_eq_dec : EqDecision ove_profiler_sample.
Proof. solve_decision. Defined.

Definition sample0 : ove_profiler_sample :=
  {| ts_us := 0; tid := 0; depth := 0; state := 0; pad := [0; 0]; pcs := replicate 16 0 |}.

(** [static struct { ... } ring]; a commit byte is 0 or 1. *)
Record ring := {
  buf : list ove_profiler_sample;
  committed : list Z;
  write : Z;
  read : Z;
  dropped : Z }.

(** A producer inside [ove_profiler_ring_push].  The [nat] is a ghost: how
    many reservations had been made when [w] was loaded, and from the
    successful exchange on, the number of this reservation. *)
Inductive ppc :=
  | PDone (ret : bool)
  | PLoadWrite (s : ove_profiler_sample)
  | PLoadRead (s : ove_profiler_sample) (w : Z) (k : nat)
  | PCas (s : ove_profiler_sample) (w : Z) (k : nat)
  | PStoreBuf (s : ove_profiler_sample) (w : Z) (k : nat)
  | PCommit (s : ove_profiler_sample) (w : Z) (k : nat)
  | PDropped.

(** The consumer inside [ove_profiler_ring_drain]; [copied] is the length
    of [out]. *)
Inductive cpc :=
  | CDone (out : list ove_profiler_sample)
  | CLoadRead (max : Z)
  | CLoadWrite (max r : Z)
  | CLoop (max r w : Z) (out : list ove_profiler_sample)
  | CCopy (max r w : Z) (out : list ove_profiler_sample)
  | CClear (max r w : Z) (out : list ove_profiler_sample)
  | CStoreRead (r : Z) (out : list ove_profiler_sample).

Record sys := {
  rg : ring;
  prods : list ppc;
  cons_ : cpc;
  hist : list ove_profiler_sample;
  taken : list ove_profiler_sample }.

Section machine.
Context (size : nat).
Abbreviation slot := (slot size).
Abbreviation W s := (length (hist s)).
Abbreviation R s := (length (taken s)).

(** One shared access of [ove_profiler_ring_push].  [spurious] lets the weak
    compare-exchange fail although the value matches; [n] is the number of
    reservations so far (ghost); the last component is the sample whose
    reservation the statement performs, if any. *)
Definition push_step (n : nat) (spurious : bool) (g : ring) (pc : ppc) :
  ring * ppc * option ove_profiler_sample :=
  match pc with
  | PDone b => (g, PDone b, None)
  | PLoadWrite s => (g, PLoadRead s (write g) n, None)
  | PLoadRead s w k =>
      (g, if Z.of_nat size <=? u32 (w - read g) then PDropped else PCas s w k, None)
  | PCas s w k =>
      if (write g =? w) && negb spurious
      then ({| g with write := u32 (w + 1) |}, PStoreBuf s w n, Some s)
      else (g, PLoadWrite s, None)
  | PStoreBuf s w k => ({| g with buf := aset (buf g) (slot w) s |}, PCommit s w k, None)
  | PCommit s w k => ({| g with committed := aset (committed g) (slot w) 1 |}, PDone true, None)
  | PDropped => ({| g with dropped := u32 (dropped g + 1) |}, PDone false, None)
  end.

(** One shared access of [ove_profiler_ring_drain]. *)
Definition drain_step (g : ring) (pc : cpc) : ring * cpc :=
  match pc with
  | CDone out => (g, CDone out)
  | CLoadRead max => (g, CLoadWrite max (read g))
  | CLoadWrite max r => (g, CLoop max r (write g) [])
  | CLoop max r w out =>
      if negb (r =? w) && (Z.of_nat (length out) <? u32 max) then
      if aget 0 (committed g) (slot r) =? 0 then (g, CStoreRead r out)
      else (g, CCopy max r w out)
      else (g, CStoreRead r out)
  | CCopy max r w out => (g, CClear max r w (out ++ [aget sample0 (buf g) (slot r)]))
  | CClear max r w out =>
      ({| g with committed := aset (committed g) (slot r) 0 |}, CLoop max (u32 (r + 1)) w out)
  | CStoreRead r out => ({| g with read := r |}, CDone out)
  end.

(** [ove_profiler_ring_dropped_get]: an atomic exchange. *)
Definition ove_profiler_ring_dropped_get (g : ring) : Z * ring :=
  (dropped g, {| g with dropped := 0 |}).

Inductive act :=
  | APush (t : nat) (s : ove_profiler_sample)
  | AProd (t : nat) (spurious : bool)
  | ADrain (max : Z)
  | ACons
  | ADropped.

Definition step (s : sys) (a : act) : option sys :=
  match a with
  | APush t smp =>
      match prods s !! t with
      | Some (PDone _) => Some {| s with prods := <[t := PLoadWrite smp]> (prods s) |}
      | _ => None
      end
  | AProd t sp =>
      pc ← prods s !! t;
      let '(g, pc', pub) := push_step (W s) sp (rg s) pc in
      Some {| s with rg := g; prods := <[t := pc']> (prods s);
            hist := hist s ++ (if pub is Some smp then [smp] else []) |}
  | ADrain max =>
      match cons_ s with
      | CDone _ => Some {| s with cons_ := CLoadRead max |}
      | _ => None
      end
  | ACons =>
      let '(g, pc') := drain_step (rg s) (cons_ s) in
      Some {| s with rg := g; cons_ := pc';
            taken := taken s ++ (if cons_ s is CStoreRead _ out then out else []) |}
  | ADropped => Some {| s with rg := (ove_profiler_ring_dropped_get (rg s)).2 |}
  end.

Fixpoint run (s : sys) (l : list act) : option sys :=
  match l with
  | [] => Some s
  | a :: l => s' ← step s a; run s' l
  end.

Definition start (n : nat) : sys :=
  {| rg := {| buf := replicate size sample0; committed := replicate size 0;
          write := 0; read := 0; dropped := 0 |};
   prods := replicate n (PDone true); cons_ := CDone []; hist := []; taken := [] |}.

(** A producer is not suspended between its load of [write] and its
    compare-exchange while 2^32 other reservations are made (the counters
    would come round to the same value). *)
Definition window_ok (s : sys) (a : act) : Prop :=
  forall t sp smp w k, a = AProd t sp -> prods s !! t = Some (PCas smp w k) ->
  Z.of_nat (W s) - Z.of_nat k < 2 ^ 32.

Inductive reach (n : nat) : sys -> Prop :=
  | reach_start : reach n (start n)
  | reach_step s a s' : reach n s -> window_ok s a -> step s a = Some s' -> reach n s'.

(** *** Invariant *)

(** The reservation a producer has made and not yet committed. *)
Definition own (pc : ppc) : option nat :=
  match pc with PStoreBuf _ _ k | PCommit _ _ k => Some k | _ => None end.

Definition flag (s : sys) (k : nat) : Z := aget 0 (committed (rg s)) (slot (Z.of_nat k)).
Definition cell (s : sys) (k : nat) : option ove_profiler_sample := buf (rg s) !! slot (Z.of_nat k).

(** The first reservation whose commit flag the consumer has not cleared. *)
Definition cursor (s : sys) : nat :=
  match cons_ s with
  | CLoop _ _ _ out | CCopy _ _ _ out | CStoreRead _ out => R s + length out
  | CClear _ _ _ out => R s + length out - 1
  | _ => R s
  end%nat.

Definition prod_ok (s : sys) (pc : ppc) : Prop :=
  match pc with
  | PLoadRead _ w k => w = u32 (Z.of_nat k) /\ (k <= W s)%nat
  | PCas _ w k => w = u32 (Z.of_nat k) /\ (k <= W s)%nat /\ (k = W s -> (W s < R s + size)%nat)
  | PStoreBuf smp w k => w = u32 (Z.of_nat k) /\ hist s !! k = Some smp
  | PCommit smp w k => w = u32 (Z.of_nat k) /\ hist s !! k = Some smp /\ cell s k = Some smp
  | _ => True
  end.

Definition batch_ok (s : sys) (w : Z) (out : list ove_profiler_sample) : Prop :=
  out = take (length out) (drop (R s) (hist s)) /\
  exists k, w = u32 (Z.of_nat k) /\ (R s + length out <= k <= W s)%nat.

Definition cons_ok (s : sys) : Prop :=
  match cons_ s with
  | CLoadWrite _ r => r = u32 (Z.of_nat (R s))
  | CLoop _ r w out => r = u32 (Z.of_nat (cursor s)) /\ batch_ok s w out
  | CCopy _ r w out =>
      r = u32 (Z.of_nat (cursor s)) /\ batch_ok s w out /\ r <> w /\ flag s (cursor s) <> 0
  | CClear _ r w out =>
      r = u32 (Z.of_nat (cursor s)) /\ batch_ok s w out /\ out <> [] /\ flag s (cursor s) <> 0
  | CStoreRead r out => r = u32 (Z.of_nat (cursor s)) /\
  out = take (length out) (drop (R s) (hist s)) /\ (R s + length out <= W s)%nat
  | _ => True
  end.

Record inv (s : sys) : Prop := {
  inv_buf : length (buf (rg s)) = size;
  inv_com : length (committed (rg s)) = size;
  inv_write : write (rg s) = u32 (Z.of_nat (W s));
  inv_read : read (rg s) = u32 (Z.of_nat (R s));
  inv_order : (R s <= cursor s <= W s)%nat;
  inv_room : (W s <= R s + size)%nat;
  inv_fifo : taken s = take (R s) (hist s);
  inv_own : forall t pc k, prods s !! t = Some pc -> own pc = Some k ->
  (cursor s <= k < W s)%nat /\ flag s k = 0;
  inv_uniq : forall t t' pc pc' k, prods s !! t = Some pc -> prods s !! t' = Some pc' ->
  own pc = Some k -> own pc' = Some k -> t = t';
  inv_full : forall k, (cursor s <= k < W s)%nat ->
  (exists t pc, prods s !! t = Some pc /\ own pc = Some k) \/
  (flag s k = 1 /\ cell s k = hist s !! k);
  inv_empty : forall k, (W s <= k < cursor s + size)%nat -> flag s k = 0;
  inv_prods : forall t pc, prods s !! t = Some pc -> prod_ok s pc;
  inv_cons : cons_ok s }.

Context (size_pos : (0 < size)%nat) (size_div : (Z.of_nat size | 2 ^ 32))
  (size_fits : Z.of_nat size < 2 ^ 32).

Lemma slot_eq j k :
  slot (Z.of_nat j) = slot (Z.of_nat k) -> (j < k + size)%nat -> (k < j + size)%nat -> j = k.
Proof. by apply slot_inj. Qed.

(** Updating one slot, seen from the counts around it. *)
Lemma flag_set s s' k v j :
  length (committed (rg s)) = size ->
  committed (rg s') = aset (committed (rg s)) (slot (u32 (Z.of_nat k))) v ->
  (j < k + size)%nat -> (k < j + size)%nat ->
  flag s' j = if decide (j = k) then v else flag s j.
Proof.
  intros Hl Hc H1 H2. unfold flag. rewrite Hc, slot_u32 by done. case_decide as He.
  - subst k. apply aget_aset_eq. rewrite Hl. by apply slot_lt.
  - apply aget_aset_ne. intros Hs. apply slot_eq in Hs; lia.
Qed.

Lemma cell_set s s' k x j :
  length (buf (rg s)) = size ->
  buf (rg s') = aset (buf (rg s)) (slot (u32 (Z.of_nat k))) x ->
  (j < k + size)%nat -> (k < j + size)%nat ->
  cell s' j = if decide (j = k) then Some x else cell s j.
Proof.
  intros Hl Hc H1 H2. unfold cell, aset in *. rewrite Hc, slot_u32 by done. case_decide as He.
  - subst k. apply list_lookup_insert_eq. rewrite Hl. by apply slot_lt.
  - apply list_lookup_insert_ne. intros Hs. apply slot_eq in Hs; lia.
Qed.

Lemma own_insert (ps : list ppc) t pc pc' u q k :
  ps !! t = Some pc -> own pc' = own pc -> <[t := pc']> ps !! u = Some q -> own q = Some k ->
  exists q0, ps !! u = Some q0 /\ own q0 = Some k.
Proof.
  intros Ht Ho Hu Hq. apply list_lookup_insert_Some in Hu as [(<- & <- & _)|[_ Hu]]; [|by exists q].
  exists pc. by rewrite <-Ho.
Qed.

Lemma own_insert_rev (ps : list ppc) t pc pc' u q k :
  ps !! t = Some pc -> own pc' = own pc -> ps !! u = Some q -> own q = Some k ->
  exists q0, <[t := pc']> ps !! u = Some q0 /\ own q0 = Some k.
Proof.
  intros Ht Ho Hu Hq. destruct (decide (u = t)) as [->|Hne].
  - exists pc'. rewrite list_lookup_insert_eq by (by eapply lookup_lt_Some). simplify_eq.
    by rewrite Ho.
  - exists q. by rewrite list_lookup_insert_ne.
Qed.

(** A step that only moves one producer (and possibly the drop counter). *)
Lemma inv_local s t pc pc' d :
  inv s -> prods s !! t = Some pc -> own pc' = own pc -> prod_ok s pc' ->
  inv {| s with rg := {| (rg s) with dropped := d |}; prods := <[t := pc']> (prods s) |}.
Proof.
  intros [] Ht Ho Hok. split; try done.
  - intros u q k Hu Hq. destruct (own_insert _ _ _ _ _ _ _ Ht Ho Hu Hq) as (q0 & ? & ?).
    by eapply inv_own0.
  - intros u u' q q' k Hu Hu' Hq Hq'.
    destruct (own_insert _ _ _ _ _ _ _ Ht Ho Hu Hq) as (q0 & ? & ?).
    destruct (own_insert _ _ _ _ _ _ _ Ht Ho Hu' Hq') as (q1 & ? & ?). by eapply inv_uniq0.
  - intros k Hk. destruct (inv_full0 k Hk) as [(u & q & Hu & Hq)|?]; [left|by right].
    exists u. by eapply own_insert_rev.
  - intros u q Hu. apply list_lookup_insert_Some in Hu as [(<- & <- & _)|[_ Hu]]; [done|].
    by eapply inv_prods0.
Qed.

Lemma set_dropped g : {| g with dropped := dropped g |} = g.
Proof. by destruct g. Qed.

(** A batch being copied stays a prefix when more samples are reserved. *)
Lemma batch_app (h r out : list ove_profiler_sample) n :
  (n + length out <= length h)%nat ->
  out = take (length out) (drop n h) -> out = take (length out) (drop n (h ++ r)).
Proof.
  intros Hl Ho. rewrite drop_app_le by lia. rewrite take_app_le; [done|]. rewrite length_drop. lia.
Qed.

Lemma cons_ok_reserve s g ps smp :
  committed g = committed (rg s) -> (cursor s <= W s)%nat ->
  cons_ok s -> cons_ok {| s with rg := g; prods := ps; hist := hist s ++ [smp] |}.
Proof.
  intros Hg Hc. unfold cons_ok, cursor, batch_ok, flag in *. simpl. rewrite Hg, length_app. simpl.
  destruct (cons_ s); try done.
  - intros (? & ? & k & ? & ?). split_and!; [done|apply batch_app; [lia|done]|].
    exists k. split; [done|lia].
  - intros (? & (? & k & ? & ?) & ? & ?). split_and!; try done; [apply batch_app; [lia|done]|].
    exists k. split; [done|lia].
  - intros (? & (? & k & ? & ?) & ? & ?). split_and!; try done; [apply batch_app; [lia|done]|].
    exists k. split; [done|lia].
  - intros (? & ? & ?). split_and!; [done|apply batch_app; [lia|done]|lia].
Qed.

(** The compare-exchange reserves the next slot. *)
Lemma reserve_inv s t smp w k :
  inv s -> prods s !! t = Some (PCas smp w k) -> write (rg s) = w ->
  Z.of_nat (W s) - Z.of_nat k < 2 ^ 32 ->
  inv {| s with rg := {| (rg s) with write := u32 (w + 1) |};
     prods := <[t := PStoreBuf smp w (W s)]> (prods s); hist := hist s ++ [smp] |}.
Proof.
  intros Hi Ht Hw Hwin. destruct (inv_prods _ Hi _ _ Ht) as (Hk & Hle & Hroom).
  assert (k = W s) as ->.
  { rewrite (inv_write _ Hi), Hk in Hw. symmetry. apply Nat2Z.inj, u32_inj; [lia|done]. }
  specialize (Hroom eq_refl). pose proof Hi as [].
  set (s' := {| rg := _; prods := _; cons_ := _; hist := _; taken := _ |}).
  assert (Hlen : W s' = S (W s)) by (simpl; rewrite length_app; simpl; lia).
  assert (Hcur : cursor s' = cursor s) by done.
  assert (Hold : forall u q j, <[t := PStoreBuf smp w (W s)]> (prods s) !! u = Some q ->
        own q = Some j -> (u = t /\ j = W s) \/ (prods s !! u = Some q /\ (j < W s)%nat)).
  { intros u q j Hu Hq. apply list_lookup_insert_Some in Hu as [(<- & <- & _)|[_ Hu]].
    - left. by simplify_eq/=.
    - right. split; [done|]. by apply (inv_own0 _ _ _ Hu). }
  split; rewrite ?Hlen, ?Hcur; try done.
  - simpl. rewrite <-Hw, inv_write0, wrap_add_l. f_equal. lia.
  - change (R s') with (R s). lia.
  - simpl. rewrite take_app_le; [done|lia].
  - intros u q j Hu Hq. destruct (Hold _ _ _ Hu Hq) as [[-> ->]|[Hu' Hj]].
    + split; [lia|]. apply inv_empty0. lia.
    + destruct (inv_own0 _ _ _ Hu' Hq). split; [lia|done].
  - intros u u' q q' j Hu Hu' Hq Hq'.
    destruct (Hold _ _ _ Hu Hq) as [[-> ->]|[Hu1 Hj]], (Hold _ _ _ Hu' Hq') as [[-> Hj']|[Hu2 Hj']];
      try done; try lia. by eapply inv_uniq0.
  - intros j Hj. destruct (decide (j = W s)) as [->|Hne].
    + left. exists t, (PStoreBuf smp w (W s)). split; [|done]. simpl.
      apply list_lookup_insert_eq. by eapply lookup_lt_Some.
    + destruct (inv_full0 j) as [(u & q & Hu & Hq)|[Hf Hb]]; [lia|left|right].
      * exists u, q. split; [|done]. simpl. rewrite list_lookup_insert_ne; [done|].
        intros <-. by simplify_eq.
      * split; [done|]. simpl. rewrite lookup_app_l by lia. done.
  - intros j Hj. apply inv_empty0. lia.
  - intros u q Hu. simpl in Hu. apply list_lookup_insert_Some in Hu as [(<- & <- & _)|[_ Hu]].
    + simpl. split; [by rewrite Hk|]. by apply list_lookup_middle.
    + specialize (inv_prods0 _ _ Hu). destruct q; simpl in *; try done; rewrite ?length_app; simpl.
      * destruct inv_prods0. split; [done|lia].
      * destruct inv_prods0 as (? & ? & ?). split_and!; [done|lia|lia].
      * destruct inv_prods0. split; [done|]. by apply lookup_app_l_Some.
      * destruct inv_prods0 as (? & ? & ?). split_and!; [done|by apply lookup_app_l_Some|done].
  - apply cons_ok_reserve; [done|lia|done].
Qed.

(** The reserved slot is filled. *)
Lemma store_inv s t smp w k :
  inv s -> prods s !! t = Some (PStoreBuf smp w k) ->
  inv {| s with rg := {| (rg s) with buf := aset (buf (rg s)) (slot w) smp |};
     prods := <[t := PCommit smp w k]> (prods s) |}.
Proof.
  intros Hi Ht. destruct (inv_prods _ Hi _ _ Ht) as (-> & Hh). pose proof Hi as [].
  destruct (inv_own0 _ _ _ Ht eq_refl) as [Hk Hfl].
  set (s' := {| rg := _; prods := _; cons_ := _; hist := _; taken := _ |}).
  assert (Hcell : forall j, (cursor s <= j < W s)%nat ->
        cell s' j = if decide (j = k) then Some smp else cell s j).
  { intros j Hj. apply cell_set; [done|done|lia|lia]. }
  assert (Ho : own (PCommit smp (u32 (Z.of_nat k)) k) = own (PStoreBuf smp (u32 (Z.of_nat k)) k)) by done.
  split; try done.
  - simpl. by rewrite length_aset.
  - intros u q j Hu Hq. destruct (own_insert _ _ _ _ _ _ _ Ht Ho Hu Hq) as (q0 & ? & ?).
    by eapply inv_own0.
  - intros u u' q q' j Hu Hu' Hq Hq'.
    destruct (own_insert _ _ _ _ _ _ _ Ht Ho Hu Hq) as (q0 & ? & ?).
    destruct (own_insert _ _ _ _ _ _ _ Ht Ho Hu' Hq') as (q1 & ? & ?). by eapply inv_uniq0.
  - intros j Hj. destruct (inv_full0 j Hj) as [(u & q & Hu & Hq)|[Hf Hb]]; [left|right].
    + exists u. by eapply own_insert_rev.
    + split; [done|]. rewrite Hcell by done. case_decide; [|done]. subst j. rewrite Hfl in Hf. done.
  - intros u q Hu. apply list_lookup_insert_Some in Hu as [(<- & <- & _)|[Hne Hu]].
    + simpl. split_and!; [done|done|]. rewrite Hcell by lia. by rewrite decide_True.
    + specialize (inv_prods0 _ _ Hu). destruct q as [|?|? ? ?|? ? ?|? ? ?|? ? j|]; try done.
      destruct inv_prods0 as (-> & Hj & Hc). destruct (inv_own0 _ _ _ Hu eq_refl) as [Hjr _].
      simpl. split_and!; [done|done|]. rewrite Hcell by done. case_decide; [|done].
      subst j. destruct Hne. by eapply inv_uniq0.
Qed.

(** The filled slot is committed. *)
Lemma commit_inv s t smp w k :
  inv s -> prods s !! t = Some (PCommit smp w k) ->
  inv {| s with rg := {| (rg s) with committed := aset (committed (rg s)) (slot w) 1 |};
     prods := <[t := PDone true]> (prods s) |}.
Proof.
  intros Hi Ht. destruct (inv_prods _ Hi _ _ Ht) as (-> & Hh & Hc). pose proof Hi as [].
  destruct (inv_own0 _ _ _ Ht eq_refl) as [Hk Hfl].
  set (s' := {| rg := _; prods := _; cons_ := _; hist := _; taken := _ |}).
  assert (Hflag : forall j, (cursor s <= j < cursor s + size)%nat ->
        flag s' j = if decide (j = k) then 1 else flag s j).
  { intros j Hj. apply flag_set; [done|done|lia|lia]. }
  assert (Hold : forall u q j, <[t := PDone true]> (prods s) !! u = Some q -> own q = Some j ->
        prods s !! u = Some q /\ j <> k).
  { intros u q j Hu Hq. apply list_lookup_insert_Some in Hu as [(<- & <- & _)|[Hne Hu]]; [done|].
    split; [done|]. intros ->. apply Hne. by eapply inv_uniq0. }
  assert (Hcur : cursor s' = cursor s) by done.
  split; try done; rewrite ?Hcur.
  - simpl. by rewrite length_aset.
  - intros u q j Hu Hq. destruct (Hold _ _ _ Hu Hq) as [Hu' Hj].
    destruct (inv_own0 _ _ _ Hu' Hq) as [Hr Hf]. split; [done|].
    rewrite Hflag by lia. by rewrite decide_False.
  - intros u u' q q' j Hu Hu' Hq Hq'.
    destruct (Hold _ _ _ Hu Hq), (Hold _ _ _ Hu' Hq'). by eapply inv_uniq0.
  - intros j Hj. rewrite Hflag by (change (W s') with (W s) in Hj; lia).
    case_decide as He; [subst j; right; split; [done|by transitivity (Some smp)]|].
    destruct (inv_full0 j Hj) as [(u & q & Hu & Hq)|?]; [left|by right].
    exists u, q. split; [|done]. simpl. rewrite list_lookup_insert_ne; [done|].
    intros <-. by simplify_eq/=.
  - intros j Hj. change (W s') with (W s) in Hj. rewrite Hflag by lia.
    rewrite decide_False by lia. by apply inv_empty0.
  - intros u q Hu. apply list_lookup_insert_Some in Hu as [(<- & <- & _)|[_ Hu]]; [done|].
    specialize (inv_prods0 _ _ Hu). by destruct q.
  - unfold cons_ok in *. rewrite Hcur. change (cons_ s') with (cons_ s).
    destruct (cons_ s) eqn:Hcs; try done.
    + destruct inv_cons0 as (? & ? & ? & ?). split_and!; try done.
      rewrite Hflag by lia. by case_decide.
    + destruct inv_cons0 as (? & ? & ? & ?). split_and!; try done.
      rewrite Hflag by lia. by case_decide.
Qed.

Lemma ppush_step_inv s t sp pc g pc' pub :
  inv s -> window_ok s (AProd t sp) ->
  prods s !! t = Some pc -> push_step (W s) sp (rg s) pc = (g, pc', pub) ->
  inv {| s with rg := g; prods := <[t := pc']> (prods s);
     hist := hist s ++ (if pub is Some r then [r] else []) |}.
Proof.
  intros Hi Hwin Ht Hs. pose proof (inv_prods _ Hi _ _ Ht) as Hok.
  destruct pc as [b|smp|smp w k|smp w k|smp w k|smp w k|]; simpl in Hs.
  - simplify_eq. rewrite app_nil_r, list_insert_id by done. by destruct s.
  - simplify_eq. rewrite app_nil_r, <-(set_dropped (rg s)). eapply inv_local; try done.
    simpl. split; [by apply inv_write|done].
  - simplify_eq. rewrite app_nil_r, <-(set_dropped (rg s)). destruct Hok as [-> Hk].
    eapply inv_local; try done; [by case_match|]. simpl.
    rewrite (inv_read _ Hi), wrap_sub_l, wrap_sub_r. case_match eqn:Hlt; simpl; [done|].
    split_and!; [done|done|]. intros ->. pose proof (inv_order _ Hi). pose proof (inv_room _ Hi).
    rewrite wrap_small in Hlt by (unfold is_word; lia). lia.
  - destruct (write (rg s) =? w) eqn:Hw, sp; simplify_eq/=; rewrite ?app_nil_r.
    1,3,4: rewrite <-(set_dropped (rg s)); by eapply inv_local.
    apply (reserve_inv s t smp w k); [done|done|lia|]. by eapply Hwin.
  - simplify_eq. rewrite app_nil_r. by apply store_inv.
  - simplify_eq. rewrite app_nil_r. by eapply commit_inv.
  - simplify_eq. rewrite app_nil_r. by eapply inv_local.
Qed.

(** A consumer step that leaves the ring and its cursor alone. *)
Lemma inv_cons_local s pc' :
  inv s -> cursor {| s with cons_ := pc' |} = cursor s -> cons_ok {| s with cons_ := pc' |} ->
  inv {| s with cons_ := pc' |}.
Proof. intros [] Hcur Hok. split; rewrite ?Hcur; done. Qed.

(** A committed flag means the slot holds its sample. *)
Lemma committed_cell s :
  inv s -> (cursor s < W s)%nat -> flag s (cursor s) <> 0 ->
  cell s (cursor s) = hist s !! cursor s.
Proof.
  intros Hi Hlt Hf. destruct (inv_full _ Hi (cursor s)) as [(t & pc & Ht & Ho)|[_ ?]]; [lia| |done].
  by destruct (inv_own _ Hi _ _ _ Ht Ho).
Qed.

(** The copied slot is released. *)
Lemma clear_inv s max r w out :
  inv s -> cons_ s = CClear max r w out ->
  inv {| s with rg := {| (rg s) with committed := aset (committed (rg s)) (slot r) 0 |};
     cons_ := CLoop max (u32 (r + 1)) w out |}.
Proof.
  intros Hi Hc. pose proof Hi as []. pose proof (inv_cons _ Hi) as Hok. unfold cons_ok in Hok.
  rewrite Hc in Hok. destruct Hok as (Hr & (Hout & k & -> & Hk) & Hne & Hfl).
  set (s' := {| rg := _; prods := _; cons_ := _; hist := _; taken := _ |}).
  assert (Hlen : (0 < length out)%nat) by (destruct out; simpl; [done|lia]).
  assert (Hcs : cursor s = (R s + length out - 1)%nat) by (unfold cursor; by rewrite Hc).
  assert (Hcur : cursor s' = S (cursor s)) by (rewrite Hcs; simpl; unfold cursor; simpl; lia).
  assert (Hflag : forall j, (S (cursor s) <= j < cursor s + size)%nat -> flag s' j = flag s j).
  { intros j Hj. rewrite (flag_set s s' (cursor s) 0 j); [|done|by rewrite <-Hr|lia|lia].
    by rewrite decide_False by lia. }
  assert (Hlast : flag s' (cursor s + size) = 0).
  { unfold flag, s'. simpl.
    assert (slot (Z.of_nat (cursor s + size)) = slot r) as ->.
    { rewrite Hr, slot_u32 by done. unfold Rings.slot. f_equal.
      rewrite Nat2Z.inj_add, <-(Z.mul_1_l (Z.of_nat size)) at 1. by rewrite Z.mod_add by lia. }
    apply aget_aset_eq. rewrite inv_com0. by apply slot_lt. }
  assert (Hown : forall t pc j, prods s !! t = Some pc -> own pc = Some j ->
        (S (cursor s) <= j < W s)%nat /\ flag s j = 0).
  { intros t pc j Ht Ho. destruct (inv_own0 _ _ _ Ht Ho) as [Hj Hf]. split; [|done].
    assert (j <> cursor s) by (intros ->; done). lia. }
  split; try done; rewrite ?Hcur.
  - simpl. by rewrite length_aset.
  - change (R s') with (R s). change (W s') with (W s). lia.
  - intros t pc j Ht Ho. destruct (Hown _ _ _ Ht Ho) as [Hj Hf]. split; [done|].
    rewrite Hflag by lia. done.
  - intros j Hj. change (W s') with (W s) in Hj. rewrite Hflag by lia. apply inv_full0. lia.
  - intros j Hj. change (W s') with (W s) in Hj.
    destruct (decide (j = cursor s + size)%nat) as [->|Hn]; [done|].
    rewrite Hflag by lia. apply inv_empty0. lia.
  - unfold cons_ok. rewrite Hcur. simpl. split.
    + rewrite Hr, wrap_add_l. f_equal. lia.
    + split; [done|]. exists k. split; [done|]. done.
Qed.

(** The batch is handed over. *)
Lemma store_read_inv s r out :
  inv s -> cons_ s = CStoreRead r out ->
  inv {| s with rg := {| (rg s) with read := r |}; cons_ := CDone out; taken := taken s ++ out |}.
Proof.
  intros Hi Hc. pose proof Hi as []. pose proof (inv_cons _ Hi) as Hok. unfold cons_ok in Hok.
  rewrite Hc in Hok. destruct Hok as (Hr & Hout & Hle).
  set (s' := {| rg := _; prods := _; cons_ := _; hist := _; taken := _ |}).
  assert (Hcs : cursor s = (R s + length out)%nat) by (unfold cursor; by rewrite Hc).
  assert (HR : R s' = cursor s) by (simpl; rewrite length_app; lia).
  assert (Hcur : cursor s' = cursor s) by exact HR.
  split; try done; rewrite ?Hcur, ?HR; try done.
  - change (W s') with (W s). lia.
  - change (W s') with (W s). lia.
  - simpl. rewrite inv_fifo0, Hout at 1. rewrite Hcs. by rewrite <-take_take_drop.
  - intros t pc Ht. specialize (inv_prods0 _ _ Ht). destruct pc; try done.
    destruct inv_prods0 as (? & ? & Hroom). simpl. rewrite length_app. split_and!; try done.
    intros. specialize (Hroom ltac:(done)). lia.
Qed.

Lemma pdrain_step_inv s g pc' :
  inv s -> drain_step (rg s) (cons_ s) = (g, pc') ->
  inv {| s with rg := g; cons_ := pc';
     taken := taken s ++ (if cons_ s is CStoreRead _ out then out else []) |}.
Proof.
  intros Hi Hs. pose proof (inv_cons _ Hi) as Hok. unfold cons_ok in Hok.
  pose proof (inv_order _ Hi) as Hord.
  destruct (cons_ s) as [out|max|max r|max r w out|max r w out|max r w out|r out] eqn:Hc;
    simpl in Hs; rewrite ?app_nil_r.
  - simplify_eq. rewrite <-Hc. by destruct s.
  - simplify_eq. apply (inv_cons_local s); [done|unfold cursor; by rewrite Hc|]. simpl. exact (inv_read _ Hi).
  - simplify_eq. apply (inv_cons_local s); [done|unfold cursor; rewrite Hc; simpl; lia|].
    unfold cons_ok, cursor, batch_ok. simpl. rewrite Nat.add_0_r. split; [done|]. split; [done|].
    exists (W s). split; [exact (inv_write _ Hi)|]. unfold cursor in Hord. rewrite Hc in Hord. lia.
  - assert (Hcs : cursor s = (R s + length out)%nat) by (unfold cursor; by rewrite Hc).
    destruct Hok as (Hr & Hout & k & -> & Hk).
    assert (Hstop : inv {| s with cons_ := CStoreRead r out |}).
    { apply (inv_cons_local s); [done|by rewrite Hcs|]. unfold cons_ok, cursor. simpl.
      rewrite <-Hcs. split_and!; [done|done|lia]. }
    destruct (negb _ && _) eqn:Hgo; [|by simplify_eq].
    apply andb_true_iff in Hgo as [Hgo%negb_true_iff%Z.eqb_neq _].
    destruct (aget _ _ _ =? 0) eqn:Hf; simplify_eq; [done|].
    apply (inv_cons_local s); [done|by rewrite Hcs|]. unfold cons_ok, cursor, batch_ok. simpl.
    rewrite <-Hcs. split_and!; [done|done|by exists k; rewrite Hcs|done|].
    unfold flag. rewrite <-(slot_u32 size size_pos size_div). simpl. lia.
  - assert (Hcs : cursor s = (R s + length out)%nat) by (unfold cursor; by rewrite Hc).
    destruct Hok as (Hr & (Hout & k & -> & Hk) & Hne & Hfl). injection Hs as <- <-.
    assert (Hlt : (R s + length out < k)%nat).
    { destruct (decide (R s + length out = k)%nat) as [He|]; [|lia].
      destruct Hne. rewrite Hr, Hcs. by rewrite He. }
    apply (inv_cons_local s); [done|rewrite Hcs; unfold cursor; simpl; rewrite length_app; simpl; lia|].
    unfold cons_ok, cursor, batch_ok. simpl. rewrite length_app. simpl.
    replace (R s + (length out + 1) - 1)%nat with (cursor s) by lia.
    split_and!; [done| |exists k; split; [done|lia]|by destruct out|done].
    rewrite Nat.add_1_r. pose proof (committed_cell s Hi ltac:(lia) Hfl) as Hcell.
    unfold cell in Hcell. rewrite <-(slot_u32 size size_pos size_div) in Hcell.
    unfold aget. rewrite Hr, Hcell.
    destruct (lookup_lt_is_Some_2 (hist s) (cursor s)) as [x Hx]; [lia|]. rewrite Hx. simpl.
    rewrite Hout at 1. symmetry. apply take_S_r. by rewrite lookup_drop, <-Hcs.
  - simplify_eq. by apply clear_inv.
  - simplify_eq. by apply store_read_inv.
Qed.

Lemma pstart_inv n : inv (start n).
Proof.
  split; try done; simpl; try lia.
  - by rewrite length_replicate.
  - by rewrite length_replicate.
  - by intros t pc k [-> _]%lookup_replicate.
  - by intros t t' pc pc' k [-> _]%lookup_replicate.
  - intros k Hk. unfold flag, aget. simpl. destruct (replicate size 0 !! _) eqn:E; [|done].
    by apply lookup_replicate in E as [-> _].
  - by intros t pc [-> _]%lookup_replicate.
Qed.

Lemma reach_inv n s : reach n s -> inv s.
Proof.
  induction 1 as [|s a s' _ Hi Hw Hs]; [apply pstart_inv|].
  destruct a as [t r|t sp|max| |]; simpl in Hs.
  - destruct (prods s !! t) as [[]|] eqn:Ht; simplify_eq.
    rewrite <-(set_dropped (rg s)). by eapply inv_local.
  - destruct (prods s !! t) as [pc|] eqn:Ht; simplify_eq/=.
    destruct (push_step (W s) sp (rg s) pc) as [[g pc'] pub] eqn:Hst. simplify_eq.
    by eapply ppush_step_inv.
  - destruct (cons_ s) eqn:Hc; simplify_eq. apply (inv_cons_local s); [done| |done].
    unfold cursor. by rewrite Hc.
  - destruct (drain_step (rg s) (cons_ s)) as [g pc'] eqn:Hst. simplify_eq. by apply pdrain_step_inv.
  - simplify_eq. destruct Hi. by split.
Qed.

Lemma reach_run n s l s' :
  reach n s -> run s l = Some s' -> Forall (fun a => forall t sp, a <> AProd t sp) l -> reach n s'.
Proof.
  revert s. induction l as [|a l IH]; intros s Hr Hs Hl; simplify_eq/=; [done|].
  inversion Hl as [|? ? Ha Hl']; subst. destruct (step s a) as [s1|] eqn:Hst; simplify_eq/=.
  eapply IH; [|done|done]. eapply reach_step; [done| |done].
  intros t sp ? ? ? ->. by destruct (Ha t sp).
Qed.

Lemma run_hist s l s' : run s l = Some s' -> (W s <= W s')%nat.
Proof.
  clear size_pos size_div size_fits.
  revert s. induction l as [|a l IH]; intros s Hs; simplify_eq/=; [done|].
  destruct (step s a) as [s1|] eqn:Hst; simplify_eq/=. apply IH in Hs.
  enough (W s <= W s1)%nat by lia. clear Hs. destruct a as [t r|t sp|max| |]; simpl in Hst.
  - by destruct (prods s !! t) as [[]|]; simplify_eq/=.
  - destruct (prods s !! t) as [pc|]; simplify_eq/=.
    destruct (push_step (W s) sp (rg s) pc) as [[g pc'] pub].
    simplify_eq/=. rewrite length_app. lia.
  - by destruct (cons_ s); simplify_eq/=.
  - destruct (drain_step (rg s) (cons_ s)). by simplify_eq/=.
  - by simplify_eq/=.
Qed.

(** A run with fewer than 2^32 reservations in all meets the assumption. *)
Lemma run_reach n s l s' :
  reach n s -> run s l = Some s' -> Z.of_nat (W s') < 2 ^ 32 -> reach n s'.
Proof.
  clear size_pos size_div size_fits.
  revert s. induction l as [|a l IH]; intros s Hr Hs Hw; simplify_eq/=; [done|].
  destruct (step s a) as [s1|] eqn:Hst; simplify_eq/=. eapply (IH s1); [|done|done].
  eapply reach_step; [done| |done]. intros t sp x w k -> Ht.
  assert (run s (AProd t sp :: l) = Some s') as Hall%run_hist by (cbn [run]; by rewrite Hst). lia.
Qed.

Lemma consumer_only m : Forall (fun a => forall t sp, a <> AProd t sp) (replicate m ACons).
Proof. by apply Forall_replicate. Qed.

Lemma prun_app s l k : run s (l ++ k) = (s' ← run s l; run s' k).
Proof. revert s. induction l as [|a l IH]; intros s; simpl; [done|]. destruct (step s a); simpl; auto. Qed.

(** No producer is between its reservation and its commit. *)
Definition quiescent (s : sys) : Prop :=
  forall t pc, prods s !! t = Some pc -> own pc = None.

(** With every reservation committed, each turn of the loop takes one sample. *)
Lemma drain_loop n m s max r out :
  reach n s -> quiescent s -> cons_ s = CLoop max r (write (rg s)) out ->
  (Z.of_nat (length out + m) <= u32 max) -> (R s + length out + m <= W s)%nat ->
  exists s' r' out', run s (replicate (3 * m) ACons) = Some s' /\
  cons_ s' = CLoop max r' (write (rg s')) out' /\ length out' = (length out + m)%nat /\
  hist s' = hist s /\ taken s' = taken s /\ prods s' = prods s.
Proof.
  revert s r out. induction m as [|m IH]; intros s r out Hreach Hq Hc Hmax Hw.
  { exists s, r, out. by rewrite Nat.add_0_r. }
  pose proof (reach_inv _ _ Hreach) as Hi. pose proof (inv_cons _ Hi) as Hok.
  unfold cons_ok in Hok. rewrite Hc in Hok. destruct Hok as (Hr & _).
  assert (Hcs : cursor s = (R s + length out)%nat) by (unfold cursor; by rewrite Hc).
  pose proof (inv_room _ Hi) as Hroom. rewrite Hcs in Hr.
  assert (Hflag : aget 0 (committed (rg s)) (slot r) = 1).
  { destruct (inv_full _ Hi (R s + length out)%nat) as [(t & pc & Ht & Ho)|[Hf _]]; [lia|..].
    - by rewrite (Hq _ _ Ht) in Ho.
    - unfold flag in Hf. by rewrite Hr, slot_u32. }
  assert (Hrw : (r =? write (rg s)) = false).
  { apply Z.eqb_neq. rewrite Hr, (inv_write _ Hi). intros He. symmetry in He.
    apply u32_inj in He; lia. }
  assert (Hlt : (Z.of_nat (length out) <? u32 max) = true) by (apply Z.ltb_lt; lia).
  set (out1 := out ++ [aget sample0 (buf (rg s)) (slot r)]).
  set (s1 := {| s with rg := {| (rg s) with committed := aset (committed (rg s)) (slot r) 0 |};
            cons_ := CLoop max (u32 (r + 1)) (write (rg s)) out1 |}).
  assert (H3 : run s (replicate 3 ACons) = Some s1).
  { cbn [replicate run step]. rewrite Hc. cbn [drain_step]. rewrite Hrw, Hlt, Hflag.
    cbn [negb andb]. change (1 =? 0) with false.
    cbn [mbind option_bind step drain_step cons_ rg taken hist prods]. by rewrite !app_nil_r. }
  assert (Hout1 : length out1 = S (length out)) by (unfold out1; rewrite length_app; simpl; lia).
  destruct (IH s1 (u32 (r + 1)) out1) as (s' & r' & out' & Hrun & Hc' & Hl' & ? & ? & ?).
  - eapply reach_run; [done|exact H3|apply consumer_only].
  - done.
  - done.
  - rewrite Hout1. lia.
  - change (R s1) with (R s). change (W s1) with (W s). lia.
  - exists s', r', out'. split_and!; try done; [|lia].
    replace (3 * S m)%nat with (3 + 3 * m)%nat by lia. by rewrite replicate_add, prun_app, H3.
Qed.

(** C19. The lock-free ring is a bounded FIFO under every interleaving of any
    number of producers (with spurious compare-exchange failures) and the
    single consumer, as long as no producer sleeps through 2^32 other
    reservations: the consumer has been handed exactly the first samples
    reserved, in reservation order, each complete; at most [size] samples
    are reserved and not handed over; and no two producers own the same
    slot. *)
Theorem profiler_ring_fifo n s :
  reach n s ->
  taken s = take (R s) (hist s) /\ (R s <= W s <= R s + size)%nat /\
  (forall t t' pc pc' k k', prods s !! t = Some pc -> prods s !! t' = Some pc' ->
   own pc = Some k -> own pc' = Some k' -> t <> t' -> slot (Z.of_nat k) <> slot (Z.of_nat k')).
Proof.
  intros Hr. pose proof (reach_inv _ _ Hr) as Hi. pose proof (inv_order _ Hi).
  pose proof (inv_room _ Hi). split_and!; [by apply inv_fifo|lia|lia|].
  intros t t' pc pc' k k' Ht Ht' Ho Ho' Hne He.
  destruct (inv_own _ Hi _ _ _ Ht Ho) as [Hk _], (inv_own _ Hi _ _ _ Ht' Ho') as [Hk' _].
  apply slot_eq in He; [|lia|lia]. subst k'. apply Hne. by eapply (inv_uniq _ Hi).
Qed.

(** No reserved sample is stuck: when every reservation has been
    committed, an uninterrupted drain terminates and hands over all waiting
    samples, oldest first, up to [max]. *)
Theorem profiler_drain_delivers n s max :
  reach n s -> quiescent s -> cons_ s = CLoadRead max ->
  let k := Nat.min (Z.to_nat (u32 max)) (W s - R s) in
  exists s', run s (replicate (3 * k + 4) ACons) = Some s' /\
  cons_ s' = CDone (take k (drop (R s) (hist s))) /\
  taken s' = take (R s + k) (hist s) /\ hist s' = hist s.
Proof.
  intros Hreach Hq Hc k. pose proof (reach_inv _ _ Hreach) as Hi.
  pose proof (inv_order _ Hi) as Hord. pose proof (inv_room _ Hi) as Hroom.
  pose proof (wrap_range 32 max ltac:(lia)) as Hu. unfold is_word in Hu.
  set (s1 := {| s with cons_ := CLoop max (read (rg s)) (write (rg s)) [] |}).
  assert (H2 : run s (replicate 2 ACons) = Some s1).
  { cbn [replicate run step]. rewrite Hc.
    cbn [drain_step mbind option_bind cons_ rg taken hist prods]. by rewrite !app_nil_r. }
  assert (Hr1 : reach n s1) by (eapply reach_run; [done|exact H2|apply consumer_only]).
  destruct (drain_loop n k s1 max (read (rg s)) [] Hr1 Hq eq_refl) as
    (s2 & r & out & Hrun & Hc2 & Hl & Hh & Ht & Hp); [simpl; lia|simpl; lia|].
  assert (Hr2 : reach n s2) by (eapply reach_run; [done|exact Hrun|apply consumer_only]).
  pose proof (reach_inv _ _ Hr2) as Hi2. pose proof (inv_cons _ Hi2) as Hok.
  unfold cons_ok in Hok. rewrite Hc2 in Hok. destruct Hok as (Hrr & Hout & _).
  assert (Hstop : negb (r =? write (rg s2)) && (Z.of_nat (length out) <? u32 max) = false).
  { apply andb_false_iff. destruct (decide (k = Z.to_nat (u32 max))) as [Hk|Hk].
    - right. simpl in Hl. apply Z.ltb_ge. lia.
    - left. apply negb_false_iff, Z.eqb_eq. rewrite Hrr, (inv_write _ Hi2). f_equal.
      assert (cursor s2 = (R s2 + length out)%nat) as -> by (unfold cursor; by rewrite Hc2).
      rewrite Hh, Ht. simpl. simpl in Hl. lia. }
  eexists. split.
  { replace (3 * k + 4)%nat with (2 + (3 * k + 2))%nat by lia.
    rewrite replicate_add, prun_app, H2. cbn [mbind option_bind].
    rewrite replicate_add, prun_app, Hrun. cbn [mbind option_bind replicate run step].
    rewrite Hc2. cbn [drain_step]. rewrite Hstop.
    cbn [mbind option_bind step drain_step cons_ rg taken hist prods]. done. }
  cbn [cons_ taken hist]. rewrite app_nil_r, Hh, Ht in *. cbn [hist taken s1] in *.
  simpl in Hl. rewrite Hl in Hout. split_and!; [by rewrite <-Hout| |done].
  rewrite Hout, (inv_fifo _ Hi) at 1. by rewrite <-take_take_drop.
Qed.

End machine.
(** *** A drop without a full ring

    The producer loads [write], another producer and the consumer make
    progress, and its load of [read] is then ahead of its [write]: the
    unsigned difference is huge and the sample is dropped. *)

Definition stale_schedule (a b : ove_profiler_sample) : list act :=
  [APush 0 a; AProd 0 false;
   APush 1 b; AProd 1 false; AProd 1 false; AProd 1 false; AProd 1 false; AProd 1 false;
   ADrain 10; ACons; ACons; ACons; ACons; ACons; ACons; ACons;
   AProd 0 false; AProd 0 false].

(** A sample can be dropped although the ring is empty: after the stale
    schedule the first push has returned false and the drop counter is 1,
    while every slot is free and everything reserved has been handed over.
    The header promises drops on a genuinely full ring only. *)
Lemma profiler_spurious_drop a b :
  exists s, run 1024 (start 1024 2) (stale_schedule a b) = Some s /\
    prods s !! 0%nat = Some (PDone false) /\ dropped (rg s) = 1 /\
    hist s = [b] /\ taken s = [b] /\ write (rg s) = read (rg s).
Proof. eexists. split; [vm_compute; reflexivity|]. by vm_compute. Qed.

End ProfilerRing.

(** ** Concrete runs on rings of four slots *)

Module RingDemo.

Lemma four_div : (Z.of_nat 4 | 2 ^ 32).
Proof. by exists (2 ^ 30). Qed.

Section trace.
Import TraceRing.

Definition rec_a : ove_trace_record := {| ts_us := 1; tid := 7; kind := 0; code := 2; arg := 1 |}.
Definition rec_b : ove_trace_record := {| ts_us := 2; tid := 8; kind := 1; code := 3; arg := 0 |}.

(** Two producers interleaved: the second finds the lock taken, retries
    after the first is done. *)
Definition trace_acts : list act :=
  [APush 0 rec_a; APush 1 rec_b; AProd 0; AProd 1; AProd 0; AProd 0; AProd 0; AProd 1; AProd 0;
   AProd 0; AProd 0; APush 1 rec_b] ++ replicate 7 (AProd 1) ++ [ADrain 1].

Definition trace_s : sys := default (start 4 2) (run 4 (start 4 2) trace_acts).

Lemma trace_acts_ok : Forall act_ok trace_acts.
Proof. by repeat constructor. Qed.

Lemma trace_ring_fifo_witness :
  hist trace_s = taken trace_s ++ [rec_a; rec_b] /\ (length (hist trace_s) <= 0 + 4)%nat.
Proof.
  destruct (trace_ring_fifo 4 ltac:(lia) four_div ltac:(done) 2 trace_acts trace_s trace_acts_ok)
    as (Hh & Hl & _); [vm_compute; reflexivity|].
  split; [exact Hh|exact Hl].
Defined.

Lemma trace_drain_delivers_witness :
  exists s', run 4 trace_s (replicate 5 ACons) = Some s' /\ cons_ s' = CDone [rec_a].
Proof.
  destruct (trace_drain_delivers 4 ltac:(lia) four_div ltac:(done) 2 trace_acts trace_s 1
          trace_acts_ok) as (s' & Hr & Hc & _);
    [vm_compute; reflexivity|done|reflexivity|].
  exists s'. split; [exact Hr|exact Hc].
Defined.
End trace.

Section profiler.
Import ProfilerRing.

Definition smp (t : Z) : ove_profiler_sample := {| sample0 with ts_us := t |}.

(** Out-of-order commits: the second producer reserves after the first and
    commits before it. *)
Definition prof_acts : list act :=
  [APush 0 (smp 1); APush 1 (smp 2); AProd 0 false; AProd 0 false; AProd 0 false;
   AProd 1 false; AProd 1 false; AProd 1 true; AProd 1 false; AProd 1 false; AProd 1 false;
   AProd 1 false; AProd 1 false].
Definition prof_done : list act := [AProd 0 false; AProd 0 false; ADrain 8].

Definition prof_s : sys := default (start 4 2) (run 4 (start 4 2) (prof_acts ++ prof_done)).

Lemma prof_reach : reach 4 2 prof_s.
Proof.
  eapply (run_reach 4 2 (start 4 2) (prof_acts ++ prof_done)); [constructor|vm_compute; reflexivity|done].
Qed.

Lemma profiler_ring_fifo_witness :
  taken prof_s = take 0 (hist prof_s) /\ (0 <= length (hist prof_s) <= 4)%nat.
Proof.
  destruct (profiler_ring_fifo 4 ltac:(lia) four_div ltac:(done) 2 prof_s prof_reach) as (Ht & Hl & _).
  split; [exact Ht|exact Hl].
Defined.

Lemma profiler_drain_delivers_witness :
  exists s', run 4 prof_s (replicate 10 ACons) = Some s' /\ cons_ s' = CDone [smp 1; smp 2].
Proof.
  destruct (profiler_drain_delivers 4 ltac:(lia) four_div ltac:(done) 2 prof_s 8 prof_reach)
    as (s' & Hr & Hc & _); [|reflexivity|].
  - intros [|[|t]] pc Ht; vm_compute in Ht; by simplify_eq.
  - exists s'. split; [exact Hr|exact Hc].
Defined.
End profiler.

End RingDemo.
