(* ===== verification/Codec.v ===== *)
(** * Base64 and SHA-1 (backends/common/ove_base64.c, ove_sha1.c)

    The two encoders the WebSocket handshake uses.  Buffers are lists of
    bytes; a buffer the C code fills from the front is the list of bytes
    written so far. *)

From S2P Require Import Prelude.

(** ** Base64 *)

Section base64.

Definition b64 : list Z :=
  str "ABCDEFGHIJKLMNOPQRSTUVWXYZabcdefghijklmnopqrstuvwxyz0123456789+/".
Definition PAD : Z := 61.

Definition byte_at (src : list Z) (i : nat) : Z := aget 0 src i.

(** [b64[(v >> s) & 0x3F]] *)
Definition b64_digit (v s : Z) : Z := aget 0 b64 (Z.to_nat (Z.land (Z.shiftr v s) 0x3F)).

(** [while (i + 2 < src_len)]; the pair is [i] and the bytes written. *)
Fixpoint b64_loop (fuel : nat) (src : list Z) (i : nat) (dst : list Z) : nat * list Z :=
  match fuel with
  | O => (i, dst)
  | S fuel =>
      if (i + 2 <? length src)%nat then
        let v := Z.lor (Z.lor (Z.shiftl (byte_at src i) 16) (Z.shiftl (byte_at src (i + 1)) 8))
                       (byte_at src (i + 2)) in
        b64_loop fuel src (i + 3)
          (dst ++ [b64_digit v 18; b64_digit v 12; b64_digit v 6; b64_digit v 0])
      else (i, dst)
  end.

(** The trailing one or two bytes. *)
Definition b64_tail (src : list Z) (i : nat) (dst : list Z) : list Z :=
  if (i <? length src)%nat then
  let v := Z.shiftl (byte_at src i) 16 in
  let v := if (i + 1 <? length src)%nat then Z.lor v (Z.shiftl (byte_at src (i + 1)) 8) else v in
  dst ++ [b64_digit v 18; b64_digit v 12;
          if (i + 1 <? length src)%nat then b64_digit v 6 else PAD; PAD]
  else dst.

(** The return value and the bytes written to [dst] (the terminator
    included). *)
Definition ove_base64_encode (src : list Z) (dst_len : Z) : Z * list Z :=
  let out_len := 4 * ((Z.of_nat (length src) + 2) / 3) in
  if dst_len <? out_len + 1 then (-1, []) else
  let '(i, dst) := b64_loop (length src) src 0 [] in
  let dst := b64_tail src i dst in
  (Z.of_nat (length dst), dst ++ [0]).

End base64.

(** ** SHA-1 *)

Section sha1.

Definition rotl32 (x n : Z) : Z := Z.lor (u32 (Z.shiftl x n)) (Z.shiftr x (32 - n)).

Record sha_state := mk_sha { sh0 : Z; sh1 : Z; sh2 : Z; sh3 : Z; sh4 : Z }.

(** [w[0..15]] from the block. *)
Definition sha1_words (block : list Z) : list Z :=
  (fun i => Z.lor (Z.lor (Z.lor (Z.shiftl (byte_at block (i * 4 + 0)) 24)
                              (Z.shiftl (byte_at block (i * 4 + 1)) 16))
                       (Z.shiftl (byte_at block (i * 4 + 2)) 8))
                (byte_at block (i * 4 + 3))) <$> seq 0 16.

(** [w[16..79]], one per iteration. *)
Definition sha1_schedule (w : list Z) : list Z :=
  foldl (fun w i => w ++ [rotl32 (Z.lxor (Z.lxor (Z.lxor (byte_at w (i - 3)) (byte_at w (i - 8)))
                                               (byte_at w (i - 14))) (byte_at w (i - 16))) 1])
      w (seq 16 64).

Definition sha1_round (w : list Z) (s : sha_state) (i : nat) : sha_state :=
  let '(mk_sha a b c d e) := s in
  let '(f, k) :=
  if (i <? 20)%nat then (Z.lor (Z.land b c) (Z.land (u32 (Z.lnot b)) d), 0x5A827999)
  else if (i <? 40)%nat then (Z.lxor (Z.lxor b c) d, 0x6ED9EBA1)
  else if (i <? 60)%nat then (Z.lor (Z.lor (Z.land b c) (Z.land b d)) (Z.land c d), 0x8F1BBCDC)
  else (Z.lxor (Z.lxor b c) d, 0xCA62C1D6) in
  let t := u32 (rotl32 a 5 + f + e + k + byte_at w i) in
  mk_sha t a (rotl32 b 30) c d.

Definition sha1_transform (s : sha_state) (block : list Z) : sha_state :=
  let w := sha1_schedule (sha1_words block) in
  let '(mk_sha a b c d e) := foldl (sha1_round w) s (seq 0 80) in
  mk_sha (u32 (sh0 s + a)) (u32 (sh1 s + b)) (u32 (sh2 s + c)) (u32 (sh3 s + d)) (u32 (sh4 s + e)).

Definition sha1_init : sha_state :=
  mk_sha 0x67452301 0xEFCDAB89 0x98BADCFE 0x10325476 0xC3D2E1F0.

(** [while (remaining >= 64)] *)
Fixpoint sha1_blocks (fuel : nat) (s : sha_state) (p : list Z) : sha_state * list Z :=
  match fuel with
  | O => (s, p)
  | S fuel =>
      if (64 <=? length p)%nat
      then sha1_blocks fuel (sha1_transform s (take 64 p)) (drop 64 p)
      else (s, p)
  end.

(** The eight big-endian length bytes written to [block[56..63]]. *)
Definition put_length (block : list Z) (bits : Z) : list Z :=
  foldl (fun b k => aset b (56 + k) (u8 (Z.shiftr bits (56 - 8 * Z.of_nat k)))) block (seq 0 8).

Definition be32 (x : Z) : list Z :=
  [u8 (Z.shiftr x 24); u8 (Z.shiftr x 16); u8 (Z.shiftr x 8); u8 x].

Definition ove_sha1 (data : list Z) : list Z :=
  let '(s, p) := sha1_blocks (length data) sha1_init data in
  let remaining := length p in
  (* memset 0, memcpy, block[remaining] = 0x80 *)
  let block := p ++ [0x80] ++ replicate (63 - remaining) 0 in
  let '(s, block) :=
  if (56 <=? remaining)%nat then (sha1_transform s block, replicate 64 0) else (s, block) in
  let bits := u64 (Z.of_nat (length data) * 8) in
  let block := put_length block bits in
  let '(mk_sha a b c d e) := sha1_transform s block in
  be32 a ++ be32 b ++ be32 c ++ be32 d ++ be32 e.

End sha1.

(** ** Test vectors *)

Example base64_man : ove_base64_encode (str "Man") 5 = (4, str "TWFu" ++ [0]).
Proof. reflexivity. Qed.
Example base64_ma : ove_base64_encode (str "Ma") 5 = (4, str "TWE=" ++ [0]).
Proof. reflexivity. Qed.

(** RFC 3174, test case 1. *)
Example sha1_abc :
  ove_sha1 (str "abc") =
  [0xA9; 0x99; 0x3E; 0x36; 0x47; 0x06; 0x81; 0x6A; 0xBA; 0x3E;
   0x25; 0x71; 0x78; 0x50; 0xC2; 0x6C; 0x9C; 0xD0; 0xD8; 0x9D].
Proof. vm_compute. reflexivity. Qed.

(** RFC 3174, test case 2: 56 bytes, so the length needs a second block. *)
Example sha1_two_blocks :
  ove_sha1 (str "abcdbcdecdefdefgefghfghighijhijkijkljklmklmnlmnomnopnopq") =
  [0x84; 0x98; 0x3E; 0x44; 0x1C; 0x3B; 0xD2; 0x6E; 0xBA; 0xAE;
   0x4A; 0xA1; 0xF9; 0x51; 0x29; 0xE5; 0xE5; 0x46; 0x70; 0xF1].
Proof. vm_compute. reflexivity. Qed.

(** ** Base64: the reference decoder (RFC 4648) *)

Definition b64_value (c : Z) : option Z := Z.of_nat <$> find_idx (Z.eqb c) b64.

(** The bytes of three and of fewer octets from 24 bits. *)
Definition octets (v : Z) : list Z := [v / 65536; v / 256 mod 256; v mod 256].

Fixpoint b64_decode (text : list Z) : option (list Z) :=
  match text with
  | [] => Some []
  | c0 :: c1 :: c2 :: c3 :: rest =>
    d0 ← b64_value c0; d1 ← b64_value c1;
    if c3 =? PAD then
      if bool_decide (rest = []) then
        if c2 =? PAD then Some (take 1 (octets (d0 * 262144 + d1 * 4096)))
        else d2 ← b64_value c2; Some (take 2 (octets (d0 * 262144 + d1 * 4096 + d2 * 64)))
      else None
    else
      d2 ← b64_value c2; d3 ← b64_value c3;
      r ← b64_decode rest; Some (octets (d0 * 262144 + d1 * 4096 + d2 * 64 + d3) ++ r)
  | _ => None
  end.

(** What the encoder writes, by recursion on the input. *)
Fixpoint b64_text (src : list Z) : list Z :=
  match src with
  | a :: b :: c :: rest =>
    let v := a * 65536 + b * 256 + c in
    [b64_digit v 18; b64_digit v 12; b64_digit v 6; b64_digit v 0] ++ b64_text rest
  | [a; b] => let v := a * 65536 + b * 256 in
              [b64_digit v 18; b64_digit v 12; b64_digit v 6; PAD]
  | [a] => let v := a * 65536 in [b64_digit v 18; b64_digit v 12; PAD; PAD]
  | [] => []
  end.

Lemma byte_at_app pre k rest : byte_at (pre ++ rest) (length pre + k) = byte_at rest k.
Proof. unfold byte_at, aget. by rewrite lookup_app_r, Nat.add_comm, Nat.add_sub by lia. Qed.

Lemma byte_at_app0 pre x rest : byte_at (pre ++ x :: rest) (length pre) = x.
Proof. unfold byte_at, aget. by rewrite list_lookup_middle. Qed.

Lemma list_ind3 {A} (P : list A -> Prop) :
  P [] -> (forall a, P [a]) -> (forall a b, P [a; b]) ->
  (forall a b c l, P l -> P (a :: b :: c :: l)) -> forall l, P l.
Proof.
  intros H0 H1 H2 H3 l. assert (P l /\ (forall a, P (a :: l)) /\ (forall a b, P (a :: b :: l))) as [? _]; [|done].
  induction l as [|x l (IH0 & IH1 & IH2)]; [done|]. split_and!; auto.
Qed.

Lemma shiftl_byte a n : 0 <= n -> Z.shiftl a n = a * 2 ^ n.
Proof. intros. by apply Z.shiftl_mul_pow2. Qed.

Lemma pack3 a b c :
  is_byte a -> is_byte b -> is_byte c ->
  Z.lor (Z.lor (Z.shiftl a 16) (Z.shiftl b 8)) c = a * 65536 + b * 256 + c.
Proof.
  unfold is_word. intros Ha Hb Hc. rewrite (lor_shiftl_add a) by (rewrite ?shiftl_byte; lia).
  rewrite shiftl_byte by lia. change (2 ^ 16) with 65536. change (2 ^ 8) with 256.
  replace (a * 65536 + b * 256) with (Z.shiftl (a * 256 + b) 8) by (rewrite shiftl_byte; lia).
  rewrite lor_shiftl_add by done. by rewrite shiftl_byte.
Qed.

(** The index-driven encoder writes [b64_text]. *)
Lemma b64_encode_text rest : forall pre fuel dst,
  Forall is_byte rest -> (length rest <= fuel)%nat ->
  (let '(i, d) := b64_loop fuel (pre ++ rest) (length pre) dst in b64_tail (pre ++ rest) i d)
  = dst ++ b64_text rest.
Proof.
  induction rest as [|a|a b|a b c l IH] using list_ind3; intros pre fuel dst Hb Hf.
  - rewrite app_nil_r. assert (b64_loop fuel pre (length pre) dst = (length pre, dst)) as ->.
    { destruct fuel; [done|]. simpl. by rewrite (proj2 (Nat.ltb_ge _ _)) by lia. }
    unfold b64_tail. by rewrite Nat.ltb_irrefl, app_nil_r.
  - destruct fuel as [|fuel]; [simpl in Hf; lia|]. cbn [b64_loop].
    rewrite length_app. cbn [length]. rewrite (proj2 (Nat.ltb_ge _ _)) by lia.
    unfold b64_tail. rewrite length_app. cbn [length].
    rewrite (proj2 (Nat.ltb_lt _ _)), (proj2 (Nat.ltb_ge _ _)) by lia.
    rewrite byte_at_app0. cbn [b64_text]. rewrite (shiftl_byte a 16) by lia. done.
  - destruct fuel as [|fuel]; [simpl in Hf; lia|]. cbn [b64_loop].
    rewrite length_app. cbn [length]. rewrite (proj2 (Nat.ltb_ge _ _)) by lia.
    unfold b64_tail. rewrite length_app. cbn [length].
    rewrite !(proj2 (Nat.ltb_lt _ _)) by lia.
    rewrite byte_at_app0, byte_at_app. change (byte_at [a; b] 1) with b. cbn [b64_text].
    apply Forall_cons in Hb as [Ha Hb]. apply Forall_cons in Hb as [Hb _]. unfold is_word in *.
    assert (Z.lor (Z.shiftl a 16) (Z.shiftl b 8) = a * 65536 + b * 256) as ->.
    { rewrite lor_shiftl_add by (rewrite ?shiftl_byte; lia). by rewrite shiftl_byte. }
    done.
  - destruct fuel as [|fuel]; [simpl in Hf; lia|]. cbn [b64_loop].
    rewrite (proj2 (Nat.ltb_lt _ _)) by (rewrite length_app; simpl; lia).
    rewrite byte_at_app0, !byte_at_app.
    change (byte_at (a :: b :: c :: l) 1) with b. change (byte_at (a :: b :: c :: l) 2) with c.
    apply Forall_cons in Hb as [Ha Hb]. apply Forall_cons in Hb as [Hb2 Hb].
    apply Forall_cons in Hb as [Hc Hl]. rewrite pack3 by done.
    specialize (IH (pre ++ [a; b; c]) fuel
      (dst ++ [b64_digit (a * 65536 + b * 256 + c) 18; b64_digit (a * 65536 + b * 256 + c) 12;
               b64_digit (a * 65536 + b * 256 + c) 6; b64_digit (a * 65536 + b * 256 + c) 0]) Hl).
    rewrite length_app, <-!app_assoc in IH. simpl in IH. simpl in Hf. rewrite IH by lia. done.
Qed.

Lemma b64_value_digit k : 0 <= k < 64 -> b64_value (aget 0 b64 (Z.to_nat k)) = Some k.
Proof.
  intros Hk. assert (Hall : Forall (fun n => b64_value (aget 0 b64 n) = Some (Z.of_nat n)) (seq 0 64)).
  { repeat constructor. }
  rewrite Forall_forall in Hall. rewrite (Hall (Z.to_nat k)); [f_equal; lia|].
  apply elem_of_seq. lia.
Qed.

Lemma b64_digit_value v s : 0 <= s -> b64_value (b64_digit v s) = Some (v / 2 ^ s mod 64).
Proof.
  intros Hs. unfold b64_digit. rewrite (land_ones_mod _ 6) by done.
  rewrite Z.shiftr_div_pow2 by done. apply b64_value_digit. by apply Z.mod_pos_bound.
Qed.

Lemma b64_digit_not_pad v s : 0 <= s -> (b64_digit v s =? PAD) = false.
Proof.
  intros Hs. apply Z.eqb_neq. intros He. pose proof (b64_digit_value v s Hs) as Hv.
  rewrite He in Hv. by vm_compute in Hv.
Qed.

Lemma b64_text_length src : Z.of_nat (length (b64_text src)) = 4 * ((Z.of_nat (length src) + 2) / 3).
Proof.
  induction src as [|a|a b|a b c l IH] using list_ind3; [done..|].
  cbn [b64_text app length]. rewrite !Nat2Z.inj_succ, IH. dlia.
Qed.

Lemma b64_text_decode src : Forall is_byte src -> b64_decode (b64_text src) = Some src.
Proof.
  unfold is_word. change (2 ^ 8) with 256.
  induction src as [|a|a b|a b c l IH] using list_ind3; intros Hb; [done|..];
    repeat match goal with H : Forall _ (_ :: _) |- _ => apply Forall_cons in H as [? H] end;
    cbn [b64_text b64_decode app]; rewrite !b64_digit_value by lia; cbn [mbind option_bind];
    rewrite ?b64_digit_not_pad, ?Z.eqb_refl by lia.
  - cbn [bool_decide]. simpl. f_equal. f_equal. dlia.
  - simpl. repeat f_equal; dlia.
  - rewrite IH by done. cbn [mbind option_bind]. unfold octets. cbn [app].
    change (2 ^ 18) with 262144. change (2 ^ 12) with 4096. change (2 ^ 6) with 64. change (2 ^ 0) with 1.
    set (v := a * 65536 + b * 256 + c).
    assert (v / 262144 mod 64 * 262144 + v / 4096 mod 64 * 4096 + v / 64 mod 64 * 64 + v / 1 mod 64 = v)
      as -> by (unfold v; dlia).
    repeat f_equal; unfold v; dlia.
Qed.

(** Base64 round trip, on every branch: with a destination of at least
    the documented size, the encoder returns the exact length
    [4 * ceil(n / 3)], writes exactly that many characters and a
    terminator, and the RFC 4648 decoder recovers the input from them;
    with a smaller destination it returns -1 and writes nothing. *)
Theorem base64_roundtrip src dst_len :
  Forall is_byte src ->
  let n := 4 * ((Z.of_nat (length src) + 2) / 3) in
  if dst_len <? n + 1 then ove_base64_encode src dst_len = (-1, [])
  else exists text, ove_base64_encode src dst_len = (n, text ++ [0]) /\
         Z.of_nat (length text) = n /\ b64_decode text = Some src.
Proof.
  intros Hb n. unfold ove_base64_encode. fold n. destruct (dst_len <? n + 1); [done|].
  exists (b64_text src). pose proof (b64_encode_text src [] (length src) [] Hb) as He.
  simpl in He. destruct (b64_loop (length src) src 0 []) as [i d].
  rewrite He by done. rewrite b64_text_length. split_and!; [done|done|by apply b64_text_decode].
Qed.

Lemma base64_roundtrip_witness :
  exists text, ove_base64_encode [0; 255; 16; 131] 9 = (8, text ++ [0]) /\
    b64_decode text = Some [0; 255; 16; 131].
Proof.
  destruct (base64_roundtrip [0; 255; 16; 131] 9) as (text & He & _ & Hd); [by repeat constructor|].
  exists text. split; [exact He|exact Hd].
Defined.

(** ** SHA-1 against the padded-message definition (RFC 3174, section 4) *)

(** Big-endian bytes of a 64-bit length. *)
Definition be64 (x : Z) : list Z := (fun k => u8 (Z.shiftr x (56 - 8 * Z.of_nat k))) <$> seq 0 8.

(** The message, a 1 bit, the least number of zero bits, and its length in
    bits, to a multiple of 64 bytes. *)
Definition sha1_pad (data : list Z) : list Z :=
  data ++ [0x80] ++ replicate (Z.to_nat ((55 - Z.of_nat (length data)) mod 64)) 0
       ++ be64 (u64 (Z.of_nat (length data) * 8)).

Fixpoint sha1_fold (n : nat) (s : sha_state) (p : list Z) : sha_state :=
  match n with
  | O => s
  | S n => sha1_fold n (sha1_transform s (take 64 p)) (drop 64 p)
  end.

Definition sha1_digest (s : sha_state) : list Z :=
  be32 (sh0 s) ++ be32 (sh1 s) ++ be32 (sh2 s) ++ be32 (sh3 s) ++ be32 (sh4 s).

Definition sha1_spec (data : list Z) : list Z :=
  sha1_digest (sha1_fold (length (sha1_pad data) / 64) sha1_init (sha1_pad data)).

(** The loop over full blocks is the fold over as many blocks. *)
Lemma sha1_blocks_fold fuel s p :
  (length p <= fuel)%nat ->
  sha1_blocks fuel s p = (sha1_fold (length p / 64) s p, drop (64 * (length p / 64)) p).
Proof.
  revert s p. induction fuel as [|fuel IH]; intros s p Hf; cbn [sha1_blocks].
  { destruct p; [done|simpl in Hf; lia]. }
  destruct (64 <=? length p)%nat eqn:Hl.
  - apply Nat.leb_le in Hl. rewrite IH by (rewrite length_drop; lia). rewrite length_drop.
    assert (length p / 64 = S ((length p - 64) / 64))%nat as ->.
    { pose proof (Nat.div_add (length p - 64) 1 64 ltac:(lia)) as Hd.
      replace (length p - 64 + 1 * 64)%nat with (length p) in Hd by lia. lia. }
    cbn [sha1_fold]. rewrite drop_drop. do 2 f_equal. lia.
  - apply Nat.leb_gt in Hl. rewrite Nat.div_small by done. done.
Qed.

(** Folding blocks of an extended message: first those of the prefix. *)
Lemma sha1_fold_app n m s p q :
  length p = (64 * n)%nat -> sha1_fold (n + m) s (p ++ q) = sha1_fold m (sha1_fold n s p) q.
Proof.
  revert s p. induction n as [|n IH]; intros s p Hp; simpl.
  { by destruct p; [|simpl in Hp; lia]. }
  rewrite take_app_le, drop_app_le by lia. apply IH. rewrite length_drop. lia.
Qed.

Lemma put_length_spec p bits : length p = 56%nat -> put_length (p ++ replicate 8 0) bits = p ++ be64 bits.
Proof.
  intros Hp. unfold put_length, be64. cbn [seq foldl fmap list_fmap replicate].
  unfold aset. repeat rewrite (insert_app_r_alt p) by (rewrite Hp; lia). by rewrite Hp.
Qed.

Lemma length_be64 x : length (be64 x) = 8%nat.
Proof. done. Qed.

(** The padded message: the full blocks, then the rest with its padding. *)
Lemma sha1_pad_split data (n := (length data / 64)%nat) (d2 := drop (64 * n) data) :
  sha1_pad data = take (64 * n) data ++ d2 ++ [0x80]
    ++ replicate (if (56 <=? length d2)%nat then 119 - length d2 else 55 - length d2) 0
    ++ be64 (u64 (Z.of_nat (length data) * 8)).
Proof.
  pose proof (Nat.div_mod (length data) 64 ltac:(lia)) as Hdm. fold n in Hdm.
  pose proof (Nat.mod_upper_bound (length data) 64 ltac:(lia)) as Hmb.
  assert (H2 : (length d2 < 64 /\ length data = 64 * n + length d2)%nat) by (unfold d2; rewrite length_drop; lia).
  unfold sha1_pad. rewrite <-(take_drop (64 * n) data) at 1. fold d2.
  rewrite <-app_assoc. do 5 f_equal. destruct (56 <=? length d2)%nat eqn:Hc.
  - apply Nat.leb_le in Hc.
    replace (55 - Z.of_nat (length data)) with (119 - Z.of_nat (length d2) + (- Z.of_nat n - 1) * 64) by lia.
    rewrite Z.mod_add, Z.mod_small by lia. lia.
  - apply Nat.leb_gt in Hc.
    replace (55 - Z.of_nat (length data)) with (55 - Z.of_nat (length d2) + (- Z.of_nat n) * 64) by lia.
    rewrite Z.mod_add, Z.mod_small by lia. lia.
Qed.

(** The rest does not leave room for the length: two more blocks. *)
Lemma sha1_tail_two s d bits : (56 <= length d < 64)%nat ->
  sha1_fold 2 s (d ++ [0x80] ++ replicate (119 - length d) 0 ++ be64 bits)
  = sha1_transform (sha1_transform s (d ++ [0x80] ++ replicate (63 - length d) 0))
      (put_length (replicate 64 0) bits).
Proof.
  intros Hd. replace (119 - length d)%nat with ((63 - length d) + 56)%nat by lia.
  rewrite replicate_add, <-app_assoc. set (blk := d ++ [0x80] ++ replicate (63 - length d) 0).
  replace (d ++ [0x80] ++ replicate (63 - length d) 0 ++ replicate 56 0 ++ be64 bits)
    with (blk ++ (replicate 56 0 ++ be64 bits)) by (unfold blk; by rewrite <-!app_assoc).
  assert (Hb : length blk = 64%nat) by (unfold blk; rewrite !length_app, length_replicate; simpl; lia).
  change (replicate 64 0) with (replicate 56 0 ++ replicate 8 0).
  rewrite put_length_spec by done. cbn [sha1_fold].
  rewrite take_app_length', drop_app_length' by done.
  by rewrite take_ge by (rewrite length_app, length_be64; simpl; lia).
Qed.

(** It does: one more block. *)
Lemma sha1_tail_one s d bits : (length d < 56)%nat ->
  sha1_fold 1 s (d ++ [0x80] ++ replicate (55 - length d) 0 ++ be64 bits)
  = sha1_transform s (put_length (d ++ [0x80] ++ replicate (63 - length d) 0) bits).
Proof.
  intros Hd. replace (63 - length d)%nat with ((55 - length d) + 8)%nat by lia.
  rewrite replicate_add. set (blk := d ++ [0x80] ++ replicate (55 - length d) 0).
  replace (d ++ [0x80] ++ replicate (55 - length d) 0 ++ replicate 8 0)
    with (blk ++ replicate 8 0) by (unfold blk; by rewrite <-!app_assoc).
  replace (d ++ [0x80] ++ replicate (55 - length d) 0 ++ be64 bits)
    with (blk ++ be64 bits) by (unfold blk; by rewrite <-!app_assoc).
  assert (Hb : length blk = 56%nat) by (unfold blk; rewrite !length_app, length_replicate; simpl; lia).
  rewrite put_length_spec by done. cbn [sha1_fold].
  by rewrite take_ge by (rewrite length_app, length_be64, Hb; simpl; lia).
Qed.

(** [ove_sha1] computes the hash of the padded message: for every
    input length, including those whose final block has no room for the
    length field, its incremental padding feeds the compression function
    exactly the blocks of the padded message of RFC 3174. *)
Theorem sha1_is_padded_fold data : ove_sha1 data = sha1_spec data.
Proof.
  unfold ove_sha1, sha1_spec. rewrite sha1_blocks_fold by done. rewrite sha1_pad_split.
  set (n := (length data / 64)%nat). set (d1 := take (64 * n) data). set (d2 := drop (64 * n) data).
  pose proof (Nat.div_mod (length data) 64 ltac:(lia)) as Hdm. fold n in Hdm.
  pose proof (Nat.mod_upper_bound (length data) 64 ltac:(lia)) as Hmb.
  assert (H1 : length d1 = (64 * n)%nat) by (unfold d1; rewrite length_take; lia).
  assert (H2 : (length d2 < 64)%nat) by (unfold d2; rewrite length_drop; lia).
  assert (Hs : sha1_fold n sha1_init data = sha1_fold n sha1_init d1).
  { rewrite <-(take_drop (64 * n) data). rewrite <-(Nat.add_0_r n) at 1. by apply sha1_fold_app. }
  rewrite Hs. set (s := sha1_fold n sha1_init d1).
  assert (Hrun : forall tl m, length tl = (64 * m)%nat ->
            sha1_fold (length (d1 ++ tl) / 64) sha1_init (d1 ++ tl) = sha1_fold m s tl).
  { intros tl m Htl. rewrite length_app, H1, Htl.
    replace (64 * n + 64 * m)%nat with ((n + m) * 64)%nat by lia.
    rewrite Nat.div_mul by lia. by apply sha1_fold_app. }
  destruct (56 <=? length d2)%nat eqn:Hc; [apply Nat.leb_le in Hc|apply Nat.leb_gt in Hc].
  - rewrite (Hrun _ 2%nat) by (rewrite !length_app, length_replicate, length_be64; simpl; lia).
    rewrite sha1_tail_two by lia. by destruct (sha1_transform (sha1_transform s _) _).
  - rewrite (Hrun _ 1%nat) by (rewrite !length_app, length_replicate, length_be64; simpl; lia).
    rewrite sha1_tail_one by lia. by destruct (sha1_transform s _).
Qed.
