(* ===== verification/Cstr.v ===== *)
(** * C strings and text (what the network code uses of <string.h>,
    <stdlib.h> and <stdio.h>)

    A C string is the list of its bytes before the NUL; [strstr] and
    [strchr] return the suffix the C pointer would point to. *)

From S2P Require Import Prelude.

Definition CR : Z := 13.
Definition LF : Z := 10.
Definition SP : Z := 32.
Definition CRLF : list Z := [CR; LF].

Fixpoint take_while (p : Z -> bool) (s : list Z) : list Z :=
  match s with
  | [] => []
  | c :: s => if p c then c :: take_while p s else []
  end.

Fixpoint drop_while (p : Z -> bool) (s : list Z) : list Z :=
  match s with
  | [] => []
  | c :: s' => if p c then drop_while p s' else s
  end.

(** The C string at the start of a buffer. *)
Definition cstr (buf : list Z) : list Z := take_while (fun c => negb (c =? 0)) buf.

(** [strncmp(s, p, strlen(p)) == 0] *)
Definition has_prefix (p s : list Z) : bool := bytes_eqb (take (length p) s) p.

Fixpoint strstr (hay needle : list Z) : option (list Z) :=
  if has_prefix needle hay then Some hay
  else match hay with [] => None | _ :: hay => strstr hay needle end.

(** [strchr] and [memchr]. *)
Fixpoint strchr (s : list Z) (c : Z) : option (list Z) :=
  match s with
  | [] => None
  | x :: s' => if x =? c then Some s else strchr s' c
  end.

(** [strncpy(dst, s, cap - 1); dst[cap - 1] = 0;] *)
Definition strncpy_z (cap : nat) (s : list Z) : list Z := take (cap - 1) s.

Definition isdigit (c : Z) : bool := (48 <=? c) && (c <=? 57).
Definition isspace (c : Z) : bool := (c =? 32) || ((9 <=? c) && (c <=? 13)).

(** The digits at the front of [s] and what follows them. *)
Fixpoint digits_value (acc : Z) (s : list Z) : Z * list Z :=
  match s with
  | c :: s' => if isdigit c then digits_value (acc * 10 + (c - 48)) s' else (acc, s)
  | [] => (acc, [])
  end.

(** The optional sign: negative, and the rest. *)
Definition sign (s : list Z) : bool * list Z :=
  match s with
  | c :: s' => if c =? 45 then (true, s') else if c =? 43 then (false, s') else (false, s)
  | [] => (false, [])
  end.

(** [strtoul(s, &end, 10)]: the value, whether [errno] is set, and [end];
    [None] when nothing is converted ([end == s]).  [umax] is ULONG_MAX. *)
Definition strtoul (umax : Z) (s : list Z) : option (Z * bool * list Z) :=
  let '(neg, s2) := sign (drop_while isspace s) in
  match s2 with
  | c :: _ =>
    if isdigit c then
      let '(v, rest) := digits_value 0 s2 in
      if umax <? v then Some (umax, true, rest)
      else Some (if neg then (- v) mod (umax + 1) else v, false, rest)
    else None
  | [] => None
  end.

(** [atoi], a value outside [int] being cut to 32 bits. *)
Definition atoi (s : list Z) : Z :=
  let '(neg, s2) := sign (drop_while isspace s) in
  let '(v, _) := digits_value 0 s2 in swrap 32 (if neg then - v else v).

(** The decimal digits [printf] writes for [%zu]; 20 cover 64 bits. *)
Fixpoint dec_ (fuel : nat) (n : Z) : list Z :=
  match fuel with
  | O => []
  | S fuel => if n <? 10 then [48 + n] else dec_ fuel (n / 10) ++ [48 + n mod 10]
  end.
Definition dec (n : Z) : list Z := dec_ 20 n.

(** The table scan both servers use: the longest acceptable entry, the
    first of several.  [best_len] starts at 0 and must be exceeded. *)
Section longest.
Context {A : Type} (len : A -> nat) (ok : A -> bool).

Definition longest_step (best : option A * nat) (r : A) : option A * nat :=
  if ok r && (best.2 <? len r)%nat then (Some r, len r) else best.
Definition longest (l : list A) : option A := (foldl longest_step (None, 0%nat) l).1.

(** Acceptable entries are not longer than the current best. *)
Definition beaten (k : nat) (l : list A) : Prop := Forall (fun r => ok r = true -> (len r <= k)%nat) l.

Lemma longest_fold l best k :
  let r := foldl longest_step (best, k) l in
  (k <= r.2)%nat /\ beaten r.2 l /\
  ((r = (best, k) /\ beaten k l) \/
   exists pre x post, l = pre ++ x :: post /\ r = (Some x, len x) /\ ok x = true /\ (k < len x)%nat /\
   Forall (fun y => ok y = true -> (len y < len x)%nat) pre).
Proof.
  revert best k. induction l as [|x l IH]; intros best k; simpl.
  { split_and!; [lia|constructor|left; split; [done|constructor]]. }
  unfold longest_step at 2 4 6 8. cbn [fst snd].
  destruct (ok x && (k <? len x)%nat) eqn:Hx.
  - apply andb_prop in Hx as [Hok Hlt]. apply Nat.ltb_lt in Hlt.
    destruct (IH (Some x) (len x)) as (Hge & Hb & Hcase).
    split_and!; [lia|by constructor|]. right. destruct Hcase as [[-> Hbk] | (pre & y & post & -> & -> & Hy & Hl & Hp)].
    + by exists [], x, l.
    + exists (x :: pre), y, post. split_and!; [done|done|done|lia|]. constructor; [lia|done].
  - destruct (IH best k) as (Hge & Hb & Hcase).
    assert (Hxk : ok x = true -> (len x <= k)%nat).
    { intros Hok. rewrite Hok in Hx. cbn [andb] in Hx. by apply Nat.ltb_ge in Hx. }
    split_and!; [lia|constructor; [|done]; intros Hok; specialize (Hxk Hok); lia|].
    destruct Hcase as [[-> Hbk] | (pre & y & post & -> & -> & Hy & Hl & Hp)].
    + left. split; [done|by constructor].
    + right. exists (x :: pre), y, post. split_and!; [done|done|done|done|].
      constructor; [|done]. intros Hok. specialize (Hxk Hok). lia.
Qed.

(** The winner is acceptable, at least as long as every acceptable entry,
    and strictly longer than the earlier ones. *)
Lemma longest_Some l x :
  longest l = Some x ->
  exists pre post, l = pre ++ x :: post /\ ok x = true /\ (0 < len x)%nat /\ beaten (len x) l /\
  Forall (fun y => ok y = true -> (len y < len x)%nat) pre.
Proof.
  unfold longest. destruct (longest_fold l None 0) as (_ & Hb & [[He _]|(pre & y & post & -> & He & Hy & Hl & Hp)]);
    rewrite He in *; simpl in *; intros Hs; simplify_eq. by exists pre, post.
Qed.

Lemma longest_None l : longest l = None <-> Forall (fun r => ok r = true -> len r = 0%nat) l.
Proof.
  unfold longest. destruct (longest_fold l None 0) as (_ & Hb & [[He Hn]|(pre & y & post & -> & He & Hy & Hl & Hp)]);
    rewrite He in *; simpl in *; (split; [intros Hs|intros Hf]); try done.
  - eapply Forall_impl; [exact Hn|]. cbn beta. intros r Hr Hok. specialize (Hr Hok). lia.
  - apply Forall_app in Hf as [_ Hf]. apply Forall_cons in Hf as [Hf _]. specialize (Hf Hy). lia.
Qed.
End longest.

(** ** Lemmas *)

Lemma has_prefix_true p s : has_prefix p s = true <-> exists r, s = p ++ r.
Proof.
  unfold has_prefix, bytes_eqb. rewrite bool_decide_eq_true. split.
  - intros He. exists (drop (length p) s). rewrite <-He at 1. by rewrite take_drop.
  - intros [r ->]. apply take_app_length.
Qed.

Lemma has_prefix_app p r : has_prefix p (p ++ r) = true.
Proof. apply has_prefix_true. by exists r. Qed.

Lemma has_prefix_ne c p d s : c <> d -> has_prefix (c :: p) (d :: s) = false.
Proof.
  intros Hne. destruct (has_prefix _ _) eqn:He; [|done]. apply has_prefix_true in He as [r Hr]. by simplify_eq/=.
Qed.

Lemma strstr_Some hay n s : strstr hay n = Some s -> exists pre r, hay = pre ++ s /\ s = n ++ r.
Proof.
  induction hay as [|c hay IH]; simpl; intros Hs.
  - destruct (has_prefix n []) eqn:He; simplify_eq. apply has_prefix_true in He as [r Hr]. by exists [], r.
  - destruct (has_prefix n (c :: hay)) eqn:He; simplify_eq.
    + apply has_prefix_true in He as [r Hr]. by exists [], r.
    + destruct (IH Hs) as (pre & r & -> & ->). by exists (c :: pre), r.
Qed.

Lemma strstr_here n r : strstr (n ++ r) n = Some (n ++ r).
Proof. destruct (n ++ r) as [|c l] eqn:He; simpl; rewrite <-He, has_prefix_app; done. Qed.

(** Bytes other than the needle's first are passed over. *)
Lemma strstr_skip c n pre s :
  Forall (fun x => x <> c) pre -> strstr (pre ++ s) (c :: n) = strstr s (c :: n).
Proof.
  induction 1 as [|x pre Hx _ IH]; [done|]. cbn [app strstr]. by rewrite has_prefix_ne by done.
Qed.

Lemma strchr_skip c pre s : Forall (fun x => x <> c) pre -> strchr (pre ++ c :: s) c = Some (c :: s).
Proof.
  induction 1 as [|x pre Hx _ IH]; simpl; [by rewrite Z.eqb_refl|]. by rewrite (proj2 (Z.eqb_neq _ _) Hx).
Qed.

Lemma strchr_Some c s r : strchr s c = Some r -> exists pre t, s = pre ++ r /\ r = c :: t /\ Forall (fun x => x <> c) pre.
Proof.
  induction s as [|x s IH]; simpl; [done|]. destruct (x =? c) eqn:Hx; intros Hs.
  - simplify_eq. apply Z.eqb_eq in Hx as ->. by exists [], s.
  - apply Z.eqb_neq in Hx. destruct (IH Hs) as (pre & t & -> & -> & Hf). exists (x :: pre), t. by repeat constructor.
Qed.

Lemma strchr_None c s : strchr s c = None <-> Forall (fun x => x <> c) s.
Proof.
  induction s as [|x s IH]; simpl; [done|]. rewrite Forall_cons. destruct (x =? c) eqn:Hx.
  - apply Z.eqb_eq in Hx. split; [done|]. by intros [? _].
  - apply Z.eqb_neq in Hx. rewrite IH. split; [done|]. by intros [_ ?].
Qed.

Lemma take_while_app p a c s : Forall (fun x => p x = true) a -> p c = false -> take_while p (a ++ c :: s) = a.
Proof. intros Ha Hc. induction Ha as [|x a Hx _ IH]; simpl; [by rewrite Hc|]. by rewrite Hx, IH. Qed.

Lemma take_while_all p a : Forall (fun x => p x = true) a -> take_while p a = a.
Proof. induction 1 as [|x a Hx _ IH]; simpl; [done|]. by rewrite Hx, IH. Qed.

Lemma take_while_Forall p s : Forall (fun x => p x = true) (take_while p s).
Proof. induction s as [|c s IH]; simpl; [constructor|]. destruct (p c) eqn:Hc; by constructor. Qed.

Lemma take_while_prefix p s : exists r, s = take_while p s ++ r.
Proof.
  induction s as [|c s [r Hr]]; simpl; [by exists []|]. destruct (p c); [|by exists (c :: s)].
  exists r. cbn [app]. by rewrite <-Hr.
Qed.

Lemma drop_while_skip p a c s : Forall (fun x => p x = true) a -> p c = false -> drop_while p (a ++ c :: s) = c :: s.
Proof. intros Ha Hc. induction Ha as [|x a Hx _ IH]; simpl; [by rewrite Hc|]. by rewrite Hx, IH. Qed.

(** *** Decimal numbers *)

Lemma isdigit_dec d : 0 <= d < 10 -> isdigit (48 + d) = true.
Proof. intros Hd. unfold isdigit. apply andb_true_intro. split; apply Z.leb_le; lia. Qed.

Lemma digits_value_app acc ds s :
  Forall (fun c => isdigit c = true) ds ->
  digits_value acc (ds ++ s) = digits_value (foldl (fun a c => a * 10 + (c - 48)) acc ds) s.
Proof. intros Hd. revert acc. induction Hd as [|c ds Hc _ IH]; intros acc; simpl; [done|]. by rewrite Hc, IH. Qed.

Lemma dec_digits fuel n : 0 <= n -> Forall (fun c => isdigit c = true) (dec_ fuel n).
Proof.
  revert n. induction fuel as [|fuel IH]; intros n Hn; simpl; [constructor|].
  destruct (n <? 10) eqn:H10.
  - apply Forall_singleton, isdigit_dec. apply Z.ltb_lt in H10. lia.
  - apply Forall_app. split; [apply IH; dlia|]. apply Forall_singleton, isdigit_dec. dlia.
Qed.

Lemma dec_value fuel n :
  0 <= n < 10 ^ Z.of_nat fuel -> foldl (fun a c => a * 10 + (c - 48)) 0 (dec_ fuel n) = n.
Proof.
  revert n. induction fuel as [|fuel IH]; intros n Hn; simpl.
  { change (10 ^ Z.of_nat 0) with 1 in Hn. lia. }
  rewrite Nat2Z.inj_succ, Z.pow_succ_r in Hn by lia. destruct (n <? 10) eqn:H10; simpl; [lia|].
  apply Z.ltb_ge in H10. rewrite foldl_app. simpl. rewrite IH by dlia. dlia.
Qed.

Lemma dec_nonempty n : exists c s, dec n = c :: s /\ (0 <= n -> isdigit c = true).
Proof.
  destruct (dec n) as [|c s] eqn:He.
  - unfold dec in He. change 20%nat with (S 19) in He. remember 19%nat as f. cbn [dec_] in He.
    destruct (n <? 10); [done|]. by destruct (dec_ f (n / 10)).
  - exists c, s. split; [done|]. intros Hn. pose proof (dec_digits 20 n Hn) as Hf. unfold dec in He.
    rewrite He in Hf. by apply Forall_cons in Hf as [? _].
Qed.

(** What [printf] writes, [strtoul] and [atoi] read back. *)
Lemma digits_value_dec n c s :
  0 <= n < 10 ^ 20 -> isdigit c = false -> digits_value 0 (dec n ++ c :: s) = (n, c :: s).
Proof.
  intros Hn Hc. rewrite digits_value_app by (apply dec_digits; lia).
  unfold dec. rewrite dec_value by done. simpl. by rewrite Hc.
Qed.

Lemma digit_not_space c : isdigit c = true -> isspace c = false /\ (c =? 45) = false /\ (c =? 43) = false.
Proof. unfold isdigit, isspace. intros Hd. split_and!; lia. Qed.

Lemma strtoul_dec umax n c s :
  0 <= n < 10 ^ 20 -> n <= umax -> isdigit c = false ->
  strtoul umax (dec n ++ c :: s) = Some (n, false, c :: s).
Proof.
  intros Hn Hu Hc. pose proof (digits_value_dec n c s Hn Hc) as Hv.
  destruct (dec_nonempty n) as (d & ds & Hd & Hdig). specialize (Hdig ltac:(lia)).
  destruct (digit_not_space d Hdig) as (H1 & H2 & H3). unfold strtoul.
  rewrite Hd in *. cbn [app drop_while]. rewrite H1. cbn [sign]. rewrite H2, H3, Hdig.
  change (d :: ds ++ c :: s) with ((d :: ds) ++ c :: s). rewrite Hv, (proj2 (Z.ltb_ge _ _)) by done. done.
Qed.

(** *** Searching structured text *)

Lemma cstr_app a b : Forall (fun c => c <> 0) a -> cstr (a ++ b) = a ++ cstr b.
Proof.
  induction 1 as [|x a Hx _ IH]; [done|]. cbn [app cstr take_while]. unfold cstr in *. cbn [take_while].
  rewrite (proj2 (Z.eqb_neq _ _) Hx). cbn [negb]. by rewrite IH.
Qed.

(** A line break that does not start an empty line is passed over. *)
Lemma strstr_line line c s :
  Forall (fun x => x <> CR) line -> c <> CR ->
  strstr (line ++ CRLF ++ c :: s) (CRLF ++ CRLF) = strstr (c :: s) (CRLF ++ CRLF).
Proof.
  intros Hl Hc. change (CRLF ++ CRLF) with (CR :: [LF; CR; LF]) at 1. rewrite strstr_skip by done.
  set (N := CR :: [LF; CR; LF]).
  change (strstr (CRLF ++ c :: s) N) with
    (if has_prefix N (CR :: LF :: c :: s) then Some (CR :: LF :: c :: s)
     else if has_prefix N (LF :: c :: s) then Some (LF :: c :: s) else strstr (c :: s) N).
  assert (H1 : has_prefix N (CR :: LF :: c :: s) = false).
  { destruct (has_prefix _ _) eqn:He; [|done]. apply has_prefix_true in He as [r Hr]. by simplify_eq/=. }
  rewrite H1. unfold N at 1. by rewrite has_prefix_ne.
Qed.

Lemma strstr_blank line s :
  Forall (fun x => x <> CR) line -> strstr (line ++ CRLF ++ CRLF ++ s) (CRLF ++ CRLF) = Some (CRLF ++ CRLF ++ s).
Proof.
  intros Hl. change (CRLF ++ CRLF) with (CR :: [LF; CR; LF]). rewrite strstr_skip by done.
  change (CR :: [LF; CR; LF]) with (CRLF ++ CRLF). rewrite (app_assoc CRLF). by rewrite strstr_here, <-app_assoc.
Qed.

(** A needle that ends in its only [c]: text up to a [c] that is not its end
    is passed over. *)
Lemma has_prefix_stop c k a b :
  Forall (fun x => x <> c) a -> Forall (fun x => x <> c) k ->
  has_prefix (k ++ [c]) (a ++ c :: b) = true -> a = k.
Proof.
  intros Ha. revert k. induction Ha as [|x a Hx Ha IH]; intros k Hk Hp;
    apply has_prefix_true in Hp as [r Hr]; destruct k as [|y k]; try done.
  - simplify_eq/=. by apply Forall_cons in Hk as [? _].
  - simplify_eq/=.
  - simplify_eq/=. apply Forall_cons in Hk as [_ Hk]. f_equal. apply IH; [done|].
    apply has_prefix_true. by exists r.
Qed.

Lemma strstr_stop c k a b :
  Forall (fun x => x <> c) a -> Forall (fun x => x <> c) k -> ~ k `suffix_of` a ->
  strstr (a ++ c :: b) (k ++ [c]) = strstr b (k ++ [c]).
Proof.
  intros Ha Hk. induction Ha as [|x a Hx Ha IH]; intros Hns; cbn [app strstr].
  - destruct (has_prefix _ _) eqn:He; [|done]. destruct Hns.
    rewrite <-(has_prefix_stop c k [] b); [done|constructor|done|done].
  - destruct (has_prefix _ _) eqn:He.
    + destruct Hns. rewrite <-(has_prefix_stop c k (x :: a) b); [done|by constructor|done|done].
    + apply IH. intros Hs. destruct Hns. by apply suffix_cons_r.
Qed.

(** The first [c] ends the needle. *)
Lemma strstr_hit c k a b :
  Forall (fun x => x <> c) a -> Forall (fun x => x <> c) k ->
  strstr (a ++ k ++ c :: b) (k ++ [c]) = Some (k ++ c :: b).
Proof.
  intros Ha Hk. induction Ha as [|x a Hx Ha IH]; cbn [app].
  - replace (k ++ c :: b) with ((k ++ [c]) ++ b) by (by rewrite <-app_assoc). apply strstr_here.
  - cbn [strstr]. destruct (has_prefix _ _) eqn:He; [|done].
    change (x :: a ++ k ++ c :: b) with ((x :: a) ++ k ++ c :: b) in He. rewrite app_assoc in He.
    assert (Hlen : (x :: a) ++ k = k).
    { apply (has_prefix_stop c k _ b); [|done|done]. apply Forall_app. split; [by constructor|done]. }
    apply (f_equal length) in Hlen. rewrite length_app in Hlen. simpl in Hlen. lia.
Qed.

Lemma strstr_absent c k s : Forall (fun x => x <> c) s -> strstr s (k ++ [c]) = None.
Proof.
  induction 1 as [|x s Hx Hs IH]; cbn [strstr].
  - destruct (has_prefix _ _) eqn:He; [|done]. apply has_prefix_true in He as [r Hr]. by destruct k.
  - destruct (has_prefix _ _) eqn:He; [|done]. apply has_prefix_true in He as [r Hr].
    assert (Hin : c ∈ x :: s) by (rewrite Hr; apply elem_of_app; left; apply elem_of_app; right; by apply list_elem_of_singleton).
    assert (Hall : Forall (fun y => y <> c) (x :: s)) by (by constructor).
    rewrite Forall_forall in Hall. by destruct (Hall c Hin).
Qed.

Lemma not_suffix_last k (x : Z) a y : x <> y -> ~ (k ++ [x]) `suffix_of` (a ++ [y]).
Proof. intros Hne [p Hp]. rewrite app_assoc in Hp. apply app_inj_tail in Hp as [_ ?]. by subst. Qed.

Lemma strstr_line' line s :
  Forall (fun x => x <> CR) line -> match s with c :: _ => c <> CR | [] => False end ->
  strstr (line ++ CRLF ++ s) (CRLF ++ CRLF) = strstr s (CRLF ++ CRLF).
Proof. destruct s as [|c s]; [done|]. apply strstr_line. Qed.

(** [s] does not contain [c], decidably. *)
Definition lacks (c : Z) (s : list Z) : bool := forallb (fun x => negb (x =? c)) s.

Lemma lacks_Forall c s : lacks c s = true -> Forall (fun x => x <> c) s.
Proof.
  induction s as [|x s IH]; simpl; [done|]. intros [Hx Hs]%andb_prop. constructor; [|by apply IH].
  intros ->. by rewrite Z.eqb_refl in Hx.
Qed.

Lemma lacks_app c a b : lacks c (a ++ b) = lacks c a && lacks c b.
Proof. apply forallb_app. Qed.

Lemma lacks_dec c n : 0 <= n -> isdigit c = false -> lacks c (dec n) = true.
Proof.
  intros Hn Hc. unfold lacks. apply forallb_forall. intros x Hx. apply negb_true_iff, Z.eqb_neq. intros ->.
  pose proof (dec_digits 20 n Hn) as Hf. rewrite Forall_forall in Hf.
  specialize (Hf c ltac:(by apply list_elem_of_In)). congruence.
Qed.

Lemma strstr_crlf line s : Forall (fun x => x <> CR) line -> strstr (line ++ CRLF ++ s) CRLF = Some (CRLF ++ s).
Proof. intros Hl. unfold CRLF at 2. rewrite strstr_skip by done. apply strstr_here. Qed.

Lemma not_suffix_lasts (k a b : list Z) : b <> [] -> last k <> last b -> k <> [] -> ~ k `suffix_of` (a ++ b).
Proof.
  intros Hb Hne Hk [p Hp]. apply Hne. apply (f_equal last) in Hp. rewrite !last_app in Hp.
  destruct (last b) as [y|] eqn:Hlb; [|by apply last_None in Hlb].
  destruct (last k) as [x|] eqn:Hlk; [|by apply last_None in Hlk]. done.
Qed.
