(* ===== verification/Net.v ===== *)
(** * The network interface (include/ove/net.h, net_tls.h)

    The socket, TLS, DNS and heap services are platform code: they are the
    methods of a class over an abstract world, so that every client is
    verified against all implementations.  Each call is recorded in a
    trace, in order, with its arguments and results; the clients' theorems
    speak about that trace.  [NetLaws] states what the header documents:
    byte counts within the buffer. *)

From S2P Require Import Prelude.

(** Application callbacks, by the address of the function. *)
Inductive callback :=
  | CbMqttMessage (f : Z) (topic payload : list Z) (user_data : Z)
  | CbWsMessage (f : Z) (conn : nat) (data : list Z)
  | CbWsClose (f : Z) (conn : nat)
  | CbHttp (f : Z) (method path : list Z) (query : option (list Z)) (segments : list (list Z))
      (body : option (list Z)).

(** Socket types. *)
Definition OVE_SOCK_STREAM : Z := 1.
Definition OVE_SOCK_DGRAM : Z := 2.

Class NetEnv (W : Type) := {
  env_open : Z -> W -> (Z * Z) * W;            (* type; result, handle *)
  env_connect : Z -> Z -> Z -> Z -> W -> Z * W;  (* socket, address, port, timeout *)
  env_close : Z -> W -> W;
  env_send : Z -> list Z -> W -> (Z * Z) * W;  (* result, bytes accepted *)
  env_recv : Z -> Z -> Z -> W -> (Z * list Z) * W;  (* socket, capacity, timeout *)
  env_poll : Z -> Z -> Z -> W -> (Z * Z) * W;  (* socket, events, timeout *)
  env_dns : list Z -> Z -> W -> (Z * Z) * W;   (* result, address *)
  env_tls_init : W -> (Z * Z) * W;
  env_tls_handshake : Z -> Z -> W -> Z * W;
  env_tls_send : Z -> list Z -> W -> (Z * Z) * W;
  env_tls_recv : Z -> Z -> W -> (Z * list Z) * W;
  env_tls_close : Z -> W -> W;
  env_tls_deinit : Z -> W -> W;
  env_malloc : Z -> W -> Z * W;
  env_free : Z -> W -> W;
  env_bind : Z -> Z -> W -> Z * W;             (* socket, port *)
  env_listen : Z -> W -> Z * W;
  env_accept : Z -> Z -> W -> (Z * Z) * W;     (* socket, timeout; result, client *)
  env_sendto : Z -> list Z -> Z -> Z -> W -> Z * W;  (* socket, data, address, port *)
  env_recvfrom : Z -> Z -> Z -> W -> (Z * list Z) * W;
  env_time_us : W -> Z * W;
  env_thread_create : W -> (Z * Z) * W;        (* result, handle *)
  env_thread_should_stop : W -> bool * W;
  env_thread_request_stop : Z -> W -> W;
  env_thread_join : Z -> W -> W;
  env_callback : callback -> W -> W }.

(** The documented ranges: no more bytes than asked for, and bytes. *)
Class NetLaws (W : Type) `{NetEnv W} := {
  send_len : forall s d w r n w', env_send s d w = ((r, n), w') -> 0 <= n <= Z.of_nat (length d);
  recv_len : forall s k t w r d w', env_recv s k t w = ((r, d), w') -> 0 <= k ->
    Z.of_nat (length d) <= k /\ Forall is_byte d;
  tls_send_len : forall s d w r n w', env_tls_send s d w = ((r, n), w') -> 0 <= n <= Z.of_nat (length d);
  tls_init_handle : forall w t w', env_tls_init w = ((OVE_OK, t), w') -> t <> 0;
  tls_recv_len : forall s k w r d w', env_tls_recv s k w = ((r, d), w') -> 0 <= k ->
    Z.of_nat (length d) <= k /\ Forall is_byte d;
  recvfrom_len : forall s k t w r d w', env_recvfrom s k t w = ((r, d), w') -> 0 <= k ->
    Z.of_nat (length d) <= k /\ Forall is_byte d;
  time_us_word : forall w t w', env_time_us w = (t, w') -> is_word 64 t }.

(** A successful send makes progress. *)
Class SendProgress (W : Type) `{NetEnv W} :=
  send_progress : forall s d w n w', env_send s d w = ((OVE_OK, n), w') -> d <> [] -> 0 < n.

(** Connected sockets are byte streams: while the peer's bytes are waiting, a
    receive returns a non-empty part of them in order, and polling or sending
    does not lose any. *)
Class ByteStream (W : Type) `{NetEnv W} := {
  pending : Z -> W -> list Z;
  stream_recv : forall s k t w r d w', env_recv s k t w = ((r, d), w') -> 0 < k -> pending s w <> [] ->
    r = OVE_OK /\ d <> [] /\ pending s w = d ++ pending s w';
  stream_send : forall s d w r n w', env_send s d w = ((r, n), w') -> pending s w' = pending s w;
  stream_poll : forall s e t w r v w', env_poll s e t w = ((r, v), w') -> pending s w <> [] ->
    r = OVE_OK /\ v = 1 /\ pending s w' = pending s w }.

(** What was asked of the platform and what it answered. *)
Inductive ev :=
  | EOpen (r s : Z)
  | EConnect (s addr port r : Z)
  | EClose (s : Z)
  | ESend (s : Z) (d : list Z) (r n : Z)
  | ERecv (s k r : Z) (d : list Z)
  | EPoll (s events r revents : Z)
  | EDns (host : list Z) (r addr : Z)
  | ETlsInit (r t : Z)
  | ETlsHandshake (t s r : Z)
  | ETlsSend (t : Z) (d : list Z) (r n : Z)
  | ETlsRecv (t k r : Z) (d : list Z)
  | ETlsClose (t : Z)
  | ETlsDeinit (t : Z)
  | EMalloc (n p : Z)
  | EFree (p : Z)
  | EBind (s port r : Z)
  | EListen (s r : Z)
  | EAccept (s r c : Z)
  | ESendTo (s : Z) (d : list Z) (addr port r : Z)
  | ERecvFrom (s k r : Z) (d : list Z)
  | ETime (t : Z)
  | EThreadCreate (r t : Z)
  | EThreadPoll (b : bool)
  | EThreadStop (t : Z)
  | EThreadJoin (t : Z)
  | ECallback (c : callback).

(** World, trace and the client's own state. *)
Record nst (W C : Type) := mk_nst { nw : W; tr : list ev; st : C }.
Arguments mk_nst {W C}.
Arguments nw {W C}.
Arguments tr {W C}.
Arguments st {W C}.

Section ops.
Context {W C : Type} `{NetEnv W}.
Abbreviation NM := (MO (nst W C)).

Definition call {A} (f : W -> A * W) (mk : A -> ev) : NM A :=
  fun s => let '(a, w) := f (nw s) in Some (a, mk_nst w (tr s ++ [mk a]) (st s)).
Definition call_ (f : W -> W) (e : ev) : NM unit :=
  fun s => Some (tt, mk_nst (f (nw s)) (tr s ++ [e]) (st s)).

Definition ove_socket_open (type : Z) : NM (Z * Z) := call (env_open type) (fun '(r, s) => EOpen r s).
Definition ove_socket_connect (s addr port timeout_ns : Z) : NM Z :=
  call (env_connect s addr port timeout_ns) (fun r => EConnect s addr port r).
Definition ove_socket_close (s : Z) : NM unit := call_ (env_close s) (EClose s).
Definition ove_socket_send (s : Z) (d : list Z) : NM (Z * Z) :=
  call (env_send s d) (fun '(r, n) => ESend s d r n).
Definition ove_socket_recv (s k timeout_ns : Z) : NM (Z * list Z) :=
  call (env_recv s k timeout_ns) (fun '(r, d) => ERecv s k r d).
Definition ove_socket_poll (s events timeout_ns : Z) : NM (Z * Z) :=
  call (env_poll s events timeout_ns) (fun '(r, v) => EPoll s events r v).
Definition ove_dns_resolve (host : list Z) (timeout_ns : Z) : NM (Z * Z) :=
  call (env_dns host timeout_ns) (fun '(r, a) => EDns host r a).
Definition ove_tls_init : NM (Z * Z) := call env_tls_init (fun '(r, t) => ETlsInit r t).
Definition ove_tls_handshake (t s : Z) : NM Z :=
  call (env_tls_handshake t s) (fun r => ETlsHandshake t s r).
Definition ove_tls_send (t : Z) (d : list Z) : NM (Z * Z) :=
  call (env_tls_send t d) (fun '(r, n) => ETlsSend t d r n).
Definition ove_tls_recv (t k : Z) : NM (Z * list Z) :=
  call (env_tls_recv t k) (fun '(r, d) => ETlsRecv t k r d).
Definition ove_tls_close (t : Z) : NM unit := call_ (env_tls_close t) (ETlsClose t).
Definition ove_tls_deinit (t : Z) : NM unit := call_ (env_tls_deinit t) (ETlsDeinit t).
Definition OVE_BACKEND_MALLOC (n : Z) : NM Z := call (env_malloc n) (fun p => EMalloc n p).
Definition OVE_BACKEND_FREE (p : Z) : NM unit := call_ (env_free p) (EFree p).
Definition ove_socket_bind (s port : Z) : NM Z := call (env_bind s port) (fun r => EBind s port r).
Definition ove_socket_listen (s : Z) : NM Z := call (env_listen s) (fun r => EListen s r).
Definition ove_socket_accept (s timeout_ns : Z) : NM (Z * Z) :=
  call (env_accept s timeout_ns) (fun '(r, c) => EAccept s r c).
Definition ove_socket_sendto (s : Z) (d : list Z) (addr port : Z) : NM Z :=
  call (env_sendto s d addr port) (fun r => ESendTo s d addr port r).
Definition ove_socket_recvfrom (s k timeout_ns : Z) : NM (Z * list Z) :=
  call (env_recvfrom s k timeout_ns) (fun '(r, d) => ERecvFrom s k r d).
Definition ove_time_get_us : NM Z := call env_time_us (fun t => ETime t).
Definition ove_thread_create : NM (Z * Z) := call env_thread_create (fun '(r, t) => EThreadCreate r t).
Definition ove_thread_should_stop : NM bool := call env_thread_should_stop (fun b => EThreadPoll b).
Definition ove_thread_request_stop (t : Z) : NM unit := call_ (env_thread_request_stop t) (EThreadStop t).
Definition ove_thread_destroy (t : Z) : NM unit := call_ (env_thread_join t) (EThreadJoin t).
Definition invoke (c : callback) : NM unit := call_ (env_callback c) (ECallback c).

Definition stget : NM C := ogets st.
Definition stmod (f : C -> C) : NM unit := omodify (fun s => mk_nst (nw s) (tr s) (f (st s))).

Lemma wp_call {A} (f : W -> A * W) mk (Q : A -> nst W C -> Prop) s :
  (forall a w, f (nw s) = (a, w) -> Q a (mk_nst w (tr s ++ [mk a]) (st s))) -> wp (call f mk) Q s.
Proof. intros HQ. unfold wp, call. destruct (f (nw s)) as [a w] eqn:He. by apply HQ. Qed.

Lemma wp_call_ (f : W -> W) e (Q : unit -> nst W C -> Prop) s :
  Q tt (mk_nst (f (nw s)) (tr s ++ [e]) (st s)) -> wp (call_ f e) Q s.
Proof. done. Qed.

Lemma wp_stget (Q : C -> nst W C -> Prop) s : Q (st s) s -> wp stget Q s.
Proof. done. Qed.

Lemma wp_stmod f (Q : unit -> nst W C -> Prop) s :
  Q tt (mk_nst (nw s) (tr s) (f (st s))) -> wp (stmod f) Q s.
Proof. done. Qed.

(** [OVE_MS(ms)] *)
Definition OVE_MS (ms : Z) : Z := ms * 1000000.

(** The send loop shared by the HTTP and WebSocket code: repeat until the
    whole buffer is accepted or the socket fails. *)
Fixpoint send_all (fuel : nat) (s : Z) (d : list Z) : NM Z :=
  match d with
  | [] => mret OVE_OK
  | _ =>
      match fuel with
      | O => ofail
      | S fuel =>
        '(ret, sent) ← ove_socket_send s d;
        if negb (ret =? OVE_OK) then mret ret
        else send_all fuel s (drop (Z.to_nat sent) d)
      end
  end.

(** Bytes a trace put on socket [s]. *)
Definition wire1 (s : Z) (e : ev) : list Z :=
  match e with
  | ESend s' d r n => if (s =? s') && (r =? OVE_OK) then take (Z.to_nat n) d else []
  | _ => []
  end.
Definition wire (s : Z) (t : list ev) : list Z := concat (wire1 s <$> t).

Lemma wire_app s t t' : wire s (t ++ t') = wire s t ++ wire s t'.
Proof. unfold wire. by rewrite fmap_app, concat_app. Qed.

(** A send the socket did not refuse. *)
Definition send_ok (e : ev) : Prop := match e with ESend _ _ r _ => r = OVE_OK | _ => True end.

(** The bytes accepted by a full send loop are the buffer, in order; on an
    error, a prefix of it. *)
Lemma send_all_spec `{!NetLaws W, !SendProgress W} fuel s d n0 :
  (length d <= fuel)%nat ->
  wp (send_all fuel s d) (fun r n1 =>
  st n1 = st n0 /\ exists t, tr n1 = tr n0 ++ t /\
  exists k, wire s t = take k d /\ (r = OVE_OK -> wire s t = d) /\ (Forall send_ok t -> r = OVE_OK) /\
  Forall (fun e => exists d' r' n', e = ESend s d' r' n') t) n0.
Proof.
  revert d n0. induction fuel as [|fuel IH]; intros d n0 Hf; simpl.
  { destruct d; [|simpl in Hf; lia]. split; [done|]. exists []. rewrite app_nil_r.
    split; [done|]. exists 0%nat. by split_and!. }
  destruct d as [|b d]; [split; [done|]; exists []; rewrite app_nil_r; split; [done|];
    exists 0%nat; by split_and!|].
  apply wp_bind. unfold wp at 1, ove_socket_send, call.
  destruct (env_send s (b :: d) (nw n0)) as [[r n] w'] eqn:He.
  pose proof (send_len _ _ _ _ _ _ He) as Hn.
  destruct (r =? OVE_OK) eqn:Hr; cbn [negb].
  - apply Z.eqb_eq in Hr as ->. pose proof (send_progress _ _ _ _ _ He ltac:(done)) as Hp.
    set (n1 := mk_nst w' _ (st n0)).
    assert (Hl : (length (drop (Z.to_nat n) (b :: d)) <= fuel)%nat).
    { rewrite length_drop. simpl in *. lia. }
    eapply wp_mono; [by apply (IH _ n1)|]. intros r' n2 (Hst & t & Ht & k & Hw & Hok & Hsok & Hall).
    split; [done|]. exists (ESend s (b :: d) OVE_OK n :: t).
    split; [by rewrite Ht; unfold n1; simpl; rewrite <-app_assoc|].
    exists (Z.to_nat n + k)%nat.
    assert (Hwire : wire s (ESend s (b :: d) OVE_OK n :: t)
              = take (Z.to_nat n) (b :: d) ++ wire s t).
    { unfold wire. cbn [fmap list_fmap concat wire1]. by rewrite Z.eqb_refl. }
    rewrite Hwire. split_and!.
    + rewrite Hw. apply take_take_drop.
    + intros Hr'. rewrite (Hok Hr'). apply take_drop.
    + intros [_ Hf']%Forall_cons. by apply Hsok.
    + constructor; [by eauto|done].
  - split; [done|]. exists [ESend s (b :: d) r n]. split; [done|]. exists 0%nat.
    unfold wire. cbn [fmap list_fmap concat wire1]. rewrite Hr, andb_false_r. split_and!; [done|..].
    + intros ->. done.
    + intros [Hs _]%Forall_cons. by rewrite Hs in Hr.
    + constructor; [by eauto|done].
Qed.

Definition sends_on (s : Z) (t : list ev) : Prop := Forall (fun e => exists d r n, e = ESend s d r n) t.

Lemma wp_send_all `{!NetLaws W, !SendProgress W} fuel s d n0 (Q : Z -> nst W C -> Prop) :
  (length d <= fuel)%nat ->
  (forall r w t, sends_on s t -> (exists k, wire s t = take k d) -> (r = OVE_OK -> wire s t = d) ->
   (Forall send_ok t -> r = OVE_OK) -> Q r (mk_nst w (tr n0 ++ t) (st n0))) ->
  wp (send_all fuel s d) Q n0.
Proof.
  intros Hf HQ. eapply wp_mono; [by apply (send_all_spec fuel s d n0)|].
  intros r [w t' c] (Hst & t & Ht & k & Hk & Hok & Hsok & Hall). simpl in *. subst. apply HQ; by eauto.
Qed.
End ops.

(** Symbolic execution of straight-line code up to the next branch or call. *)
Ltac wp_step :=
  lazymatch goal with
  | |- wp (mret _) _ _ => apply wp_ret
  | |- wp (_ ≫= _) _ _ => apply wp_bind
  | |- wp (mbind _ _) _ _ => apply wp_bind
  | |- wp stget _ _ => apply wp_stget
  | |- wp (stmod _) _ _ => apply wp_stmod
  | |- wp (call_ _ _) _ _ => apply wp_call_
  | |- wp (ove_socket_close _) _ _ => apply wp_call_
  | |- wp (ove_tls_close _) _ _ => apply wp_call_
  | |- wp (ove_tls_deinit _) _ _ => apply wp_call_
  | |- wp (OVE_BACKEND_FREE _) _ _ => apply wp_call_
  | |- wp (invoke _) _ _ => apply wp_call_
  end; cbn beta iota.
Ltac wp_steps := repeat wp_step; cbn [nw tr st].

(** ** A concrete platform for witnesses

    Receives are answered from a script, sends are accepted whole, handles
    are numbered. *)

Module Script.

Record script := { inbox : list (Z * list Z); fresh : Z; stopped : bool }.

Definition pop (k : Z) (w : script) : (Z * list Z) * script :=
  match inbox w with
  | (r, d) :: rest => ((r, u8 <$> take (Z.to_nat k) d), {| w with inbox := rest |})
  | [] => ((OVE_ERR_TIMEOUT, []), w)
  end.
Definition handle (w : script) : Z * script :=
  (Z.abs (fresh w) + 1, {| w with fresh := Z.abs (fresh w) + 1 |}).
Definition opened (w : script) : (Z * Z) * script := let '(h, w) := handle w in ((OVE_OK, h), w).

#[export] Instance script_env : NetEnv script := {|
  env_open _ := opened;
  env_connect _ _ _ _ w := (OVE_OK, w);
  env_close _ w := w;
  env_send _ d w := ((OVE_OK, Z.of_nat (length d)), w);
  env_recv _ k _ w := pop k w;
  env_poll _ e _ w := ((OVE_OK, if bool_decide (inbox w = []) then 0 else 1), w);
  env_dns _ _ w := ((OVE_OK, 1), w);
  env_tls_init := opened;
  env_tls_handshake _ _ w := (OVE_OK, w);
  env_tls_send _ d w := ((OVE_OK, Z.of_nat (length d)), w);
  env_tls_recv _ k w := pop k w;
  env_tls_close _ w := w;
  env_tls_deinit _ w := w;
  env_malloc _ w := handle w;
  env_free _ w := w;
  env_bind _ _ w := (OVE_OK, w);
  env_listen _ w := (OVE_OK, w);
  env_accept _ _ := opened;
  env_sendto _ _ _ _ w := (OVE_OK, w);
  env_recvfrom _ k _ w := pop k w;
  env_time_us w := (u64 (fresh w), {| w with fresh := fresh w + 1000 |});
  env_thread_create := opened;
  env_thread_should_stop w := (stopped w, {| w with stopped := true |});
  env_thread_request_stop _ w := w;
  env_thread_join _ w := w;
  env_callback _ w := w |}.

Lemma pop_len k w r d w' : pop k w = ((r, d), w') -> 0 <= k -> Z.of_nat (length d) <= k /\ Forall is_byte d.
Proof.
  unfold pop. intros He Hk. destruct (inbox w) as [|[r0 d0] rest]; simplify_eq.
  - split; [done|constructor].
  - rewrite length_fmap, length_take. split; [lia|].
    apply Forall_fmap, Forall_true. intros x. by apply wrap_range.
Qed.

#[export] Instance script_laws : NetLaws script.
Proof.
  split; simpl; intros; simplify_eq; try lia.
  - by eapply pop_len.
  - unfold opened, handle in *. simplify_eq. lia.
  - by eapply pop_len.
  - by eapply pop_len.
  - by apply wrap_range.
Qed.

#[export] Instance script_progress : SendProgress script.
Proof. intros s d w n w' He Hd. simpl in He. simplify_eq. destruct d; simpl; [done|lia]. Qed.

End Script.

(** ** A concrete byte-stream platform

    Every socket carries the same incoming bytes [rx], at most [chunk + 1]
    per receive; sends accept at most three bytes at a time, or fail. *)

Module Stream.

Record stream := { rx : list Z; chunk : nat; refuse : bool }.

Definition recv (k : Z) (w : stream) : (Z * list Z) * stream :=
  match rx w with
  | [] => ((OVE_ERR_NET_CLOSED, []), w)
  | _ => let j := (Z.to_nat k `min` S (chunk w))%nat in
         ((OVE_OK, u8 <$> take j (rx w)), {| w with rx := drop j (rx w) |})
  end.
Definition send (d : list Z) (w : stream) : (Z * Z) * stream :=
  if refuse w then ((OVE_ERR_NET_CLOSED, 0), w) else ((OVE_OK, Z.of_nat (length d) `min` 3), w).

#[export] Instance stream_env : NetEnv stream := {|
  env_open _ w := ((OVE_OK, 1), w);
  env_connect _ _ _ _ w := (OVE_OK, w);
  env_close _ w := w;
  env_send _ d w := send d w;
  env_recv _ k _ w := recv k w;
  env_poll _ _ _ w := ((OVE_OK, if bool_decide (rx w = []) then 0 else 1), w);
  env_dns _ _ w := ((OVE_OK, 1), w);
  env_tls_init w := ((OVE_OK, 1), w);
  env_tls_handshake _ _ w := (OVE_OK, w);
  env_tls_send _ d w := send d w;
  env_tls_recv _ k w := recv k w;
  env_tls_close _ w := w;
  env_tls_deinit _ w := w;
  env_malloc k w := (if k <=? 8192 then 1 else 0, w);
  env_free _ w := w;
  env_bind _ _ w := (OVE_OK, w);
  env_listen _ w := (OVE_OK, w);
  env_accept _ _ w := ((OVE_OK, 1), w);
  env_sendto _ _ _ _ w := (OVE_OK, w);
  env_recvfrom _ k _ w := recv k w;
  env_time_us w := (0, w);
  env_thread_create w := ((OVE_OK, 1), w);
  env_thread_should_stop w := (true, w);
  env_thread_request_stop _ w := w;
  env_thread_join _ w := w;
  env_callback _ w := w |}.

Lemma recv_range k w r d w' : recv k w = ((r, d), w') -> 0 <= k -> Z.of_nat (length d) <= k /\ Forall is_byte d.
Proof.
  unfold recv. intros He Hk. destruct (rx w) as [|b l]; simplify_eq; [split; [done|constructor]|].
  rewrite length_fmap, length_take. split; [lia|]. apply Forall_fmap, Forall_true. intros x. by apply wrap_range.
Qed.

#[export] Instance stream_laws : NetLaws stream.
Proof.
  split; simpl; intros; simplify_eq; try lia; try by eapply recv_range.
  - unfold send in *. destruct (refuse w); simplify_eq; lia.
  - unfold send in *. destruct (refuse w); simplify_eq; lia.
  - unfold is_word. lia.
Qed.

#[export] Instance stream_progress : SendProgress stream.
Proof.
  intros s d w n w' He Hd. simpl in He. unfold send in He. destruct (refuse w); simplify_eq.
  destruct d; simpl; [done|lia].
Qed.

#[export] Instance stream_bytes : ByteStream stream.
Proof.
  refine {| pending _ w := u8 <$> rx w |}.
  - intros s k t w r d w' He Hk Hne. simpl in He. unfold recv in He. destruct (rx w) as [|b l] eqn:Hrx; [done|].
    set (j := (Z.to_nat k `min` S (chunk w))%nat) in *. assert (Hj : (0 < j)%nat) by (unfold j; lia).
    injection He as <- <- <-. simpl rx. split_and!; [done|by destruct j; [lia|]|].
    by rewrite <-fmap_app, take_drop.
  - intros s d w r n w' He. simpl in He. unfold send in He. destruct (refuse w); by simplify_eq.
  - intros s e t w r v w' He Hne. simpl in He. injection He as <- <- <-. split_and!; [done| |done].
    rewrite bool_decide_eq_false_2; [done|]. intros Hr. by rewrite Hr in Hne.
Defined.

End Stream.
