(* ===== verification/MqttTopic.v ===== *)
(** * MQTT topic filters (backends/common/ove_mqtt_topic.c)

    The index-driven matcher, the reference definition on topic levels
    (MQTT 3.1.1, section 4.7), and their equivalence on well-formed
    filters. *)

From S2P Require Import Prelude.

Definition HASH : Z := 35.
Definition PLUS : Z := 43.
Definition SLASH : Z := 47.

Section matcher.

(** [filter[i]], [topic[i]]; only read in range. *)
Definition chr (s : list Z) (i : nat) : Z := aget 0 s i.

Definition is_multilevel_wildcard (filter : list Z) (fi : nat) : bool :=
  (chr filter fi =? HASH) && (fi + 1 =? length filter)%nat
  && ((fi =? 0)%nat || (chr filter (fi - 1) =? SLASH)).

(** [while (ti < tlen && topic[ti] != '/') ti++;] *)
Fixpoint skip_level (fuel : nat) (topic : list Z) (ti : nat) : nat :=
  match fuel with
  | O => ti
  | S fuel =>
      if (ti <? length topic)%nat && negb (chr topic ti =? SLASH)
      then skip_level fuel topic (ti + 1) else ti
  end.

(** The main loop: the verdict of an early return, or the final indices. *)
Fixpoint match_loop (fuel : nat) (filter topic : list Z) (fi ti : nat) : bool + nat * nat :=
  match fuel with
  | O => inr (fi, ti)
  | S fuel =>
      if (fi <? length filter)%nat && (ti <? length topic)%nat then
        if is_multilevel_wildcard filter fi then inl true
        else if chr filter fi =? PLUS
        then match_loop fuel filter topic (fi + 1) (skip_level (length topic) topic ti)
        else if negb (chr filter fi =? chr topic ti) then inl false
        else match_loop fuel filter topic (fi + 1) (ti + 1)
      else inr (fi, ti)
  end.

(** Each iteration consumes a filter character, so [flen] turns suffice. *)
Definition ove_mqtt_topic_matches (filter topic : list Z) : bool :=
  match match_loop (length filter) filter topic 0 0 with
  | inl b => b
  | inr (fi, ti) =>
      if (fi =? length filter)%nat && (ti =? length topic)%nat then true
      else if (fi + 1 <? length filter)%nat && (chr filter fi =? SLASH)
              && (chr filter (fi + 1) =? HASH)
      then (ti =? length topic)%nat
      else if (fi <? length filter)%nat && is_multilevel_wildcard filter fi then true
      else false
  end.

End matcher.

(** ** The reference: matching level by level *)

(** Split at every slash; the empty string is one empty level. *)
Fixpoint levels (s : list Z) : list (list Z) :=
  match s with
  | [] => [[]]
  | c :: s =>
    if c =? SLASH then [] :: levels s
    else match levels s with l :: ls => (c :: l) :: ls | [] => [[c]] end
  end.

Fixpoint match_levels (fl tl : list (list Z)) : bool :=
  match fl, tl with
  | [], [] => true
  | f :: fl', _ =>
    if bool_decide (f = [HASH] /\ fl' = []) then true
    else match tl with
         | t :: tl' => (bool_decide (f = [PLUS]) || bool_decide (f = t)) && match_levels fl' tl'
         | [] => false
         end
  | [], _ :: _ => false
  end.

(** A wildcard stands alone in its level, and [#] is the last level. *)
Fixpoint wf_levels (fl : list (list Z)) : bool :=
  match fl with
  | [] => true
  | f :: fl' =>
    (bool_decide (HASH ∉ f) || (bool_decide (f = [HASH]) && bool_decide (fl' = [])))
    && (bool_decide (PLUS ∉ f) || bool_decide (f = [PLUS])) && wf_levels fl'
  end.

(** A topic name of at least one character that does not end in a slash. *)
Definition full_topic (t : list Z) : bool :=
  match last t with Some c => negb (c =? SLASH) | None => false end.

(** ** The matcher by recursion on the strings *)

Fixpoint drop_level (t : list Z) : list Z :=
  match t with
  | [] => []
  | d :: t' => if d =? SLASH then t else drop_level t'
  end.

(** [pv]: the previous filter character is a slash (or there is none). *)
Fixpoint tmatch (pv : bool) (f t : list Z) : bool :=
  match f with
  | [] => bool_decide (t = [])
  | c :: f' =>
    match t with
    | [] =>
      if (c =? SLASH) && match f' with d :: _ => d =? HASH | [] => false end then true
      else (c =? HASH) && bool_decide (f' = []) && pv
    | d :: t' =>
      if (c =? HASH) && bool_decide (f' = []) && pv then true
      else if c =? PLUS then tmatch false f' (drop_level t)
      else if negb (c =? d) then false
      else tmatch (c =? SLASH) f' t'
    end
  end.

(** *** From indices to suffixes *)

Lemma chr_drop s i : (i < length s)%nat -> drop i s = chr s i :: drop (S i) s.
Proof.
  intros Hi. unfold chr, aget. destruct (lookup_lt_is_Some_2 s i Hi) as [x Hx].
  rewrite Hx. simpl. by apply drop_S.
Qed.

Lemma drop_nil_iff (s : list Z) i : (i <= length s)%nat -> (drop i s = [] <-> i = length s).
Proof.
  intros Hi. rewrite <-length_zero_iff_nil, length_drop. lia.
Qed.

Lemma skip_level_spec fuel t ti :
  (ti <= length t)%nat -> (length t - ti <= fuel)%nat ->
  drop (skip_level fuel t ti) t = drop_level (drop ti t) /\
  (ti <= skip_level fuel t ti <= length t)%nat.
Proof.
  revert ti. induction fuel as [|fuel IH]; intros ti H1 H2; simpl.
  { rewrite (drop_ge t ti) by lia. split; [done|lia]. }
  destruct (ti <? length t)%nat eqn:Hlt; cbn [andb].
  - apply Nat.ltb_lt in Hlt. rewrite (chr_drop t ti) by done. cbn [drop_level].
    destruct (chr t ti =? SLASH) eqn:Hs; cbn [negb].
    + rewrite <-chr_drop by done. split; [done|lia].
    + rewrite Nat.add_1_r. destruct (IH (S ti)) as [-> ?]; [lia|lia|]. split; [done|lia].
  - apply Nat.ltb_ge in Hlt. rewrite (drop_ge t ti) by lia. split; [done|lia].
Qed.

Definition prev_slash (f : list Z) (fi : nat) : bool :=
  (fi =? 0)%nat || (chr f (fi - 1) =? SLASH).

Lemma multilevel_spec f fi :
  (fi < length f)%nat ->
  is_multilevel_wildcard f fi = (chr f fi =? HASH) && bool_decide (drop (S fi) f = []) && prev_slash f fi.
Proof.
  intros Hi. unfold is_multilevel_wildcard, prev_slash. f_equal. f_equal.
  destruct (fi + 1 =? length f)%nat eqn:He; symmetry.
  - apply bool_decide_eq_true, drop_nil_iff; apply Nat.eqb_eq in He; lia.
  - apply bool_decide_eq_false. rewrite drop_nil_iff by lia. apply Nat.eqb_neq in He. lia.
Qed.

Lemma matches_tmatch_gen fuel f t fi ti :
  (fi <= length f)%nat -> (ti <= length t)%nat -> (length f - fi <= fuel)%nat ->
  match match_loop fuel f t fi ti with
  | inl b => b
  | inr (fi, ti) =>
    if (fi =? length f)%nat && (ti =? length t)%nat then true
    else if (fi + 1 <? length f)%nat && (chr f fi =? SLASH) && (chr f (fi + 1) =? HASH)
    then (ti =? length t)%nat
    else if (fi <? length f)%nat && is_multilevel_wildcard f fi then true
    else false
  end = tmatch (prev_slash f fi) (drop fi f) (drop ti t).
Proof.
  revert fi ti. induction fuel as [|fuel IH]; intros fi ti Hf Ht Hn; cbn [match_loop].
  { assert (fi = length f) as -> by lia. rewrite drop_all, Nat.eqb_refl. cbn [tmatch andb].
    destruct (ti =? length t)%nat eqn:He.
    - symmetry. apply bool_decide_eq_true, drop_nil_iff; [lia|]. by apply Nat.eqb_eq in He.
    - rewrite !(proj2 (Nat.ltb_ge _ _)) by lia. cbn [andb]. symmetry. apply bool_decide_eq_false.
      rewrite drop_nil_iff by lia. by apply Nat.eqb_neq. }
  destruct (fi <? length f)%nat eqn:Hfi; cbn [andb].
  2:{ apply Nat.ltb_ge in Hfi. assert (fi = length f) as -> by lia.
      rewrite drop_all, Nat.eqb_refl. cbn [tmatch andb].
      destruct (ti =? length t)%nat eqn:He.
      - symmetry. apply bool_decide_eq_true, drop_nil_iff; [lia|]. by apply Nat.eqb_eq in He.
      - rewrite !(proj2 (Nat.ltb_ge _ _)) by lia. cbn [andb]. symmetry. apply bool_decide_eq_false.
        rewrite drop_nil_iff by lia. by apply Nat.eqb_neq. }
  apply Nat.ltb_lt in Hfi. rewrite (chr_drop f fi) by done.
  destruct (ti <? length t)%nat eqn:Hti.
  - apply Nat.ltb_lt in Hti. rewrite (chr_drop t ti) by done. cbn [tmatch].
    rewrite multilevel_spec by done. rewrite <-(chr_drop t ti) by done.
    destruct (_ && _ && prev_slash f fi); [done|].
    assert (Hpv : prev_slash f (fi + 1) = (chr f fi =? SLASH)).
    { unfold prev_slash. rewrite Nat.add_sub, Nat.add_1_r. done. }
    destruct (chr f fi =? PLUS) eqn:Hp.
    + destruct (skip_level_spec (length t) t ti) as [Hs ?]; [lia|lia|].
      rewrite IH by lia. rewrite Hs, Hpv, Nat.add_1_r. apply Z.eqb_eq in Hp. by rewrite Hp.
    + destruct (negb _); [done|]. rewrite IH by lia. by rewrite Hpv, !Nat.add_1_r.
  - apply Nat.ltb_ge in Hti. rewrite (drop_ge t ti) by lia. cbn [tmatch].
    rewrite (proj2 (Nat.eqb_neq fi (length f))) by lia. cbn [andb].
    assert ((ti =? length t)%nat = true) as -> by (apply Nat.eqb_eq; lia).
    rewrite (proj2 (Nat.ltb_lt fi _)) by lia. rewrite multilevel_spec by done. cbn [andb].
    assert (Hnext : (fi + 1 <? length f)%nat && (chr f fi =? SLASH) && (chr f (fi + 1) =? HASH)
      = (chr f fi =? SLASH) && match drop (S fi) f with d :: _ => d =? HASH | [] => false end).
    { destruct (fi + 1 <? length f)%nat eqn:Hx; cbn [andb].
      - apply Nat.ltb_lt in Hx. rewrite (chr_drop f (S fi)) by lia. by rewrite Nat.add_1_r.
      - apply Nat.ltb_ge in Hx. rewrite (drop_ge f (S fi)) by lia. by rewrite andb_false_r. }
    rewrite Hnext. destruct (prev_slash f fi); cases.
Qed.

Lemma matches_tmatch f t : ove_mqtt_topic_matches f t = tmatch true f t.
Proof.
  unfold ove_mqtt_topic_matches.
  pose proof (matches_tmatch_gen (length f) f t 0 0) as H. rewrite !drop_0 in H.
  apply H; lia.
Qed.

(** *** From suffixes to levels *)

Lemma levels_split f :
  exists l, (SLASH ∉ l) /\ ((f = l /\ levels f = [l]) \/
    exists f', f = l ++ SLASH :: f' /\ levels f = l :: levels f').
Proof.
  induction f as [|c f (l & Hl & IH)]; simpl.
  { exists []. split; [apply not_elem_of_nil|]. by left. }
  destruct (c =? SLASH) eqn:Hc.
  - apply Z.eqb_eq in Hc as ->. exists []. split; [apply not_elem_of_nil|]. right. by exists f.
  - apply Z.eqb_neq in Hc. exists (c :: l). split; [apply not_elem_of_cons; split; [congruence|done]|].
    destruct IH as [[-> ->]|(f' & -> & ->)]; [by left|right]. by exists f'.
Qed.

Lemma levels_ne f : levels f <> [].
Proof. destruct (levels_split f) as (l & _ & [[_ ->]|(f' & _ & ->)]); done. Qed.

(** The tail of a match at the end of the topic: only a parent wildcard. *)
Lemma tmatch_end pv f' :
  wf_levels (levels f') = true -> tmatch pv (SLASH :: f') [] = match_levels (levels f') [].
Proof.
  intros Hwf. cbn [tmatch]. rewrite Z.eqb_refl. cbn [andb].
  change (SLASH =? HASH) with false. cbn [andb].
  destruct (levels_split f') as (l & Hl & [[-> Hlv]|(f2 & -> & Hlv)]); rewrite Hlv in *; simpl in Hwf |- *.
  - destruct l as [|d l]; simpl; [done|]. destruct (d =? HASH) eqn:Hd.
    + apply Z.eqb_eq in Hd as ->. rewrite andb_true_r in Hwf. apply andb_true_iff in Hwf as [Hwf _].
      apply orb_true_iff in Hwf as [Hwf|Hwf].
      * apply bool_decide_eq_true in Hwf. destruct Hwf. left.
      * apply andb_true_iff in Hwf as [Hwf _]. apply bool_decide_eq_true in Hwf. by simplify_eq.
    + rewrite bool_decide_eq_false_2; [done|]. intros [[= -> _] _]. by rewrite Z.eqb_refl in Hd.
  - pose proof (levels_ne f2) as Hne. rewrite bool_decide_eq_false_2 by (by intros [_ ?]).
    destruct l as [|d l]; simpl; [done|]. destruct (d =? HASH) eqn:Hd; [|done].
    apply Z.eqb_eq in Hd as ->. apply andb_true_iff in Hwf as [Hwf _].
    apply andb_true_iff in Hwf as [Hwf _]. apply orb_true_iff in Hwf as [Hwf|Hwf].
    + apply bool_decide_eq_true in Hwf. destruct Hwf. left.
    + apply andb_true_iff in Hwf as [_ Hwf]. by apply bool_decide_eq_true in Hwf.
Qed.

(** A literal level consumes the same characters of the topic. *)
Lemma tmatch_literal pv l f t :
  HASH ∉ l -> PLUS ∉ l -> SLASH ∉ l ->
  tmatch pv (l ++ f) t = if bool_decide (l `prefix_of` t)
                         then tmatch (if bool_decide (l = []) then pv else false) f (drop (length l) t)
                         else false.
Proof.
  revert pv t. induction l as [|c l IH]; intros pv t Hh Hp Hs.
  { rewrite bool_decide_eq_true_2 by apply prefix_nil. by rewrite bool_decide_eq_true_2, drop_0. }
  apply not_elem_of_cons in Hh as [Hh Hh'], Hp as [Hp Hp'], Hs as [Hs Hs'].
  cbn [app tmatch]. rewrite !(proj2 (Z.eqb_neq c _)) by congruence.
  cbn [andb]. destruct t as [|d t].
  { rewrite bool_decide_eq_false_2; [done|]. apply prefix_nil_not. }
  destruct (c =? d) eqn:Hc; cbn [negb].
  - apply Z.eqb_eq in Hc as ->. rewrite IH by done. rewrite (bool_decide_ext (l `prefix_of` t) (d :: l `prefix_of` d :: t)).
    + case_bool_decide; [|done]. rewrite (bool_decide_eq_false_2 (d :: l = [])) by done.
      by case_bool_decide.
    + split; [by apply prefix_cons|]. by apply prefix_cons_inv_2.
  - rewrite bool_decide_eq_false_2; [done|]. intros ?%prefix_cons_inv_1. apply Z.eqb_neq in Hc. done.
Qed.

Lemma drop_level_split l t : SLASH ∉ l -> drop_level (l ++ SLASH :: t) = SLASH :: t.
Proof.
  induction l as [|c l IH]; simpl; [done|]. rewrite not_elem_of_cons. intros [Hc Hl].
  rewrite (proj2 (Z.eqb_neq c SLASH)) by congruence. auto.
Qed.

Lemma drop_level_none l : SLASH ∉ l -> drop_level l = [].
Proof.
  induction l as [|c l IH]; simpl; [done|]. rewrite not_elem_of_cons. intros [Hc Hl].
  rewrite (proj2 (Z.eqb_neq c SLASH)) by congruence. auto.
Qed.

Lemma full_topic_tail l t : full_topic (l ++ SLASH :: t) = true -> full_topic t = true.
Proof.
  unfold full_topic. rewrite last_app, last_cons. destruct (last t); done.
Qed.

(** Two level-split strings with a common literal first level. *)
Lemma prefix_level l t1 :
  SLASH ∉ l -> SLASH ∉ t1 -> forall t', l `prefix_of` t1 ++ SLASH :: t' -> l `prefix_of` t1.
Proof.
  revert t1. induction l as [|c l IH]; intros t1 Hl Ht t' Hp; [apply prefix_nil|].
  apply not_elem_of_cons in Hl as [Hc Hl]. destruct t1 as [|d t1]; simpl in Hp.
  - apply prefix_cons_inv_1 in Hp. congruence.
  - apply not_elem_of_cons in Ht as [_ Ht]. pose proof (prefix_cons_inv_1 _ _ _ _ Hp) as ->.
    apply prefix_cons, (IH _ Hl Ht t'). by apply prefix_cons_inv_2 in Hp.
Qed.

(** One literal level against one topic level, with the rest of the filter. *)
Lemma tmatch_level pv l f t :
  HASH ∉ l -> PLUS ∉ l -> SLASH ∉ l -> wf_levels (levels f) = true ->
  tmatch pv (l ++ SLASH :: f) t =
  match levels t with
  | t1 :: tl => bool_decide (l = t1) &&
      (if bool_decide (tl = []) then match_levels (levels f) []
       else tmatch true f (drop (S (length l)) t))
  | [] => false
  end.
Proof.
  intros Hh Hp Hs Hwf. rewrite tmatch_literal by done.
  destruct (levels_split t) as (t1 & Ht1 & [[-> Hlv]|(t' & -> & Hlv)]); rewrite Hlv.
  - rewrite (bool_decide_eq_true_2 ([] = [])) by done. case_bool_decide as Hpre.
    + destruct (drop (length l) t1) as [|d r] eqn:Hd.
      * assert (l = t1) as ->.
        { destruct Hpre as [k ->]. rewrite drop_app_length in Hd. by rewrite Hd, app_nil_r. }
        rewrite (bool_decide_eq_true_2 (t1 = t1)) by done. by apply tmatch_end.
      * cbn [tmatch]. change (SLASH =? HASH) with false. change (SLASH =? PLUS) with false. cbn [andb].
        assert (Hne : l <> t1) by (intros ->; by rewrite drop_all in Hd).
        rewrite (bool_decide_eq_false_2 (l = t1)) by done.
        destruct (SLASH =? d) eqn:Hc; [|done]. apply Z.eqb_eq in Hc as <-. destruct Ht1.
        rewrite <-(take_drop (length l) t1), Hd. apply elem_of_app. right. left.
    + rewrite bool_decide_eq_false_2; [done|]. intros ->. by destruct Hpre.
  - rewrite (bool_decide_eq_false_2 (levels t' = [])) by apply levels_ne.
    case_bool_decide as Hpre.
    + pose proof (prefix_level _ _ Hs Ht1 _ Hpre) as [k ->]. destruct k as [|d k].
      * rewrite app_nil_r in *. rewrite (bool_decide_eq_true_2 (l = l)) by done.
        rewrite drop_app_length. cbn [tmatch]. change (SLASH =? HASH) with false.
        change (SLASH =? PLUS) with false. rewrite Z.eqb_refl. cbn [andb negb].
        replace (S (length l)) with (length (l ++ [SLASH])) by (rewrite length_app; simpl; lia).
        replace (l ++ SLASH :: t') with ((l ++ [SLASH]) ++ t') by (by rewrite <-app_assoc).
        by rewrite drop_app_length.
      * rewrite (bool_decide_eq_false_2 (l = l ++ d :: k)).
        2:{ intros He. apply (f_equal length) in He. rewrite length_app in He. simpl in He. lia. }
        rewrite <-app_assoc, drop_app_length. cbn [app tmatch].
        change (SLASH =? HASH) with false. change (SLASH =? PLUS) with false. cbn [andb].
        destruct (SLASH =? d) eqn:Hc; [|done]. apply Z.eqb_eq in Hc as <-. destruct Ht1.
        apply elem_of_app. right. left.
    + rewrite bool_decide_eq_false_2; [done|]. intros ->. destruct Hpre. by apply prefix_app_r.
Qed.

Lemma match_levels_cons f fl t tl :
  ~ (f = [HASH] /\ fl = []) ->
  match_levels (f :: fl) (t :: tl)
  = (bool_decide (f = [PLUS]) || bool_decide (f = t)) && match_levels fl tl.
Proof. intros Hn. cbn [match_levels]. by rewrite bool_decide_eq_false_2. Qed.

Lemma match_levels_nil tl : match_levels [] tl = bool_decide (tl = []).
Proof. by destruct tl. Qed.

(** The kinds of first level a well-formed filter has. *)
Lemma wf_levels_cons l fl :
  wf_levels (l :: fl) = true ->
  wf_levels fl = true /\ ((l = [HASH] /\ fl = []) \/ l = [PLUS] \/ ((HASH ∉ l) /\ PLUS ∉ l)).
Proof.
  cbn [wf_levels]. intros [[H1 H2]%andb_true_iff H3]%andb_true_iff. split; [done|].
  apply orb_true_iff in H1 as [H1|H1].
  - apply bool_decide_eq_true in H1. apply orb_true_iff in H2 as [H2|H2].
    + apply bool_decide_eq_true in H2. auto.
    + apply bool_decide_eq_true in H2. auto.
  - apply andb_true_iff in H1 as [H0 H1]. apply bool_decide_eq_true in H0, H1. auto.
Qed.

Lemma full_topic_cons t : full_topic t = true -> exists d t', t = d :: t'.
Proof. destruct t as [|d t']; [done|]. by exists d, t'. Qed.

Lemma tmatch_single l t :
  SLASH ∉ l -> wf_levels [l] = true -> full_topic t = true ->
  tmatch true l t = match_levels [l] (levels t).
Proof.
  intros Hs [_ Hl]%wf_levels_cons Ht. destruct (full_topic_cons _ Ht) as (d & t0 & Ht0).
  destruct (levels_split t) as (t1 & Ht1 & Hsp).
  destruct Hl as [[-> _]|[->|[Hh Hp]]].
  - subst t. done.
  - assert (Hd : tmatch true [PLUS] t = bool_decide (drop_level t = [])) by (by rewrite Ht0).
    rewrite Hd. destruct Hsp as [[-> ->]|(t' & -> & ->)].
    + by rewrite drop_level_none.
    + rewrite drop_level_split by done. rewrite match_levels_cons by (by intros [? _]).
      rewrite match_levels_nil. rewrite (bool_decide_eq_false_2 (levels t' = [])) by apply levels_ne. done.
  - pose proof (tmatch_literal true l [] t Hh Hp Hs) as Hlit. rewrite app_nil_r in Hlit. rewrite Hlit.
    assert (Hn : ~ (l = [HASH] /\ @nil (list Z) = [])) by (intros [-> _]; apply Hh; left).
    assert (Hn' : l <> [PLUS]) by (intros ->; apply Hp; left).
    destruct Hsp as [[-> ->]|(t' & -> & ->)]; rewrite match_levels_cons, (bool_decide_eq_false_2 _ Hn') by done;
      cbn [orb tmatch].
    + rewrite andb_true_r. case_bool_decide as Hpre.
      * apply bool_decide_ext. split; [|intros ->; by rewrite drop_all].
        destruct Hpre as [k ->]. rewrite drop_app_length. intros ->. by rewrite app_nil_r.
      * symmetry. apply bool_decide_eq_false. intros ->. by destruct Hpre.
    + rewrite match_levels_nil, (bool_decide_eq_false_2 (levels t' = [])) by apply levels_ne.
      rewrite andb_false_r. case_bool_decide as Hpre; [|done]. apply bool_decide_eq_false.
      intros Hd. destruct Hpre as [k Hk]. rewrite Hk, drop_app_length in Hd. subst k.
      rewrite app_nil_r in Hk. destruct Hs. rewrite <-Hk. apply elem_of_app. right. left.
Qed.

Lemma tmatch_levels n f t :
  (length f <= n)%nat -> wf_levels (levels f) = true -> full_topic t = true ->
  tmatch true f t = match_levels (levels f) (levels t).
Proof.
  revert f t. induction n as [|n IH]; intros f t Hn Hwf Ht.
  { destruct f; [|simpl in Hn; lia]. apply tmatch_single; [apply not_elem_of_nil|done|done]. }
  destruct (levels_split f) as (l & Hs & [[-> Hlv]|(f' & -> & Hlv)]); rewrite Hlv in *.
  { by apply tmatch_single. }
  assert (Hn' : (length f' <= n)%nat) by (rewrite length_app in Hn; simpl in Hn; lia).
  apply wf_levels_cons in Hwf as [Hwf Hl].
  destruct (levels_split t) as (t1 & Ht1 & Hsp). destruct (full_topic_cons _ Ht) as (d & t0 & Ht0).
  destruct Hl as [[_ Hnil]|[->|[Hh Hp]]]; [by destruct (levels_ne f')|..].
  - assert (Hd : tmatch true ([PLUS] ++ SLASH :: f') t = tmatch false (SLASH :: f') (drop_level t))
      by (by rewrite Ht0).
    rewrite Hd. destruct Hsp as [[-> ->]|(t' & -> & ->)];
      rewrite match_levels_cons, (bool_decide_eq_true_2 ([PLUS] = [PLUS])) by (done || by intros [? _]);
      cbn [orb andb].
    + rewrite drop_level_none by done. by apply tmatch_end.
    + rewrite drop_level_split by done. rewrite <-IH by (done || by eapply full_topic_tail).
      reflexivity.
  - assert (HnH : ~ (l = [HASH] /\ levels f' = [])) by (intros [-> _]; apply Hh; left).
    assert (HnP : l <> [PLUS]) by (intros ->; apply Hp; left).
    rewrite tmatch_level by done.
    destruct Hsp as [[-> ->]|(t' & -> & ->)]; rewrite match_levels_cons, (bool_decide_eq_false_2 _ HnP) by done;
      cbn [orb].
    + by rewrite (bool_decide_eq_true_2 ([] = [])).
    + rewrite (bool_decide_eq_false_2 (levels t' = [])) by apply levels_ne.
      case_bool_decide as He; [|done]. subst t1. cbn [andb].
      rewrite <-IH by (done || by eapply full_topic_tail). f_equal.
      replace (S (length l)) with (length (l ++ [SLASH])) by (rewrite length_app; simpl; lia).
      replace (l ++ SLASH :: t') with ((l ++ [SLASH]) ++ t') by (by rewrite <-app_assoc).
      by rewrite drop_app_length.
Qed.



(** Outside that domain the two differ: a malformed filter with text after
    the multi-level wildcard still matches the parent level, and a
    single-level wildcard does not match an empty last level. *)
Example malformed_parent_match : ove_mqtt_topic_matches (str "a/#b") (str "a") = true.
Proof. reflexivity. Qed.

Example empty_last_level :
  ove_mqtt_topic_matches (str "a/+") (str "a/") = false /\
  match_levels (levels (str "a/+")) (levels (str "a/")) = true.
Proof. split; reflexivity. Qed.
