(* ===== verification/Mqtt.v ===== *)
(** * MQTT 3.1.1 client (backends/common/ove_net_mqtt.c)

    Packet encoding and parsing, and the client API on top of the network
    interface.  Wire data is read through checked accessors: a read outside
    the packet makes the computation fail, so the theorems that a parser
    returns also show that it stays inside its buffer.  A message callback
    is a recorded event; it does not re-enter the client. *)

From S2P Require Import Prelude Net MqttTopic.

Definition MQTT_CONNECT : Z := 0x10.
Definition MQTT_CONNACK : Z := 0x20.
Definition MQTT_PUBLISH : Z := 0x30.
Definition MQTT_PUBACK : Z := 0x40.
Definition MQTT_SUBSCRIBE : Z := 0x82.
Definition MQTT_SUBACK : Z := 0x90.
Definition MQTT_UNSUBSCRIBE : Z := 0xA2.
Definition MQTT_UNSUBACK : Z := 0xB0.
Definition MQTT_PINGREQ : Z := 0xC0.
Definition MQTT_PINGRESP : Z := 0xD0.
Definition MQTT_DISCONNECT : Z := 0xE0.

Definition OVE_MQTT_QOS0 : Z := 0.
Definition OVE_MQTT_QOS1 : Z := 1.

(** The build configuration: TLS compiled in, static or heap buffers, and
    their sizes. *)
Class MqttConfig := {
  CONFIG_OVE_NET_TLS : bool;
  CONFIG_OVE_ZERO_HEAP : bool;
  CONFIG_OVE_NET_MQTT_RX_BUF : Z;
  CONFIG_OVE_NET_MQTT_TX_BUF : Z;
  CONFIG_OVE_NET_MQTT_MAX_SUBS : nat;
  sizeof_mqtt_client : Z;
  mqtt_buf_sizes : 4 <= CONFIG_OVE_NET_MQTT_RX_BUF /\ 4 <= CONFIG_OVE_NET_MQTT_TX_BUF < 2 ^ 28 }.

(** Pointers are addresses ([0] is NULL); [rx_data] is what [rx_buf]
    points to. *)
Record ove_mqtt_client := {
  sock : Z;
  tls : Z;
  rx_buf : Z;
  rx_data : list Z;
  rx_size : Z;
  tx_buf : Z;
  tx_size : Z;
  keep_alive_s : Z;
  pkt_id : Z;
  connected : bool;
  sub_filters : list (list Z);
  sub_count : nat;
  on_message : Z;
  user_data : Z }.

Record ove_mqtt_config := {
  cfg_host : option (list Z);
  cfg_port : Z;
  cfg_client_id : option (list Z);
  cfg_username : option (list Z);
  cfg_password : option (list Z);
  cfg_keep_alive_s : Z;
  cfg_use_tls : bool;
  cfg_on_message : Z;
  cfg_user_data : Z }.

(** ** Encoding helpers *)

Section encoding.

(** [do { ... } while (len > 0);] ten 7-bit groups cover a 64-bit length. *)
Fixpoint encode_remaining_length_ (fuel : nat) (len : Z) : list Z :=
  match fuel with
  | O => []
  | S fuel =>
      let byte := u8 (len mod 128) in
      let len := len / 128 in
      if 0 <? len then Z.lor byte 0x80 :: encode_remaining_length_ fuel len else [byte]
  end.
Definition encode_remaining_length (len : Z) : list Z := encode_remaining_length_ 10 len.

Fixpoint remaining_length_bytes_ (fuel : nat) (len n : Z) : Z :=
  match fuel with
  | O => n
  | S fuel => if 128 <=? len then remaining_length_bytes_ fuel (len / 128) (n + 1) else n
  end.
Definition remaining_length_bytes (len : Z) : Z := remaining_length_bytes_ 10 len 1.

(** The bytes consumed ([0]: malformed) and the value; [None] is a read
    outside [buf]. *)
Fixpoint decode_loop (n : nat) (buf : list Z) (buflen i : nat) (value multiplier : Z) :
  option (nat * Z) :=
  match n with
  | O => Some (0%nat, value)
  | S n =>
      if (buflen <=? i)%nat then Some (0%nat, value) else
      b ← buf !! i;
      let value := value + Z.land b 0x7F * multiplier in
      if Z.land b 0x80 =? 0 then Some ((i + 1)%nat, value)
      else decode_loop n buf buflen (i + 1) value (multiplier * 128)
  end.
Definition decode_remaining_length (buf : list Z) (buflen : nat) : option (nat * Z) :=
  decode_loop 4 buf buflen 0 0 1.

Definition put_u16 (val : Z) : list Z := [u8 (Z.shiftr val 8); u8 (Z.land val 0xFF)].

Definition get_u16 (buf : list Z) (i : nat) : option Z :=
  a ← buf !! i; b ← buf !! (i + 1)%nat; Some (u16 (Z.lor (Z.shiftl a 8) b)).

(** [n] bytes from [i], if they are inside the buffer. *)
Definition slice (buf : list Z) (i n : nat) : option (list Z) :=
  if (i + n <=? length buf)%nat then Some (take n (drop i buf)) else None.

Definition mqtt_packet_len (buf : list Z) (buflen : nat) : option nat :=
  if (buflen <? 2)%nat then Some 0%nat else
  '(n, rem) ← decode_remaining_length (drop 1 buf) (buflen - 1);
  let hdr := (1 + n)%nat in
  if (hdr <=? 1)%nat then Some 0%nat else
  let total := (hdr + Z.to_nat rem)%nat in
  Some (if (total <=? buflen)%nat then total else 0%nat).

End encoding.

(** ** Client operations *)

Section client.
Context {W : Type} `{NetEnv W} `{MqttConfig}.
Abbreviation CM := (MO (nst W ove_mqtt_client)).

(** [*c = {0}] *)
Definition client_zero : ove_mqtt_client :=
  {| sock := 0; tls := 0; rx_buf := 0; rx_data := []; rx_size := 0; tx_buf := 0; tx_size := 0;
   keep_alive_s := 0; pkt_id := 0; connected := false;
   sub_filters := replicate CONFIG_OVE_NET_MQTT_MAX_SUBS []; sub_count := 0;
   on_message := 0; user_data := 0 |}.

Definition mqtt_send (data : list Z) : CM Z :=
  c ← stget;
  if CONFIG_OVE_NET_TLS && negb (tls c =? 0)
  then '(ret, _) ← ove_tls_send (tls c) data; mret ret
  else '(ret, _) ← ove_socket_send (sock c) data; mret ret.

(** Receives into [rx_buf]: the result and the number of bytes written to
    the front of the buffer. *)
Definition mqtt_recv (len timeout_ns : Z) : CM (Z * nat) :=
  c ← stget;
  '(ret, d) ← (if CONFIG_OVE_NET_TLS && negb (tls c =? 0)
             then ove_tls_recv (tls c) len
             else ove_socket_recv (sock c) len timeout_ns);
  stmod (fun c => {| c with rx_data := d ++ drop (length d) (rx_data c) |});;
  mret (ret, length d).

Definition mqtt_tx_frame_fits (c : ove_mqtt_client) (remaining : Z) : bool :=
  1 + remaining_length_bytes remaining + remaining <=? tx_size c.

(** [for (i = 0; i < c->sub_count; i++)] *)
Definition mqtt_any_sub_matches (c : ove_mqtt_client) (topic : list Z) : bool :=
  if (sub_count c =? 0)%nat then true
  else existsb (fun f => ove_mqtt_topic_matches f topic) (take (sub_count c) (sub_filters c)).

(** [pkt] is the packet's [pkt_len] bytes. *)
Definition dispatch_publish (pkt : list Z) : CM unit :=
  c ← stget;
  if on_message c =? 0 then mret tt else
  let pkt_len := length pkt in
  if (pkt_len <? 2)%nat then mret tt else
  '(rl_bytes, rem_len) ← olift (decode_remaining_length (drop 1 pkt) (pkt_len - 1));
  if (rl_bytes =? 0)%nat then mret tt else
  let hdr_bytes := (1 + rl_bytes)%nat in
  if (pkt_len <? hdr_bytes)%nat || (Z.of_nat (pkt_len - hdr_bytes) <? rem_len) then mret tt else
  let ptr := hdr_bytes in
  let end_ := (ptr + Z.to_nat rem_len)%nat in
  if (end_ - ptr <? 2)%nat then mret tt else
  tlen ← olift (get_u16 pkt ptr);
  let ptr := (ptr + 2)%nat in
  if Z.of_nat (end_ - ptr) <? tlen then mret tt else
  topic ← olift (slice pkt ptr (Z.to_nat tlen));
  let ptr := (ptr + Z.to_nat tlen)%nat in
  b0 ← olift (pkt !! 0%nat);
  let qos := Z.land (Z.shiftr b0 1) 0x03 in
  if (1 <=? qos) && (end_ - ptr <? 2)%nat then mret tt else
  (if 1 <=? qos then
   pid ← olift (get_u16 pkt ptr);
   (if qos =? 1 then _ ← mqtt_send ([MQTT_PUBACK; 0x02] ++ put_u16 pid); mret tt else mret tt)
   else mret tt);;
  let ptr := if 1 <=? qos then (ptr + 2)%nat else ptr in
  payload ← olift (slice pkt ptr (end_ - ptr));
  c ← stget;
  if mqtt_any_sub_matches c topic
  then invoke (CbMqttMessage (on_message c) topic payload (user_data c))
  else mret tt.

(** The scan of one receive: [true] when the expected packet is found. *)
Fixpoint scan_packets (fuel : nat) (expected_type : Z) (got offset : nat) : CM bool :=
  match fuel with
  | O => ofail
  | S fuel =>
      if negb (offset <? got)%nat then mret false else
      c ← stget;
      let buf := drop offset (rx_data c) in
      pkt_len ← olift (mqtt_packet_len buf (got - offset));
      if (pkt_len =? 0)%nat then mret false else
      b0 ← olift (buf !! 0%nat);
      let pkt_type := Z.land b0 0xF0 in
      if pkt_type =? expected_type then mret true else
      (if pkt_type =? MQTT_PUBLISH
       then pkt ← olift (slice buf 0 pkt_len); dispatch_publish pkt
       else mret tt);;
      scan_packets fuel expected_type got (offset + pkt_len)
  end.

(** [for (attempts = 0; attempts < 10; attempts++)] *)
Fixpoint wait_attempts (attempts : nat) (expected_type timeout_ns : Z) : CM Z :=
  match attempts with
  | O => mret OVE_ERR_TIMEOUT
  | S attempts =>
      c ← stget;
      '(ret, got) ← mqtt_recv (rx_size c) timeout_ns;
      if ret =? OVE_ERR_TIMEOUT then wait_attempts attempts expected_type timeout_ns
      else if negb (ret =? OVE_OK) then mret ret
      else if (got =? 0)%nat then wait_attempts attempts expected_type timeout_ns
      else
        found ← scan_packets (S got) expected_type got 0;
        if (found : bool) then mret OVE_OK else wait_attempts attempts expected_type timeout_ns
  end.
Definition mqtt_wait_for (expected_type timeout_ns : Z) : CM Z :=
  wait_attempts 10 expected_type timeout_ns.

(** [client], [storage] non-NULL flags. *)
Definition ove_mqtt_client_init (client storage : bool) : CM Z :=
  if negb client || negb storage then mret OVE_ERR_INVALID_PARAM else
  stmod (fun _ => client_zero);; mret OVE_OK.

Definition ove_mqtt_client_deinit (client : bool) : CM unit :=
  if negb client then mret tt else
  c ← stget;
  (if negb CONFIG_OVE_ZERO_HEAP then
   (if negb (rx_buf c =? 0) then OVE_BACKEND_FREE (rx_buf c) else mret tt);;
   (if negb (tx_buf c =? 0) then OVE_BACKEND_FREE (tx_buf c) else mret tt)
   else mret tt);;
  stmod (fun _ => client_zero).

(** The heap builds' constructor: the result and the handle written to
    [*client]. *)
Definition ove_mqtt_client_create (client : bool) : CM (Z * Z) :=
  if negb client then mret (OVE_ERR_INVALID_PARAM, 0) else
  p ← OVE_BACKEND_MALLOC sizeof_mqtt_client;
  if p =? 0 then mret (OVE_ERR_NO_MEMORY, 0) else
  stmod (fun _ => client_zero);; mret (OVE_OK, p).

Definition ove_mqtt_client_destroy (client : Z) : CM unit :=
  if client =? 0 then mret tt else
  ove_mqtt_client_deinit true;; OVE_BACKEND_FREE client.

(** The [fail:] label of [ove_mqtt_connect]. *)
Definition connect_fail (ret : Z) : CM Z :=
  c ← stget;
  (if CONFIG_OVE_NET_TLS && negb (tls c =? 0) then
   ove_tls_close (tls c);; ove_tls_deinit (tls c);; stmod (fun c => {| c with tls := 0 |})
   else mret tt);;
  ove_socket_close (sock c);;
  stmod (fun c => {| c with sock := 0 |});;
  mret ret.

(** Close the socket and report [ret]. *)
Definition connect_abort (ret : Z) : CM Z :=
  c ← stget; ove_socket_close (sock c);; stmod (fun c => {| c with sock := 0 |});; mret ret.

(** Buffers: the embedded arrays, or two heap blocks. *)
Definition connect_buffers : CM Z :=
  if CONFIG_OVE_ZERO_HEAP then
  stmod (fun c => {| c with rx_buf := 1; rx_size := CONFIG_OVE_NET_MQTT_RX_BUF;
                     rx_data := if (length (rx_data c) =? Z.to_nat CONFIG_OVE_NET_MQTT_RX_BUF)%nat
                                then rx_data c
                                else replicate (Z.to_nat CONFIG_OVE_NET_MQTT_RX_BUF) 0;
                     tx_buf := 1; tx_size := CONFIG_OVE_NET_MQTT_TX_BUF |});;
  mret OVE_OK
  else
  stmod (fun c => {| c with rx_size := CONFIG_OVE_NET_MQTT_RX_BUF;
                     tx_size := CONFIG_OVE_NET_MQTT_TX_BUF |});;
  p ← OVE_BACKEND_MALLOC CONFIG_OVE_NET_MQTT_RX_BUF;
  q ← OVE_BACKEND_MALLOC CONFIG_OVE_NET_MQTT_TX_BUF;
  stmod (fun c => {| c with rx_buf := p; tx_buf := q;
                     rx_data := replicate (Z.to_nat CONFIG_OVE_NET_MQTT_RX_BUF) 0 |});;
  mret (if (p =? 0) || (q =? 0) then OVE_ERR_NO_MEMORY else OVE_OK).

(** The TLS stage: [OVE_OK] to go on. *)
Definition connect_tls (cfg : ove_mqtt_config) : CM Z :=
  if negb (cfg_use_tls cfg) then mret OVE_OK else
  if CONFIG_OVE_NET_TLS then
  '(ret, t) ← ove_tls_init;
  if negb (ret =? OVE_OK) then connect_abort ret else
  c ← stget;
  ret ← ove_tls_handshake t (sock c);
  if negb (ret =? OVE_OK) then ove_tls_deinit t;; connect_abort ret else
  stmod (fun c => {| c with tls := t |});; mret OVE_OK
  else connect_abort OVE_ERR_NOT_SUPPORTED.

Definition opt_len (s : option (list Z)) : Z := Z.of_nat (length (default [] s)).

(** A length-prefixed field. *)
Definition field (s : list Z) : list Z := put_u16 (Z.of_nat (length s)) ++ s.
Definition opt_field (s : option (list Z)) : list Z := if s is Some s then field s else [].

(** The CONNECT packet written to [tx_buf]. *)
Definition connect_packet (keep_alive : Z) (cid : list Z) (usr pwd : option (list Z)) : list Z :=
  let remaining := 10 + 2 + Z.of_nat (length cid)
                 + (if usr is Some u then 2 + Z.of_nat (length u) else 0)
                 + (if pwd is Some p then 2 + Z.of_nat (length p) else 0) in
  let flags := Z.lor (Z.lor 0x02 (if usr is Some _ then 0x80 else 0)) (if pwd is Some _ then 0x40 else 0) in
  [MQTT_CONNECT] ++ encode_remaining_length remaining ++ put_u16 4 ++ str "MQTT" ++ [0x04; flags]
  ++ put_u16 keep_alive ++ field cid ++ opt_field usr ++ opt_field pwd.

(** Send CONNECT and read CONNACK.  The packet is assembled in [tx_buf]
    without a size check: one that does not fit overruns the buffer. *)
Definition connect_exchange (cid : list Z) (usr pwd : option (list Z)) : CM Z :=
  c ← stget;
  let pkt := connect_packet (keep_alive_s c) cid usr pwd in
  if tx_size c <? Z.of_nat (length pkt) then ofail else
  ret ← mqtt_send pkt;
  if negb (ret =? OVE_OK) then connect_fail ret else
  '(ret, got) ← mqtt_recv 4 (OVE_MS 10000);
  if negb (ret =? OVE_OK) then connect_fail ret else
  c ← stget;
  if (got <? 4)%nat || negb (aget 0 (rx_data c) 0 =? MQTT_CONNACK) || negb (aget 0 (rx_data c) 3 =? 0)
  then connect_fail OVE_ERR_NOT_SUPPORTED
  else stmod (fun c => {| c with connected := true |});; mret OVE_OK.

Definition ove_mqtt_connect (client : bool) (cfg : option ove_mqtt_config) : CM Z :=
  match client, cfg with
  | true, Some cfg =>
      match cfg_host cfg, cfg_client_id cfg with
      | Some host, Some cid =>
        ret ← connect_buffers;
        if negb (ret =? OVE_OK) then mret ret else
        stmod (fun c => {| c with
          keep_alive_s := if cfg_keep_alive_s cfg =? 0 then 60 else cfg_keep_alive_s cfg;
          on_message := cfg_on_message cfg; user_data := cfg_user_data cfg; pkt_id := 1 |});;
        '(ret, addr) ← ove_dns_resolve host (OVE_MS 10000);
        if negb (ret =? OVE_OK) then mret ret else
        '(ret, s) ← ove_socket_open OVE_SOCK_STREAM;
        stmod (fun c => {| c with sock := s |});;
        if negb (ret =? OVE_OK) then mret ret else
        ret ← ove_socket_connect s addr (cfg_port cfg) (OVE_MS 10000);
        if negb (ret =? OVE_OK) then connect_abort ret else
        ret ← connect_tls cfg;
        if negb (ret =? OVE_OK) then mret ret else
        if (0xFFFF <? Z.of_nat (length cid)) || (0xFFFF <? opt_len (cfg_username cfg))
           || (0xFFFF <? opt_len (cfg_password cfg))
        then mret OVE_ERR_INVALID_PARAM else
        connect_exchange cid (cfg_username cfg) (cfg_password cfg)
      | _, _ => mret OVE_ERR_INVALID_PARAM
      end
  | _, _ => mret OVE_ERR_INVALID_PARAM
  end.

Definition ove_mqtt_disconnect (client : bool) : CM unit :=
  c ← stget;
  if negb client || negb (connected c) then mret tt else
  _ ← mqtt_send [MQTT_DISCONNECT; 0x00];
  stmod (fun c => {| c with connected := false |});;
  (if CONFIG_OVE_NET_TLS && negb (tls c =? 0) then
   ove_tls_close (tls c);; ove_tls_deinit (tls c);; stmod (fun c => {| c with tls := 0 |})
   else mret tt);;
  ove_socket_close (sock c);;
  stmod (fun c => {| c with sock := 0 |}).

(** [put_u16(p, c->pkt_id++); ... if (c->pkt_id == 0) c->pkt_id = 1;] *)
Definition take_pkt_id : CM Z :=
  c ← stget;
  let next := u16 (pkt_id c + 1) in
  stmod (fun c => {| c with pkt_id := if next =? 0 then 1 else next |});;
  mret (pkt_id c).

Definition remaining_publish (topic : list Z) (payload_len qos : Z) : Z :=
  2 + Z.of_nat (length topic) + payload_len + (if qos =? OVE_MQTT_QOS1 then 2 else 0).

(** The PUBLISH packet written to [tx_buf]. *)
Definition publish_packet (topic : list Z) (payload : list Z) (payload_len qos pid : Z) : list Z :=
  [if qos =? OVE_MQTT_QOS1 then Z.lor MQTT_PUBLISH 0x02 else MQTT_PUBLISH]
  ++ encode_remaining_length (remaining_publish topic payload_len qos) ++ field topic
  ++ (if qos =? OVE_MQTT_QOS1 then put_u16 pid else []) ++ payload.

(** [payload = None] is a NULL pointer. *)
Definition ove_mqtt_publish (client : bool) (topic : option (list Z)) (payload : option (list Z))
  (payload_len qos : Z) : CM Z :=
  c ← stget;
  match topic with
  | Some topic =>
      if negb client || negb (connected c) then mret OVE_ERR_INVALID_PARAM else
      if 0xFFFF <? Z.of_nat (length topic) then mret OVE_ERR_INVALID_PARAM else
      if tx_size c <? payload_len then mret OVE_ERR_INVALID_PARAM else
      if negb (mqtt_tx_frame_fits c (remaining_publish topic payload_len qos))
      then mret OVE_ERR_INVALID_PARAM else
      pid ← (if qos =? OVE_MQTT_QOS1 then take_pkt_id else mret 0);
      body ← (if payload is Some p
              then if 0 <? payload_len then olift (slice p 0 (Z.to_nat payload_len)) else mret []
              else mret []);
      ret ← mqtt_send (publish_packet topic body payload_len qos pid);
      if negb (ret =? OVE_OK) then mret ret else
      if qos =? OVE_MQTT_QOS1 then mqtt_wait_for MQTT_PUBACK (OVE_MS 5000) else mret OVE_OK
  | None => mret OVE_ERR_INVALID_PARAM
  end.

Definition subscribe_packet (topic : list Z) (pid qos : Z) : list Z :=
  [MQTT_SUBSCRIBE] ++ encode_remaining_length (2 + 2 + Z.of_nat (length topic) + 1)
  ++ put_u16 pid ++ field topic ++ [u8 qos].

(** [strncpy(dst, s, 63); dst[63] = 0;] *)
Definition strncpy63 (s : list Z) : list Z := take 63 s.

Definition ove_mqtt_subscribe (client : bool) (topic : option (list Z)) (qos : Z) : CM Z :=
  c ← stget;
  match topic with
  | Some topic =>
      if negb client || negb (connected c) then mret OVE_ERR_INVALID_PARAM else
      if 0xFFFF <? Z.of_nat (length topic) then mret OVE_ERR_INVALID_PARAM else
      if negb (mqtt_tx_frame_fits c (2 + 2 + Z.of_nat (length topic) + 1))
      then mret OVE_ERR_INVALID_PARAM else
      pid ← take_pkt_id;
      ret ← mqtt_send (subscribe_packet topic pid qos);
      if negb (ret =? OVE_OK) then mret ret else
      ret ← mqtt_wait_for MQTT_SUBACK (OVE_MS 5000);
      if negb (ret =? OVE_OK) then mret ret else
      stmod (fun c => if (sub_count c <? CONFIG_OVE_NET_MQTT_MAX_SUBS)%nat
                      then {| c with sub_filters := aset (sub_filters c) (sub_count c) (strncpy63 topic);
                              sub_count := S (sub_count c) |}
                      else c);;
      mret OVE_OK
  | None => mret OVE_ERR_INVALID_PARAM
  end.

Definition unsubscribe_packet (topic : list Z) (pid : Z) : list Z :=
  [MQTT_UNSUBSCRIBE] ++ encode_remaining_length (2 + 2 + Z.of_nat (length topic))
  ++ put_u16 pid ++ field topic.

(** [strncmp(filter, topic, 63) == 0] *)
Definition strncmp63 (a b : list Z) : bool := bytes_eqb (take 63 a) (take 63 b).

Definition remove_filter (topic : list Z) (c : ove_mqtt_client) : ove_mqtt_client :=
  match find_idx (fun f => strncmp63 f topic) (take (sub_count c) (sub_filters c)) with
  | Some i => {| c with sub_filters := shift_down [] (sub_filters c) i (sub_count c);
               sub_count := sub_count c - 1 |}
  | None => c
  end.

Definition ove_mqtt_unsubscribe (client : bool) (topic : option (list Z)) : CM Z :=
  c ← stget;
  match topic with
  | Some topic =>
      if negb client || negb (connected c) then mret OVE_ERR_INVALID_PARAM else
      if 0xFFFF <? Z.of_nat (length topic) then mret OVE_ERR_INVALID_PARAM else
      if negb (mqtt_tx_frame_fits c (2 + 2 + Z.of_nat (length topic)))
      then mret OVE_ERR_INVALID_PARAM else
      pid ← take_pkt_id;
      ret ← mqtt_send (unsubscribe_packet topic pid);
      if negb (ret =? OVE_OK) then mret ret else
      ret ← mqtt_wait_for MQTT_UNSUBACK (OVE_MS 2000);
      if negb (ret =? OVE_OK) then mret ret else
      stmod (remove_filter topic);;
      mret OVE_OK
  | None => mret OVE_ERR_INVALID_PARAM
  end.

Definition ove_mqtt_loop (client : bool) (timeout_ns : Z) : CM Z :=
  c ← stget;
  if negb client || negb (connected c) then mret OVE_ERR_INVALID_PARAM else
  '(ret, got) ← mqtt_recv (rx_size c) timeout_ns;
  if ret =? OVE_ERR_TIMEOUT then mqtt_send [MQTT_PINGREQ; 0x00] else
  if negb (ret =? OVE_OK) then mret ret else
  c ← stget;
  b0 ← olift (rx_data c !! 0%nat);
  if Z.land b0 0xF0 =? MQTT_PUBLISH
  then pkt ← olift (slice (rx_data c) 0 got); dispatch_publish pkt;; mret OVE_OK
  else mret OVE_OK.

End client.

(** ** Remaining Length *)

Lemma cont_byte b : 0 <= b < 128 ->
  Z.land (Z.lor b 0x80) 0x7F = b /\ Z.land (Z.lor b 0x80) 0x80 <> 0 /\
  Z.land b 0x7F = b /\ Z.land b 0x80 = 0.
Proof.
  intros Hb.
  assert (Hall : Forall (fun x => x < 128 -> Z.land (Z.lor x 0x80) 0x7F = x /\
    Z.land (Z.lor x 0x80) 0x80 <> 0 /\ Z.land x 0x7F = x /\ Z.land x 0x80 = 0)
    (Z.of_nat <$> seq 0 256)).
  { repeat (constructor; [by vm_compute|]). constructor. }
  apply (byte_cases _ Hall); unfold is_word; lia.
Qed.

Lemma encode_length_bytes fuel len n :
  0 <= len < 128 ^ (Z.of_nat (S fuel)) ->
  remaining_length_bytes_ (S fuel) len n
  = n - 1 + Z.of_nat (length (encode_remaining_length_ (S fuel) len)).
Proof.
  revert len n. induction fuel as [|fuel IH]; intros len n Hl.
  - change (128 ^ Z.of_nat 1) with 128 in Hl. cbn -[Z.div Z.modulo].
    rewrite (proj2 (Z.leb_gt _ _)) by lia. rewrite Z.div_small by lia. simpl. lia.
  - rewrite Nat2Z.inj_succ, Z.pow_succ_r in Hl by lia.
    remember (S fuel) as f eqn:Hf. cbn [remaining_length_bytes_ encode_remaining_length_].
    destruct (128 <=? len) eqn:H128.
    + rewrite (proj2 (Z.ltb_lt 0 _)) by dlia. cbn [length]. rewrite IH by dlia. lia.
    + rewrite (proj2 (Z.ltb_ge 0 _)) by dlia. cbn [length]. lia.
Qed.

Lemma remaining_length_bytes_spec len :
  0 <= len < 2 ^ 64 -> remaining_length_bytes len = Z.of_nat (length (encode_remaining_length len)).
Proof.
  intros Hl. unfold remaining_length_bytes, encode_remaining_length.
  rewrite encode_length_bytes; [lia|]. assert (2 ^ 64 <= 128 ^ Z.of_nat 10) by done. lia.
Qed.

(** Decoding an encoded length in the middle of a buffer. *)
Lemma decode_loop_encode n fuel pre len rest buflen value mult :
  0 <= len < 128 ^ (Z.of_nat (S n)) -> (S n <= fuel)%nat ->
  (length pre + length (encode_remaining_length_ fuel len) <= buflen)%nat ->
  decode_loop (S n) (pre ++ encode_remaining_length_ fuel len ++ rest) buflen (length pre) value mult
  = Some ((length pre + length (encode_remaining_length_ fuel len))%nat, value + len * mult).
Proof.
  revert fuel pre len value mult. induction n as [|n IH]; intros fuel pre len value mult Hl Hf Hb;
    (destruct fuel as [|fuel]; [lia|]).
  - change (128 ^ Z.of_nat 1) with 128 in Hl. cbn [encode_remaining_length_] in *.
    rewrite (Z.div_small len 128) in * by lia. rewrite (Z.mod_small len 128) in * by lia.
    change (0 <? 0) with false in *. cbn [length] in Hb |- *. cbn [decode_loop].
    rewrite (proj2 (Nat.leb_gt _ _)) by lia. cbn [app]; rewrite list_lookup_middle by done.
    cbn [mbind option_bind]. rewrite wrap_small by (unfold is_word; lia).
    destruct (cont_byte len) as (_ & _ & -> & ->); [lia|]. done.
  - rewrite Nat2Z.inj_succ, Z.pow_succ_r in Hl by lia. cbn [encode_remaining_length_] in *.
    assert (Hm : 0 <= len mod 128 < 128) by (apply Z.mod_pos_bound; lia).
    destruct (cont_byte (len mod 128) Hm) as (H1 & H2 & H3 & H4).
    rewrite (wrap_small 8 (len mod 128)) in * by (unfold is_word; lia).
    remember (S n) as m eqn:Hmn. cbn [decode_loop].
    destruct (0 <? len / 128) eqn:Hd; cbn [length] in Hb |- *;
      rewrite (proj2 (Nat.leb_gt _ _)) by lia; cbn [app]; rewrite list_lookup_middle by done;
      cbn [mbind option_bind].
    + rewrite H1, (proj2 (Z.eqb_neq _ _)) by done.
      specialize (IH fuel (pre ++ [Z.lor (len mod 128) 128]) (len / 128)
                    (value + len mod 128 * mult) (mult * 128)).
      rewrite length_app, <-app_assoc in IH. cbn [length app] in IH. rewrite IH by (dlia || lia).
      f_equal. f_equal; [lia|]. rewrite (Z.div_mod len 128) at 3 by lia. lia.
    + rewrite H3, H4. change (0 =? 0) with true. cbn iota.
      assert (len = len mod 128) as Hlm by (rewrite Z.mod_small; dlia). do 2 f_equal. lia.
Qed.

Lemma decode_encode len rest buflen :
  0 <= len < 2 ^ 28 -> (length (encode_remaining_length len) <= buflen)%nat ->
  decode_remaining_length (encode_remaining_length len ++ rest) buflen
  = Some (length (encode_remaining_length len), len).
Proof.
  intros Hl Hb. unfold decode_remaining_length, encode_remaining_length in *.
  pose proof (decode_loop_encode 3 10 [] len rest buflen 0 1) as Hd. cbn [app length Nat.add] in Hd.
  rewrite Hd; [do 2 f_equal; lia|done|lia|done].
Qed.

Lemma encode_nonempty len : (1 <= length (encode_remaining_length len))%nat.
Proof.
  unfold encode_remaining_length. cbn [encode_remaining_length_].
  destruct (0 <? len / 128); cbn [length]; lia.
Qed.

Lemma encode_bytes fuel len : 0 <= len -> Forall is_byte (encode_remaining_length_ fuel len).
Proof.
  revert len. induction fuel as [|fuel IH]; intros len Hl; simpl; [constructor|].
  assert (Hb : 0 <= u8 (len mod 128) < 128).
  { pose proof (Z.mod_pos_bound len 128). rewrite wrap_small; unfold is_word; lia. }
  assert (Hc : Z.lor (u8 (len mod 128)) 128 = 128 + u8 (len mod 128)).
  { rewrite Z.lor_comm. change 128 with (Z.shiftl 1 7) at 1. by rewrite lor_shiftl_add. }
  destruct (0 <? len / 128).
  - apply Forall_cons. split; [unfold is_word; lia|]. apply IH. by apply Z.div_pos.
  - apply Forall_singleton. unfold is_word. lia.
Qed.

(** The decoder never reads past [buflen], and its value is in range. *)
Lemma decode_loop_total n buf buflen i value mult :
  (buflen <= length buf)%nat -> Forall is_byte buf -> 0 <= value -> 0 <= mult ->
  exists k v, decode_loop n buf buflen i value mult = Some (k, v) /\ 0 <= v /\
    (k = 0%nat \/ i < k <= buflen)%nat.
Proof.
  intros Hl Hb. revert i value mult. induction n as [|n IH]; intros i value mult Hv Hm; simpl.
  { exists 0%nat, value. split_and!; [done|done|by left]. }
  destruct (buflen <=? i)%nat eqn:Hi; [exists 0%nat, value; split_and!; [done|done|by left]|].
  apply Nat.leb_gt in Hi. destruct (lookup_lt_is_Some_2 buf i) as [b Hx]; [lia|]. rewrite Hx. simpl.
  assert (Hp : 0 <= Z.land b 127) by (apply Z.land_nonneg; right; done).
  case_match.
  - exists (i + 1)%nat, (value + Z.land b 127 * mult). split_and!; [done|nia|right; lia].
  - destruct (IH (i + 1)%nat (value + Z.land b 127 * mult) (mult * 128)) as (k & v & -> & Hv' & Hk); [nia|nia|].
    exists k, v. split_and!; [done|done|]. destruct Hk; [by left|right; lia].
Qed.

Lemma get_u16_total buf i :
  (i + 1 < length buf)%nat -> exists v, get_u16 buf i = Some v /\ is_word 16 v.
Proof.
  intros Hi. unfold get_u16.
  destruct (lookup_lt_is_Some_2 buf i) as [a ->]; [lia|].
  destruct (lookup_lt_is_Some_2 buf (i + 1)) as [b ->]; [lia|]. simpl.
  eexists. split; [done|]. by apply wrap_range.
Qed.

Lemma get_put_u16 pre v rest :
  is_word 16 v -> get_u16 (pre ++ put_u16 v ++ rest) (length pre) = Some v.
Proof.
  intros Hv. unfold is_word in Hv. change (2 ^ 16) with 65536 in Hv. unfold get_u16, put_u16. cbn [app].
  rewrite !lookup_app_r, Nat.sub_diag, Nat.add_comm, Nat.add_sub by lia.
  cbn [mbind option_bind lookup list_lookup]. f_equal.
  rewrite (land_ones_mod v 8) by done. rewrite Z.shiftr_div_pow2 by done. change (2 ^ 8) with 256.
  rewrite !(wrap_small 8) by (unfold is_word; change (2 ^ 8) with 256; dlia).
  rewrite lor_shiftl_add by (change (2 ^ 8) with 256; dlia). change (2 ^ 8) with 256.
  rewrite wrap_small by (unfold is_word; change (2 ^ 16) with 65536; dlia). dlia.
Qed.

Lemma slice_total buf i n : (i + n <= length buf)%nat -> slice buf i n = Some (take n (drop i buf)).
Proof. intros Hi. unfold slice. by rewrite (proj2 (Nat.leb_le _ _)). Qed.

Lemma slice_mid pre s rest : slice (pre ++ s ++ rest) (length pre) (length s) = Some s.
Proof.
  rewrite slice_total by (rewrite !length_app; lia).
  by rewrite drop_app_length, take_app_length.
Qed.

Lemma length_put_u16 v : length (put_u16 v) = 2%nat.
Proof. done. Qed.

(** Bytes consumed are bounded by the number of rounds. *)
Lemma decode_loop_le n buf buflen i value mult k v :
  decode_loop n buf buflen i value mult = Some (k, v) -> (k <= i + n)%nat.
Proof.
  revert i value mult. induction n as [|n IH]; intros i value mult He; simpl in He; [simplify_eq; lia|].
  destruct (buflen <=? i)%nat; [simplify_eq; lia|]. destruct (buf !! i) as [b|]; simpl in He; [|done].
  destruct (Z.land b 128 =? 0); [simplify_eq; lia|]. apply IH in He. lia.
Qed.

Lemma remaining_length_bytes_pos len : 1 <= remaining_length_bytes len.
Proof.
  unfold remaining_length_bytes. generalize 1. generalize 10%nat. intros f. revert len.
  induction f as [|f IH]; intros len k; simpl; [lia|]. destruct (128 <=? len); [|lia].
  specialize (IH (len / 128) (k + 1)). lia.
Qed.

Section proofs.
Context {W : Type} {E : NetEnv W} {L : NetLaws W} {cfg : MqttConfig}.
Implicit Types (n : nst W ove_mqtt_client) (c : ove_mqtt_client).

(** The data structure invariant of a client with buffers. *)
Record client_ok c : Prop := {
  ok_rx : Z.of_nat (length (rx_data c)) = rx_size c;
  ok_rx_min : 4 <= rx_size c;
  ok_bytes : Forall is_byte (rx_data c);
  ok_tx : 4 <= tx_size c < 2 ^ 28;
  ok_pid : 0 < pkt_id c < 2 ^ 16;
  ok_subs : length (sub_filters c) = CONFIG_OVE_NET_MQTT_MAX_SUBS;
  ok_count : (sub_count c <= CONFIG_OVE_NET_MQTT_MAX_SUBS)%nat }.

(** The transmission of [d]. *)
Definition sends c (d : list Z) (e : ev) : Prop :=
  exists r k, e = ESend (sock c) d r k \/ e = ETlsSend (tls c) d r k.

(** Transmitted packets fit a buffer of [k] bytes. *)
Definition ev_fits (k : Z) (e : ev) : Prop :=
  match e with ESend _ d _ _ | ETlsSend _ d _ _ => Z.of_nat (length d) <= k | _ => True end.

Lemma wp_mqtt_send d (Q : Z -> nst W ove_mqtt_client -> Prop) n :
  (forall r w e, sends (st n) d e -> Q r (mk_nst w (tr n ++ [e]) (st n))) -> wp (mqtt_send d) Q n.
Proof.
  intros HQ. unfold mqtt_send. wp_steps.
  destruct (CONFIG_OVE_NET_TLS && negb (tls (st n) =? 0)).
  - apply wp_bind, wp_call. intros [r k] w _. apply wp_ret, HQ. exists r, k. by right.
  - apply wp_bind, wp_call. intros [r k] w _. apply wp_ret, HQ. exists r, k. by left.
Qed.

Definition recv_ev (e : ev) : Prop :=
  match e with ERecv _ _ _ _ | ETlsRecv _ _ _ _ => True | _ => False end.

(** Only the receive buffer differs. *)
Definition same_but_rx c c' : Prop := exists d, c' = {| c with rx_data := d |}.

Lemma wp_mqtt_recv len timeout (Q : Z * nat -> nst W ove_mqtt_client -> Prop) n :
  client_ok (st n) -> 0 <= len <= rx_size (st n) ->
  (forall r d w e c', Z.of_nat (length d) <= len -> Forall is_byte d ->
   c' = {| (st n) with rx_data := d ++ drop (length d) (rx_data (st n)) |} ->
   client_ok c' -> recv_ev e -> Q (r, length d) (mk_nst w (tr n ++ [e]) c')) ->
  wp (mqtt_recv len timeout) Q n.
Proof.
  intros Hok Hlen HQ. unfold mqtt_recv. wp_steps.
  assert (Hgo : forall r d w e, Z.of_nat (length d) <= len -> Forall is_byte d -> recv_ev e ->
    Q (r, length d) (mk_nst w (tr n ++ [e])
    {| (st n) with rx_data := d ++ drop (length d) (rx_data (st n)) |})).
  { intros r d w e Hd Hb He. eapply HQ; try done. destruct Hok. split; simpl; try done.
    - rewrite length_app, length_drop. lia.
    - apply Forall_app. split; [done|by apply Forall_drop]. }
  destruct (CONFIG_OVE_NET_TLS && negb (tls (st n) =? 0)).
  - apply wp_call. intros [r d] w He. destruct (tls_recv_len _ _ _ _ _ _ He) as [? ?]; [lia|].
    wp_steps. by apply Hgo.
  - apply wp_call. intros [r d] w He. destruct (recv_len _ _ _ _ _ _ _ He) as [? ?]; [lia|].
    wp_steps. by apply Hgo.
Qed.

(** *** Parsing never leaves the packet *)

Lemma wp_dispatch pkt n (Q : unit -> nst W ove_mqtt_client -> Prop) :
  Forall is_byte pkt ->
  (forall w t, Forall (ev_fits 4) t -> Q tt (mk_nst w (tr n ++ t) (st n))) ->
  wp (dispatch_publish pkt) Q n.
Proof.
  intros Hb HQ. assert (Hret : Q tt n).
  { specialize (HQ (nw n) [] ltac:(constructor)). rewrite app_nil_r in HQ. by destruct n. }
  unfold dispatch_publish. wp_steps. destruct (on_message (st n) =? 0); [done|].
  destruct (length pkt <? 2)%nat eqn:H2; [done|]. apply Nat.ltb_ge in H2.
  destruct (decode_loop_total 4 (drop 1 pkt) (length pkt - 1) 0 0 1) as (rl & rem & Hd & Hrem & Hrl);
    [rewrite length_drop; lia|by apply Forall_drop|lia|lia|].
  apply wp_bind. eapply wp_lift; [exact Hd|]. cbn beta iota.
  destruct (rl =? 0)%nat eqn:Hrl0; [done|]. apply Nat.eqb_neq in Hrl0.
  destruct (length pkt <? 1 + rl)%nat eqn:Hh; cbn [orb]; [done|]. apply Nat.ltb_ge in Hh.
  destruct (Z.of_nat (length pkt - (1 + rl)) <? rem) eqn:Hr; [done|]. apply Z.ltb_ge in Hr.
  set (e := (1 + rl + Z.to_nat rem)%nat). assert (He : (e <= length pkt)%nat) by (unfold e; lia).
  assert (H1e : (1 + rl <= e)%nat) by (unfold e; lia). clearbody e.
  destruct (e - (1 + rl) <? 2)%nat eqn:Ht2; [done|]. apply Nat.ltb_ge in Ht2.
  destruct (get_u16_total pkt (1 + rl)) as (tlen & Htl & Htw); [lia|]. unfold is_word in Htw.
  apply wp_bind. eapply wp_lift; [exact Htl|]. cbn beta iota.
  destruct (Z.of_nat (e - (1 + rl + 2)) <? tlen) eqn:Hte; [done|]. apply Z.ltb_ge in Hte.
  apply wp_bind. eapply wp_lift; [apply slice_total; lia|]. cbn beta iota.
  destruct (lookup_lt_is_Some_2 pkt 0) as [b0 Hb0]; [lia|].
  apply wp_bind. eapply wp_lift; [exact Hb0|]. cbn beta iota.
  set (ptr := (1 + rl + 2 + Z.to_nat tlen)%nat). set (q := Z.land (Z.shiftr b0 1) 3).
  assert (Hptr : (ptr <= e)%nat) by (unfold ptr; lia). clearbody ptr.
  destruct ((1 <=? q) && (e - ptr <? 2)%nat) eqn:Hq2; [done|].
  assert (Hdone : forall w t, Forall (ev_fits 4) t ->
    wp (payload ← olift (slice pkt (if 1 <=? q then (ptr + 2)%nat else ptr)
                 (e - (if 1 <=? q then (ptr + 2)%nat else ptr)));
      c ← stget;
      if mqtt_any_sub_matches c (take (Z.to_nat tlen) (drop (1 + rl + 2) pkt))
      then invoke (CbMqttMessage (on_message c) (take (Z.to_nat tlen) (drop (1 + rl + 2) pkt))
             payload (user_data c))
      else mret tt) Q (mk_nst w (tr n ++ t) (st n))).
  { intros w t Hf. apply wp_bind.
    eapply wp_lift; [apply slice_total|].
    { destruct (1 <=? q); cbn [andb] in Hq2; [apply Nat.ltb_ge in Hq2|]; lia. }
    wp_steps. case_match; wp_steps; [|by apply HQ].
    rewrite <-app_assoc. apply HQ, Forall_app. split; [done|by repeat constructor]. }
  apply wp_bind. destruct (1 <=? q) eqn:Hq.
  - cbn [andb] in Hq2. apply Nat.ltb_ge in Hq2.
    destruct (get_u16_total pkt ptr) as (pid & Hpid & _); [lia|].
    apply wp_bind. eapply wp_lift; [exact Hpid|]. cbn beta iota.
    destruct (q =? 1).
    + apply wp_bind, wp_mqtt_send. intros r w ev Hs. apply wp_ret, Hdone.
      destruct Hs as (r' & k & [->| ->]); by repeat constructor.
    + apply wp_ret. specialize (Hdone (nw n) [] ltac:(constructor)). rewrite app_nil_r in Hdone. by destruct n.
  - apply wp_ret. specialize (Hdone (nw n) [] ltac:(constructor)). rewrite app_nil_r in Hdone. by destruct n.
Qed.

(** Where the parser finds the fields of a PUBLISH packet. *)
Record publish_fields (pkt topic payload : list Z) (rem idl pid : Z) (k : nat) : Prop := {
  pf_rem : 0 <= rem /\ rem = 2 + Z.of_nat (length topic) + idl + Z.of_nat (length payload);
  pf_k : (1 <= k)%nat;
  pf_len : length pkt = (1 + k + Z.to_nat rem)%nat;
  pf_dec : decode_remaining_length (drop 1 pkt) (length pkt - 1) = Some (k, rem);
  pf_tlen : get_u16 pkt (1 + k) = Some (Z.of_nat (length topic));
  pf_topic : slice pkt (1 + k + 2) (length topic) = Some topic;
  pf_pid : idl = 2 -> get_u16 pkt (1 + k + 2 + length topic) = Some pid;
  pf_payload : slice pkt (1 + k + 2 + length topic + Z.to_nat idl) (length payload) = Some payload }.

Lemma publish_packet_fields topic payload qos pid :
  Z.of_nat (length topic) <= 0xFFFF -> is_word 16 pid ->
  remaining_publish topic (Z.of_nat (length payload)) qos < 2 ^ 28 ->
  publish_fields (publish_packet topic payload (Z.of_nat (length payload)) qos pid) topic payload
    (remaining_publish topic (Z.of_nat (length payload)) qos) (if qos =? OVE_MQTT_QOS1 then 2 else 0) pid
    (length (encode_remaining_length (remaining_publish topic (Z.of_nat (length payload)) qos))).
Proof.
  intros Htl Hpid Hrem. unfold publish_packet. set (rem := remaining_publish _ _ _) in *.
  set (b0 := if qos =? OVE_MQTT_QOS1 then _ else _). set (enc := encode_remaining_length rem).
  set (idb := if qos =? OVE_MQTT_QOS1 then put_u16 pid else []). set (idl := if qos =? OVE_MQTT_QOS1 then 2 else 0).
  assert (Hidb : Z.of_nat (length idb) = idl) by (unfold idb, idl; by destruct (qos =? OVE_MQTT_QOS1)).
  assert (Hr : rem = 2 + Z.of_nat (length topic) + idl + Z.of_nat (length payload))
    by (unfold rem, remaining_publish; fold idl; lia).
  pose proof (encode_nonempty rem) as Henc. fold enc in Henc.
  assert (Hpkt : [b0] ++ enc ++ field topic ++ idb ++ payload
                 = (b0 :: enc) ++ put_u16 (Z.of_nat (length topic)) ++ topic ++ idb ++ payload)
    by (unfold field; cbn [app]; by rewrite <-!app_assoc).
  assert (Hlen : length ([b0] ++ enc ++ field topic ++ idb ++ payload) = (1 + length enc + Z.to_nat rem)%nat).
  { unfold field. rewrite (length_app [b0]), !length_app, length_put_u16. cbn [length]. lia. }
  split; [lia|done|done| | | | |].
  - rewrite Hlen. cbn [app drop]. apply decode_encode; [lia|]. fold enc. lia.
  - rewrite Hpkt. apply (get_put_u16 (b0 :: enc)). unfold is_word. lia.
  - rewrite Hpkt, app_assoc. replace (1 + length enc + 2)%nat with (length ((b0 :: enc) ++ put_u16 (Z.of_nat (length topic)))).
    + apply slice_mid.
    + rewrite length_app, length_put_u16. done.
  - intros Hi. assert (idb = put_u16 pid) as -> by (unfold idb, idl in *; by destruct (qos =? OVE_MQTT_QOS1)).
    rewrite Hpkt, app_assoc, app_assoc.
    replace (1 + length enc + 2 + length topic)%nat
      with (length (((b0 :: enc) ++ put_u16 (Z.of_nat (length topic))) ++ topic)).
    + by apply get_put_u16.
    + rewrite !length_app, length_put_u16. done.
  - rewrite Hpkt, app_assoc, app_assoc, app_assoc, <-(app_nil_r payload) at 1.
    replace (1 + length enc + 2 + length topic + Z.to_nat idl)%nat
      with (length ((((b0 :: enc) ++ put_u16 (Z.of_nat (length topic))) ++ topic) ++ idb)).
    + apply slice_mid.
    + rewrite !length_app, length_put_u16. cbn [length]. lia.
Qed.

(** A well-formed PUBLISH reaches the callback with its topic and payload. *)
Lemma dispatch_publish_packet topic payload qos pid n :
  on_message (st n) <> 0 -> Z.of_nat (length topic) <= 0xFFFF -> qos = OVE_MQTT_QOS0 \/ qos = OVE_MQTT_QOS1 ->
  remaining_publish topic (Z.of_nat (length payload)) qos < 2 ^ 28 -> is_word 16 pid ->
  mqtt_any_sub_matches (st n) topic = true ->
  wp (dispatch_publish (publish_packet topic payload (Z.of_nat (length payload)) qos pid))
  (fun _ n1 => st n1 = st n /\ exists acks,
     tr n1 = tr n ++ acks ++ [ECallback (CbMqttMessage (on_message (st n)) topic payload (user_data (st n)))] /\
     (qos = OVE_MQTT_QOS0 -> acks = []) /\
     (qos = OVE_MQTT_QOS1 -> exists e, acks = [e] /\ sends (st n) ([MQTT_PUBACK; 0x02] ++ put_u16 pid) e)) n.
Proof.
  intros Hcb Htl Hqos Hrem Hpid Hsub. pose proof (publish_packet_fields topic payload qos pid Htl Hpid Hrem) as Hpf.
  assert (Hb0 : publish_packet topic payload (Z.of_nat (length payload)) qos pid !! 0%nat
    = Some (if qos =? OVE_MQTT_QOS1 then Z.lor MQTT_PUBLISH 2 else MQTT_PUBLISH)) by done.
  set (pkt := publish_packet _ _ _ _ _) in *. set (rem := remaining_publish _ _ _) in *.
  set (k := length (encode_remaining_length rem)) in *. destruct Hpf as [[Hr0 Hr] Hk Hlen Hdec Hu Hsl Hid Hpay].
  assert (0 <= (if qos =? OVE_MQTT_QOS1 then 2 else 0)) as Hidl by (by case_match).
  unfold dispatch_publish. wp_steps. rewrite (proj2 (Z.eqb_neq _ _) Hcb).
  rewrite (proj2 (Nat.ltb_ge (length pkt) 2)) by lia.
  apply wp_bind. eapply wp_lift; [exact Hdec|]. cbn beta iota.
  rewrite (proj2 (Nat.eqb_neq _ _)) by lia. rewrite (proj2 (Nat.ltb_ge _ _)) by lia.
  rewrite (proj2 (Z.ltb_ge _ _)) by lia. cbn [orb].
  rewrite (proj2 (Nat.ltb_ge (1 + k + Z.to_nat rem - (1 + k)) 2)) by lia.
  apply wp_bind. eapply wp_lift; [exact Hu|]. cbn beta iota.
  rewrite (proj2 (Z.ltb_ge _ _)) by lia. rewrite Nat2Z.id.
  apply wp_bind. eapply wp_lift; [exact Hsl|]. cbn beta iota.
  apply wp_bind. eapply wp_lift; [exact Hb0|]. cbn beta iota.
  destruct Hqos as [-> | ->]; [change (OVE_MQTT_QOS0 =? OVE_MQTT_QOS1) with false in *|change (OVE_MQTT_QOS1 =? OVE_MQTT_QOS1) with true in *];
    cbn iota in *; [change (Z.to_nat 0) with 0%nat in *|change (Z.to_nat 2) with 2%nat in *].
  - change (1 <=? Z.land (Z.shiftr MQTT_PUBLISH 1) 3) with false. cbn [andb].
    apply wp_bind, wp_ret, wp_bind.
    eapply wp_lift; [rewrite <-Hpay; f_equal; lia|].
    wp_steps. rewrite Hsub. wp_steps. split; [done|]. exists []. by split_and!.
  - change (1 <=? Z.land (Z.shiftr (Z.lor MQTT_PUBLISH 2) 1) 3) with true. cbn [andb].
    rewrite (proj2 (Nat.ltb_ge _ 2)) by lia.
    apply wp_bind, wp_bind. eapply wp_lift; [by apply Hid|]. cbn beta iota.
    change (Z.land (Z.shiftr (Z.lor MQTT_PUBLISH 2) 1) 3 =? 1) with true. cbn iota.
    apply wp_bind, wp_mqtt_send. intros r w e Hs. apply wp_ret, wp_bind.
    eapply wp_lift; [rewrite <-Hpay; f_equal; lia|].
    wp_steps. rewrite Hsub. wp_steps. split; [done|]. exists [e].
    split_and!; [by rewrite <-app_assoc|done|]. intros _. by exists e.
Qed.

(** *** Waiting for a packet *)

Lemma packet_len_total buf buflen :
  (buflen <= length buf)%nat -> Forall is_byte buf ->
  exists k, mqtt_packet_len buf buflen = Some k /\ (k <= buflen)%nat.
Proof.
  intros Hl Hb. unfold mqtt_packet_len. destruct (buflen <? 2)%nat eqn:H2; [exists 0%nat; split; [done|lia]|].
  apply Nat.ltb_ge in H2.
  destruct (decode_loop_total 4 (drop 1 buf) (buflen - 1) 0 0 1) as (k & v & Hd & _);
    [rewrite length_drop; lia|by apply Forall_drop|lia|lia|].
  unfold decode_remaining_length. rewrite Hd. cbn [mbind option_bind].
  destruct (1 + k <=? 1)%nat; [exists 0%nat; split; [done|lia]|].
  eexists. split; [done|]. destruct (_ <=? buflen)%nat eqn:Hx; [by apply Nat.leb_le in Hx|lia].
Qed.

Lemma wp_scan fuel expected got offset n (Q : bool -> nst W ove_mqtt_client -> Prop) :
  client_ok (st n) -> (got <= length (rx_data (st n)))%nat -> (offset <= got)%nat ->
  (got - offset < fuel)%nat ->
  (forall b w t, Forall (ev_fits 4) t -> Q b (mk_nst w (tr n ++ t) (st n))) ->
  wp (scan_packets fuel expected got offset) Q n.
Proof.
  revert offset n. induction fuel as [|fuel IH]; intros offset n Hok Hg Ho Hf HQ; [lia|].
  assert (Hret : forall b, Q b n).
  { intros b. specialize (HQ b (nw n) [] ltac:(constructor)). rewrite app_nil_r in HQ. by destruct n. }
  cbn [scan_packets]. destruct (offset <? got)%nat eqn:Hlt; cbn [negb]; [|apply Hret].
  apply Nat.ltb_lt in Hlt. wp_steps. set (buf := drop offset (rx_data (st n))).
  assert (Hbuf : (got - offset <= length buf)%nat) by (unfold buf; rewrite length_drop; lia).
  assert (Hbb : Forall is_byte buf) by (apply Forall_drop, ok_bytes, Hok).
  destruct (packet_len_total buf (got - offset) Hbuf Hbb) as (k & Hk & Hkl).
  eapply wp_lift; [exact Hk|]. cbn beta iota. destruct (k =? 0)%nat eqn:Hk0; [apply Hret|].
  apply Nat.eqb_neq in Hk0. destruct (lookup_lt_is_Some_2 buf 0) as [b0 Hb0]; [lia|].
  apply wp_bind. eapply wp_lift; [exact Hb0|]. cbn beta iota.
  destruct (_ =? expected); [apply Hret|]. apply wp_bind.
  destruct (_ =? MQTT_PUBLISH).
  - apply wp_bind. eapply wp_lift; [apply slice_total; lia|]. cbn beta iota.
    apply wp_dispatch; [apply Forall_take, Forall_drop; exact Hbb|]. intros w t Ht.
    apply IH; cbn [st]; [done|done|lia|lia|]. intros b w' t' Ht'. cbn [tr st]. rewrite <-app_assoc.
    apply HQ. by apply Forall_app.
  - apply wp_ret, IH; [done|done|lia|lia|done].
Qed.

Lemma wp_wait k expected timeout n (Q : Z -> nst W ove_mqtt_client -> Prop) :
  client_ok (st n) ->
  (forall r w t c', same_but_rx (st n) c' -> client_ok c' -> Forall (ev_fits 4) t ->
   Q r (mk_nst w (tr n ++ t) c')) ->
  wp (wait_attempts k expected timeout) Q n.
Proof.
  revert n. induction k as [|k IH]; intros n Hok HQ.
  { specialize (HQ OVE_ERR_TIMEOUT (nw n) [] (st n)). rewrite app_nil_r in HQ.
    apply wp_ret. destruct n as [w t c]. apply HQ; [exists (rx_data c); by destruct c|done|constructor]. }
  cbn [wait_attempts]. wp_steps. pose proof (ok_rx_min _ Hok).
  apply wp_mqtt_recv; [done|lia|]. intros r d w e c' Hd Hb Hc' Hok' He. cbn beta iota.
  assert (Hsame : same_but_rx (st n) c') by (eexists; exact Hc').
  assert (Hfit : Forall (ev_fits 4) [e]).
  { constructor; [|constructor]. by destruct e. }
  assert (Hagain : wp (wait_attempts k expected timeout) Q (mk_nst w (tr n ++ [e]) c')).
  { apply IH; [done|]. cbn [tr st]. intros r' w' t c2 [d2 Hd2] Hok2 Ht2. rewrite <-app_assoc.
    apply HQ; [|done|by apply Forall_app]. rewrite Hd2, Hc'. by eexists. }
  destruct (r =? OVE_ERR_TIMEOUT); [done|]. destruct (negb (r =? OVE_OK)); [by apply wp_ret, HQ|].
  destruct (length d =? 0)%nat; [done|]. apply wp_bind.
  assert (Hlen : (length d <= length (rx_data c'))%nat) by (rewrite Hc'; simpl; rewrite length_app; lia).
  apply wp_scan; cbn [st]; [done|done|lia|lia|]. intros b w' t Ht. cbn [tr].
  rewrite <-app_assoc. destruct b.
  - apply wp_ret, HQ; [done|done|by apply Forall_app].
  - apply IH; [done|]. cbn [tr st]. intros r' w2 t2 c2 [d2 Hd2] Hok2 Ht2. rewrite <-app_assoc.
    apply HQ; [rewrite Hd2, Hc'; by eexists|done|]. by apply Forall_app; split; [apply Forall_app|].
Qed.

(** *** The client API *)

Lemma wp_take_pkt_id n (Q : Z -> nst W ove_mqtt_client -> Prop) :
  client_ok (st n) ->
  (forall p, 0 < p < 2 ^ 16 -> client_ok {| (st n) with pkt_id := p |} ->
   Q (pkt_id (st n)) (mk_nst (nw n) (tr n) {| (st n) with pkt_id := p |})) ->
  wp take_pkt_id Q n.
Proof.
  intros Hok HQ. unfold take_pkt_id. wp_steps.
  pose proof (wrap_range 16 (pkt_id (st n) + 1) ltac:(lia)) as Hw. unfold is_word in Hw.
  apply HQ.
  - destruct (_ =? 0) eqn:Hz; lia.
  - destruct Hok. split; simpl; try done. destruct (_ =? 0) eqn:Hz; lia.
Qed.

Lemma length_field s : length (field s) = (2 + length s)%nat.
Proof. done. Qed.

(** A packet assembled after the size check fits the transmit buffer. *)
Lemma frame_fits c hd body rem :
  mqtt_tx_frame_fits c rem = true -> 0 <= rem < 2 ^ 64 -> Z.of_nat (length body) <= rem ->
  Z.of_nat (length ([hd] ++ encode_remaining_length rem ++ body)) <= tx_size c.
Proof.
  unfold mqtt_tx_frame_fits. intros Hf Hr Hb. apply Z.leb_le in Hf.
  rewrite remaining_length_bytes_spec in Hf by done. rewrite !length_app. cbn [length]. lia.
Qed.

Definition op_fits c (d : list Z) : Prop := Z.of_nat (length d) <= tx_size c.

Lemma sends_fits c d k e : sends c d e -> Z.of_nat (length d) <= k -> ev_fits k e.
Proof. by intros (r & m & [->| ->]). Qed.

Lemma fits_mono k k' t : k <= k' -> Forall (ev_fits k) t -> Forall (ev_fits k') t.
Proof.
  intros Hk Hf. eapply Forall_impl; [done|]. intros e. destruct e; simpl; try done; lia.
Qed.

(** Calls into the client. *)
Inductive mqtt_op :=
  | MPublish (topic : option (list Z)) (payload : option (list Z)) (payload_len qos : Z)
  | MSubscribe (topic : option (list Z)) (qos : Z)
  | MUnsubscribe (topic : option (list Z))
  | MLoop (timeout_ns : Z)
  | MDisconnect.

Definition mqtt_exec (op : mqtt_op) : MO (nst W ove_mqtt_client) Z :=
  match op with
  | MPublish t p l q => ove_mqtt_publish true t p l q
  | MSubscribe t q => ove_mqtt_subscribe true t q
  | MUnsubscribe t => ove_mqtt_unsubscribe true t
  | MLoop ns => ove_mqtt_loop true ns
  | MDisconnect => ove_mqtt_disconnect true;; mret OVE_OK
  end.

(** The payload buffer has the stated size. *)
Definition mqtt_pre (op : mqtt_op) : Prop :=
  match op with
  | MPublish _ p l _ => 0 <= l /\ forall b, p = Some b -> l <= Z.of_nat (length b)
  | _ => True
  end.

(** What every call guarantees. *)
Definition call_post n (n1 : nst W ove_mqtt_client) : Prop :=
  client_ok (st n1) /\ exists t, tr n1 = tr n ++ t /\ Forall (ev_fits (tx_size (st n))) t.

Lemma call_post_refl n : client_ok (st n) -> call_post n n.
Proof. intros Hok. split; [done|]. exists []. by rewrite app_nil_r. Qed.

Lemma call_post_step n n1 w t c' :
  call_post n n1 -> tx_size (st n1) = tx_size (st n) -> client_ok c' -> Forall (ev_fits 4) t ->
  client_ok (st n) -> call_post n (mk_nst w (tr n1 ++ t) c').
Proof.
  intros (_ & t0 & Ht0 & Hf) Htx Hc Ht Hok. split; [done|]. exists (t0 ++ t). cbn [tr].
  rewrite Ht0, <-app_assoc. split; [done|]. apply Forall_app. split; [done|].
  eapply fits_mono; [|done]. apply ok_tx in Hok. lia.
Qed.

Lemma publish_safe n topic payload l qos :
  client_ok (st n) -> mqtt_pre (MPublish topic payload l qos) ->
  wp (ove_mqtt_publish true topic payload l qos) (fun _ => call_post n) n.
Proof.
  intros Hok [Hl Hp]. pose proof (call_post_refl _ Hok) as Hrefl. unfold ove_mqtt_publish. wp_steps.
  destruct topic as [topic|]; [|done]. cbn [negb orb]. destruct (connected (st n)); cbn [negb]; [|done].
  destruct (0xFFFF <? Z.of_nat (length topic)) eqn:Htl; [done|]. apply Z.ltb_ge in Htl.
  destruct (tx_size (st n) <? l) eqn:Hls; [done|]. apply Z.ltb_ge in Hls.
  destruct (mqtt_tx_frame_fits _ _) eqn:Hfit; cbn [negb]; [|done].
  pose proof (ok_tx _ Hok) as Htx.
  assert (Hgo : forall pid c, client_ok c -> tx_size c = tx_size (st n) ->
    wp (body ← (if payload is Some p
          then if 0 <? l then olift (slice p 0 (Z.to_nat l)) else mret []
          else mret []);
      ret ← mqtt_send (publish_packet topic body l qos pid);
      if negb (ret =? OVE_OK) then mret ret else
      if qos =? OVE_MQTT_QOS1 then mqtt_wait_for MQTT_PUBACK (OVE_MS 5000) else mret OVE_OK)
    (fun _ => call_post n) (mk_nst (nw n) (tr n) c)).
  { intros pid c Hc Htxc. apply wp_bind.
    assert (Hbody : wp (if payload is Some p
            then if 0 <? l then olift (slice p 0 (Z.to_nat l)) else mret []
            else mret []) (fun body n1 => n1 = mk_nst (nw n) (tr n) c /\ Z.of_nat (length body) <= l)
            (mk_nst (nw n) (tr n) c)).
    { destruct payload as [p|]; [|by split]. specialize (Hp p eq_refl). destruct (0 <? l); [|by split].
      eapply wp_lift; [apply slice_total; lia|]. split; [done|]. rewrite length_take, length_drop. lia. }
    eapply wp_mono; [exact Hbody|]. intros body n1 [-> Hlen]. apply wp_bind, wp_mqtt_send.
    intros r w e Hs. cbn [st tr] in *.
    assert (Hpost : call_post n (mk_nst w (tr n ++ [e]) c)).
    { split; [done|]. exists [e]. split; [done|]. constructor; [|constructor].
      eapply sends_fits; [exact Hs|]. unfold publish_packet. apply frame_fits; [done|..];
        unfold remaining_publish; [destruct (qos =? OVE_MQTT_QOS1); lia|].
      rewrite !length_app, length_field. destruct (qos =? OVE_MQTT_QOS1); cbn [length put_u16]; lia. }
    destruct (negb _); [done|]. destruct (qos =? OVE_MQTT_QOS1); [|done].
    apply wp_wait; [done|]. intros r' w' t c' [d ->] Hc' Ht. apply call_post_step; done. }
  apply wp_bind. destruct (qos =? OVE_MQTT_QOS1).
  - apply wp_take_pkt_id; [done|]. intros p Hp' Hc. by apply Hgo.
  - apply wp_ret. specialize (Hgo 0 (st n) Hok eq_refl). by destruct n.
Qed.

(** The live subscription filters, oldest first. *)
Definition subs_of c : list (list Z) := take (sub_count c) (sub_filters c).

Definition subs_add (topic : list Z) (l : list (list Z)) : list (list Z) :=
  if (length l <? CONFIG_OVE_NET_MQTT_MAX_SUBS)%nat then l ++ [strncpy63 topic] else l.

(** Without the first entry that agrees with [topic] on 63 characters. *)
Definition subs_remove (topic : list Z) (l : list (list Z)) : list (list Z) :=
  match find_idx (fun f => strncmp63 f topic) l with Some i => delete i l | None => l end.

Lemma length_subs_of c : client_ok c -> length (subs_of c) = sub_count c.
Proof. intros []. unfold subs_of. rewrite length_take. lia. Qed.

Lemma add_filter_spec c topic :
  client_ok c ->
  let c' := if (sub_count c <? CONFIG_OVE_NET_MQTT_MAX_SUBS)%nat
          then {| c with sub_filters := aset (sub_filters c) (sub_count c) (strncpy63 topic);
                  sub_count := S (sub_count c) |}
          else c in
  client_ok c' /\ tx_size c' = tx_size c /\ subs_of c' = subs_add topic (subs_of c).
Proof.
  intros Hok. pose proof (length_subs_of _ Hok) as Hlen. unfold subs_add. rewrite Hlen.
  destruct (sub_count c <? _)%nat eqn:Hlt; [|done]. apply Nat.ltb_lt in Hlt. destruct Hok.
  split; [split; simpl; try done|split; [done|]].
  - by rewrite length_aset.
  - unfold subs_of, aset. simpl. rewrite (take_S_r _ _ (strncpy63 topic)).
    + by rewrite take_insert_ge.
    + rewrite list_lookup_insert_eq; [done|lia].
Qed.

Lemma remove_filter_spec c topic :
  client_ok c ->
  client_ok (remove_filter topic c) /\ tx_size (remove_filter topic c) = tx_size c /\
  subs_of (remove_filter topic c) = subs_remove topic (subs_of c).
Proof.
  intros Hok. pose proof (length_subs_of _ Hok) as Hlen. unfold remove_filter, subs_remove. fold (subs_of c).
  destruct (find_idx _ (subs_of c)) as [i|] eqn:Hi; [|done]. apply find_idx_lt in Hi. destruct Hok.
  split; [split; simpl; try done|split; [done|]].
  - by rewrite shift_down_length.
  - lia.
  - unfold subs_of. simpl. apply shift_down_take; lia.
Qed.

Lemma subscribe_spec n topic qos :
  client_ok (st n) ->
  wp (ove_mqtt_subscribe true (Some topic) qos) (fun r n1 => call_post n n1 /\
  subs_of (st n1) = if r =? OVE_OK then subs_add topic (subs_of (st n)) else subs_of (st n)) n.
Proof.
  intros Hok. pose proof (call_post_refl _ Hok) as Hrefl. unfold ove_mqtt_subscribe. wp_steps.
  cbn [negb orb]. destruct (connected (st n)); cbn [negb]; [|done].
  destruct (0xFFFF <? Z.of_nat (length topic)) eqn:Htl; [done|]. apply Z.ltb_ge in Htl.
  destruct (mqtt_tx_frame_fits _ _) eqn:Hfit; cbn [negb]; [|done].
  apply wp_bind, wp_take_pkt_id; [done|]. intros p Hp Hc. apply wp_bind, wp_mqtt_send.
  intros r w e Hs. cbn [st tr] in *.
  assert (Hpost : call_post n (mk_nst w (tr n ++ [e]) {| (st n) with pkt_id := p |})).
  { split; [done|]. exists [e]. split; [done|]. constructor; [|constructor].
    eapply sends_fits; [exact Hs|]. unfold subscribe_packet. apply frame_fits; [done|lia|].
    rewrite !length_app, length_field. cbn [length put_u16]. lia. }
  destruct (r =? OVE_OK) eqn:Hr; cbn [negb]; [|wp_steps; by rewrite Hr].
  apply wp_bind, wp_wait; [done|]. intros r' w' t c' [d ->] Hc' Ht.
  pose proof (call_post_step _ _ w' t _ Hpost eq_refl Hc' Ht Hok) as Hpost'.
  destruct (r' =? OVE_OK) eqn:Hr'; cbn [negb]; [|wp_steps; by rewrite Hr'].
  wp_steps. rewrite Z.eqb_refl. destruct (add_filter_spec _ topic Hc') as (Ha & _ & Hb).
  split; [|exact Hb]. destruct Hpost' as (_ & t' & Ht' & Hf). split; [exact Ha|]. by exists t'.
Qed.

Lemma unsubscribe_spec n topic :
  client_ok (st n) ->
  wp (ove_mqtt_unsubscribe true (Some topic)) (fun r n1 => call_post n n1 /\
  subs_of (st n1) = if r =? OVE_OK then subs_remove topic (subs_of (st n)) else subs_of (st n)) n.
Proof.
  intros Hok. pose proof (call_post_refl _ Hok) as Hrefl. unfold ove_mqtt_unsubscribe. wp_steps.
  cbn [negb orb]. destruct (connected (st n)); cbn [negb]; [|done].
  destruct (0xFFFF <? Z.of_nat (length topic)) eqn:Htl; [done|]. apply Z.ltb_ge in Htl.
  destruct (mqtt_tx_frame_fits _ _) eqn:Hfit; cbn [negb]; [|done].
  apply wp_bind, wp_take_pkt_id; [done|]. intros p Hp Hc. apply wp_bind, wp_mqtt_send.
  intros r w e Hs. cbn [st tr] in *.
  assert (Hpost : call_post n (mk_nst w (tr n ++ [e]) {| (st n) with pkt_id := p |})).
  { split; [done|]. exists [e]. split; [done|]. constructor; [|constructor].
    eapply sends_fits; [exact Hs|]. unfold unsubscribe_packet. apply frame_fits; [done|lia|].
    rewrite !length_app, length_field. cbn [length put_u16]. lia. }
  destruct (r =? OVE_OK) eqn:Hr; cbn [negb]; [|wp_steps; by rewrite Hr].
  apply wp_bind, wp_wait; [done|]. intros r' w' t c' [d ->] Hc' Ht.
  pose proof (call_post_step _ _ w' t _ Hpost eq_refl Hc' Ht Hok) as Hpost'.
  destruct (r' =? OVE_OK) eqn:Hr'; cbn [negb]; [|wp_steps; by rewrite Hr'].
  wp_steps. rewrite Z.eqb_refl. destruct (remove_filter_spec _ topic Hc') as (Ha & _ & Hb).
  split; [|exact Hb]. destruct Hpost' as (_ & t' & Ht' & Hf). split; [exact Ha|]. by exists t'.
Qed.

Lemma loop_safe n ns : client_ok (st n) -> wp (ove_mqtt_loop true ns) (fun _ => call_post n) n.
Proof.
  intros Hok. pose proof (call_post_refl _ Hok) as Hrefl. pose proof (ok_tx _ Hok) as Htx.
  pose proof (ok_rx_min _ Hok). unfold ove_mqtt_loop. wp_steps. cbn [negb orb].
  destruct (connected (st n)); cbn [negb]; [|done].
  apply wp_bind, wp_mqtt_recv; [done|lia|]. intros r d w e c' Hd Hb Hc' Hok' He. cbn beta iota.
  assert (Htx' : tx_size c' = tx_size (st n)) by (by rewrite Hc').
  assert (Hpost : call_post n (mk_nst w (tr n ++ [e]) c')).
  { split; [done|]. exists [e]. split; [done|]. constructor; [by destruct e|constructor]. }
  destruct (r =? OVE_ERR_TIMEOUT).
  { apply wp_mqtt_send. intros r' w' e' Hs. cbn [tr st].
    apply (call_post_step n (mk_nst w (tr n ++ [e]) c')); try done.
    constructor; [|constructor]. by eapply sends_fits. }
  destruct (negb (r =? OVE_OK)); [done|]. wp_steps.
  pose proof (ok_rx _ Hok') as Hrx. pose proof (ok_rx_min _ Hok').
  destruct (lookup_lt_is_Some_2 (rx_data c') 0) as [b0 Hb0]; [lia|].
  eapply wp_lift; [exact Hb0|]. cbn beta iota. destruct (_ =? MQTT_PUBLISH); [|done].
  apply wp_bind. eapply wp_lift; [apply slice_total; rewrite Hc'; simpl; rewrite length_app; lia|].
  cbn beta iota. apply wp_bind, wp_dispatch; [apply Forall_take, Forall_drop, ok_bytes, Hok'|].
  intros w' t Ht. wp_steps. apply (call_post_step n (mk_nst w (tr n ++ [e]) c')); done.
Qed.

Lemma disconnect_safe n : client_ok (st n) -> wp (ove_mqtt_disconnect true) (fun _ => call_post n) n.
Proof.
  intros Hok. pose proof (call_post_refl _ Hok) as Hrefl. pose proof (ok_tx _ Hok) as Htx.
  unfold ove_mqtt_disconnect. wp_steps. cbn [negb orb]. destruct (connected (st n)); cbn [negb]; [|done].
  apply wp_bind, wp_mqtt_send. intros r w e Hs. wp_steps.
  assert (Hfe : ev_fits (tx_size (st n)) e) by (eapply sends_fits; [exact Hs|simpl; lia]).
  destruct (CONFIG_OVE_NET_TLS && negb (tls (st n) =? 0)); wp_steps.
  - split; [by destruct Hok|]. exists ([e] ++ [ETlsClose (tls (st n))] ++ [ETlsDeinit (tls (st n))]
      ++ [EClose (sock (st n))]). cbn [tr]. rewrite <-!app_assoc. split; [done|]. by repeat constructor.
  - split; [by destruct Hok|]. exists ([e] ++ [EClose (sock (st n))]). cbn [tr].
    rewrite <-!app_assoc. split; [done|]. by repeat constructor.
Qed.

(** *** Connecting *)

Definition creds_fit (k : ove_mqtt_config) : bool :=
  (opt_len (cfg_client_id k) <=? 0xFFFF) && (opt_len (cfg_username k) <=? 0xFFFF)
  && (opt_len (cfg_password k) <=? 0xFFFF).

(** The sockets and TLS sessions acquired and not released by a trace. *)
Definition drop_handle (x : Z) (l : list Z) : list Z := filter (fun y => y <> x) l.
Definition res_step (a : list Z * list Z) (e : ev) : list Z * list Z :=
  match e with
  | EOpen r s => if r =? OVE_OK then (s :: a.1, a.2) else a
  | EClose s => (drop_handle s a.1, a.2)
  | ETlsInit r t => if r =? OVE_OK then (a.1, t :: a.2) else a
  | ETlsDeinit t => (a.1, drop_handle t a.2)
  | _ => a
  end.
Definition holdings (t : list ev) : list Z * list Z := foldl res_step ([], []) t.

Lemma holdings_snoc t e : holdings (t ++ [e]) = res_step (holdings t) e.
Proof. unfold holdings. by rewrite foldl_app. Qed.

Lemma drop_handle_one x : drop_handle x [x] = [].
Proof. unfold drop_handle. by rewrite filter_cons_False by (by intros []). Qed.

(** The session handle the client keeps, if any. *)
Definition tls_held c : list Z := if CONFIG_OVE_NET_TLS && negb (tls c =? 0) then [tls c] else [].

(** After connecting: exactly the client's socket and session are held, or
    nothing is. *)
Definition connect_post n (r : Z) (n1 : nst W ove_mqtt_client) : Prop :=
  exists t, tr n1 = tr n ++ t /\
  if r =? OVE_OK
  then client_ok (st n1) /\ connected (st n1) = true /\ holdings t = ([sock (st n1)], tls_held (st n1))
  else holdings t = ([], []).

Lemma connect_post_fail n r n1 t :
  r <> OVE_OK -> tr n1 = tr n ++ t -> holdings t = ([], []) -> connect_post n r n1.
Proof. intros Hr Ht Hh. exists t. by rewrite (proj2 (Z.eqb_neq _ _) Hr). Qed.

(** The buffers, as every later stage finds them. *)
Definition bufs_ok c : Prop :=
  Z.of_nat (length (rx_data c)) = rx_size c /\ Forall is_byte (rx_data c) /\
  rx_size c = CONFIG_OVE_NET_MQTT_RX_BUF /\ tx_size c = CONFIG_OVE_NET_MQTT_TX_BUF.

Lemma replicate_bytes k : Forall is_byte (replicate k 0).
Proof. by apply Forall_replicate. Qed.

Lemma wp_connect_buffers n (Q : Z -> nst W ove_mqtt_client -> Prop) :
  Forall is_byte (rx_data (st n)) ->
  (forall r w t c', bufs_ok c' -> tls c' = tls (st n) -> sub_filters c' = sub_filters (st n) ->
   sub_count c' = sub_count (st n) -> holdings t = ([], []) -> Q r (mk_nst w (tr n ++ t) c')) ->
  wp connect_buffers Q n.
Proof.
  intros Hb HQ. pose proof mqtt_buf_sizes as [Hrx Htx]. unfold connect_buffers. destruct CONFIG_OVE_ZERO_HEAP.
  - wp_steps. rewrite <-(app_nil_r (tr n)). apply HQ; simpl; try done.
    destruct (length (rx_data (st n)) =? _)%nat eqn:He; split_and!; simpl; try done.
    + apply Nat.eqb_eq in He. lia.
    + rewrite length_replicate. lia.
    + apply replicate_bytes.
  - wp_steps. apply wp_call. intros p w1 _. apply wp_bind, wp_call. intros q w2 _. wp_steps.
    rewrite <-app_assoc. apply HQ; simpl; try done.
    split_and!; simpl; try done; [rewrite length_replicate; lia|apply replicate_bytes].
Qed.

(** Leaving through [fail:] gives everything back. *)
Lemma wp_connect_fail n0 n t ret :
  tr n = tr n0 ++ t -> holdings t = ([sock (st n)], tls_held (st n)) -> ret <> OVE_OK ->
  wp (connect_fail ret) (connect_post n0) n.
Proof.
  intros Htr Hh Hr. unfold connect_fail, tls_held in *. wp_steps.
  destruct (CONFIG_OVE_NET_TLS && negb (tls (st n) =? 0)) eqn:Hc; wp_steps.
  - apply (connect_post_fail _ _ _ (((t ++ [ETlsClose (tls (st n))]) ++ [ETlsDeinit (tls (st n))])
           ++ [EClose (sock (st n))])); [done|cbn [tr]; by rewrite Htr, <-!app_assoc|].
    rewrite !holdings_snoc, Hh. simpl. by rewrite !drop_handle_one.
  - apply (connect_post_fail _ _ _ (t ++ [EClose (sock (st n))]));
      [done|cbn [tr]; by rewrite Htr, <-app_assoc|].
    rewrite holdings_snoc, Hh. simpl. by rewrite drop_handle_one.
Qed.

Lemma wp_connect_abort n0 n t ret (Q : Z -> nst W ove_mqtt_client -> Prop) :
  tr n = tr n0 ++ t -> holdings t = ([sock (st n)], []) -> ret <> OVE_OK ->
  (forall n1, connect_post n0 ret n1 -> Q ret n1) ->
  wp (connect_abort ret) Q n.
Proof.
  intros Htr Hh Hr HQ. unfold connect_abort. wp_steps. apply HQ.
  apply (connect_post_fail _ _ _ (t ++ [EClose (sock (st n))]));
    [done|cbn [tr]; by rewrite Htr, <-app_assoc|].
  rewrite holdings_snoc, Hh. simpl. by rewrite drop_handle_one.
Qed.

Lemma sends_neutral c d e a : sends c d e -> res_step a e = a.
Proof. by intros (r & k & [->| ->]). Qed.

Lemma wp_connect_exchange n0 n t cid usr pwd :
  client_ok (st n) -> tr n = tr n0 ++ t -> holdings t = ([sock (st n)], tls_held (st n)) ->
  Z.of_nat (length (connect_packet (keep_alive_s (st n)) cid usr pwd)) <= tx_size (st n) ->
  wp (connect_exchange cid usr pwd) (connect_post n0) n.
Proof.
  intros Hok Htr Hh Hfit. unfold connect_exchange. wp_steps.
  rewrite (proj2 (Z.ltb_ge _ _) Hfit). apply wp_bind, wp_mqtt_send. intros r w e Hs.
  assert (Hh1 : holdings (t ++ [e]) = ([sock (st n)], tls_held (st n))).
  { by rewrite holdings_snoc, (sends_neutral _ _ _ _ Hs). }
  destruct (r =? OVE_OK) eqn:Hr; cbn [negb].
  2:{ apply (wp_connect_fail _ _ (t ++ [e])); [cbn [tr]; by rewrite Htr, app_assoc|done|by apply Z.eqb_neq]. }
  apply wp_bind, wp_mqtt_recv; cbn [st tr]; [done|pose proof (ok_rx_min _ Hok); lia|].
  intros r2 d w2 e2 c' Hd Hb Hc' Hok' He2. cbn beta iota.
  assert (Hh2 : holdings ((t ++ [e]) ++ [e2]) = ([sock c'], tls_held c')).
  { rewrite holdings_snoc, Hh1, Hc'. by destruct e2. }
  assert (Htr2 : (tr n ++ [e]) ++ [e2] = tr n0 ++ (t ++ [e]) ++ [e2]) by (by rewrite Htr, <-!app_assoc).
  destruct (r2 =? OVE_OK) eqn:Hr2; cbn [negb].
  2:{ eapply wp_connect_fail; [exact Htr2|exact Hh2|by apply Z.eqb_neq]. }
  wp_steps. destruct (_ || _).
  - eapply wp_connect_fail; [exact Htr2|exact Hh2|done].
  - wp_steps. exists ((t ++ [e]) ++ [e2]). split; [exact Htr2|]. rewrite Z.eqb_refl.
    split_and!; [by destruct Hok'|done|exact Hh2].
Qed.

Lemma wp_connect_tls k n0 n t (Q : Z -> nst W ove_mqtt_client -> Prop) :
  tr n = tr n0 ++ t -> holdings t = ([sock (st n)], []) -> tls (st n) = 0 ->
  (forall r n1, r <> OVE_OK -> connect_post n0 r n1 -> Q r n1) ->
  (forall n1 t1 x, st n1 = {| (st n) with tls := x |} -> tr n1 = tr n0 ++ t1 ->
   holdings t1 = ([sock (st n1)], tls_held (st n1)) -> Q OVE_OK n1) ->
  wp (connect_tls k) Q n.
Proof.
  intros Htr Hh Ht0 Herr Hok. unfold connect_tls.
  destruct (cfg_use_tls k); cbn [negb].
  2:{ apply wp_ret. apply (Hok n t 0); [destruct n as [? ? c], c; simpl in *; by subst|done|].
      rewrite Hh. unfold tls_held. by rewrite Ht0, andb_false_r. }
  destruct CONFIG_OVE_NET_TLS eqn:Hcfg.
  2:{ eapply wp_connect_abort; [exact Htr|exact Hh|done|]. intros n1. by apply Herr. }
  apply wp_bind, wp_call. intros [r x] w He. cbn beta iota.
  destruct (r =? OVE_OK) eqn:Hr; cbn [negb].
  2:{ apply Z.eqb_neq in Hr as Hr'. apply (wp_connect_abort n0 _ (t ++ [ETlsInit r x])); [..|by auto|];
        cbn [tr st]; [by rewrite Htr, app_assoc| |intros n1; by apply Herr].
      rewrite holdings_snoc, Hh. simpl. by rewrite Hr. }
  apply Z.eqb_eq in Hr as ->. pose proof (tls_init_handle _ _ _ He) as Hx.
  assert (Hh1 : holdings (t ++ [ETlsInit OVE_OK x]) = ([sock (st n)], [x])).
  { rewrite holdings_snoc, Hh. done. }
  wp_steps. apply wp_call. intros r w' _. cbn [tr st nw]. destruct (r =? OVE_OK) eqn:Hr; cbn [negb].
  - wp_steps. apply Z.eqb_eq in Hr as ->.
    apply (Hok _ ((t ++ [ETlsInit OVE_OK x]) ++ [ETlsHandshake x (sock (st n)) OVE_OK]) x); cbn [tr st];
      [done|by rewrite Htr, <-!app_assoc|].
    rewrite holdings_snoc, Hh1. unfold tls_held. cbn [sock tls].
    by rewrite Hcfg, (proj2 (Z.eqb_neq _ _) Hx).
  - wp_steps. apply Z.eqb_neq in Hr as Hr'.
    apply (wp_connect_abort n0 _ (((t ++ [ETlsInit OVE_OK x]) ++ [ETlsHandshake x (sock (st n)) r])
             ++ [ETlsDeinit x])); [..|by auto|];
      cbn [tr st]; [by rewrite Htr, <-!app_assoc| |intros n1; by apply Herr].
    rewrite 2!(holdings_snoc (_ ++ [_])), Hh1. simpl. by rewrite drop_handle_one.
Qed.

(** The client as [ove_mqtt_client_init] or [ove_mqtt_disconnect] leave it. *)
Definition idle_client c : Prop :=
  tls c = 0 /\ Forall is_byte (rx_data c) /\
  length (sub_filters c) = CONFIG_OVE_NET_MQTT_MAX_SUBS /\
  (sub_count c <= CONFIG_OVE_NET_MQTT_MAX_SUBS)%nat.

(** The credentials are encodable and their packet fits the transmit
    buffer. *)
Definition connect_fits (k : ove_mqtt_config) : bool :=
  creds_fit k &&
  (Z.of_nat (length (connect_packet (if cfg_keep_alive_s k =? 0 then 60 else cfg_keep_alive_s k)
   (default [] (cfg_client_id k)) (cfg_username k) (cfg_password k)))
   <=? CONFIG_OVE_NET_MQTT_TX_BUF).

Lemma connect_spec n k :
  idle_client (st n) -> connect_fits k = true ->
  wp (ove_mqtt_connect true (Some k)) (connect_post n) n.
Proof.
  intros (Ht0 & Hb & Hsf & Hsc) Hfit. unfold ove_mqtt_connect.
  assert (Hinv : wp (mret OVE_ERR_INVALID_PARAM) (connect_post n) n).
  { apply wp_ret, (connect_post_fail _ _ _ []); [done|by rewrite app_nil_r|done]. }
  unfold connect_fits in Hfit. apply andb_prop in Hfit as [Hcreds Hpkt]. apply Z.leb_le in Hpkt.
  unfold creds_fit in Hcreds. apply andb_prop in Hcreds as [Hcreds Hc3].
  apply andb_prop in Hcreds as [Hc1 Hc2]. apply Z.leb_le in Hc1, Hc2, Hc3.
  destruct (cfg_host k) as [host|]; [|done]. destruct (cfg_client_id k) as [cid|]; [|done].
  apply wp_bind, wp_connect_buffers; [done|].
  intros r w t c' Hbuf Htls Hf Hcnt Hh. cbn beta iota.
  destruct (r =? OVE_OK) eqn:Hr; cbn [negb].
  2:{ apply wp_ret, (connect_post_fail _ _ _ t); [by apply Z.eqb_neq|done|done]. }
  wp_steps. apply wp_call. intros [r1 addr] w1 _. cbn [tr st nw].
  assert (Hh1 : holdings (t ++ [EDns host r1 addr]) = ([], [])) by (by rewrite holdings_snoc, Hh).
  destruct (r1 =? OVE_OK) eqn:Hr1; cbn [negb].
  2:{ apply wp_ret, (connect_post_fail _ _ _ (t ++ [EDns host r1 addr]));
        [by apply Z.eqb_neq|cbn [tr]; by rewrite app_assoc|done]. }
  apply wp_bind, wp_call. intros [r2 s] w2 _. wp_steps.
  destruct (r2 =? OVE_OK) eqn:Hr2; cbn [negb].
  2:{ apply wp_ret, (connect_post_fail _ _ _ ((t ++ [EDns host r1 addr]) ++ [EOpen r2 s]));
        [by apply Z.eqb_neq|cbn [tr]; by rewrite !app_assoc|].
      rewrite holdings_snoc, Hh1. simpl. by rewrite Hr2. }
  apply Z.eqb_eq in Hr2 as ->.
  wp_steps. apply wp_call. intros r3 w3 _. cbn [tr st nw].
  set (t3 := ((t ++ [EDns host r1 addr]) ++ [EOpen OVE_OK s]) ++ [EConnect s addr (cfg_port k) r3]).
  assert (Hh3 : holdings t3 = ([s], [])) by (unfold t3; by rewrite !(holdings_snoc (_ ++ [_])), Hh1).
  match goal with |- wp _ _ ?m => set (n3 := m) end.
  assert (Htr3 : tr n3 = tr n ++ t3) by (unfold n3, t3; cbn [tr]; by rewrite !app_assoc).
  destruct (r3 =? OVE_OK) eqn:Hr3; cbn [negb].
  2:{ eapply wp_connect_abort; [exact Htr3|exact Hh3|by apply Z.eqb_neq|done]. }
  apply wp_bind. eapply (wp_connect_tls k n); [exact Htr3|exact Hh3|unfold n3; simpl; congruence|..].
  { intros r4 n4 Hr4 Hp. cbn beta. rewrite (proj2 (Z.eqb_neq _ _) Hr4). by apply wp_ret. }
  intros n4 t4 x Hst4 Htr4 Hh4. cbn beta. rewrite Z.eqb_refl. cbn [negb].
  change (opt_len (Some cid)) with (Z.of_nat (length cid)) in Hc1. rewrite (proj2 (Z.ltb_ge _ _) Hc1), (proj2 (Z.ltb_ge _ _) Hc2),
    (proj2 (Z.ltb_ge _ _) Hc3). cbn [orb].
  destruct Hbuf as (H1 & H2 & H3 & H4). pose proof mqtt_buf_sizes as [? ?].
  eapply wp_connect_exchange; [|exact Htr4|exact Hh4|].
  - rewrite Hst4. unfold n3. split; simpl; try done; try congruence; lia.
  - rewrite Hst4. unfold n3. simpl. rewrite H4. exact Hpkt.
Qed.

(** *** What a publish transmits *)

Lemma publish_sends n topic payload qos :
  client_ok (st n) -> connected (st n) = true -> Z.of_nat (length topic) <= 0xFFFF ->
  mqtt_tx_frame_fits (st n) (remaining_publish topic (Z.of_nat (length payload)) qos) = true ->
  wp (ove_mqtt_publish true (Some topic) (Some payload) (Z.of_nat (length payload)) qos) (fun _ n1 =>
  exists pid e t, is_word 16 pid /\
    sends (st n) (publish_packet topic payload (Z.of_nat (length payload)) qos pid) e /\
    tr n1 = tr n ++ [e] ++ t) n.
Proof.
  intros Hok Hcon Htl Hfit. pose proof (ok_tx _ Hok) as Htx. pose proof (ok_pid _ Hok) as Hpid.
  assert (Hpl : Z.of_nat (length payload) <= tx_size (st n)).
  { pose proof Hfit as Hf. unfold mqtt_tx_frame_fits in Hf. apply Z.leb_le in Hf.
    pose proof (remaining_length_bytes_pos (remaining_publish topic (Z.of_nat (length payload)) qos)).
    unfold remaining_publish in *. destruct (qos =? OVE_MQTT_QOS1); lia. }
  unfold ove_mqtt_publish. wp_steps. rewrite Hcon. cbn [negb orb].
  rewrite (proj2 (Z.ltb_ge _ _) Htl), (proj2 (Z.ltb_ge _ _) Hpl), Hfit. cbn [negb].
  assert (Hgo : forall pid c, client_ok c -> sock c = sock (st n) -> tls c = tls (st n) -> is_word 16 pid ->
    wp (body ← (if 0 <? Z.of_nat (length payload)
              then olift (slice payload 0 (Z.to_nat (Z.of_nat (length payload)))) else mret []);
      ret ← mqtt_send (publish_packet topic body (Z.of_nat (length payload)) qos pid);
      if negb (ret =? OVE_OK) then mret ret else
      if qos =? OVE_MQTT_QOS1 then mqtt_wait_for MQTT_PUBACK (OVE_MS 5000) else mret OVE_OK)
    (fun _ n1 => exists pid e t, is_word 16 pid /\
      sends (st n) (publish_packet topic payload (Z.of_nat (length payload)) qos pid) e /\
      tr n1 = tr n ++ [e] ++ t) (mk_nst (nw n) (tr n) c)).
  { intros pid c Hc Hs Ht Hp. apply wp_bind.
    assert (Hbody : wp (if 0 <? Z.of_nat (length payload)
                then olift (slice payload 0 (Z.to_nat (Z.of_nat (length payload)))) else mret [])
              (fun b n1 => b = payload /\ n1 = mk_nst (nw n) (tr n) c) (mk_nst (nw n) (tr n) c)).
    { destruct (0 <? _) eqn:H0; [|split; [|done]; by destruct payload].
      eapply wp_lift; [apply slice_total; lia|]. by rewrite Nat2Z.id, drop_0, take_ge. }
    eapply wp_mono; [exact Hbody|]. intros b n1 [-> ->]. apply wp_bind, wp_mqtt_send. intros r w e He.
    cbn [st tr] in *. unfold sends in He. rewrite Hs, Ht in He.
    assert (Hdone : exists pid e' t, is_word 16 pid /\
      sends (st n) (publish_packet topic payload (Z.of_nat (length payload)) qos pid) e' /\
      tr n ++ [e] = tr n ++ [e'] ++ t) by (exists pid, e, []; done).
    destruct (negb _); [done|]. destruct (qos =? OVE_MQTT_QOS1); [|done].
    apply wp_wait; [done|]. intros r' w' t c' _ _ _. exists pid, e, t. cbn [tr]. by rewrite <-app_assoc. }
  apply wp_bind. destruct (qos =? OVE_MQTT_QOS1).
  - apply wp_take_pkt_id; [done|]. intros p Hp' Hc. apply Hgo; [done|done|done|unfold is_word; lia].
  - apply wp_ret. specialize (Hgo 0 (st n) Hok eq_refl eq_refl ltac:(unfold is_word; lia)). by destruct n.
Qed.

(** ** Claims *)

(** The Remaining Length field round-trips: for every length below 2^28
    the encoder's bytes, at the front of any buffer, decode to that length
    with exactly those bytes consumed, at most four of them, and
    [remaining_length_bytes] (used for the size checks) predicts their
    number; every emitted value is a byte. *)
Theorem mqtt_varint_roundtrip len rest :
  0 <= len < 2 ^ 28 ->
  let enc := encode_remaining_length len in
  decode_remaining_length (enc ++ rest) (length (enc ++ rest)) = Some (length enc, len) /\
  remaining_length_bytes len = Z.of_nat (length enc) /\ (1 <= length enc <= 4)%nat /\ Forall is_byte enc.
Proof.
  intros Hl enc. split_and!.
  - apply decode_encode; [done|]. rewrite length_app. fold enc. lia.
  - apply remaining_length_bytes_spec. lia.
  - apply encode_nonempty.
  - pose proof (decode_encode len [] (length enc) Hl ltac:(done)) as Hd. rewrite app_nil_r in Hd.
    apply (decode_loop_le 4) in Hd. exact Hd.
  - apply encode_bytes. lia.
Qed.

(** C38. What one client publishes another client delivers: a publish whose
    frame fits transmits one PUBLISH packet first, and a client with a
    message callback and a matching subscription that dispatches that
    packet calls the callback exactly once, with the very topic and payload
    that were published, acknowledging first at QoS 1 and sending nothing
    at QoS 0. *)
Theorem mqtt_publish_delivers n topic payload qos :
  client_ok (st n) -> connected (st n) = true -> Z.of_nat (length topic) <= 0xFFFF ->
  qos = OVE_MQTT_QOS0 \/ qos = OVE_MQTT_QOS1 ->
  mqtt_tx_frame_fits (st n) (remaining_publish topic (Z.of_nat (length payload)) qos) = true ->
  wp (ove_mqtt_publish true (Some topic) (Some payload) (Z.of_nat (length payload)) qos) (fun _ n1 =>
  exists d e t, sends (st n) d e /\ tr n1 = tr n ++ [e] ++ t /\
  forall m : nst W ove_mqtt_client,
    on_message (st m) <> 0 -> mqtt_any_sub_matches (st m) topic = true ->
    wp (dispatch_publish d) (fun _ m1 => st m1 = st m /\ exists acks,
      tr m1 = tr m ++ acks ++
        [ECallback (CbMqttMessage (on_message (st m)) topic payload (user_data (st m)))] /\
      length acks = Z.to_nat qos /\
      Forall (fun a => exists pid, sends (st m) ([MQTT_PUBACK; 0x02] ++ put_u16 pid) a) acks) m) n.
Proof.
  intros Hok Hcon Htl Hqos Hfit.
  assert (Hrem : remaining_publish topic (Z.of_nat (length payload)) qos < 2 ^ 28).
  { pose proof (ok_tx _ Hok). unfold mqtt_tx_frame_fits in Hfit. apply Z.leb_le in Hfit.
    pose proof (remaining_length_bytes_pos (remaining_publish topic (Z.of_nat (length payload)) qos)). lia. }
  eapply wp_mono; [by apply publish_sends|].
  intros r n1 (pid & e & t & Hpid & Hs & Htr). exists (publish_packet topic payload (Z.of_nat (length payload)) qos pid), e, t.
  split_and!; [done|done|]. intros m Hcb Hsub.
  eapply wp_mono; [by apply dispatch_publish_packet|].
  intros _ m1 (Hst & acks & Htr1 & Hq0 & Hq1). split; [done|]. exists acks.
  destruct Hqos as [-> | ->].
  - rewrite Hq0 in * by done. by split_and!.
  - destruct Hq1 as (a & -> & Ha); [done|]. split_and!; [done|done|].
    apply Forall_singleton. by exists pid.
Qed.



(** The filter table implements a list of subscriptions: a subscribe
    appends the (63-character) filter exactly when the broker acknowledged it
    and the table has room, an unsubscribe removes the first equal filter
    exactly when it was acknowledged, and a failed call leaves the list
    alone. *)
Theorem mqtt_subscriptions_refine n topic qos :
  client_ok (st n) ->
  wp (ove_mqtt_subscribe true (Some topic) qos) (fun r n1 =>
  subs_of (st n1) = if r =? OVE_OK then subs_add topic (subs_of (st n)) else subs_of (st n)) n /\
  wp (ove_mqtt_unsubscribe true (Some topic)) (fun r n1 =>
  subs_of (st n1) = if r =? OVE_OK then subs_remove topic (subs_of (st n)) else subs_of (st n)) n.
Proof.
  intros Hok. split.
  - eapply wp_mono; [by apply subscribe_spec|]. by intros r n1 [_ ?].
  - eapply wp_mono; [by apply unsubscribe_spec|]. by intros r n1 [_ ?].
Qed.

End proofs.

(** ** Witnesses *)

Module MqttDemo.
Import Script.

#[local] Instance demo_cfg : MqttConfig.
Proof. refine (Build_MqttConfig false true 64 64 2 128 _). lia. Defined.

(** A broker that accepts the connection, then acknowledges one request. *)
Definition broker (acks : list (list Z)) : script := {| inbox := (fun d => (OVE_OK, d)) <$> acks; fresh := 0; stopped := false |}.
Definition fresh_client (acks : list (list Z)) : nst script ove_mqtt_client :=
  mk_nst (broker acks) [] client_zero.

Definition demo_mqtt_config : ove_mqtt_config :=
  {| cfg_host := Some (str "broker"); cfg_port := 1883; cfg_client_id := Some (str "dev1");
     cfg_username := Some (str "u"); cfg_password := None; cfg_keep_alive_s := 0;
     cfg_use_tls := false; cfg_on_message := 7; cfg_user_data := 9 |}.

(** A connected client with one subscription. *)
Definition live_client : ove_mqtt_client :=
  {| sock := 1; tls := 0; rx_buf := 1; rx_data := replicate 64 0; rx_size := 64; tx_buf := 1;
     tx_size := 64; keep_alive_s := 60; pkt_id := 65535; connected := true;
     sub_filters := [str "a/+"; []]; sub_count := 1; on_message := 7; user_data := 9 |}.
Definition live (acks : list (list Z)) : nst script ove_mqtt_client := mk_nst (broker acks) [] live_client.

Lemma live_ok : client_ok live_client.
Proof. by split; vm_compute; repeat constructor. Qed.

Example connect_demo :
  (fst <$> ove_mqtt_connect true (Some demo_mqtt_config) (fresh_client [[0x20; 2; 0; 0]])) = Some OVE_OK.
Proof. vm_compute. reflexivity. Qed.

Lemma mqtt_varint_roundtrip_witness :
  let enc := encode_remaining_length 321 in
  enc = [193; 2] /\ decode_remaining_length (enc ++ [5]) (length (enc ++ [5])) = Some (length enc, 321).
Proof. split; [reflexivity|]. apply (mqtt_varint_roundtrip 321 [5]). lia. Defined.

Lemma mqtt_publish_delivers_witness :
  exists n1, (snd <$> ove_mqtt_publish true (Some (str "a/b")) (Some [1; 2; 3]) 3 OVE_MQTT_QOS1
               (live [[0x40; 2; 255; 255]])) = Some n1 /\
  exists d e t, sends live_client d e /\ tr n1 = [e] ++ t /\
    wp (dispatch_publish d) (fun _ m1 => exists acks,
      tr m1 = acks ++ [ECallback (CbMqttMessage 7 (str "a/b") [1; 2; 3] 9)]) (live []).
Proof.
  eexists. split; [reflexivity|].
  destruct (mqtt_publish_delivers (live [[0x40; 2; 255; 255]]) (str "a/b") [1; 2; 3] OVE_MQTT_QOS1)
    as (d & e & t & Hs & Htr & Hd); [exact live_ok|reflexivity|done|by right|reflexivity|].
  exists d, e, t. split_and!; [exact Hs|exact Htr|].
  specialize (Hd (live []) ltac:(done) ltac:(reflexivity)). eapply wp_mono; [exact Hd|].
  intros [] m1 (_ & acks & Ht & _). by exists acks.
Defined.



Lemma mqtt_subscriptions_refine_witness :
  (fun '(r, n1) => (r, subs_of (st n1))) <$>
    ove_mqtt_subscribe true (Some (str "c")) 0 (live [[0x90; 3; 255; 255; 0]])
  = Some (OVE_OK, [str "a/+"; str "c"]) /\
  wp (ove_mqtt_unsubscribe true (Some (str "a/+"))) (fun r n1 =>
    subs_of (st n1) = if r =? OVE_OK then subs_remove (str "a/+") [str "a/+"] else [str "a/+"])
    (live [[0x90; 3; 255; 255; 0]]).
Proof.
  split; [vm_compute; reflexivity|].
  destruct (mqtt_subscriptions_refine (live [[0x90; 3; 255; 255; 0]]) (str "a/+") 0 live_ok) as [_ Hu].
  eapply wp_mono; [exact Hu|]. intros r n1 Hr. exact Hr.
Defined.

End MqttDemo.
