(* ===== verification/Ws.v ===== *)
(** * WebSocket server (backends/common/ove_net_httpd_ws.c)

    The connection pool, the route table, the RFC 6455 handshake, frame
    sending and receiving, broadcast and the poll loop.  Application
    handlers are platform code: a handler is an event in the trace together
    with the list of API calls it makes ([ws_reaction]), which run on the
    same pool, so that re-entrant use of the API is covered. *)

From S2P Require Import Prelude Codec Cstr Net.

Definition WS_OP_CONT : Z := 0x0.
Definition WS_OP_TEXT : Z := 0x1.
Definition WS_OP_BIN : Z := 0x2.
Definition WS_OP_CLOSE : Z := 0x8.
Definition WS_OP_PING : Z := 0x9.
Definition WS_OP_PONG : Z := 0xA.

Definition OVE_SOCK_POLLIN : Z := 0x01.
Definition OVE_SOCK_POLLERR : Z := 0x08.
Definition OVE_SOCK_POLLHUP : Z := 0x10.

Definition WS_MAX_ROUTES : nat := 4.

Class WsConfig := {
  CONFIG_OVE_NET_HTTPD_WS_MAX_CONNS : nat;
  CONFIG_OVE_NET_HTTPD_WS_MAX_FRAME : nat;
  ws_max_frame_int : Z.of_nat CONFIG_OVE_NET_HTTPD_WS_MAX_FRAME < 2 ^ 31 }.

Record ove_httpd_ws_conn := {
  c_sock : Z;
  c_path : list Z;
  frame_buf : list Z;
  active : bool }.

(** Handlers by address; [0] is NULL. *)
Record ws_route := {
  r_path : list Z;
  on_message : Z;
  on_close : Z }.

Record ws_state := {
  s_ws_pool : list ove_httpd_ws_conn;
  s_ws_routes : list ws_route;
  s_ws_route_count : nat }.

(** Calls an application makes. *)
Inductive ws_call :=
  | WsSend (conn : nat) (data : list Z)
  | WsBroadcast (path : option (list Z)) (data : list Z).

(** What a handler does when it is called. *)
Class WsApp (W : Type) := ws_reaction : callback -> W -> list ws_call.

Definition ws_magic : list Z := str "258EAFA5-E914-47DA-95CA-C5AB0DC85B11".

(** The value of the key header: leading blanks skipped, cut at the end of
    the line and at 63 bytes, trailing blanks trimmed. *)
Fixpoint rtrim (s : list Z) : list Z :=
  match s with
  | [] => []
  | c :: s => match rtrim s with [] => if c =? SP then [] else [c] | t => c :: t end
  end.
Definition ws_key (key_hdr : list Z) : list Z :=
  let key_hdr := drop_while (fun c => c =? SP) (drop 18 key_hdr) in
  rtrim (take 63 (take_while (fun c => negb (c =? CR) && negb (c =? LF)) key_hdr)).

(** The digest of the concatenation, in Base64. *)
Definition ws_accept (key : list Z) : list Z := cstr (ove_base64_encode (ove_sha1 (key ++ ws_magic)) 32).2.

Definition ws_response (accept : list Z) : list Z :=
  str "HTTP/1.1 101 Switching Protocols" ++ CRLF ++ str "Upgrade: websocket" ++ CRLF
  ++ str "Connection: Upgrade" ++ CRLF ++ str "Sec-WebSocket-Accept: " ++ accept ++ CRLF ++ CRLF.

(** The frame header for [len] payload bytes. *)
Definition ws_header (len : Z) : list Z :=
  let b0 := Z.lor 0x80 WS_OP_TEXT in
  if len <? 126 then [b0; u8 len]
  else if len <=? 0xFFFF then [b0; 126; u8 (Z.shiftr len 8); u8 len]
  else [b0; 127; 0; 0; 0; 0; u8 (Z.shiftr len 24); u8 (Z.shiftr len 16); u8 (Z.shiftr len 8); u8 len].

(** [for (i = 0; i < n; i++) frame_buf[i] ^= mask[i % 4];] *)
Definition unmask (mask fb : list Z) (n : nat) : list Z :=
  foldl (fun fb i => aset fb i (Z.lxor (aget 0 fb i) (aget 0 mask (i mod 4)%nat))) fb (seq 0 n).

Definition ws_match_route (st : ws_state) (path : list Z) : option ws_route :=
  longest (fun r => length (r_path r)) (fun r => has_prefix (r_path r) path)
    (take (s_ws_route_count st) (s_ws_routes st)).

Definition ws_pool_alloc (st : ws_state) : option nat :=
  find_idx (fun c => negb (active c)) (s_ws_pool st).

Definition ove_httpd_ws_active_count (st : ws_state) : nat :=
  length (filter (fun c => active c = true) (s_ws_pool st)).

(** [NULL] if there is no such header. *)
Definition find_header (headers name lname : list Z) : option (list Z) :=
  match strstr headers name with Some h => Some h | None => strstr headers lname end.

Definition ove_httpd_ws_is_upgrade (headers : list Z) : bool :=
  match find_header headers (str "Upgrade:") (str "upgrade:") with
  | Some u => if strstr u (str "websocket") is Some _ then true
              else if strstr u (str "WebSocket") is Some _ then true else false
  | None => false
  end.

Section ws.
Context {W : Type} {E : NetEnv W} {App : WsApp W} {Cfg : WsConfig}.
Abbreviation CM := (MO (nst W ws_state)).

Definition conn_at (i : nat) : CM ove_httpd_ws_conn :=
  s ← stget; olift (s_ws_pool s !! i).
Definition conn_mod (i : nat) (f : ove_httpd_ws_conn -> ove_httpd_ws_conn) : CM unit :=
  stmod (fun s => {| s with s_ws_pool := alter f i (s_ws_pool s) |}).

Definition ws_pool_free (i : nat) : CM unit :=
  c ← conn_at i;
  ove_socket_close (c_sock c);;
  conn_mod i (fun c => {| c with active := false |}).

Definition ove_httpd_ws_route (path : list Z) (msg close : Z) : CM Z :=
  s ← stget;
  if (WS_MAX_ROUTES <=? s_ws_route_count s)%nat then mret OVE_ERR_NO_MEMORY else
  stmod (fun s => {| s with
  s_ws_routes := aset (s_ws_routes s) (s_ws_route_count s)
                   {| r_path := strncpy_z 64 path; on_message := msg; on_close := close |};
  s_ws_route_count := S (s_ws_route_count s) |});;
  mret OVE_OK.

Definition ws_send_all (sock : Z) (data : list Z) : CM Z := send_all (length data) sock data.

Definition ove_httpd_ws_handshake (headers path : list Z) (sock : Z) : CM Z :=
  s ← stget;
  if ws_match_route s path is Some _ then
  if find_header headers (str "Sec-WebSocket-Key:") (str "sec-websocket-key:") is Some key_hdr then
    if (128 <=? length (ws_key key_hdr ++ ws_magic))%nat then mret (-1) else
    let accept := ws_accept (ws_key key_hdr) in
    if ws_pool_alloc s is Some i then
      ret ← ws_send_all sock (ws_response accept);
      if negb (ret =? OVE_OK) then conn_mod i (fun c => {| c with active := false |});; mret (-1) else
      conn_mod i (fun c => {| c with c_sock := sock; c_path := strncpy_z 64 path; active := true |});;
      mret 0
    else mret (-1)
  else mret (-1)
  else mret (-1).

(** [conn = None] is NULL. *)
Definition ove_httpd_ws_send (conn : option nat) (data : list Z) : CM Z :=
  if conn is Some i then
  c ← conn_at i;
  if negb (active c) then mret OVE_ERR_INVALID_PARAM else
  ret ← ws_send_all (c_sock c) (ws_header (Z.of_nat (length data)));
  if negb (ret =? OVE_OK) then ws_pool_free i;; mret ret else
  if (0 <? length data)%nat then
    ret ← ws_send_all (c_sock c) data;
    if negb (ret =? OVE_OK) then ws_pool_free i;; mret ret else mret OVE_OK
  else mret OVE_OK
  else mret OVE_ERR_INVALID_PARAM.

(** [n] slots to go from slot [i]. *)
Fixpoint broadcast_loop (n i : nat) (path : option (list Z)) (data : list Z) (sent : Z) : CM Z :=
  match n with
  | O => mret sent
  | S n =>
      c ← conn_at i;
      if negb (active c) then broadcast_loop n (S i) path data sent else
      if (if path is Some p then negb (bytes_eqb (c_path c) p) else false)
      then broadcast_loop n (S i) path data sent else
      ret ← ove_httpd_ws_send (Some i) data;
      broadcast_loop n (S i) path data (if ret =? OVE_OK then sent + 1 else sent)
  end.
Definition ove_httpd_ws_broadcast (path : option (list Z)) (data : list Z) : CM Z :=
  broadcast_loop CONFIG_OVE_NET_HTTPD_WS_MAX_CONNS 0 path data 0.

Definition ws_send_close (sock : Z) : CM unit :=
  _ ← ws_send_all sock [Z.lor 0x80 WS_OP_CLOSE; 0]; mret tt.

Definition ws_send_close_code (sock code : Z) : CM unit :=
  _ ← ws_send_all sock [Z.lor 0x80 WS_OP_CLOSE; 2; u8 (Z.shiftr code 8); u8 code]; mret tt.

Definition ws_send_pong (sock : Z) (payload : list Z) : CM unit :=
  _ ← ws_send_all sock [Z.lor 0x80 WS_OP_PONG; u8 (Z.of_nat (length payload))];
  if (0 <? length payload)%nat then _ ← ws_send_all sock payload; mret tt else mret tt.

(** The result and the bytes written to the buffer. *)
Fixpoint ws_recv_exact (fuel : nat) (sock : Z) (len : nat) : CM (Z * list Z) :=
  if (len =? 0)%nat then mret (0, []) else
  match fuel with
  | O => ofail
  | S fuel =>
      '(ret, d) ← ove_socket_recv sock (Z.of_nat len) (OVE_MS 1000);
      if negb (ret =? OVE_OK) || (length d =? 0)%nat then mret (-1, d) else
      '(r, rest) ← ws_recv_exact fuel sock (len - length d);
      mret (r, d ++ rest)
  end.
Definition recv_exact (sock : Z) (len : nat) : CM (Z * list Z) := ws_recv_exact len sock len.

(** The application's handler runs: an event, then the calls it makes. *)
Definition run_call (c : ws_call) : CM unit :=
  match c with
  | WsSend i data => _ ← ove_httpd_ws_send (Some i) data; mret tt
  | WsBroadcast path data => _ ← ove_httpd_ws_broadcast path data; mret tt
  end.
Fixpoint run_calls (l : list ws_call) : CM unit :=
  match l with [] => mret tt | c :: l => run_call c;; run_calls l end.
Definition run_handler (cb : callback) : CM unit :=
  w ← ogets nw; invoke cb;; run_calls (ws_reaction cb w).

(** The extended payload length; [None] to fail the connection. *)
Definition ws_payload_len (sock len7 : Z) : CM (option Z) :=
  if len7 =? 126 then
  '(r, ext) ← recv_exact sock 2;
  if negb (r =? 0) then mret None else
  mret (Some (Z.lor (Z.shiftl (aget 0 ext 0) 8) (aget 0 ext 1)))
  else if len7 =? 127 then
  '(r, ext) ← recv_exact sock 8;
  if negb (r =? 0) then mret None else
  if negb (Z.lor (Z.lor (Z.lor (aget 0 ext 0) (aget 0 ext 1)) (aget 0 ext 2)) (aget 0 ext 3) =? 0)
  then ws_send_close_code sock 1009;; mret None else
  mret (Some (Z.lor (Z.lor (Z.lor (Z.shiftl (aget 0 ext 4) 24) (Z.shiftl (aget 0 ext 5) 16))
                (Z.shiftl (aget 0 ext 6) 8)) (aget 0 ext 7)))
  else mret (Some len7).

(** Once the payload is in [frame_buf], unmasked. *)
Definition ws_dispatch (i : nat) (opcode : Z) (n : nat) : CM Z :=
  c ← conn_at i;
  payload ← olift (if (n <=? length (frame_buf c))%nat then Some (take n (frame_buf c)) else None);
  if opcode =? WS_OP_CLOSE then ws_send_close (c_sock c);; mret (-1) else
  if opcode =? WS_OP_PING then ws_send_pong (c_sock c) payload;; mret 0 else
  if opcode =? WS_OP_PONG then mret 0 else
  s ← stget;
  (if (opcode =? WS_OP_TEXT) || (opcode =? WS_OP_BIN) then
   if ws_match_route s (c_path c) is Some r then
     if negb (on_message r =? 0) then run_handler (CbWsMessage (on_message r) i payload) else mret tt
   else mret tt
   else mret tt);;
  mret 1.

Definition ws_recv_frame (i : nat) : CM Z :=
  c ← conn_at i;
  let sock := c_sock c in
  '(ret, revents) ← ove_socket_poll sock OVE_SOCK_POLLIN 0;
  if negb (ret =? OVE_OK) then mret (-1) else
  if negb (Z.land revents (Z.lor OVE_SOCK_POLLERR OVE_SOCK_POLLHUP) =? 0) then mret (-1) else
  if Z.land revents OVE_SOCK_POLLIN =? 0 then mret 0 else
  '(r, hdr) ← recv_exact sock 2;
  if negb (r =? 0) then mret (-1) else
  let opcode := Z.land (aget 0 hdr 0) 0x0F in
  let masked := negb (Z.land (aget 0 hdr 1) 0x80 =? 0) in
  if negb masked then ws_send_close_code sock 1002;; mret (-1) else
  let is_control := negb (Z.land opcode 0x08 =? 0) in
  plen ← ws_payload_len sock (Z.land (aget 0 hdr 1) 0x7F);
  if plen is Some payload_len then
  if is_control && (125 <? payload_len) then ws_send_close_code sock 1002;; mret (-1) else
  if Z.of_nat CONFIG_OVE_NET_HTTPD_WS_MAX_FRAME <? payload_len
  then ws_send_close_code sock 1009;; mret (-1) else
  '(r, mask) ← recv_exact sock 4;
  if negb (r =? 0) then mret (-1) else
  '(r, d) ← recv_exact sock (Z.to_nat payload_len);
  conn_mod i (fun c => {| c with frame_buf := d ++ drop (length d) (frame_buf c) |});;
  if negb (r =? 0) then mret (-1) else
  conn_mod i (fun c => {| c with frame_buf := unmask mask (frame_buf c) (Z.to_nat payload_len) |});;
  ws_dispatch i opcode (Z.to_nat payload_len)
  else mret (-1).

Fixpoint poll_loop (n i : nat) : CM unit :=
  match n with
  | O => mret tt
  | S n =>
      c ← conn_at i;
      if negb (active c) then poll_loop n (S i) else
      ret ← ws_recv_frame i;
      (if ret <? 0 then
         s ← stget;
         c ← conn_at i;
         (if ws_match_route s (c_path c) is Some r then
            if negb (on_close r =? 0) then run_handler (CbWsClose (on_close r) i) else mret tt
          else mret tt);;
         ws_pool_free i
       else mret tt);;
      poll_loop n (S i)
  end.
Definition ove_httpd_ws_poll : CM unit := poll_loop CONFIG_OVE_NET_HTTPD_WS_MAX_CONNS 0.

End ws.

(** The example of RFC 6455, section 1.3. *)
Example rfc6455_accept :
  ws_accept (ws_key (str "Sec-WebSocket-Key:   dGhlIHNhbXBsZSBub25jZQ==  "))
  = str "s3pPLMBiTxaQ9kYGzzhZRbK+xOo=".
Proof. vm_compute. reflexivity. Qed.

(** ** Ownership of sockets *)

Section ownership.
Context {W : Type} {E : NetEnv W} {L : NetLaws W} {P : SendProgress W} {App : WsApp W} {Cfg : WsConfig}.
Implicit Types (n : nst W ws_state) (s : ws_state).

(** The data structure invariant. *)
Record ws_ok s : Prop := {
  ok_pool : length (s_ws_pool s) = CONFIG_OVE_NET_HTTPD_WS_MAX_CONNS;
  ok_frames : Forall (fun c => length (frame_buf c) = CONFIG_OVE_NET_HTTPD_WS_MAX_FRAME) (s_ws_pool s);
  ok_routes : length (s_ws_routes s) = WS_MAX_ROUTES;
  ok_count : (s_ws_route_count s <= WS_MAX_ROUTES)%nat }.

(** The application uses the handles it was given, and only reads in a
    close handler. *)
Class WsAppOk := {
  app_handles : forall cb w, Forall (fun c => match c with
  | WsSend i _ => (i < CONFIG_OVE_NET_HTTPD_WS_MAX_CONNS)%nat | _ => True end) (ws_reaction cb w);
  app_close_quiet : forall f i w, ws_reaction (CbWsClose f i) w = [] }.

(** Sockets owned by live connections, and sockets closed by a trace. *)
Definition live_socks (pool : list ove_httpd_ws_conn) : list Z := c_sock <$> filter (fun c => active c = true) pool.
Definition closed1 (e : ev) : list Z := match e with EClose s => [s] | _ => [] end.
Definition closes (t : list ev) : list Z := concat (closed1 <$> t).

Lemma closes_app t t' : closes (t ++ t') = closes t ++ closes t'.
Proof. unfold closes. by rewrite fmap_app, concat_app. Qed.

(** The events a WebSocket operation can produce; those but closing. *)
Definition quiet_ev (e : ev) : bool :=
  match e with ESend _ _ _ _ | ERecv _ _ _ _ | EPoll _ _ _ _ | ECallback _ => true | _ => false end.
Definition ws_ev (e : ev) : bool := match e with EClose _ => true | _ => quiet_ev e end.

Lemma quiet_closes t : forallb quiet_ev t = true -> closes t = [] /\ forallb ws_ev t = true.
Proof.
  induction t as [|e t IH]; [done|]. simpl. intros [He Ht]%andb_prop. destruct (IH Ht) as [Hc Hw].
  unfold closes in *. by destruct e.
Qed.

(** One step of the server: what was live is still live or closed exactly
    once, after [acc] has been handed to the pool. *)
Definition ws_step (acc : list Z) n (n1 : nst W ws_state) : Prop :=
  ws_ok (st n1) /\ s_ws_routes (st n1) = s_ws_routes (st n) /\
  s_ws_route_count (st n1) = s_ws_route_count (st n) /\
  exists t, tr n1 = tr n ++ t /\ forallb ws_ev t = true /\
  closes t ++ live_socks (s_ws_pool (st n1)) ≡ₚ acc ++ live_socks (s_ws_pool (st n)).

Lemma ws_step_refl n : ws_ok (st n) -> ws_step [] n n.
Proof. intros Hok. split_and!; [done|done|done|]. exists []. by rewrite app_nil_r. Qed.

Lemma ws_step_trans acc acc' n n1 n2 :
  ws_step acc n n1 -> ws_step acc' n1 n2 -> ws_step (acc' ++ acc) n n2.
Proof.
  intros (_ & Hr1 & Hc1 & t1 & Ht1 & He1 & Hp1) (Hok & Hr2 & Hc2 & t2 & Ht2 & He2 & Hp2).
  split_and!; [done|congruence|congruence|]. exists (t1 ++ t2).
  split_and!; [by rewrite Ht2, Ht1, app_assoc|by rewrite forallb_app, He1, He2|]. rewrite closes_app, <-app_assoc, Hp2.
  rewrite (Permutation_app_comm (closes t1)), <-!app_assoc.
  rewrite (Permutation_app_comm _ (closes t1)). by rewrite Hp1.
Qed.

(** A step that closes nothing and keeps the live sockets. *)
Lemma ws_step_quiet n w t s' :
  ws_ok s' -> s_ws_routes s' = s_ws_routes (st n) -> s_ws_route_count s' = s_ws_route_count (st n) ->
  forallb quiet_ev t = true -> live_socks (s_ws_pool s') = live_socks (s_ws_pool (st n)) ->
  ws_step [] n (mk_nst w (tr n ++ t) s').
Proof.
  intros Hok Hr Hc Ht Hl. split_and!; [done|done|done|]. exists t. destruct (quiet_closes _ Ht) as [Hcl Hw].
  split_and!; [done|done|]. cbn [st]. by rewrite Hcl, Hl.
Qed.

(** Steps that only transmit and close. *)
Definition out_ev (e : ev) : Prop := match e with ESend _ _ _ _ | EClose _ => True | _ => False end.
Definition ws_silent n (n1 : nst W ws_state) : Prop :=
  ws_step [] n n1 /\ exists t, tr n1 = tr n ++ t /\ Forall out_ev t.

Lemma ws_step_ok acc n n1 : ws_step acc n n1 -> ws_ok (st n1).
Proof. by intros [? _]. Qed.

Lemma ws_step_nil acc n n1 n2 : ws_step acc n n1 -> ws_step [] n1 n2 -> ws_step acc n n2.
Proof. intros H1 H2. by apply (ws_step_trans _ _ _ _ _ H1) in H2. Qed.

Lemma ws_silent_refl n : ws_ok (st n) -> ws_silent n n.
Proof. intros Hok. split; [by apply ws_step_refl|]. exists []. by rewrite app_nil_r. Qed.

Lemma ws_silent_ok n n1 : ws_silent n n1 -> ws_ok (st n1).
Proof. intros [H1 _]. by eapply ws_step_ok. Qed.

Lemma ws_silent_trans n n1 n2 : ws_silent n n1 -> ws_silent n1 n2 -> ws_silent n n2.
Proof.
  intros [H1 (t1 & Ht1 & Hf1)] [H2 (t2 & Ht2 & Hf2)]. split; [by eapply ws_step_nil|].
  exists (t1 ++ t2). split; [by rewrite Ht2, Ht1, app_assoc|]. by apply Forall_app.
Qed.

Lemma pool_split {A} (l : list A) i x : l !! i = Some x -> l = take i l ++ x :: drop (S i) l.
Proof. intros Hi. by rewrite take_drop_middle. Qed.

Lemma alter_split {A} (f : A -> A) (l : list A) i x :
  l !! i = Some x -> alter f i l = take i l ++ f x :: drop (S i) l.
Proof.
  intros Hi. pose proof (lookup_lt_Some _ _ _ Hi). apply list_eq. intros j.
  destruct (decide (j = i)) as [->|Hne].
  - rewrite list_lookup_alter_eq, Hi. symmetry. apply list_lookup_middle. rewrite length_take. lia.
  - rewrite list_lookup_alter_ne by done. rewrite (pool_split l i x Hi) at 1.
    destruct (decide (j < i)%nat).
    + by rewrite !lookup_app_l by (rewrite length_take; lia).
    + rewrite !lookup_app_r by (rewrite length_take; lia). rewrite length_take.
      destruct (j - i `min` length l)%nat as [|k] eqn:Hk; [lia|done].
Qed.

Lemma alter_out {A} (f : A -> A) (l : list A) i : l !! i = None -> alter f i l = l.
Proof.
  intros Hi. apply list_eq. intros j. destruct (decide (j = i)) as [->|Hne].
  - by rewrite list_lookup_alter_eq, Hi.
  - by rewrite list_lookup_alter_ne.
Qed.

Lemma live_app a b : live_socks (a ++ b) = live_socks a ++ live_socks b.
Proof. unfold live_socks. by rewrite filter_app, fmap_app. Qed.

Lemma live_cons c l : live_socks (c :: l) = (if active c then [c_sock c] else []) ++ live_socks l.
Proof.
  unfold live_socks. rewrite filter_cons. destruct (active c) eqn:Hc.
  - by rewrite decide_True by done.
  - by rewrite decide_False by done.
Qed.

(** Changing slot [i] changes only its own contribution. *)
Lemma live_alter pool i c f :
  pool !! i = Some c ->
  exists rest, live_socks pool ≡ₚ (if active c then [c_sock c] else []) ++ rest /\
  live_socks (alter f i pool) ≡ₚ (if active (f c) then [c_sock (f c)] else []) ++ rest.
Proof.
  intros Hi. exists (live_socks (take i pool) ++ live_socks (drop (S i) pool)).
  rewrite (alter_split _ _ _ _ Hi). rewrite (pool_split _ _ _ Hi) at 1.
  rewrite !live_app, !live_cons. split; apply Permutation_app_swap_app.
Qed.

Lemma live_alter_same pool i f :
  (forall c, active (f c) = active c /\ c_sock (f c) = c_sock c) ->
  live_socks (alter f i pool) = live_socks pool.
Proof.
  intros Hf. destruct (pool !! i) as [c|] eqn:Hi; [|by rewrite alter_out].
  rewrite (alter_split _ _ _ _ Hi). rewrite (pool_split _ _ _ Hi) at 3. rewrite !live_app, !live_cons.
  by destruct (Hf c) as [-> ->].
Qed.

Lemma ws_ok_alter s i f :
  ws_ok s -> (forall c, length (frame_buf c) = CONFIG_OVE_NET_HTTPD_WS_MAX_FRAME ->
              length (frame_buf (f c)) = CONFIG_OVE_NET_HTTPD_WS_MAX_FRAME) ->
  ws_ok {| s with s_ws_pool := alter f i (s_ws_pool s) |}.
Proof.
  intros [] Hf. split; simpl; try done; [by rewrite length_alter|].
  apply Forall_alter; [done|]. intros c _ Hc. by apply Hf.
Qed.

Lemma wp_conn_at i n (Q : ove_httpd_ws_conn -> nst W ws_state -> Prop) :
  ws_ok (st n) -> (i < CONFIG_OVE_NET_HTTPD_WS_MAX_CONNS)%nat ->
  (forall c, s_ws_pool (st n) !! i = Some c ->
   length (frame_buf c) = CONFIG_OVE_NET_HTTPD_WS_MAX_FRAME -> Q c n) ->
  wp (conn_at i) Q n.
Proof.
  intros [] Hi HQ. unfold conn_at. wp_steps.
  destruct (lookup_lt_is_Some_2 (s_ws_pool (st n)) i) as [c Hc]; [lia|].
  eapply wp_lift; [exact Hc|]. apply HQ; [done|]. by eapply Forall_lookup_1 in Hc; [|exact ok_frames0].
Qed.

Lemma wp_pool_free i n c (Q : unit -> nst W ws_state -> Prop) :
  ws_ok (st n) -> s_ws_pool (st n) !! i = Some c -> active c = true ->
  (forall n1, ws_silent n n1 -> Q tt n1) -> wp (ws_pool_free i) Q n.
Proof.
  intros Hok Hi Ha HQ. assert (Hlt : (i < CONFIG_OVE_NET_HTTPD_WS_MAX_CONNS)%nat).
  { rewrite <-(ok_pool _ Hok). by eapply lookup_lt_Some. }
  unfold ws_pool_free. apply wp_bind, wp_conn_at; [done|done|]. intros c' Hc' _.
  rewrite Hi in Hc'. injection Hc' as <-. unfold conn_mod. wp_steps. apply HQ.
  split; [|exists [EClose (c_sock c)]; split; [done|by repeat constructor]].
  split_and!; [by apply ws_ok_alter|done|done|]. exists [EClose (c_sock c)]. split_and!; [done|done|].
  destruct (live_alter _ _ _ (fun c => {| c with active := false |}) Hi) as (rest & H1 & H2).
  cbn [st s_ws_pool]. rewrite H1, H2, Ha. done.
Qed.

Lemma sends_closes k t : sends_on k t -> closes t = [].
Proof. induction 1 as [|e t (d & r & m & ->) _ IH]; [done|]. exact IH. Qed.

Lemma sends_quiet k t : sends_on k t -> forallb quiet_ev t = true.
Proof. induction 1 as [|e t (d & r & m & ->) _ IH]; [done|]. exact IH. Qed.

(** Transmitting is a quiet step. *)
Lemma wp_ws_send_all sock d n (Q : Z -> nst W ws_state -> Prop) :
  ws_ok (st n) ->
  (forall r n1, ws_silent n n1 -> st n1 = st n -> Q r n1) -> wp (ws_send_all sock d) Q n.
Proof.
  intros Hok HQ. apply wp_send_all; [done|]. intros r w t Hs _ _ _. apply HQ; [|done].
  split; [apply ws_step_quiet; try done; by eapply sends_quiet|]. exists t. split; [done|].
  eapply Forall_impl; [exact Hs|]. by intros e (d' & r' & k & ->).
Qed.

Lemma wp_ws_send i data n (Q : Z -> nst W ws_state -> Prop) :
  ws_ok (st n) -> (i < CONFIG_OVE_NET_HTTPD_WS_MAX_CONNS)%nat ->
  (forall r n1, ws_silent n n1 -> Q r n1) -> wp (ove_httpd_ws_send (Some i) data) Q n.
Proof.
  intros Hok Hi HQ. unfold ove_httpd_ws_send. apply wp_bind, wp_conn_at; [done|done|]. intros c Hc _.
  destruct (active c) eqn:Ha; cbn [negb]; [|by apply wp_ret, HQ, ws_silent_refl].
  apply wp_bind, wp_ws_send_all; [done|]. intros r n1 H1 Hst1.
  assert (Hfree : forall r' n2, ws_silent n n2 -> st n2 = st n ->
          wp (ws_pool_free i;; mret r') Q n2).
  { intros r' n2 H2 Hst. apply wp_bind, (wp_pool_free i n2 c); rewrite ?Hst; try done.
    intros n3 H3. apply wp_ret, HQ. by eapply ws_silent_trans. }
  destruct (negb (r =? OVE_OK)); [by apply Hfree|].
  destruct (0 <? length data)%nat; [|by apply wp_ret, HQ].
  apply wp_bind, wp_ws_send_all; [by eapply ws_silent_ok|]. intros r2 n2 H2 Hst2.
  assert (H12 : ws_silent n n2) by (by eapply ws_silent_trans).
  destruct (negb (r2 =? OVE_OK)); [apply Hfree; [done|congruence]|by apply wp_ret, HQ].
Qed.

Lemma wp_broadcast k i path data sent n (Q : Z -> nst W ws_state -> Prop) :
  ws_ok (st n) -> (i + k <= CONFIG_OVE_NET_HTTPD_WS_MAX_CONNS)%nat ->
  (forall r n1, ws_silent n n1 -> Q r n1) -> wp (broadcast_loop k i path data sent) Q n.
Proof.
  revert i sent n. induction k as [|k IH]; intros i sent n Hok Hi HQ; cbn [broadcast_loop].
  { by apply wp_ret, HQ, ws_silent_refl. }
  apply wp_bind, wp_conn_at; [done|lia|]. intros c Hc _.
  destruct (negb (active c)); [apply IH; [done|lia|done]|].
  destruct (if path is Some p then _ else false); [apply IH; [done|lia|done]|].
  apply wp_bind, wp_ws_send; [done|lia|]. intros r n1 H1. apply IH; [by eapply ws_silent_ok|lia|].
  intros r' n2 H2. apply HQ. by eapply ws_silent_trans.
Qed.

Definition call_ok (c : ws_call) : Prop :=
  match c with WsSend i _ => (i < CONFIG_OVE_NET_HTTPD_WS_MAX_CONNS)%nat | _ => True end.

Lemma wp_run_call c n (Q : unit -> nst W ws_state -> Prop) :
  ws_ok (st n) -> call_ok c -> (forall n1, ws_silent n n1 -> Q tt n1) -> wp (run_call c) Q n.
Proof.
  intros Hok Hc HQ. destruct c as [i data|path data]; cbn [run_call]; apply wp_bind.
  - apply wp_ws_send; [done|done|]. intros r n1 H1. by apply wp_ret, HQ.
  - apply wp_broadcast; [done|lia|]. intros r n1 H1. by apply wp_ret, HQ.
Qed.

Lemma wp_run_calls l n (Q : unit -> nst W ws_state -> Prop) :
  ws_ok (st n) -> Forall call_ok l ->
  (forall n1, ws_silent n n1 -> Q tt n1) -> wp (run_calls l) Q n.
Proof.
  intros Hok Hl. revert n Hok. induction Hl as [|c l Hc _ IH]; intros n Hok HQ; cbn [run_calls].
  { by apply wp_ret, HQ, ws_silent_refl. }
  apply wp_bind, wp_run_call; [done|done|]. intros n1 H1. apply IH; [by eapply ws_silent_ok|].
  intros n2 H2. apply HQ. by eapply ws_silent_trans.
Qed.

Lemma wp_run_handler `{!WsAppOk} cb n (Q : unit -> nst W ws_state -> Prop) :
  ws_ok (st n) ->
  (forall n1 t, ws_step [] n n1 -> tr n1 = tr n ++ [ECallback cb] ++ t -> Forall out_ev t -> Q tt n1) ->
  wp (run_handler cb) Q n.
Proof.
  intros Hok HQ. unfold run_handler. apply wp_bind, wp_gets. wp_steps.
  apply wp_run_calls; [done|apply app_handles|]. intros n1 [H1 (t & Ht & Hf)]. cbn [tr] in Ht.
  apply (HQ _ t); [|by rewrite Ht, <-app_assoc|done].
  eapply ws_step_nil; [|exact H1]. by apply ws_step_quiet.
Qed.

Lemma wp_recv_exact fuel sock len n (Q : Z * list Z -> nst W ws_state -> Prop) :
  ws_ok (st n) -> (len <= fuel)%nat ->
  (forall r d n1, ws_step [] n n1 -> st n1 = st n -> (length d <= len)%nat ->
   (r = 0 -> length d = len) -> Forall is_byte d -> Q (r, d) n1) ->
  wp (ws_recv_exact fuel sock len) Q n.
Proof.
  revert len n Q. induction fuel as [|fuel IH]; intros len n Q Hok Hl HQ; cbn [ws_recv_exact].
  { destruct len; [|lia]. apply wp_ret, HQ; try done. by apply ws_step_refl. }
  destruct (len =? 0)%nat eqn:H0.
  { apply Nat.eqb_eq in H0 as ->. apply wp_ret, HQ; try done. by apply ws_step_refl. }
  apply Nat.eqb_neq in H0. apply wp_bind, wp_call. intros [r d] w He.
  destruct (recv_len _ _ _ _ _ _ _ He) as [Hd Hb]; [lia|]. cbn beta iota.
  set (n1 := mk_nst w _ (st n)). assert (H1 : ws_step [] n n1) by (by apply ws_step_quiet).
  destruct (negb (r =? OVE_OK) || (length d =? 0)%nat) eqn:Hr.
  { apply wp_ret, HQ; try done. lia. }
  apply orb_false_elim in Hr as [_ Hd0]. apply Nat.eqb_neq in Hd0.
  apply wp_bind, IH; [done|lia|]. intros r' d' n2 H2 Hst2 Hl2 Hr2 Hb2. apply wp_ret, HQ.
  - by eapply ws_step_nil.
  - done.
  - rewrite length_app. lia.
  - intros ->. rewrite length_app, Hr2 by done. lia.
  - by apply Forall_app.
Qed.

Lemma length_unmask mask fb k : length (unmask mask fb k) = length fb.
Proof.
  unfold unmask. generalize (seq 0 k). intros l. revert fb.
  induction l as [|i l IH]; intros fb; simpl; [done|]. by rewrite IH, length_aset.
Qed.

Lemma wp_close_code sock code n (Q : unit -> nst W ws_state -> Prop) :
  ws_ok (st n) -> (forall n1, ws_step [] n n1 -> st n1 = st n -> Q tt n1) ->
  wp (ws_send_close_code sock code) Q n.
Proof. intros Hok HQ. apply wp_bind, wp_ws_send_all; [done|]. intros r n1 [H1 _] Hst. by apply wp_ret, HQ. Qed.

Lemma wp_payload_len sock len7 n (Q : option Z -> nst W ws_state -> Prop) :
  ws_ok (st n) -> (forall o n1, ws_step [] n n1 -> st n1 = st n -> Q o n1) ->
  wp (ws_payload_len sock len7) Q n.
Proof.
  intros Hok HQ. unfold ws_payload_len, recv_exact. destruct (len7 =? 126); [|destruct (len7 =? 127)].
  - apply wp_bind, wp_recv_exact; [done|lia|]. intros r d n1 H1 Hst _ _ _. cbn beta iota.
    destruct (negb (r =? 0)); by apply wp_ret, HQ.
  - apply wp_bind, wp_recv_exact; [done|lia|]. intros r d n1 H1 Hst _ _ _. cbn beta iota.
    destruct (negb (r =? 0)); [by apply wp_ret, HQ|]. destruct (negb (_ =? 0)); [|by apply wp_ret, HQ].
    apply wp_bind, wp_close_code; [by eapply ws_step_ok|]. intros n2 H2 Hst2.
    apply wp_ret, HQ; [by eapply ws_step_nil|congruence].
  - apply wp_ret, HQ; [by apply ws_step_refl|done].
Qed.

(** Slot [i] still holds a live connection. *)
Definition holds_live (i : nat) s : Prop := exists c, s_ws_pool s !! i = Some c /\ active c = true.

Lemma wp_ws_dispatch `{!WsAppOk} i op k n (Q : Z -> nst W ws_state -> Prop) :
  ws_ok (st n) -> holds_live i (st n) -> (k <= CONFIG_OVE_NET_HTTPD_WS_MAX_FRAME)%nat ->
  (forall r n1, ws_step [] n n1 -> (r < 0 -> holds_live i (st n1)) -> Q r n1) ->
  wp (ws_dispatch i op k) Q n.
Proof.
  intros Hok Hlive Hk HQ. assert (Hi : (i < CONFIG_OVE_NET_HTTPD_WS_MAX_CONNS)%nat).
  { destruct Hlive as (c & Hc & _). rewrite <-(ok_pool _ Hok). by eapply lookup_lt_Some. }
  unfold ws_dispatch. apply wp_bind, wp_conn_at; [done|done|]. intros c Hc Hlen.
  apply wp_bind. eapply wp_lift; [by rewrite (proj2 (Nat.leb_le _ _)) by lia|]. cbn beta.
  destruct (op =? WS_OP_CLOSE).
  { apply wp_bind, wp_bind, wp_ws_send_all; [done|]. intros r n1 [H1 _] Hst. wp_steps.
    apply HQ; [done|]. by rewrite Hst. }
  destruct (op =? WS_OP_PING).
  { apply wp_bind, wp_bind, wp_ws_send_all; [done|]. intros r n1 [H1 _] Hst.
    destruct (0 <? _)%nat; [|wp_steps; by apply HQ].
    apply wp_bind, wp_ws_send_all; [by eapply ws_step_ok|]. intros r2 n2 [H2 _] Hst2. wp_steps.
    apply HQ; [by eapply ws_step_nil|done]. }
  destruct (op =? WS_OP_PONG); [apply wp_ret, HQ; [by apply ws_step_refl|done]|].
  assert (Hend : forall n1, ws_step [] n n1 -> wp (mret 1) Q n1) by (intros n1 H1; apply wp_ret, HQ; done).
  pose proof (ws_step_refl _ Hok). wp_steps. destruct (_ || _); [|by apply wp_ret, Hend].
  destruct (ws_match_route _ _) as [r|]; [|by apply wp_ret, Hend].
  destruct (negb _); [|by apply wp_ret, Hend]. apply wp_run_handler; [done|]. intros n1 t H1 _ _. by apply Hend.
Qed.

Lemma holds_live_alter i f s :
  (forall c, active (f c) = active c) -> holds_live i s ->
  holds_live i {| s with s_ws_pool := alter f i (s_ws_pool s) |}.
Proof.
  intros Hf (c & Hc & Ha). exists (f c). simpl. by rewrite list_lookup_alter_eq, Hc, Hf.
Qed.

(** Writing the frame buffer of slot [i]. *)
Lemma frame_step i g n :
  ws_ok (st n) -> (forall fb, length fb = CONFIG_OVE_NET_HTTPD_WS_MAX_FRAME -> length (g fb) = length fb) ->
  ws_step [] n (mk_nst (nw n) (tr n)
  {| (st n) with s_ws_pool := alter (fun c => {| c with frame_buf := g (frame_buf c) |}) i (s_ws_pool (st n)) |}).
Proof.
  intros Hok Hg. rewrite <-(app_nil_r (tr n)). apply ws_step_quiet; try done.
  - apply ws_ok_alter; [done|]. simpl. intros c Hc. by rewrite Hg.
  - by apply live_alter_same.
Qed.

Lemma wp_recv_frame `{!WsAppOk} i n (Q : Z -> nst W ws_state -> Prop) :
  ws_ok (st n) -> holds_live i (st n) ->
  (forall r n1, ws_step [] n n1 -> (r < 0 -> holds_live i (st n1)) -> Q r n1) ->
  wp (ws_recv_frame i) Q n.
Proof.
  intros Hok Hlive HQ. assert (Hi : (i < CONFIG_OVE_NET_HTTPD_WS_MAX_CONNS)%nat).
  { destruct Hlive as (c & Hc & _). rewrite <-(ok_pool _ Hok). by eapply lookup_lt_Some. }
  assert (Hsame : forall r n1, ws_step [] n n1 -> st n1 = st n -> wp (mret r) Q n1).
  { intros r n1 H1 Hst. apply wp_ret, HQ; [done|]. by rewrite Hst. }
  assert (Hcode : forall k code n1, ws_step [] n n1 -> st n1 = st n ->
          wp (ws_send_close_code k code;; mret (-1)) Q n1).
  { intros k code n1 H1 Hst. apply wp_bind, wp_close_code; [by eapply ws_step_ok|].
    intros n2 H2 Hst2. apply Hsame; [by eapply ws_step_nil|congruence]. }
  unfold ws_recv_frame, recv_exact. apply wp_bind, wp_conn_at; [done|done|]. intros c Hc Hlen.
  apply wp_bind, wp_call. intros [r v] w _. set (n1 := mk_nst w _ (st n)).
  assert (H1 : ws_step [] n n1) by (by apply ws_step_quiet). cbn beta iota.
  destruct (negb (r =? OVE_OK)); [by apply Hsame|]. destruct (negb (_ =? 0)); [by apply Hsame|].
  destruct (_ =? 0); [by apply Hsame|].
  apply wp_bind, wp_recv_exact; [done|lia|]. intros r2 hdr n2 H2 Hst2 _ _ _. cbn beta iota.
  change (st n1) with (st n) in Hst2. assert (H02 : ws_step [] n n2) by (by eapply ws_step_nil).
  destruct (negb (r2 =? 0)); [by apply Hsame|]. destruct (negb (negb _)); [by apply Hcode|].
  apply wp_bind, wp_payload_len; [by eapply ws_step_ok|]. intros o n3 H3 Hst3.
  assert (H03 : ws_step [] n n3) by (by eapply ws_step_nil).
  assert (Hs3 : st n3 = st n) by congruence.
  destruct o as [plen|]; [|by apply Hsame]. destruct (_ && _); [by apply Hcode|].
  destruct (Z.of_nat _ <? plen) eqn:Hmax; [by apply Hcode|]. apply Z.ltb_ge in Hmax.
  apply wp_bind, wp_recv_exact; [by eapply ws_step_ok|lia|]. intros r4 mask n4 H4 Hst4 _ _ _. cbn beta iota.
  assert (H04 : ws_step [] n n4) by (by eapply ws_step_nil).
  assert (Hs4 : st n4 = st n) by congruence.
  destruct (negb (r4 =? 0)); [by apply Hsame|].
  apply wp_bind, wp_recv_exact; [by eapply ws_step_ok|lia|]. intros r5 d n5 H5 Hst5 Hd5 _ _. cbn beta iota.
  assert (H05 : ws_step [] n n5) by (by eapply ws_step_nil).
  assert (Hs5 : st n5 = st n) by congruence.
  unfold conn_mod. wp_steps.
  pose proof (frame_step i (fun fb => d ++ drop (length d) fb) n5 (ws_step_ok _ _ _ H05)) as H6.
  match goal with |- wp _ _ ?m => set (n6 := m) in * end.
  assert (H06 : ws_step [] n n6).
  { eapply ws_step_nil; [exact H05|]. apply H6. intros fb Hfb. rewrite length_app, length_drop. lia. }
  assert (Hl6 : holds_live i (st n6)) by (apply holds_live_alter; [done|by rewrite Hs5]).
  destruct (negb (r5 =? 0)); [by apply wp_ret, HQ|]. wp_steps.
  pose proof (frame_step i (fun fb => unmask mask fb (Z.to_nat plen)) n6 (ws_step_ok _ _ _ H06)) as H7.
  match goal with |- wp _ _ ?m => set (n7 := m) in * end.
  assert (H07 : ws_step [] n n7).
  { eapply ws_step_nil; [exact H06|]. apply H7. intros fb _. apply length_unmask. }
  apply wp_ws_dispatch; [by eapply ws_step_ok|by apply holds_live_alter|lia|].
  intros r8 n8 H8 Hl8. apply HQ; [by eapply ws_step_nil|done].
Qed.

Lemma wp_poll_loop `{!WsAppOk} k i n (Q : unit -> nst W ws_state -> Prop) :
  ws_ok (st n) -> (i + k <= CONFIG_OVE_NET_HTTPD_WS_MAX_CONNS)%nat ->
  (forall n1, ws_step [] n n1 -> Q tt n1) -> wp (poll_loop k i) Q n.
Proof.
  revert i n. induction k as [|k IH]; intros i n Hok Hi HQ; cbn [poll_loop].
  { by apply wp_ret, HQ, ws_step_refl. }
  apply wp_bind, wp_conn_at; [done|lia|]. intros c Hc _.
  destruct (active c) eqn:Ha; cbn [negb]; [|apply IH; [done|lia|done]].
  assert (Hnext : forall n1, ws_step [] n n1 -> wp (poll_loop k (S i)) Q n1).
  { intros n1 H1. apply IH; [by eapply ws_step_ok|lia|]. intros n2 H2. apply HQ. by eapply ws_step_nil. }
  apply wp_bind, wp_recv_frame; [done|by exists c|]. intros r n1 H1 Hlive.
  pose proof (ws_step_ok _ _ _ H1) as Hok1.
  apply wp_bind. destruct (r <? 0) eqn:Hr; [|by apply wp_ret, Hnext].
  apply Z.ltb_lt, Hlive in Hr as (c1 & Hc1 & Ha1). wp_steps. apply wp_conn_at; [done|lia|].
  intros c2 Hc2 _. rewrite Hc1 in Hc2. injection Hc2 as <-. apply wp_bind.
  assert (Hfree : forall n2, ws_step [] n n2 -> st n2 = st n1 ->
          wp (ws_pool_free i) (fun _ => wp (poll_loop k (S i)) Q) n2).
  { intros n2 H2 Hst. apply (wp_pool_free i n2 c1); rewrite ?Hst; try done.
    intros n3 [H3 _]. apply Hnext. by eapply ws_step_nil. }
  destruct (ws_match_route _ _) as [rt|]; [|by apply wp_ret, Hfree].
  destruct (negb _); [|by apply wp_ret, Hfree].
  unfold run_handler. apply wp_bind, wp_gets. rewrite app_close_quiet. cbn [run_calls]. wp_steps.
  apply Hfree; [|done]. eapply ws_step_nil; [exact H1|]. by apply ws_step_quiet.
Qed.

Lemma wp_handshake headers path sock n (Q : Z -> nst W ws_state -> Prop) :
  ws_ok (st n) ->
  (forall r n1, ws_step (if r =? 0 then [sock] else []) n n1 -> Q r n1) ->
  wp (ove_httpd_ws_handshake headers path sock) Q n.
Proof.
  intros Hok HQ. pose proof (ws_step_refl _ Hok) as H0.
  assert (Hno : forall n1, ws_step [] n n1 -> wp (mret (-1)) Q n1) by (intros n1 H1; by apply wp_ret, HQ).
  unfold ove_httpd_ws_handshake. wp_steps.
  destruct (ws_match_route _ _); [|by apply Hno]. destruct (find_header _ _ _) as [kh|]; [|by apply Hno].
  destruct (128 <=? _)%nat; [by apply Hno|]. destruct (ws_pool_alloc (st n)) as [i|] eqn:Hi; [|by apply Hno].
  unfold ws_pool_alloc in Hi. apply find_idx_Some in Hi as [(c & Hc & Ha) _]. apply negb_true_iff in Ha.
  apply wp_bind, wp_ws_send_all; [done|]. intros r n1 [H1 _] Hst. unfold conn_mod. rewrite <-Hst in Hc.
  pose proof (ws_step_ok _ _ _ H1) as Hok1.
  destruct (negb (r =? OVE_OK)); wp_steps.
  - apply HQ. eapply ws_step_nil; [exact H1|]. rewrite <-(app_nil_r (tr n1)).
    split_and!; [by apply ws_ok_alter|done|done|]. exists []. split_and!; [done|done|].
    destruct (live_alter _ _ _ (fun c => {| c with active := false |}) Hc) as (rest & Hp1 & Hp2).
    cbn [st s_ws_pool]. by rewrite Hp1, Hp2, Ha.
  - apply HQ. change (if 0 =? 0 then [sock] else []) with ([sock] ++ []).
    eapply ws_step_trans; [exact H1|]. split_and!; [by apply ws_ok_alter|done|done|].
    exists []. split_and!; [by rewrite app_nil_r|done|].
    destruct (live_alter _ _ _ (fun c => {| c with c_sock := sock; c_path := strncpy_z 64 path; active := true |}) Hc)
      as (rest & Hp1 & Hp2).
    cbn [st s_ws_pool]. by rewrite Hp1, Hp2, Ha.
Qed.

(** *** Operations of the server, in any order *)

Inductive ws_op :=
  | WoRoute (path : list Z) (msg close : Z)
  | WoHandshake (headers path : list Z) (sock : Z)
  | WoCall (c : ws_call)
  | WoPoll.

(** The sockets the pool accepts from the caller. *)
Definition ws_exec (op : ws_op) : MO (nst W ws_state) (list Z) :=
  match op with
  | WoRoute path msg close => _ ← ove_httpd_ws_route path msg close; mret []
  | WoHandshake headers path sock =>
      r ← ove_httpd_ws_handshake headers path sock; mret (if r =? 0 then [sock] else [])
  | WoCall c => run_call c;; mret []
  | WoPoll => ove_httpd_ws_poll;; mret []
  end.

Fixpoint ws_run (ops : list ws_op) : MO (nst W ws_state) (list Z) :=
  match ops with
  | [] => mret []
  | op :: ops => a ← ws_exec op; b ← ws_run ops; mret (a ++ b)
  end.

Definition op_ok (op : ws_op) : Prop := match op with WoCall c => call_ok c | _ => True end.

Definition ws_owns (acc : list Z) n (n1 : nst W ws_state) : Prop :=
  ws_ok (st n1) /\ exists t, tr n1 = tr n ++ t /\
  closes t ++ live_socks (s_ws_pool (st n1)) ≡ₚ acc ++ live_socks (s_ws_pool (st n)).

Lemma ws_step_owns acc n n1 : ws_step acc n n1 -> ws_owns acc n n1.
Proof. intros (? & _ & _ & t & ? & _ & ?). split; [done|]. by exists t. Qed.

Lemma ws_owns_trans acc acc' n n1 n2 :
  ws_owns acc n n1 -> ws_owns acc' n1 n2 -> ws_owns (acc ++ acc') n n2.
Proof.
  intros (_ & t1 & Ht1 & Hp1) (Hok & t2 & Ht2 & Hp2). split; [done|]. exists (t1 ++ t2).
  split; [by rewrite Ht2, Ht1, app_assoc|]. rewrite closes_app, <-app_assoc, Hp2.
  rewrite (Permutation_app_comm acc acc'), <-(app_assoc acc'), <-Hp1.
  apply Permutation_app_swap_app.
Qed.

Lemma wp_route path msg close n (Q : Z -> nst W ws_state -> Prop) :
  ws_ok (st n) -> (forall r n1, ws_owns [] n n1 -> Q r n1) -> wp (ove_httpd_ws_route path msg close) Q n.
Proof.
  intros Hok HQ. unfold ove_httpd_ws_route. wp_steps.
  destruct (WS_MAX_ROUTES <=? _)%nat eqn:Hm; [by apply wp_ret, HQ, ws_step_owns, ws_step_refl|].
  apply Nat.leb_gt in Hm. wp_steps. apply HQ. split.
  - destruct Hok. split; simpl; try done. by rewrite length_aset.
  - exists []. by rewrite app_nil_r.
Qed.

Lemma wp_exec `{!WsAppOk} op n :
  ws_ok (st n) -> op_ok op -> wp (ws_exec op) (fun acc => ws_owns acc n) n.
Proof.
  intros Hok Hop. destruct op as [path msg close|headers path sock|c|]; cbn [ws_exec]; apply wp_bind.
  - apply wp_route; [done|]. intros r n1 H1. by apply wp_ret.
  - apply wp_handshake; [done|]. intros r n1 H1. by apply wp_ret, ws_step_owns.
  - apply wp_run_call; [done|done|]. intros n1 [H1 _]. by apply wp_ret, ws_step_owns.
  - apply wp_poll_loop; [done|lia|]. intros n1 H1. by apply wp_ret, ws_step_owns.
Qed.


End ownership.

(** ** Frames

    A reference parser for RFC 6455 frames: FIN, opcode, masking key, raw
    payload and what follows. *)

Definition be_value (l : list Z) : Z := foldl (fun a b => a * 256 + b) 0 l.

Definition take_exact (k : nat) (s : list Z) : option (list Z * list Z) :=
  if (k <=? length s)%nat then Some (take k s, drop k s) else None.

Definition parse_frame (s : list Z) : option (bool * Z * option (list Z) * list Z * list Z) :=
  '(hdr, s) ← take_exact 2 s;
  let b0 := aget 0 hdr 0 in
  let b1 := aget 0 hdr 1 in
  let len7 := Z.land b1 0x7F in
  '(ext, s) ← (if len7 =? 126 then take_exact 2 s else if len7 =? 127 then take_exact 8 s else Some ([len7], s));
  '(mask, s) ← (if Z.land b1 0x80 =? 0 then Some (None, s)
                else '(m, s) ← take_exact 4 s; Some (Some m, s));
  '(payload, s) ← take_exact (Z.to_nat (be_value ext)) s;
  Some (negb (Z.land b0 0x80 =? 0), Z.land b0 0x0F, mask, payload, s).

(** XOR with the repeated masking key. *)
Definition masked (mask d : list Z) : list Z := imap (fun i b => Z.lxor b (aget 0 mask (i mod 4)%nat)) d.

Lemma take_exact_app k a b : length a = k -> take_exact k (a ++ b) = Some (a, b).
Proof.
  intros <-. unfold take_exact. rewrite (proj2 (Nat.leb_le _ _)) by (rewrite length_app; lia).
  by rewrite take_app_length, drop_app_length.
Qed.

Lemma take_exact_Some k s a b : take_exact k s = Some (a, b) -> s = a ++ b /\ length a = k.
Proof.
  unfold take_exact. destruct (k <=? length s)%nat eqn:Hk; [|done]. apply Nat.leb_le in Hk.
  intros [= <- <-]. by rewrite take_drop, length_take_le.
Qed.

(** The header written for a payload is parsed back to its length. *)
Lemma parse_ws_header data rest :
  Z.of_nat (length data) < 2 ^ 32 ->
  parse_frame (ws_header (Z.of_nat (length data)) ++ data ++ rest) = Some (true, WS_OP_TEXT, None, data, rest).
Proof.
  intros Hl. set (len := Z.of_nat (length data)) in *. assert (H0 : 0 <= len) by lia.
  assert (Hgo : forall hdr ext, length hdr = 2%nat -> aget 0 hdr 0 = 0x81 ->
    Z.land (aget 0 hdr 1) 0x80 = 0 ->
    (let l7 := Z.land (aget 0 hdr 1) 0x7F in
     (if l7 =? 126 then length ext = 2%nat /\ be_value ext = len
      else if l7 =? 127 then length ext = 8%nat /\ be_value ext = len else ext = [] /\ l7 = len)) ->
    parse_frame (hdr ++ ext ++ data ++ rest) = Some (true, WS_OP_TEXT, None, data, rest)).
  { intros hdr ext Hh Hb0 Hb1 Hl7. unfold parse_frame. rewrite (take_exact_app 2) by done.
    cbn [mbind option_bind]. cbv zeta in *. rewrite Hb0, Hb1. change (0 =? 0) with true.
    assert (Hd : take_exact (Z.to_nat len) (data ++ rest) = Some (data, rest)).
    { unfold len. rewrite Nat2Z.id. by apply take_exact_app. }
    destruct (Z.land (aget 0 hdr 1) 127 =? 126); [|destruct (Z.land (aget 0 hdr 1) 127 =? 127)].
    - destruct Hl7 as [He Hv]. rewrite take_exact_app by done. cbn [mbind option_bind]. by rewrite Hv, Hd.
    - destruct Hl7 as [He Hv]. rewrite take_exact_app by done. cbn [mbind option_bind]. by rewrite Hv, Hd.
    - destruct Hl7 as [-> Hv]. cbn [app mbind option_bind]. rewrite Hv.
      change (be_value [len]) with len. by rewrite Hd. }
  unfold ws_header. fold len. destruct (len <? 126) eqn:H126; [|destruct (len <=? 0xFFFF) eqn:H16].
  - apply Z.ltb_lt in H126. apply (Hgo [Z.lor 128 WS_OP_TEXT; u8 len] []); [done|done|..].
    all: change (aget 0 [Z.lor 128 WS_OP_TEXT; u8 len] 1) with (u8 len).
    all: rewrite wrap_small by (unfold is_word; lia).
    all: assert (Hm : Z.land len 127 = len) by (rewrite (land_ones_mod len 7) by done; apply Z.mod_small; lia).
    + assert (Hb : Forall (fun x => x < 128 -> Z.land x 128 = 0) (Z.of_nat <$> seq 0 256))
        by (repeat (constructor; [by vm_compute|]); constructor).
      assert (Hw : is_byte len) by (unfold is_word; change (2 ^ 8) with 256; lia).
      apply (byte_cases _ Hb len Hw). lia.
    + cbv zeta. rewrite Hm, (proj2 (Z.eqb_neq _ _)), (proj2 (Z.eqb_neq _ _)) by lia. done.
  - apply Z.leb_le in H16. apply (Hgo [Z.lor 128 WS_OP_TEXT; 126] [_; _]); [done|done|done|].
    cbn -[be_value u8]. split; [done|]. unfold be_value. simpl foldl.
    rewrite Z.shiftr_div_pow2 by done. unfold wrap. change (2 ^ 8) with 256. dlia.
  - apply (Hgo [Z.lor 128 WS_OP_TEXT; 127] [_; _; _; _; _; _; _; _]); [done|done|done|].
    cbn -[be_value u8]. split; [done|]. unfold be_value. simpl foldl.
    rewrite !Z.shiftr_div_pow2 by done. unfold wrap. change (2 ^ 8) with 256.
    change (2 ^ 24) with 16777216. change (2 ^ 16) with 65536. change (2 ^ 32) with 4294967296 in *. dlia.
Qed.

Section frames.
Context {W : Type} {E : NetEnv W} {L : NetLaws W} {P : SendProgress W} {App : WsApp W} {Cfg : WsConfig}.
Implicit Types (n : nst W ws_state) (s : ws_state).

(** The outcome of sending [data] on slot [i]. *)
Definition send_post i c (data : list Z) n (r : Z) (n1 : nst W ws_state) : Prop :=
  exists t, tr n1 = tr n ++ t /\
  if r =? OVE_OK
  then st n1 = st n /\
       forall rest, parse_frame (wire (c_sock c) t ++ rest) = Some (true, WS_OP_TEXT, None, data, rest)
  else (exists k, wire (c_sock c) t = take k (ws_header (Z.of_nat (length data)) ++ data)) /\
       closes t = [c_sock c] /\ ~ holds_live i (st n1).

Lemma wp_send_failed i c data r n0 n t :
  s_ws_pool (st n) !! i = Some c -> r <> OVE_OK -> tr n = tr n0 ++ t -> closes t = [] ->
  (exists k, wire (c_sock c) t = take k (ws_header (Z.of_nat (length data)) ++ data)) ->
  wp (ws_pool_free i;; mret r) (send_post i c data n0) n.
Proof.
  intros Hc Hr Htr Hcl Hk. unfold ws_pool_free, conn_at, conn_mod. wp_steps.
  eapply wp_lift; [exact Hc|]. wp_steps. exists (t ++ [EClose (c_sock c)]).
  cbn [tr st]. rewrite Htr, <-app_assoc, (proj2 (Z.eqb_neq _ _) Hr), wire_app, closes_app, Hcl.
  split_and!; [done| |done|].
  - unfold wire at 2. simpl. by rewrite app_nil_r.
  - intros (c' & Hc' & Ha). simpl in Hc'. rewrite list_lookup_alter_eq, Hc in Hc'. by injection Hc' as <-.
Qed.

Lemma take_header k a b : exists j, take k a = take j (a ++ b : list Z).
Proof.
  exists (k `min` length a)%nat. rewrite take_app_le by lia. apply list_eq. intros i.
  destruct (decide (i < k)%nat), (decide (i < length a)%nat).
  - by rewrite !lookup_take_lt by lia.
  - rewrite lookup_take_lt by lia. rewrite lookup_take_ge by lia. apply lookup_ge_None. lia.
  - by rewrite !lookup_take_ge by lia.
  - by rewrite !lookup_take_ge by lia.
Qed.

(** Sending on a live connection puts exactly one well-formed frame on
    the wire: if the call succeeds, a parser of RFC 6455 reads a final,
    unmasked text frame with exactly the given payload and nothing more;
    otherwise a proper prefix of that frame was written, the connection's
    socket has been closed exactly once and its slot is free.  The payload
    must be shorter than 2^32 bytes. *)
Theorem ws_send_roundtrip i c data n :
  s_ws_pool (st n) !! i = Some c -> active c = true -> Z.of_nat (length data) < 2 ^ 32 ->
  wp (ove_httpd_ws_send (Some i) data) (send_post i c data n) n.
Proof.
  intros Hc Ha Hl. unfold ove_httpd_ws_send. apply wp_bind. unfold conn_at. wp_steps.
  eapply wp_lift; [exact Hc|]. rewrite Ha. cbn [negb].
  apply wp_bind, wp_send_all; [done|]. intros r w t Ht [k Hk] Hall _.
  pose proof (sends_closes _ _ Ht) as Hcl.
  destruct (r =? OVE_OK) eqn:Hr; cbn [negb].
  2:{ apply (wp_send_failed i c data r n _ t); [done|by apply Z.eqb_neq|done|done|].
      rewrite Hk. apply take_header. }
  apply Z.eqb_eq in Hr as ->. specialize (Hall eq_refl).
  destruct (0 <? length data)%nat eqn:H0.
  2:{ apply wp_ret. exists t. rewrite Z.eqb_refl. split_and!; [done|done|]. intros rest. rewrite Hall.
      destruct data; [|done]. by apply (parse_ws_header [] rest). }
  apply wp_bind, wp_send_all; [done|]. intros r2 w2 t2 Ht2 [k2 Hk2] Hall2 _. cbn [tr st nw].
  destruct (r2 =? OVE_OK) eqn:Hr2; cbn [negb].
  - apply wp_ret. exists (t ++ t2). cbn [tr st]. rewrite Hr2 || rewrite Z.eqb_refl.
    apply Z.eqb_eq in Hr2. specialize (Hall2 Hr2). split_and!; [by rewrite app_assoc|done|].
    intros rest. rewrite wire_app, Hall, Hall2, <-app_assoc. by apply parse_ws_header.
  - apply (wp_send_failed i c data r2 n _ (t ++ t2)); cbn [st tr];
      [done|by apply Z.eqb_neq|by rewrite app_assoc|by rewrite closes_app, Hcl, (sends_closes _ _ Ht2)|].
    exists (length (ws_header (Z.of_nat (length data))) + k2)%nat.
    by rewrite wire_app, Hall, Hk2, take_app_add.
Qed.

(** *** Receiving *)

Lemma masked_nth mask d i : masked mask d !! i = (fun b => Z.lxor b (aget 0 mask (i mod 4)%nat)) <$> d !! i.
Proof. apply list_lookup_imap. Qed.

Lemma unmask_S mask fb k :
  unmask mask fb (S k)
  = aset (unmask mask fb k) k (Z.lxor (aget 0 (unmask mask fb k) k) (aget 0 mask (k mod 4)%nat)).
Proof. unfold unmask. rewrite seq_S, foldl_app. done. Qed.

Lemma unmask_lookup mask fb k j :
  unmask mask fb k !! j =
  if decide (j < k)%nat then (fun b => Z.lxor b (aget 0 mask (j mod 4)%nat)) <$> fb !! j else fb !! j.
Proof.
  revert j. induction k as [|k IH]; intros j; [by rewrite decide_False by lia|].
  rewrite unmask_S. destruct (decide (j = k)) as [->|Hne].
  - rewrite decide_True by lia. destruct (decide (k < length fb)%nat).
    + unfold aset. rewrite list_lookup_insert_eq by (rewrite length_unmask; lia).
      unfold aget at 1. rewrite IH, decide_False by lia.
      destruct (lookup_lt_is_Some_2 fb k) as [b ->]; done.
    + rewrite (lookup_ge_None_2 fb k) by lia. apply lookup_ge_None_2. rewrite length_aset, length_unmask. lia.
  - unfold aset. rewrite list_lookup_insert_ne, IH by done.
    destruct (decide (j < k)%nat); [by rewrite decide_True by lia|by rewrite decide_False by lia].
Qed.

(** The loop computes the XOR of the received prefix. *)
Lemma unmask_prefix mask d rest : take (length d) (unmask mask (d ++ rest) (length d)) = masked mask d.
Proof.
  apply list_eq. intros j. rewrite masked_nth. destruct (decide (j < length d)%nat).
  - rewrite lookup_take_lt, unmask_lookup, decide_True, lookup_app_l by lia. done.
  - rewrite lookup_take_ge, (lookup_ge_None_2 d j) by lia. done.
Qed.

Context {S : ByteStream W}.

Definition recvd1 (k : Z) (e : ev) : list Z :=
  match e with ERecv k' _ r d => if (k =? k') && (r =? OVE_OK) then d else [] | _ => [] end.
Definition recvd (k : Z) (t : list ev) : list Z := concat (recvd1 k <$> t).
Definition callbacks (t : list ev) : list callback :=
  omap (fun e => match e with ECallback c => Some c | _ => None end) t.
Definition in_ev (e : ev) : Prop := match e with ERecv _ _ _ _ | EPoll _ _ _ _ => True | _ => False end.

Lemma recvd_app k t t' : recvd k (t ++ t') = recvd k t ++ recvd k t'.
Proof. unfold recvd. by rewrite fmap_app, concat_app. Qed.

Lemma callbacks_app t t' : callbacks (t ++ t') = callbacks t ++ callbacks t'.
Proof. apply omap_app. Qed.

Lemma in_ev_silent k t : Forall in_ev t -> callbacks t = [] /\ wire k t = [].
Proof. induction 1 as [|e t He _ [IH1 IH2]]; [done|]. unfold wire in *. destruct e; simpl in *; try done. Qed.

Lemma out_ev_silent k t : Forall out_ev t -> callbacks t = [] /\ recvd k t = [].
Proof. induction 1 as [|e t He _ [IH1 IH2]]; [done|]. unfold recvd in *. destruct e; simpl in *; try done. Qed.

(** From [n] to [n1] the server only received, and every waiting byte was
    either received or still waits. *)
Definition consumed (k : Z) n (n1 : nst W ws_state) : Prop :=
  exists t, tr n1 = tr n ++ t /\ Forall in_ev t /\ recvd k t ++ pending k (nw n1) = pending k (nw n).

Lemma consumed_trans k n n1 n2 : consumed k n n1 -> consumed k n1 n2 -> consumed k n n2.
Proof.
  intros (t1 & Ht1 & Hf1 & Hp1) (t2 & Ht2 & Hf2 & Hp2). exists (t1 ++ t2).
  split_and!; [by rewrite Ht2, Ht1, app_assoc|by apply Forall_app|].
  by rewrite recvd_app, <-app_assoc, Hp2.
Qed.

Lemma wp_recv_stream fuel k d rest len n (Q : Z * list Z -> nst W ws_state -> Prop) :
  pending k (nw n) = d ++ rest -> length d = len -> (len <= fuel)%nat ->
  (forall n1, st n1 = st n -> pending k (nw n1) = rest -> consumed k n n1 -> Forall is_byte d -> Q (0, d) n1) ->
  wp (ws_recv_exact fuel k len) Q n.
Proof.
  revert d len n Q. induction fuel as [|fuel IH]; intros d len n Q Hp Hd Hl HQ; cbn [ws_recv_exact].
  all: assert (Hnil : d = [] -> Q (0, []) n) by
    (intros ->; apply HQ; [done|done|exists []; by rewrite app_nil_r|constructor]).
  { destruct len; [|lia]. apply wp_ret, Hnil. by apply nil_length_inv. }
  destruct (len =? 0)%nat eqn:H0.
  { apply Nat.eqb_eq in H0. apply wp_ret, Hnil, nil_length_inv. congruence. }
  apply Nat.eqb_neq in H0. apply wp_bind, wp_call. intros [r d1] w He.
  destruct (recv_len _ _ _ _ _ _ _ He) as [Hd1 Hb]; [lia|].
  assert (Hne : pending k (nw n) <> []) by (rewrite Hp; destruct d; [simpl in Hd; lia|done]).
  destruct (stream_recv _ _ _ _ _ _ _ He ltac:(lia) Hne) as (-> & Hd1ne & Hpd). cbn beta iota.
  assert (Hpos : (0 < length d1)%nat) by (destruct d1; [done|simpl; lia]).
  rewrite Z.eqb_refl, (proj2 (Nat.eqb_neq (length d1) 0)) by lia. cbn [negb orb].
  assert (Hsplit : exists d2, d = d1 ++ d2 /\ pending k w = d2 ++ rest).
  { rewrite Hp in Hpd. exists (drop (length d1) d).
    assert (Htk : take (length d1) (d ++ rest) = d1) by (rewrite Hpd; apply take_app_length).
    assert (Hdk : drop (length d1) (d ++ rest) = pending k w) by (rewrite Hpd; apply drop_app_length).
    rewrite take_app_le in Htk by lia. rewrite drop_app_le in Hdk by lia.
    split; [rewrite <-Htk at 1; by rewrite take_drop|done]. }
  destruct Hsplit as (d2 & -> & Hp2). rewrite length_app in Hd.
  apply wp_bind, (IH d2); [done|lia|lia|]. intros n2 Hst2 Hrest Hc2 Hb2. apply wp_ret.
  apply HQ; [done|done| |by apply Forall_app].
  eapply consumed_trans; [|exact Hc2]. exists [ERecv k (Z.of_nat len) OVE_OK d1]. cbn [tr nw].
  split_and!; [done|by repeat constructor|]. unfold recvd. simpl. rewrite !Z.eqb_refl. simpl.
  by rewrite app_nil_r.
Qed.

(** The code's big-endian reads agree with [be_value]. *)
Lemma be16_code ext : length ext = 2%nat -> Forall is_byte ext ->
  Z.lor (Z.shiftl (aget 0 ext 0) 8) (aget 0 ext 1) = be_value ext.
Proof.
  intros Hl Hb. destruct ext as [|a [|b [|]]]; try done.
  apply Forall_cons in Hb as [Ha Hb]. apply Forall_cons in Hb as [Hb _]. unfold is_word in *.
  unfold aget, be_value. simpl. by rewrite lor_shiftl_add.
Qed.

Lemma be64_code ext : length ext = 8%nat -> Forall is_byte ext -> be_value ext < 2 ^ 31 ->
  Z.lor (Z.lor (Z.lor (aget 0 ext 0) (aget 0 ext 1)) (aget 0 ext 2)) (aget 0 ext 3) = 0 /\
  Z.lor (Z.lor (Z.lor (Z.shiftl (aget 0 ext 4) 24) (Z.shiftl (aget 0 ext 5) 16))
         (Z.shiftl (aget 0 ext 6) 8)) (aget 0 ext 7) = be_value ext.
Proof.
  intros Hl Hb Hv. destruct ext as [|a0 [|a1 [|a2 [|a3 [|a4 [|a5 [|a6 [|a7 [|]]]]]]]]]; try done.
  rewrite !Forall_cons in Hb. destruct Hb as (B0 & B1 & B2 & B3 & B4 & B5 & B6 & B7 & _).
  unfold is_word in *. change (2 ^ 8) with 256 in *. change (2 ^ 31) with 2147483648 in Hv.
  unfold be_value in *. simpl foldl in *. cbv [aget lookup list_lookup default from_option id].
  assert (a0 = 0 /\ a1 = 0 /\ a2 = 0 /\ a3 = 0) as (-> & -> & -> & ->) by lia. split; [done|].
  rewrite <-!Z.lor_assoc. change 256 with (2 ^ 8) in B4, B5, B6, B7.
  rewrite (lor_shiftl_add a6 a7 8) by lia. rewrite (lor_shiftl_add a5 _ 16) by lia.
  rewrite (lor_shiftl_add a4 _ 24) by lia. lia.
Qed.

Lemma wp_payload_stream k len7 ext (s' : list Z) n (Q : option Z -> nst W ws_state -> Prop) :
  (if len7 =? 126 then take_exact 2 (pending k (nw n))
   else if len7 =? 127 then take_exact 8 (pending k (nw n)) else Some ([len7], pending k (nw n))) = Some (ext, s') ->
  be_value ext < 2 ^ 31 ->
  (forall n1, st n1 = st n -> pending k (nw n1) = s' -> consumed k n n1 -> Q (Some (be_value ext)) n1) ->
  wp (ws_payload_len k len7) Q n.
Proof.
  intros He Hv HQ. unfold ws_payload_len, recv_exact. destruct (len7 =? 126); [|destruct (len7 =? 127)].
  - apply take_exact_Some in He as [He Hl]. apply wp_bind, (wp_recv_stream _ _ ext s'); [done|done|done|].
    intros n1 Hst Hp Hc Hb. cbn beta iota. apply wp_ret. rewrite be16_code by done. by apply HQ.
  - apply take_exact_Some in He as [He Hl]. apply wp_bind, (wp_recv_stream _ _ ext s'); [done|done|done|].
    intros n1 Hst Hp Hc Hb. cbn beta iota. destruct (be64_code ext Hl Hb Hv) as [-> ->].
    apply wp_ret. by apply HQ.
  - injection He as <- <-. apply wp_ret. change len7 with (be_value [len7]). apply HQ; [done|done|].
    exists []. by rewrite app_nil_r.
Qed.

(** What processing a complete frame does: the result of the call, the
    application callbacks and the bytes sent back. *)
Definition frame_outcome i c s (op : Z) (payload : list Z) (r : Z) (t : list ev) : Prop :=
  if op =? WS_OP_CLOSE then r = -1 /\ callbacks t = []
  else if op =? WS_OP_PING then r = 0 /\ callbacks t = [] /\
  (Forall send_ok t -> wire (c_sock c) t = [Z.lor 0x80 WS_OP_PONG; u8 (Z.of_nat (length payload))] ++ payload)
  else if op =? WS_OP_PONG then r = 0 /\ callbacks t = [] /\ wire (c_sock c) t = []
  else if (op =? WS_OP_TEXT) || (op =? WS_OP_BIN) then r = 1 /\
  callbacks t = match ws_match_route s (c_path c) with
                | Some rt => if on_message rt =? 0 then [] else [CbWsMessage (on_message rt) i payload]
                | None => []
                end
  else r = 1 /\ callbacks t = [].

Lemma sends_callbacks k t : sends_on k t -> callbacks t = [] /\ recvd k t = [].
Proof.
  intros Hs. apply out_ev_silent. eapply Forall_impl; [exact Hs|]. by intros e (d & r & m & ->).
Qed.

Lemma wp_dispatch_outcome `{!WsAppOk} i c op k n (Q : Z -> nst W ws_state -> Prop) :
  ws_ok (st n) -> s_ws_pool (st n) !! i = Some c -> (k <= length (frame_buf c))%nat ->
  (forall r n1 t, tr n1 = tr n ++ t -> recvd (c_sock c) t = [] ->
   frame_outcome i c (st n) op (take k (frame_buf c)) r t -> Q r n1) ->
  wp (ws_dispatch i op k) Q n.
Proof.
  intros Hok Hc Hk HQ. unfold ws_dispatch, conn_at, frame_outcome in *. wp_steps.
  eapply wp_lift; [exact Hc|]. cbn beta. apply wp_bind.
  eapply wp_lift; [by rewrite (proj2 (Nat.leb_le _ _)) by lia|]. cbn beta.
  set (payload := take k (frame_buf c)) in *.
  destruct (op =? WS_OP_CLOSE).
  { apply wp_bind, wp_bind, wp_send_all; [done|]. intros r w t Ht _ _ _. wp_steps.
    destruct (sends_callbacks _ _ Ht) as [Hcb Hrc]. by apply (HQ _ _ t). }
  destruct (op =? WS_OP_PING).
  { apply wp_bind, wp_bind, wp_send_all; [done|]. intros r w t Ht _ Hall Hsok.
    destruct (sends_callbacks _ _ Ht) as [Hcb Hrc].
    destruct (0 <? length payload)%nat eqn:H0.
    - apply wp_bind, wp_send_all; [done|]. intros r2 w2 t2 Ht2 _ Hall2 Hsok2. wp_steps.
      destruct (sends_callbacks _ _ Ht2) as [Hcb2 Hrc2].
      apply (HQ _ _ (t ++ t2)); cbn [tr]; rewrite ?recvd_app, ?callbacks_app, ?Hcb, ?Hcb2, ?Hrc, ?Hrc2;
        [by rewrite app_assoc|done|]. split_and!; [done|done|].
      intros [Hf Hf2]%Forall_app. by rewrite wire_app, Hall, Hall2 by auto.
    - wp_steps. apply (HQ _ _ t); [done|done|]. split_and!; [done|done|]. intros Hf. rewrite Hall by auto.
      destruct payload; [done|by simpl in H0]. }
  destruct (op =? WS_OP_PONG); [by apply wp_ret, (HQ _ _ []); [rewrite app_nil_r|..]|].
  assert (Hend : forall n1 t, tr n1 = tr n ++ t -> recvd (c_sock c) t = [] ->
          (if (op =? WS_OP_TEXT) || (op =? WS_OP_BIN) then 1 = 1 /\
             callbacks t = match ws_match_route (st n) (c_path c) with
                | Some rt => if on_message rt =? 0 then [] else [CbWsMessage (on_message rt) i payload]
                | None => [] end
           else 1 = 1 /\ callbacks t = []) -> wp (mret 1) Q n1).
  { intros n1 t Ht Hr Ho. by apply wp_ret, (HQ _ _ t). }
  wp_steps. destruct (_ || _); [|by apply wp_ret, (Hend _ []); [rewrite app_nil_r|..]].
  destruct (ws_match_route _ _) as [rt|]; [|by apply wp_ret, (Hend _ []); [rewrite app_nil_r|..]].
  destruct (on_message rt =? 0); cbn [negb]; [by apply wp_ret, (Hend _ []); [rewrite app_nil_r|..]|].
  apply wp_run_handler; [done|]. intros n1 t _ Ht Hf. destruct (out_ev_silent (c_sock c) t Hf) as [H1 H2].
  apply (Hend _ ([ECallback (CbWsMessage (on_message rt) i payload)] ++ t)); [done|..].
  - by rewrite recvd_app, H2.
  - by rewrite callbacks_app, H1.
Qed.

Lemma frame_outcome_prefix i c s op payload r t1 t2 :
  Forall in_ev t1 -> frame_outcome i c s op payload r t2 -> frame_outcome i c s op payload r (t1 ++ t2).
Proof.
  intros Hf. destruct (in_ev_silent (c_sock c) t1 Hf) as [H1 H2]. unfold frame_outcome.
  rewrite callbacks_app, wire_app, H1, H2, !app_nil_l.
  destruct (op =? WS_OP_CLOSE); [done|]. destruct (op =? WS_OP_PING); [|done].
  intros (Hr & Hc & Hw). split_and!; [done|done|]. by intros [_ ?]%Forall_app; auto.
Qed.

(** The pieces of a masked frame. *)
Lemma parse_masked_inv (s : list Z) fin op mask payload rest :
  parse_frame s = Some (fin, op, Some mask, payload, rest) ->
  exists (hdr s1 ext : list Z), s = hdr ++ s1 /\ length hdr = 2%nat /\
    (if Z.land (aget 0 hdr 1) 127 =? 126 then take_exact 2 s1
     else if Z.land (aget 0 hdr 1) 127 =? 127 then take_exact 8 s1
     else Some ([Z.land (aget 0 hdr 1) 127], s1)) = Some (ext, mask ++ payload ++ rest) /\
    (Z.land (aget 0 hdr 1) 128 =? 0) = false /\ Z.land (aget 0 hdr 0) 15 = op /\
    length mask = 4%nat /\ length payload = Z.to_nat (be_value ext).
Proof.
  intros Hparse. unfold parse_frame in Hparse.
  destruct (take_exact 2 s) as [[hdr s1]|] eqn:H1; [|done]. cbn [mbind option_bind] in Hparse.
  destruct (if Z.land (aget 0 hdr 1) 127 =? 126 then _ else _) as [[ext s2]|] eqn:H2; [|done].
  cbn [mbind option_bind] in Hparse.
  destruct (Z.land (aget 0 hdr 1) 128 =? 0) eqn:Hmk; cbn [mbind option_bind] in Hparse;
    [by destruct (take_exact _ s2) as [[]|]; simpl in Hparse|].
  destruct (take_exact 4 s2) as [[m s3]|] eqn:H3; [|done]. cbn [mbind option_bind] in Hparse.
  destruct (take_exact (Z.to_nat (be_value ext)) s3) as [[p s4]|] eqn:H4; [|done].
  cbn [mbind option_bind] in Hparse. injection Hparse as <- Hop <- <- <-.
  apply take_exact_Some in H1 as [-> Hl1], H3 as [-> Hl3], H4 as [-> Hl4].
  by exists hdr, s1, ext.
Qed.

(** Storing, unmasking and dispatching a payload that was just received. *)
Lemma wp_unmask_dispatch `{!WsAppOk} i c op m p rest len n n5 :
  ws_ok (st n) -> s_ws_pool (st n) !! i = Some c -> (length p <= length (frame_buf c))%nat ->
  length p = len -> st n5 = st n -> consumed (c_sock c) n n5 -> pending (c_sock c) (nw n5) = rest ->
  wp (conn_mod i (fun c => {| c with frame_buf := p ++ drop (length p) (frame_buf c) |});;
      conn_mod i (fun c => {| c with frame_buf := unmask m (frame_buf c) len |});;
      ws_dispatch i op len)
    (fun r n1 => exists t, tr n1 = tr n ++ t /\ recvd (c_sock c) t ++ rest = pending (c_sock c) (nw n) /\
       frame_outcome i c (st n) op (masked m p) r t) n5.
Proof.
  intros Hok Hc Hfb Hlp Hst C Hp5. set (k := c_sock c) in *. unfold conn_mod. wp_steps.
  set (s6 := {| (st n5) with s_ws_pool := _ |}). set (s7 := {| s6 with s_ws_pool := _ |}).
  set (c7 := {| c with frame_buf := unmask m (p ++ drop (length p) (frame_buf c)) len |}).
  assert (Hc7 : s_ws_pool s7 !! i = Some c7).
  { unfold s7, s6. simpl. rewrite !list_lookup_alter_eq, Hst, Hc. done. }
  assert (Hfc : length (frame_buf c) = CONFIG_OVE_NET_HTTPD_WS_MAX_FRAME)
    by (eapply Forall_lookup_1 in Hc; [exact Hc|apply ok_frames, Hok]).
  assert (Hok7 : ws_ok s7).
  { unfold s7. apply ws_ok_alter; [|simpl; intros c' <-; by rewrite length_unmask].
    unfold s6. apply ws_ok_alter; [by rewrite Hst|]. simpl. intros c' Hc'. rewrite length_app, length_drop. lia. }
  apply (wp_dispatch_outcome i c7); [done|done|simpl; rewrite length_unmask, length_app; lia|].
  cbn [tr st nw]. intros r n8 t8 Ht8 Hr8 Ho8. destruct C as (t & Ht & Hf & Hrc).
  exists (t ++ t8). split_and!.
  - by rewrite Ht8, Ht, app_assoc.
  - change (c_sock c7) with k in Hr8. by rewrite recvd_app, Hr8, app_nil_r, <-Hp5.
  - apply frame_outcome_prefix; [done|].
    assert (Hpay : take len (frame_buf c7) = masked m p) by (simpl; rewrite <-Hlp; apply unmask_prefix).
    rewrite Hpay in Ho8. unfold s7, s6 in Ho8. rewrite Hst in Ho8. exact Ho8.
Qed.

(** C39. Receiving delivers exactly what the client sent.  When a complete
    masked frame (any of the three length encodings, in any fragmentation of
    the byte stream) waits on a live connection and fits the frame buffer,
    one call consumes exactly its bytes and: a text or binary frame invokes
    the message handler of the connection's route exactly once with the
    unmasked payload; a ping is answered with a pong carrying the same
    payload; a pong is ignored; a close ends the connection; no other
    callback runs. *)
Theorem ws_recv_delivers `{!WsAppOk} i c fin op mask payload rest n :
  ws_ok (st n) -> s_ws_pool (st n) !! i = Some c ->
  parse_frame (pending (c_sock c) (nw n)) = Some (fin, op, Some mask, payload, rest) ->
  (length payload <= CONFIG_OVE_NET_HTTPD_WS_MAX_FRAME)%nat ->
  (Z.land op 8 <> 0 -> (length payload <= 125)%nat) ->
  wp (ws_recv_frame i) (fun r n1 => exists t, tr n1 = tr n ++ t /\
  recvd (c_sock c) t ++ rest = pending (c_sock c) (nw n) /\
  frame_outcome i c (st n) op (masked mask payload) r t) n.
Proof.
  intros Hok Hc Hparse Hmax Hctl. pose proof ws_max_frame_int as Hint.
  assert (Hfb : length (frame_buf c) = CONFIG_OVE_NET_HTTPD_WS_MAX_FRAME)
    by (eapply Forall_lookup_1 in Hc; [exact Hc|apply ok_frames, Hok]).
  set (k := c_sock c) in *.
  destruct (parse_masked_inv _ _ _ _ _ _ Hparse) as (hdr & s1 & ext & Hp1 & Hl1 & H2 & Hmk & Hop & Hl3 & Hl4).
  assert (Hne : pending k (nw n) <> []) by (rewrite Hp1; by destruct hdr).
  unfold ws_recv_frame, recv_exact, conn_at. wp_steps. eapply wp_lift; [exact Hc|]. fold k.
  apply wp_bind, wp_call. intros [r v] w He.
  destruct (stream_poll _ _ _ _ _ _ _ He Hne) as (-> & -> & Hpw). cbn beta iota.
  change (negb (OVE_OK =? OVE_OK)) with false. cbn iota.
  change (negb (Z.land 1 (Z.lor OVE_SOCK_POLLERR OVE_SOCK_POLLHUP) =? 0)) with false. cbn iota.
  change (Z.land 1 OVE_SOCK_POLLIN =? 0) with false. cbn iota.
  set (n1 := mk_nst w _ (st n)).
  assert (C1 : consumed k n n1) by (exists [EPoll k OVE_SOCK_POLLIN OVE_OK 1]; by repeat constructor).
  apply wp_bind, (wp_recv_stream _ _ hdr s1); [by rewrite <-Hp1|done|done|].
  intros n2 Hs2 Hp2 C2 _. cbn beta iota. change (negb (0 =? 0)) with false. cbn iota. rewrite Hmk. cbn [negb].
  apply wp_bind, (wp_payload_stream _ _ ext (mask ++ payload ++ rest)); [by rewrite Hp2|lia|].
  intros n3 Hs3 Hp3 C3. rewrite Hop.
  assert (Hv : 0 <= be_value ext \/ be_value ext < 0) by lia.
  assert (Hctl' : negb (Z.land op 8 =? 0) && (125 <? be_value ext) = false).
  { destruct (Z.land op 8 =? 0) eqn:H8; cbn [negb andb]; [done|]. apply Z.eqb_neq in H8.
    specialize (Hctl H8). apply Z.ltb_ge. lia. }
  rewrite Hctl', (proj2 (Z.ltb_ge _ (be_value ext))) by lia.
  apply wp_bind, (wp_recv_stream _ _ mask (payload ++ rest)); [done|done|done|].
  intros n4 Hs4 Hp4 C4 _. cbn beta iota. change (negb (0 =? 0)) with false. cbn iota.
  apply wp_bind, (wp_recv_stream _ _ payload rest); [done|done|done|].
  intros n5 Hs5 Hp5 C5 _. cbn beta iota. change (negb (0 =? 0)) with false. cbn iota.
  assert (Hst : st n5 = st n) by (rewrite Hs5, Hs4, Hs3, Hs2; done).
  assert (C : consumed k n n5) by (exact (consumed_trans _ _ _ _ C1 (consumed_trans _ _ _ _ C2
    (consumed_trans _ _ _ _ C3 (consumed_trans _ _ _ _ C4 C5))))).
  apply (wp_unmask_dispatch i c op mask payload rest); [done|done|lia|done..].
Qed.

End frames.

(** ** Witnesses *)

Module WsDemo.
Import Stream.

#[local] Instance demo_cfg : WsConfig.
Proof. refine (Build_WsConfig 2 8 _). lia. Defined.

(** An application that echoes messages, and one that also says goodbye. *)
Definition echo : WsApp stream := fun cb w => match cb with CbWsMessage _ i d => [WsSend (i mod 2) d] | _ => [] end.
Definition chatty : WsApp stream :=
  fun cb w => match cb with CbWsMessage _ i d => [WsSend (i mod 2) d] | CbWsClose _ i => [WsSend (i mod 2) (str "bye")] | _ => [] end.

Definition slot (k : Z) (on : bool) : ove_httpd_ws_conn :=
  {| c_sock := k; c_path := str "/ws"; frame_buf := replicate 8 0; active := on |}.
Definition route0 : ws_route := {| r_path := str "/ws"; on_message := 5; on_close := 6 |}.
Definition blank : ws_route := {| r_path := []; on_message := 0; on_close := 0 |}.
Definition demo (bytes : list Z) (fail : bool) : nst stream ws_state :=
  mk_nst {| rx := bytes; chunk := 1; refuse := fail |} []
    {| s_ws_pool := [slot 41 true; slot 0 false]; s_ws_routes := [route0; blank; blank; blank]; s_ws_route_count := 1 |}.

Lemma demo_ok b f : ws_ok (st (demo b f)).
Proof. by split; simpl; repeat constructor. Qed.

#[local] Instance echo_ok : WsAppOk (App := echo).
Proof.
  split; [|done]. intros cb w. destruct cb; try apply Forall_nil_2.
  apply Forall_singleton. by apply Nat.mod_upper_bound.
Qed.

(** "hi", masked with 1 2 3 4. *)
Definition hi_frame : list Z := [0x81; 0x82; 1; 2; 3; 4; Z.lxor 104 1; Z.lxor 105 2].


Lemma ws_send_roundtrip_witness :
  wp (ove_httpd_ws_send (Some 0%nat) (str "hello")) (send_post 0 (slot 41 true) (str "hello") (demo [] false))
    (demo [] false).
Proof. by apply ws_send_roundtrip. Defined.

Lemma ws_recv_delivers_witness :
  wp (ws_recv_frame (App := echo) 0) (fun r n1 => exists t, tr n1 = t /\ r = 1 /\
    callbacks t = [CbWsMessage 5 0 (str "hi")] /\ recvd 41 t = hi_frame) (demo (hi_frame ++ [0x81]) false).
Proof.
  eapply wp_mono.
  - apply (ws_recv_delivers (App := echo) 0 (slot 41 true) true WS_OP_TEXT [1; 2; 3; 4]
             [Z.lxor 104 1; Z.lxor 105 2] [0x81]); [apply demo_ok|reflexivity|reflexivity|simpl; lia|done].
  - intros r n1 (t & Ht & Hr & Ho). exists t. destruct Ho as [-> Hcb]. split_and!; [done|done|exact Hcb|].
    change (pending (c_sock (slot 41 true)) (nw (demo (hi_frame ++ [0x81]) false))) with (hi_frame ++ [0x81]) in Hr.
    by apply app_inv_tail in Hr.
Defined.

(** A close handler that calls back breaks the ownership discipline: when
    a connection ends and its close handler still sends on it, a failing
    send closes the socket and the poll loop closes it a second time. *)
Lemma ws_double_close :
  exists n1, ove_httpd_ws_poll (App := chatty) (demo [0x88; 0x80; 0; 0; 0; 0] true) = Some (tt, n1) /\
    closes (tr n1) = [41; 41].
Proof. eexists. split; vm_compute; reflexivity. Qed.

End WsDemo.
