(* ===== verification/Httpd.v ===== *)
(** * HTTP server (backends/common/ove_net_httpd.c)

    Route table, request parsing, response writing, the accept loop and
    start/stop.  The server composes with the WebSocket module: upgrade
    requests are handed to it and its connections are polled between
    accepts.  A route handler is application code: a callback event and the
    response and WebSocket calls it makes, with its return code. *)

From S2P Require Import Prelude Cstr Net Codec Ws.

Definition OVE_HTTPD_MAX_ROUTES : nat := 16.
Definition OVE_HTTPD_MAX_SEGMENTS : nat := 8.

Class HttpdConfig := {
  CONFIG_OVE_NET_HTTPD_WS : bool;
  HTTPD_ZERO_HEAP : bool;
  CONFIG_OVE_NET_HTTPD_MAX_BODY : Z;
  ULONG_MAX : Z;
  httpd_ulong : CONFIG_OVE_NET_HTTPD_MAX_BODY < 2 ^ 31 /\ 2 ^ 32 - 1 <= ULONG_MAX < 10 ^ 20 }.

(** ** Text *)

Definition QUOTE : Z := 34.
Definition BSLASH : Z := 92.
Definition QMARK : Z := 63.
Definition SLASH : Z := 47.

Definition hexdigit (v : Z) : Z := if v <? 10 then 48 + v else 87 + v.

(** The escape sequence of a character, if it needs one. *)
Definition json_esc (c : Z) : option (list Z) :=
  if c =? QUOTE then Some [BSLASH; QUOTE]
  else if c =? BSLASH then Some [BSLASH; BSLASH]
  else if c =? 10 then Some [BSLASH; 110]
  else if c =? 13 then Some [BSLASH; 114]
  else if c =? 9 then Some [BSLASH; 116]
  else if c =? 8 then Some [BSLASH; 98]
  else if c =? 12 then Some [BSLASH; 102]
  else if c <? 0x20 then Some [BSLASH; 117; 48; 48; hexdigit (c / 16); hexdigit (c mod 16)]
  else None.

(** The loop from output position [n]: the bytes it still writes. *)
Fixpoint json_loop (out_cap n : nat) (s : list Z) : list Z :=
  match s with
  | [] => []
  | c :: s =>
    match json_esc c with
    | Some esc => if (out_cap - 1 <=? n + length esc)%nat then []
                  else esc ++ json_loop out_cap (n + length esc) s
    | None => if (out_cap - 1 <=? n)%nat then [] else c :: json_loop out_cap (S n) s
    end
  end.
Definition json_escape (s : list Z) (out_cap : nat) : list Z :=
  if (out_cap =? 0)%nat then [] else json_loop out_cap 0 s.

Definition status_str (code : Z) : list Z :=
  if code =? 200 then str "200 OK"
  else if code =? 400 then str "400 Bad Request"
  else if code =? 404 then str "404 Not Found"
  else if code =? 500 then str "500 Internal Server Error"
  else str "200 OK".

(** The literal JSON object with one member, error. *)
Definition json_error (msg : list Z) : list Z :=
  [123; QUOTE] ++ str "error" ++ [QUOTE; 58; QUOTE] ++ msg ++ [QUOTE; 125].

Definition APPLICATION_JSON : list Z := str "application/json".

(** ** Requests *)

Record ove_httpd_route := {
  r_method : list Z;
  rt_path : list Z;
  handler : Z }.

(** The pointers into the request's own buffers are the strings they
    designate; [None] is NULL. *)
Record ove_httpd_req := {
  method : list Z;
  path : list Z;
  query : option (list Z);
  body : option (list Z);
  segments : list (list Z) }.

Definition req_zero : ove_httpd_req :=
  {| method := []; path := []; query := None; body := None; segments := [] |}.

(** [segments] collected so far, scanning from [p]. *)
Fixpoint segment_loop (fuel : nat) (p : list Z) (acc : list (list Z)) : list (list Z) :=
  match fuel with
  | O => acc
  | S fuel =>
    match p with
    | [] => acc
    | _ =>
      match strchr p SLASH with
      | None => acc ++ [p]
      | Some slash => segment_loop fuel (drop 1 slash) (acc ++ [take (length p - length slash) p])
      end
    end
  end.
Definition parse_path_segments (req : ove_httpd_req) : ove_httpd_req :=
  let seg_buf := strncpy_z 256 (path req) in
  let p := match seg_buf with c :: p => if c =? SLASH then p else seg_buf | [] => [] end in
  {| req with segments := segment_loop OVE_HTTPD_MAX_SEGMENTS p [] |}.

Section httpd_pure.
Context {HCfg : HttpdConfig}.

(** The value after the header name: [-1] to reject. *)
Definition parse_content_length (cl : list Z) : Z :=
  let cl := drop_while (fun c => c =? SP) (drop 15 cl) in
  match strtoul ULONG_MAX cl with
  | None => -1
  | Some (v, err, _) => if err || (CONFIG_OVE_NET_HTTPD_MAX_BODY <? v) then -1 else v
  end.

(** The content length ([-1] to reject) and the request. *)
Definition parse_request (buf : list Z) : Z * ove_httpd_req :=
  match strchr buf SP with
  | None => (0, req_zero)
  | Some sp =>
      let req := {| req_zero with method := cstr (take 7 (take (length buf - length sp) buf)) |} in
      let sp := drop 1 sp in
      match strchr sp SP with
      | None => (0, req)
      | Some sp2 =>
        let full := cstr (take 255 (take (length sp - length sp2) sp)) in
        let req := match strchr full QMARK with
                   | Some qmark => {| req with path := take (length full - length qmark) full;
                                      query := Some (drop 1 qmark) |}
                   | None => {| req with path := full |}
                   end in
        let req := parse_path_segments req in
        match find_header (cstr buf) (str "Content-Length:") (str "content-length:") with
        | Some cl => (parse_content_length cl, req)
        | None => (0, req)
        end
      end
  end.

(** Method equal, path a prefix that ends at a segment boundary. *)
Definition route_accepts (req : ove_httpd_req) (r : ove_httpd_route) : bool :=
  let rlen := length (rt_path r) in
  let after := aget 0 (path req) rlen in
  bytes_eqb (r_method r) (method req) && has_prefix (rt_path r) (path req)
  && ((after =? 0) || (after =? SLASH) || (after =? QMARK)
    || ((0 <? rlen)%nat && (aget 0 (rt_path r) (rlen - 1) =? SLASH))).

Definition ove_httpd_req_segment (req : ove_httpd_req) (idx : Z) : option (list Z) :=
  if (idx <? 0) || (Z.of_nat (length (segments req)) <=? idx) then None
  else segments req !! Z.to_nat idx.

(** The header block; [%zu] prints the body length. *)
Definition response_header (status : Z) (content_type : list Z) (body_len : Z) (gz : bool) : list Z :=
  str "HTTP/1.1 " ++ status_str status ++ CRLF ++ str "Content-Type: " ++ content_type ++ CRLF
  ++ (if gz then str "Content-Encoding: gzip" ++ CRLF else [])
  ++ str "Content-Length: " ++ dec body_len ++ CRLF ++ str "Connection: close" ++ CRLF
  ++ str "Access-Control-Allow-Origin: *" ++ CRLF ++ CRLF.

End httpd_pure.

(** ** The server *)

(** Calls a route handler makes; [None] is a NULL body. *)
Inductive resp_call :=
  | RJson (status : Z) (json : list Z)
  | RHtml (status : Z) (html : option (list Z)) (len : Z)
  | RSend (status : Z) (content_type : list Z) (data : option (list Z)) (len : Z)
  | RSendGz (status : Z) (content_type : list Z) (data : option (list Z)) (len : Z)
  | RError (status : Z) (message : option (list Z))
  | RWs (c : ws_call).

(** A handler's calls and its return code. *)
Class HttpApp (W : Type) := http_reaction : callback -> W -> list resp_call * Z.

Record httpd_state := {
  ws : ws_state;
  s_routes : list ove_httpd_route;
  s_route_count : nat;
  s_server_sock : Z;
  s_port : Z;
  s_thread : Z;
  resp_sock : Z;
  resp_sent : bool }.

Definition match_route (st : httpd_state) (req : ove_httpd_req) : option ove_httpd_route :=
  longest (fun r => length (rt_path r)) (route_accepts req) (take (s_route_count st) (s_routes st)).

Section server.
Context {W : Type} {E : NetEnv W} {App : WsApp W} {HApp : HttpApp W} {Cfg : WsConfig} {HCfg : HttpdConfig}.
Abbreviation CM := (MO (nst W httpd_state)).

(** A WebSocket operation on the server's state. *)
Definition lift_ws {A} (m : MO (nst W ws_state) A) : CM A :=
  fun s => match m (mk_nst (nw s) (tr s) (ws (st s))) with
         | Some (a, s') => Some (a, mk_nst (nw s') (tr s') {| (st s) with ws := st s' |})
         | None => None
         end.

Definition ove_httpd_route_add (method path : list Z) (h : Z) : CM Z :=
  s ← stget;
  if (OVE_HTTPD_MAX_ROUTES <=? s_route_count s)%nat then mret OVE_ERR_NO_MEMORY else
  stmod (fun s => {| s with
  s_routes := aset (s_routes s) (s_route_count s)
                {| r_method := strncpy_z 8 method; rt_path := strncpy_z 64 path; handler := h |};
  s_route_count := S (s_route_count s) |});;
  mret OVE_OK.

(** [while (remaining > 0)] *)
Fixpoint send_body (fuel : nat) (sock : Z) (d : list Z) (ret : Z) : CM Z :=
  match d with
  | [] => mret ret
  | _ =>
      match fuel with
      | O => ofail
      | S fuel =>
        '(ret, sent) ← ove_socket_send sock d;
        if negb (ret =? OVE_OK) then mret ret else
        if sent =? 0 then mret OVE_ERR_NOT_SUPPORTED else
        send_body fuel sock (drop (Z.to_nat sent) d) ret
      end
  end.

(** Header then body, for both response writers. *)
Definition send_response_ (gz : bool) (sock status : Z) (content_type : list Z)
  (data : option (list Z)) (len : Z) : CM Z :=
  let header := response_header status content_type len gz in
  if (256 <=? length header)%nat then mret OVE_ERR_NO_MEMORY else
  '(ret, _) ← ove_socket_send sock header;
  if negb (ret =? OVE_OK) then mret ret else
  if data is Some b then
  if 0 <? len then
    b ← olift (if (Z.to_nat len <=? length b)%nat then Some (take (Z.to_nat len) b) else None);
    send_body (length b) sock b ret
  else mret ret
  else mret ret.
Definition send_response := send_response_ false.

Definition mark_sent : CM Z := stmod (fun s => {| s with resp_sent := true |});; s ← stget; mret (resp_sock s).

Definition ove_httpd_resp_json (status : Z) (json : list Z) : CM Z :=
  sock ← mark_sent; send_response sock status APPLICATION_JSON (Some json) (Z.of_nat (length json)).
Definition ove_httpd_resp_html (status : Z) (html : option (list Z)) (len : Z) : CM Z :=
  sock ← mark_sent; send_response sock status (str "text/html") html len.
Definition ove_httpd_resp_send (status : Z) (content_type : list Z) (data : option (list Z)) (len : Z) : CM Z :=
  sock ← mark_sent; send_response sock status content_type data len.
Definition ove_httpd_resp_send_gz (status : Z) (content_type : list Z) (data : option (list Z)) (len : Z) : CM Z :=
  sock ← mark_sent; send_response_ true sock status content_type data len.

(** The body is the 256-byte buffer [snprintf] filled; its length is what
    the whole text would need. *)
Definition ove_httpd_resp_error (status : Z) (message : option (list Z)) : CM Z :=
  let text := json_error (json_escape (default [] message) 192) in
  sock ← mark_sent;
  send_response sock status APPLICATION_JSON (Some (take 255 text ++ [0])) (Z.of_nat (length text)).

Definition run_resp_call (c : resp_call) : CM unit :=
  match c with
  | RJson status json => _ ← ove_httpd_resp_json status json; mret tt
  | RHtml status html len => _ ← ove_httpd_resp_html status html len; mret tt
  | RSend status ct data len => _ ← ove_httpd_resp_send status ct data len; mret tt
  | RSendGz status ct data len => _ ← ove_httpd_resp_send_gz status ct data len; mret tt
  | RError status msg => _ ← ove_httpd_resp_error status msg; mret tt
  | RWs c => lift_ws (run_call c)
  end.
Fixpoint run_resp_calls (l : list resp_call) : CM unit :=
  match l with [] => mret tt | c :: l => run_resp_call c;; run_resp_calls l end.

(** [route->handler(&req, &resp)] *)
Definition call_route (r : ove_httpd_route) (req : ove_httpd_req) : CM Z :=
  let cb := CbHttp (handler r) (method req) (path req) (query req) (segments req) (body req) in
  w ← ogets nw; invoke cb;;
  let '(calls, hret) := http_reaction cb w in
  run_resp_calls calls;; mret hret.

(** [while (already < content_length)]: what is appended to the body. *)
Fixpoint body_loop (fuel : nat) (sock : Z) (want : nat) : CM (list Z) :=
  if (want =? 0)%nat then mret [] else
  match fuel with
  | O => ofail
  | S fuel =>
      '(ret, d) ← ove_socket_recv sock (Z.of_nat want) (OVE_MS 5000);
      if negb (ret =? OVE_OK) || (length d =? 0)%nat then mret [] else
      rest ← body_loop fuel sock (want - length d);
      mret (d ++ rest)
  end.

(** The body bytes that came with the header, then the rest. *)
Definition receive_body (sock : Z) (buf : list Z) (content_length : nat) : CM (list Z) :=
  let head := match strstr (cstr buf) (CRLF ++ CRLF) with
            | Some s => take content_length (drop (length (cstr buf) - length s + 4) buf)
            | None => []
            end in
  rest ← body_loop content_length sock (content_length - length head);
  mret (head ++ rest).

(** Route the request, and answer if the handler did not. *)
Definition dispatch (client : Z) (req : ove_httpd_req) : CM unit :=
  stmod (fun s => {| s with resp_sock := client; resp_sent := false |});;
  s ← stget;
  (if match_route s req is Some r then
   hret ← call_route r req;
   s ← stget;
   if negb (hret =? OVE_OK) && negb (resp_sent s)
   then _ ← send_response client 500 APPLICATION_JSON (Some (json_error (str "internal error"))) 26; mret tt
   else mret tt
   else mret tt);;
  s ← stget;
  if negb (resp_sent s)
  then _ ← send_response client 404 APPLICATION_JSON (Some (json_error (str "not found"))) 20; mret tt
  else mret tt.

(** One accepted connection. *)
Definition serve_client (client : Z) : CM unit :=
  '(ret, buf) ← ove_socket_recv client 1023 (OVE_MS 5000);
  if negb (ret =? OVE_OK) || (length buf =? 0)%nat then ove_socket_close client else
  let '(content_length, req) := parse_request buf in
  if content_length <? 0 then
  _ ← send_response client 400 APPLICATION_JSON (Some (json_error (str "bad request"))) 23;
  ove_socket_close client
  else
  upgraded ← (if CONFIG_OVE_NET_HTTPD_WS && bytes_eqb (method req) (str "GET")
               && ove_httpd_ws_is_upgrade (cstr buf)
            then r ← lift_ws (ove_httpd_ws_handshake (cstr buf) (path req) client); mret (r =? 0)
            else mret false);
  if (upgraded : bool) then mret tt else
  if bytes_eqb (method req) (str "POST") && (0 <? content_length) then
  if HTTPD_ZERO_HEAP && (CONFIG_OVE_NET_HTTPD_MAX_BODY <? content_length) then
    _ ← send_response client 413 APPLICATION_JSON (Some (json_error (str "body too large"))) 25;
    ove_socket_close client
  else
  p ← (if HTTPD_ZERO_HEAP then mret 1 else OVE_BACKEND_MALLOC (content_length + 1));
  if p =? 0 then dispatch client req;; ove_socket_close client else
  b ← receive_body client buf (Z.to_nat content_length);
  dispatch client {| req with body := Some b |};;
  (if HTTPD_ZERO_HEAP then mret tt else OVE_BACKEND_FREE p);;
  ove_socket_close client
  else dispatch client req;; ove_socket_close client.

(** One round of the accept loop. *)
Definition httpd_round : CM unit :=
  s ← stget;
  let accept_timeout := if CONFIG_OVE_NET_HTTPD_WS && (0 <? ove_httpd_ws_active_count (ws s))%nat
                      then OVE_MS 50 else OVE_MS 1000 in
  '(ret, client) ← ove_socket_accept (s_server_sock s) accept_timeout;
  (if CONFIG_OVE_NET_HTTPD_WS then lift_ws ove_httpd_ws_poll else mret tt);;
  if negb (ret =? OVE_OK) then mret tt else serve_client client.

(** The server task for at most [rounds] rounds: whether it has stopped. *)
Fixpoint httpd_task (rounds : nat) : CM bool :=
  stop ← ove_thread_should_stop;
  if (stop : bool) then s ← stget; ove_socket_close (s_server_sock s);; mret true else
  match rounds with
  | O => mret false
  | S rounds => httpd_round;; httpd_task rounds
  end.

(** [cfg_port = None] is a NULL configuration. *)
Definition ove_httpd_start (cfg_port : option Z) : CM Z :=
  s ← stget;
  if negb (s_thread s =? 0) then mret OVE_ERR_BUSY else
  let port := match cfg_port with Some p => if p =? 0 then 80 else p | None => 80 end in
  stmod (fun s => {| s with s_port := port |});;
  '(ret, sock) ← ove_socket_open OVE_SOCK_STREAM;
  stmod (fun s => {| s with s_server_sock := sock |});;
  if negb (ret =? OVE_OK) then mret ret else
  ret ← ove_socket_bind sock port;
  if negb (ret =? OVE_OK) then ove_socket_close sock;; mret ret else
  ret ← ove_socket_listen sock;
  if negb (ret =? OVE_OK) then ove_socket_close sock;; mret ret else
  '(ret, t) ← ove_thread_create;
  if negb (ret =? OVE_OK)
  then stmod (fun s => {| s with s_thread := 0 |});; ove_socket_close sock;; mret ret
  else stmod (fun s => {| s with s_thread := t |});; mret OVE_OK.

Definition ove_httpd_stop : CM unit :=
  s ← stget;
  if s_thread s =? 0 then mret tt else
  ove_thread_request_stop (s_thread s);;
  ove_thread_destroy (s_thread s);;
  stmod (fun s => {| s with s_thread := 0 |}).

End server.

(** ** Resources *)

Section resources.
Context {W : Type} {E : NetEnv W} {L : NetLaws W} {P : SendProgress W}.
Context {App : WsApp W} {HApp : HttpApp W} {Cfg : WsConfig} {HCfg : HttpdConfig}.
Implicit Types (n : nst W httpd_state) (s : httpd_state).

Definition data_ok (data : option (list Z)) (len : Z) : Prop :=
  forall b, data = Some b -> len <= Z.of_nat (length b).

(** Handlers pass buffers of the stated size and handles they were given. *)
Definition resp_ok (c : resp_call) : Prop :=
  match c with
  | RHtml _ data len | RSend _ _ data len | RSendGz _ _ data len => data_ok data len
  | RWs c => call_ok c
  | _ => True
  end.
Class HttpAppOk := app_responses : forall cb w, Forall resp_ok (http_reaction cb w).1.

(** Sockets accepted, and heap blocks obtained and returned. *)
Definition opened1 (e : ev) : list Z := match e with EAccept _ r c => if r =? OVE_OK then [c] else [] | _ => [] end.
Definition malloc1 (e : ev) : list Z := match e with EMalloc _ p => if p =? 0 then [] else [p] | _ => [] end.
Definition free1 (e : ev) : list Z := match e with EFree p => [p] | _ => [] end.
Definition opened (t : list ev) : list Z := concat (opened1 <$> t).
Definition mallocs (t : list ev) : list Z := concat (malloc1 <$> t).
Definition frees (t : list ev) : list Z := concat (free1 <$> t).

Definition live (s : httpd_state) : list Z := live_socks (s_ws_pool (ws s)).

(** Since [n0]: what is live or in [extra] and what was closed is what was
    accepted or live; what was returned or is in [mem] is what was
    allocated. *)
Definition acct n0 (extra mem : list Z) n : Prop :=
  ws_ok (ws (st n)) /\ exists t, tr n = tr n0 ++ t /\
  closes t ++ live (st n) ++ extra ≡ₚ opened t ++ live (st n0) /\ frees t ++ mem ≡ₚ mallocs t.

Definition neutral (e : ev) : bool :=
  match e with EClose _ | EAccept _ _ _ | EMalloc _ _ | EFree _ => false | _ => true end.

Lemma concat_fmap_app {A} (f : A -> list Z) t t' : concat (f <$> t ++ t') = concat (f <$> t) ++ concat (f <$> t').
Proof. by rewrite fmap_app, concat_app. Qed.

Lemma neutral_none t : forallb neutral t = true -> closes t = [] /\ opened t = [] /\ mallocs t = [] /\ frees t = [].
Proof.
  unfold closes, opened, mallocs, frees. induction t as [|e t IH]; [done|]. simpl.
  intros [He Ht]%andb_prop. destruct (IH Ht) as (H1 & H2 & H3 & H4). by destruct e; split_and!.
Qed.

Lemma ws_ev_none t : forallb ws_ev t = true -> opened t = [] /\ mallocs t = [] /\ frees t = [].
Proof.
  unfold opened, mallocs, frees. induction t as [|e t IH]; [done|]. simpl.
  intros [He Ht]%andb_prop. destruct (IH Ht) as (H1 & H2 & H3). by destruct e; split_and!.
Qed.

Lemma acct_refl n : ws_ok (ws (st n)) -> acct n [] [] n.
Proof. intros Hok. split; [done|]. exists []. by rewrite !app_nil_r. Qed.

(** Events since, with their effect on the account. *)
Lemma acct_step n0 extra mem n w t s' extra' mem' :
  acct n0 extra mem n -> ws s' = ws (st n) ->
  closes t ++ extra' ≡ₚ opened t ++ extra -> frees t ++ mem' ≡ₚ mallocs t ++ mem ->
  acct n0 extra' mem' (mk_nst w (tr n ++ t) s').
Proof.
  intros (Hok & t0 & Ht0 & Hc & Hm) Hws Hsock Hmem. unfold acct, live in *. cbn [st tr]. rewrite Hws.
  split; [done|]. exists (t0 ++ t). split; [by rewrite Ht0, app_assoc|].
  unfold closes, opened, frees, mallocs in *. rewrite !concat_fmap_app. split.
  - rewrite <-!app_assoc, (Permutation_app_swap_app (concat (opened1 <$> t0))), <-Hc.
    rewrite (Permutation_app_swap_app (concat (opened1 <$> t))). apply Permutation_app_head.
    rewrite (Permutation_app_swap_app (concat (closed1 <$> t))), (Permutation_app_swap_app (concat (opened1 <$> t))).
    by apply Permutation_app_head.
  - rewrite <-app_assoc, Hmem, Permutation_app_swap_app, Hm. by apply Permutation_app_comm.
Qed.

Lemma acct_neutral n0 extra mem n w t s' :
  acct n0 extra mem n -> ws s' = ws (st n) -> forallb neutral t = true ->
  acct n0 extra mem (mk_nst w (tr n ++ t) s').
Proof.
  intros Ha Hws Ht. destruct (neutral_none _ Ht) as (H1 & H2 & H3 & H4).
  eapply acct_step; [exact Ha|done|by rewrite H1, H2|by rewrite H3, H4].
Qed.

Lemma acct_state n0 extra mem n s' :
  acct n0 extra mem n -> ws s' = ws (st n) -> acct n0 extra mem (mk_nst (nw n) (tr n) s').
Proof. intros Ha Hws. rewrite <-(app_nil_r (tr n)). by eapply acct_neutral. Qed.

(** A WebSocket step on the server's pool. *)
Lemma acct_ws n0 acc extra mem n (n' : nst W ws_state) :
  acct n0 (acc ++ extra) mem n -> ws_step acc (mk_nst (nw n) (tr n) (ws (st n))) n' ->
  acct n0 extra mem (mk_nst (nw n') (tr n') {| (st n) with ws := st n' |}).
Proof.
  intros (Hok & t0 & Ht0 & Hc & Hm) (Hok' & _ & _ & t & Ht & He & Hp). cbn [tr st] in *.
  destruct (ws_ev_none _ He) as (H2 & H3 & H4). split; [done|]. unfold live in *. cbn [st tr ws].
  exists (t0 ++ t). split; [by rewrite Ht, Ht0, app_assoc|].
  unfold closes, opened, frees, mallocs in *. rewrite !concat_fmap_app, H2, H3, H4, !app_nil_r. split; [|done].
  rewrite <-app_assoc, (app_assoc (concat (closed1 <$> t))), Hp, <-Hc, <-!app_assoc.
  apply Permutation_app_head, Permutation_app_swap_app.
Qed.

Lemma wp_lift_ws {A} (m : MO (nst W ws_state) A) n (Q : A -> nst W httpd_state -> Prop) :
  wp m (fun a (n' : nst W ws_state) => Q a (mk_nst (nw n') (tr n') {| (st n) with ws := st n' |}))
  (mk_nst (nw n) (tr n) (ws (st n))) ->
  wp (lift_ws m) Q n.
Proof. unfold wp, lift_ws. by destruct (m _) as [[a n']|]. Qed.

Lemma wp_send_body fuel sock d ret n (Q : Z -> nst W httpd_state -> Prop) :
  (length d <= fuel)%nat ->
  (forall r w t, forallb neutral t = true -> Q r (mk_nst w (tr n ++ t) (st n))) ->
  wp (send_body fuel sock d ret) Q n.
Proof.
  revert d ret n. induction fuel as [|fuel IH]; intros d ret n Hl HQ; cbn [send_body].
  all: assert (Hret : forall r, Q r n)
    by (intros r; specialize (HQ r (nw n) [] eq_refl); rewrite app_nil_r in HQ; by destruct n).
  { destruct d; [apply Hret|simpl in Hl; lia]. }
  destruct d as [|b d]; [apply Hret|]. apply wp_bind, wp_call. intros [r k] w He.
  pose proof (send_len _ _ _ _ _ _ He) as Hk. cbn beta iota.
  destruct (negb (r =? OVE_OK)); [by apply wp_ret, HQ|].
  destruct (k =? 0) eqn:Hk0; [by apply wp_ret, HQ|]. apply Z.eqb_neq in Hk0.
  apply IH; [rewrite length_drop; simpl in *; lia|]. intros r' w' t Ht. cbn [tr st].
  rewrite <-app_assoc. apply HQ. by rewrite forallb_app, Ht.
Qed.

Lemma wp_send_response gz sock status ct data len n (Q : Z -> nst W httpd_state -> Prop) :
  data_ok data len ->
  (forall r w t, forallb neutral t = true -> Q r (mk_nst w (tr n ++ t) (st n))) ->
  wp (send_response_ gz sock status ct data len) Q n.
Proof.
  intros Hd HQ. unfold send_response_.
  destruct (256 <=? _)%nat.
  { apply wp_ret. specialize (HQ OVE_ERR_NO_MEMORY (nw n) [] eq_refl). rewrite app_nil_r in HQ. by destruct n. }
  apply wp_bind, wp_call. intros [r k] w _. cbn beta iota.
  destruct (negb (r =? OVE_OK)); [by apply wp_ret, HQ|].
  destruct data as [b|]; [|by apply wp_ret, HQ]. destruct (0 <? len) eqn:H0; [|by apply wp_ret, HQ].
  specialize (Hd b eq_refl). apply Z.ltb_lt in H0.
  apply wp_bind. eapply wp_lift; [by rewrite (proj2 (Nat.leb_le _ _)) by lia|].
  apply wp_send_body; [done|]. intros r' w' t Ht. cbn [tr st]. rewrite <-app_assoc. apply HQ.
  by rewrite forallb_app, Ht.
Qed.

(** Both writers leave the account alone. *)
Lemma wp_respond gz sock status ct data len n0 x m n (Q : unit -> nst W httpd_state -> Prop) :
  acct n0 x m n -> data_ok data len -> (forall n1, acct n0 x m n1 -> Q tt n1) ->
  wp (_ ← send_response_ gz sock status ct data len; mret tt) Q n.
Proof.
  intros Ha Hd HQ. apply wp_bind, wp_send_response; [done|]. intros r w t Ht. apply wp_ret, HQ.
  by apply acct_neutral.
Qed.

Lemma json_loop_length cap k (s : list Z) : (k <= cap - 1)%nat -> (k + length (json_loop cap k s) <= cap - 1)%nat.
Proof.
  revert k. induction s as [|c s IH]; intros k Hk; simpl; [lia|]. destruct (json_esc c) as [e|].
  - destruct (cap - 1 <=? k + length e)%nat eqn:He; simpl; [lia|]. apply Nat.leb_gt in He.
    specialize (IH (k + length e)%nat). rewrite length_app. lia.
  - destruct (cap - 1 <=? k)%nat eqn:He; simpl; [lia|]. apply Nat.leb_gt in He. specialize (IH (S k)). lia.
Qed.

Lemma length_json_error msg : length (json_error msg) = (12 + length msg)%nat.
Proof. unfold json_error. rewrite !length_app. simpl. lia. Qed.

(** The error text always fits the response buffer. *)
Lemma error_text_fits m : (length (json_error (json_escape m 192)) <= 203)%nat.
Proof.
  rewrite length_json_error. unfold json_escape. simpl. pose proof (json_loop_length 192 0 m). lia.
Qed.

Lemma wp_resp_call c n0 x m n (Q : unit -> nst W httpd_state -> Prop) :
  acct n0 x m n -> resp_ok c -> (forall n1, acct n0 x m n1 -> Q tt n1) -> wp (run_resp_call c) Q n.
Proof.
  intros Ha Hc HQ.
  assert (Hm : acct n0 x m (mk_nst (nw n) (tr n) {| (st n) with resp_sent := true |})) by (by apply acct_state).
  assert (Hgo : forall gz status ct data len, data_ok data len ->
    wp (_ ← (sock ← mark_sent; send_response_ gz sock status ct data len); mret tt) Q n).
  { intros gz status ct data len Hd. unfold mark_sent. apply wp_bind. wp_steps.
    apply wp_send_response; [done|]. intros r w t Ht. apply wp_ret, HQ.
    by apply (acct_neutral _ _ _ _ w t _ Hm). }
  destruct c; cbn [run_resp_call]; try (by apply Hgo).
  - apply Hgo. by intros b [= <-].
  - apply Hgo. intros b Hb. apply (inj Some) in Hb as <-. rewrite length_app, length_take. cbn [length].
    pose proof (error_text_fits (default [] message)). lia.
  - apply wp_lift_ws. apply wp_run_call; [apply Ha|done|]. intros n' [H1 _]. apply HQ.
    by eapply (acct_ws _ []).
Qed.

Lemma wp_resp_calls l n0 x m n (Q : unit -> nst W httpd_state -> Prop) :
  acct n0 x m n -> Forall resp_ok l -> (forall n1, acct n0 x m n1 -> Q tt n1) -> wp (run_resp_calls l) Q n.
Proof.
  intros Ha Hl. revert n Ha. induction Hl as [|c l Hc _ IH]; intros n Ha HQ; cbn [run_resp_calls].
  { by apply wp_ret, HQ. }
  apply wp_bind. eapply wp_resp_call; [exact Ha|done|]. intros n1 Ha1. by apply IH.
Qed.

Lemma wp_call_route `{!HttpAppOk} r req n0 x m n (Q : Z -> nst W httpd_state -> Prop) :
  acct n0 x m n -> (forall hret n1, acct n0 x m n1 -> Q hret n1) -> wp (call_route r req) Q n.
Proof.
  intros Ha HQ. unfold call_route. apply wp_bind, wp_gets. cbv zeta.
  set (cb := CbHttp _ _ _ _ _ _). pose proof (app_responses cb (nw n)) as Hok. wp_steps.
  destruct (http_reaction cb (nw n)) as [calls hret]. apply wp_bind.
  eapply wp_resp_calls; [by apply acct_neutral; [exact Ha|..]|done|]. intros n1 Ha1. by apply wp_ret, HQ.
Qed.

Lemma wp_dispatch_req `{!HttpAppOk} client req n0 x m n (Q : unit -> nst W httpd_state -> Prop) :
  acct n0 x m n -> (forall n1, acct n0 x m n1 -> Q tt n1) -> wp (dispatch client req) Q n.
Proof.
  intros Ha HQ. unfold dispatch.
  assert (Hlast : forall n1, acct n0 x m n1 ->
    wp (s ← stget; if negb (resp_sent s)
      then _ ← send_response client 404 APPLICATION_JSON (Some (json_error (str "not found"))) 20; mret tt
      else mret tt) Q n1).
  { intros n1 Ha1. wp_steps. destruct (negb _); [|by apply wp_ret, HQ].
    eapply wp_respond; [exact Ha1|by intros b [= <-]|done]. }
  wp_steps. set (n1 := mk_nst _ _ _). assert (Ha1 : acct n0 x m n1) by (by apply acct_state).
  destruct (match_route _ _) as [r|]; [|by apply wp_ret, Hlast].
  apply wp_bind. eapply wp_call_route; [exact Ha1|]. intros hret n2 Ha2. wp_steps.
  destruct (negb _ && _); [|by apply wp_ret, Hlast].
  eapply wp_respond; [exact Ha2|by intros b [= <-]|done].
Qed.

Lemma wp_body_loop fuel sock want n (Q : list Z -> nst W httpd_state -> Prop) :
  (want <= fuel)%nat ->
  (forall d w t, forallb neutral t = true -> (length d <= want)%nat -> Q d (mk_nst w (tr n ++ t) (st n))) ->
  wp (body_loop fuel sock want) Q n.
Proof.
  revert want n Q. induction fuel as [|fuel IH]; intros want n Q Hl HQ; cbn [body_loop].
  all: assert (Hret : Q [] n)
    by (specialize (HQ [] (nw n) [] eq_refl ltac:(simpl; lia)); rewrite app_nil_r in HQ; by destruct n).
  { destruct want; [done|lia]. }
  destruct (want =? 0)%nat; [done|]. apply wp_bind, wp_call. intros [r d] w He.
  destruct (recv_len _ _ _ _ _ _ _ He) as [Hd _]; [lia|]. cbn beta iota.
  destruct (negb (r =? OVE_OK) || _) eqn:Hr; [apply wp_ret, HQ; [done|simpl; lia]|].
  apply orb_false_elim in Hr as [_ Hd0]. apply Nat.eqb_neq in Hd0.
  apply wp_bind, IH; [lia|]. intros d' w' t Ht Hd'. apply wp_ret. cbn [tr st]. rewrite <-app_assoc.
  apply HQ; [by rewrite forallb_app, Ht|rewrite length_app; lia].
Qed.

Lemma wp_receive_body sock buf len n (Q : list Z -> nst W httpd_state -> Prop) :
  (forall b w t, forallb neutral t = true -> (length b <= len)%nat -> Q b (mk_nst w (tr n ++ t) (st n))) ->
  wp (receive_body sock buf len) Q n.
Proof.
  intros HQ. unfold receive_body. set (head := match _ with Some _ => _ | None => _ end).
  assert (Hh : (length head <= len)%nat).
  { unfold head. destruct (strstr _ _); [rewrite length_take; lia|simpl; lia]. }
  apply wp_bind, wp_body_loop; [lia|]. intros d w t Ht Hd. apply wp_ret, HQ; [done|].
  rewrite length_app. lia.
Qed.

(** Closing the client settles its account. *)
Lemma wp_close_client client n0 m n (Q : unit -> nst W httpd_state -> Prop) :
  acct n0 [client] m n -> (forall n1, acct n0 [] m n1 -> Q tt n1) -> wp (ove_socket_close client) Q n.
Proof.
  intros Ha HQ. wp_steps. apply HQ. by eapply (acct_step _ _ _ _ _ [EClose client]); [exact Ha|..].
Qed.

Lemma wp_dispatch_close `{!HttpAppOk} client req n0 m n (Q : unit -> nst W httpd_state -> Prop) :
  acct n0 [client] m n -> (forall n1, acct n0 [] m n1 -> Q tt n1) ->
  wp (dispatch client req;; ove_socket_close client) Q n.
Proof.
  intros Ha HQ. apply wp_bind. eapply wp_dispatch_req; [exact Ha|]. intros n1 Ha1. by eapply wp_close_client.
Qed.

(** The client's request, once the body length is known. *)
Lemma wp_serve_body `{!HttpAppOk} client buf req cl n0 n (Q : unit -> nst W httpd_state -> Prop) :
  acct n0 [client] [] n -> (forall n1, acct n0 [] [] n1 -> Q tt n1) ->
  wp (if bytes_eqb (method req) (str "POST") && (0 <? cl) then
  if HTTPD_ZERO_HEAP && (CONFIG_OVE_NET_HTTPD_MAX_BODY <? cl) then
    _ ← send_response client 413 APPLICATION_JSON (Some (json_error (str "body too large"))) 25;
    ove_socket_close client
  else
  p ← (if HTTPD_ZERO_HEAP then mret 1 else OVE_BACKEND_MALLOC (cl + 1));
  if p =? 0 then dispatch client req;; ove_socket_close client else
  b ← receive_body client buf (Z.to_nat cl);
  dispatch client {| req with body := Some b |};;
  (if HTTPD_ZERO_HEAP then mret tt else OVE_BACKEND_FREE p);;
  ove_socket_close client
  else dispatch client req;; ove_socket_close client) Q n.
Proof.
  intros Ha HQ. destruct (_ && (0 <? cl)); [|by eapply wp_dispatch_close].
  destruct (HTTPD_ZERO_HEAP && _).
  { apply wp_bind, wp_send_response; [by intros b [= <-]|]. intros r w t Ht.
    eapply wp_close_client; [|done]. by apply acct_neutral. }
  apply wp_bind. destruct HTTPD_ZERO_HEAP.
  - apply wp_ret. cbn iota. change (1 =? 0) with false. cbn iota.
    apply wp_bind, wp_receive_body. intros b w t Ht _. apply wp_bind.
    eapply wp_dispatch_req; [by apply acct_neutral; [exact Ha|..]|]. intros n1 Ha1.
    apply wp_bind, wp_ret. by eapply (wp_close_client client n0 []).
  - apply wp_call. intros p w _. destruct (p =? 0) eqn:Hp.
    { eapply wp_dispatch_close; [|done]. eapply acct_step; [exact Ha|done|done|].
      unfold mallocs, frees. simpl. by rewrite Hp. }
    set (n1 := mk_nst w _ _). assert (Ha1 : acct n0 [client] [p] n1).
    { eapply acct_step; [exact Ha|done|done|]. unfold mallocs, frees. simpl. by rewrite Hp. }
    apply wp_bind, wp_receive_body. intros b w' t Ht _. apply wp_bind.
    eapply wp_dispatch_req; [by apply acct_neutral; [exact Ha1|..]|]. intros n2 Ha2.
    apply wp_bind, wp_call_. eapply (wp_close_client client n0 []); [|done].
    eapply (acct_step _ _ _ _ _ [EFree p]); [exact Ha2|done|done|done].
Qed.

Lemma wp_serve_client `{!HttpAppOk} client n0 n (Q : unit -> nst W httpd_state -> Prop) :
  acct n0 [client] [] n -> (forall n1, acct n0 [] [] n1 -> Q tt n1) -> wp (serve_client client) Q n.
Proof.
  intros Ha HQ. unfold serve_client. apply wp_bind, wp_call. intros [r buf] w _. cbn beta iota.
  set (n1 := mk_nst w _ _). assert (Ha1 : acct n0 [client] [] n1) by (by apply acct_neutral).
  destruct (_ || _); [by eapply wp_close_client|].
  destruct (parse_request buf) as [cl req]. destruct (cl <? 0).
  { apply wp_bind, wp_send_response; [by intros b [= <-]|]. intros r' w' t Ht.
    eapply wp_close_client; [|done]. by apply acct_neutral. }
  apply wp_bind. destruct (CONFIG_OVE_NET_HTTPD_WS && _ && _); [|by apply wp_ret; eapply wp_serve_body].
  apply wp_bind, wp_lift_ws, wp_handshake; [apply Ha1|]. intros rh n' H1. apply wp_ret.
  destruct (rh =? 0).
  - apply wp_ret, HQ. exact (acct_ws _ [client] [] _ _ _ Ha1 H1).
  - eapply wp_serve_body; [|done]. exact (acct_ws _ [] [client] _ _ _ Ha1 H1).
Qed.

Lemma wp_round `{!WsAppOk} `{!HttpAppOk} n0 n (Q : unit -> nst W httpd_state -> Prop) :
  acct n0 [] [] n -> (forall n1, acct n0 [] [] n1 -> Q tt n1) -> wp httpd_round Q n.
Proof.
  intros Ha HQ. unfold httpd_round. wp_steps. apply wp_call. intros [r client] w _. cbn beta iota.
  set (x := if r =? OVE_OK then [client] else []). set (n1 := mk_nst w _ _).
  assert (Ha1 : acct n0 x [] n1).
  { eapply acct_step; [exact Ha|done| |done]. unfold opened. simpl. by rewrite !app_nil_r. }
  assert (Hgo : forall n2, acct n0 x [] n2 -> wp (if negb (r =? OVE_OK) then mret tt else serve_client client) Q n2).
  { intros n2 Ha2. unfold x in Ha2. destruct (r =? OVE_OK); cbn [negb].
    - by eapply wp_serve_client.
    - by apply wp_ret, HQ. }
  apply wp_bind. destruct CONFIG_OVE_NET_HTTPD_WS; [|by apply wp_ret, Hgo].
  apply wp_lift_ws. unfold ove_httpd_ws_poll. apply wp_poll_loop; [apply Ha1|lia|].
  intros n' H1. apply Hgo. by eapply (acct_ws _ []).
Qed.

(** The account when the task has stopped or is between two rounds. *)
Definition settled n (stopped : bool) (n1 : nst W httpd_state) : Prop :=
  ws_ok (ws (st n1)) /\ exists t server, tr n1 = tr n ++ t /\
  closes t ++ live (st n1) ≡ₚ (if stopped then [server] else []) ++ opened t ++ live (st n) /\
  frees t ≡ₚ mallocs t.

Lemma settled_running n n1 : acct n [] [] n1 -> settled n false n1.
Proof.
  intros (Hok & t & Ht & Hc & Hm). split; [done|]. exists t, 0. rewrite !app_nil_r in *. by split_and!.
Qed.

Lemma settled_stopped n n1 k :
  acct n [] [] n1 -> settled n true (mk_nst (env_close k (nw n1)) (tr n1 ++ [EClose k]) (st n1)).
Proof.
  intros Ha. assert (Ha2 : settled n false n1) by (by apply settled_running).
  destruct Ha2 as (Hok & t & srv & Ht & Hc & Hm). split; [done|]. exists (t ++ [EClose k]), k. cbn [tr st].
  split; [by rewrite Ht, app_assoc|]. unfold closes, opened, frees, mallocs in *.
  rewrite !concat_fmap_app. cbn [fmap list_fmap concat closed1 opened1 free1 malloc1 app] in *.
  rewrite !app_nil_r. split; [|done]. rewrite <-Hc, <-app_assoc. symmetry. apply (Permutation_middle _ _ k).
Qed.


End resources.

(** ** JSON escaping *)

Definition unhex (c : Z) : option Z :=
  if isdigit c then Some (c - 48) else if (97 <=? c) && (c <=? 102) then Some (c - 87) else None.

(** A reader of the characters of a JSON string (RFC 8259, section 7):
    quotes, backslashes and control characters must be escaped. *)
Fixpoint json_unescape (s : list Z) : option (list Z) :=
  match s with
  | [] => Some []
  | c :: s1 =>
    if c =? BSLASH then
      match s1 with
      | [] => None
      | e :: s2 =>
        if e =? QUOTE then cons QUOTE <$> json_unescape s2
        else if e =? BSLASH then cons BSLASH <$> json_unescape s2
        else if e =? 110 then cons 10 <$> json_unescape s2
        else if e =? 114 then cons 13 <$> json_unescape s2
        else if e =? 116 then cons 9 <$> json_unescape s2
        else if e =? 98 then cons 8 <$> json_unescape s2
        else if e =? 102 then cons 12 <$> json_unescape s2
        else if e =? 117 then
          match s2 with
          | h1 :: h2 :: h3 :: h4 :: s3 =>
            match unhex h1, unhex h2, unhex h3, unhex h4 with
            | Some a, Some b, Some c, Some d =>
              cons (((a * 16 + b) * 16 + c) * 16 + d) <$> json_unescape s3
            | _, _, _, _ => None
            end
          | _ => None
          end
        else None
      end
    else if (c =? QUOTE) || (c <? 0x20) then None
    else cons c <$> json_unescape s1
  end.

Lemma json_esc_inverse c s :
  is_byte c -> json_unescape (default [c] (json_esc c) ++ s) = cons c <$> json_unescape s.
Proof.
  intros Hc. revert s.
  assert (Hall : Forall (fun c => forall s, json_unescape (default [c] (json_esc c) ++ s) = cons c <$> json_unescape s)
                   (Z.of_nat <$> seq 0 256)).
  { repeat (constructor; [intros s; reflexivity|]). constructor. }
  by apply (byte_cases _ Hall).
Qed.

Lemma json_esc_len c : (1 <= length (default [c] (json_esc c)) <= 6)%nat.
Proof. unfold json_esc. repeat (case_match; simpl; [lia|]). simpl. lia. Qed.

(** Error messages become valid JSON: reading the escaped text back gives
    a prefix of the message (never an unescaped quote, backslash or control
    character, never half an escape), at most [out_cap - 1] bytes are
    written, and a message whose worst-case expansion fits comes back
    whole. *)
Theorem json_escape_roundtrip s out_cap :
  Forall is_byte s ->
  exists k, json_unescape (json_escape s out_cap) = Some (take k s) /\
    (length (json_escape s out_cap) <= out_cap - 1)%nat /\
    (6 * length s + 1 < out_cap -> take k s = s)%nat.
Proof.
  intros Hs. unfold json_escape. destruct (out_cap =? 0)%nat eqn:H0.
  { apply Nat.eqb_eq in H0 as ->. exists 0%nat. rewrite take_0. split_and!; [done|simpl; lia|lia]. }
  apply Nat.eqb_neq in H0.
  assert (Hgo : forall n, exists k, json_unescape (json_loop out_cap n s) = Some (take k s) /\
            (n + 6 * length s + 1 < out_cap -> take k s = s)%nat).
  { clear H0. induction Hs as [|c s Hc _ IH]; intros n; [by exists 0%nat|]. cbn [json_loop].
    pose proof (json_esc_len c) as Hl. pose proof (json_esc_inverse c) as Hinv.
    destruct (json_esc c) as [e|]; cbn [default from_option id] in Hl, Hinv.
    - destruct (out_cap - 1 <=? n + length e)%nat eqn:He.
      + apply Nat.leb_le in He. exists 0%nat. split; [done|]. cbn [length]. intros Hlt. exfalso. lia.
      + destruct (IH (n + length e)%nat) as (k & Hk & Hfull). exists (S k). rewrite Hinv, Hk by done.
        split; [done|]. cbn [length take]. intros Hlt. rewrite Hfull by lia. done.
    - destruct (out_cap - 1 <=? n)%nat eqn:He.
      + apply Nat.leb_le in He. exists 0%nat. split; [done|]. cbn [length]. intros Hlt. exfalso. lia.
      + destruct (IH (S n)) as (k & Hk & Hfull). exists (S k).
        change (c :: json_loop out_cap (S n) s) with ([c] ++ json_loop out_cap (S n) s). rewrite Hinv, Hk by done.
        split; [done|]. cbn [length take]. intros Hlt. rewrite Hfull by lia. done. }
  destruct (Hgo 0%nat) as (k & Hk & Hfull). exists k. split_and!; [done| |exact Hfull].
  pose proof (json_loop_length out_cap 0 s). lia.
Qed.

(** ** Routing *)

(** The route's path is the request path up to a segment boundary. *)
Definition route_matches (req : ove_httpd_req) (r : ove_httpd_route) : Prop :=
  r_method r = method req /\ exists rest, path req = rt_path r ++ rest /\
    (rest = [] \/ head rest = Some SLASH \/ head rest = Some QMARK \/ last (rt_path r) = Some SLASH).

Lemma last_aget (l : list Z) : last l = if (0 <? length l)%nat then Some (aget 0 l (length l - 1)) else None.
Proof.
  destruct l as [|x l _] using rev_ind; [done|].
  rewrite length_app, last_snoc. cbn [length]. rewrite (proj2 (Nat.ltb_lt _ _)) by lia.
  unfold aget. rewrite lookup_app_r by lia. by replace (length l + 1 - 1 - length l)%nat with 0%nat by lia.
Qed.

Lemma route_accepts_spec req r :
  Forall (fun c => c <> 0) (path req) -> route_accepts req r = true <-> route_matches req r.
Proof.
  intros Hnz. unfold route_accepts, route_matches, bytes_eqb.
  rewrite !andb_true_iff, bool_decide_eq_true, has_prefix_true. split.
  - intros [[Hm [rest Hp]] Hb]. split; [done|]. exists rest. split; [done|].
    rewrite Hp in Hb. unfold aget in Hb. rewrite lookup_app_r, Nat.sub_diag in Hb by lia.
    rewrite last_aget. destruct rest as [|c rest]; [by left|]. right. simpl in Hb.
    rewrite !orb_true_iff, !Z.eqb_eq in Hb. destruct Hb as [[[Hz|Hb]|Hb]|Hb].
    + rewrite Hp, Forall_app, Forall_cons in Hnz. by destruct Hnz as (_ & ? & _).
    + left. by rewrite Hb.
    + right; left. by rewrite Hb.
    + right; right. apply andb_prop in Hb as [-> Hb]. apply Z.eqb_eq in Hb. unfold aget. by rewrite Hb.
  - intros [Hm (rest & Hp & Hb)]. split; [split; [done|by exists rest]|].
    rewrite Hp. unfold aget at 1 2 3. rewrite lookup_app_r, Nat.sub_diag by lia.
    rewrite !orb_true_iff, !Z.eqb_eq. rewrite last_aget in Hb. destruct Hb as [->|[Hb|[Hb|Hb]]].
    + by left; left; left.
    + destruct rest; simplify_eq/=. by left; left; right.
    + destruct rest; simplify_eq/=. by left; right.
    + right. destruct (0 <? _)%nat; [|done]. injection Hb as ->. done.
Qed.

(** Routing picks the best registered route: the chosen route matches the
    request's method and is a prefix of its path ending at a segment
    boundary (so /api never serves /api_evil), no matching route is longer
    and none registered earlier is as long; no route is chosen exactly when
    none with a non-empty path matches. *)
Theorem match_route_best st req :
  Forall (fun c => c <> 0) (path req) ->
  match match_route st req with
  | Some r => exists before after, take (s_route_count st) (s_routes st) = before ++ r :: after /\
      route_matches req r /\
      Forall (fun r' => route_matches req r' -> (length (rt_path r') <= length (rt_path r))%nat)
        (take (s_route_count st) (s_routes st)) /\
      Forall (fun r' => route_matches req r' -> (length (rt_path r') < length (rt_path r))%nat) before
  | None => Forall (fun r' => route_matches req r' -> rt_path r' = []) (take (s_route_count st) (s_routes st))
  end.
Proof.
  intros Hnz. unfold match_route. destruct (longest _ _ _) as [r|] eqn:Hl.
  - apply longest_Some in Hl as (pre & post & Hsp & Hok & _ & Hb & Hpre). exists pre, post.
    split_and!; [done|by apply route_accepts_spec|..].
    + eapply Forall_impl; [exact Hb|]. intros r' Hr' Hm. by apply Hr', route_accepts_spec.
    + eapply Forall_impl; [exact Hpre|]. intros r' Hr' Hm. by apply Hr', route_accepts_spec.
  - apply longest_None in Hl. eapply Forall_impl; [exact Hl|]. intros r' Hr' Hm.
    by apply nil_length_inv, Hr', route_accepts_spec.
Qed.

(** ** Witnesses *)

Module HttpdDemo.
Import Script.

#[local] Instance demo_ws : WsConfig.
Proof. refine (Build_WsConfig 1 8 _). lia. Defined.
#[local] Instance demo_httpd : HttpdConfig.
Proof. refine (Build_HttpdConfig true false 1024 (2 ^ 32 - 1) _). lia. Defined.

Definition no_ws : WsApp script := fun _ _ => [].
Definition hello : HttpApp script := fun _ _ => ([RJson 200 [123; 125]], OVE_OK).
Definition mute : HttpApp script := fun _ _ => ([], OVE_ERR_NO_MEMORY).

#[local] Instance no_ws_ok : WsAppOk (App := no_ws).
Proof. split; [|done]. intros cb w. constructor. Qed.
#[local] Instance hello_ok : HttpAppOk (HApp := hello).
Proof. intros cb w. by apply Forall_singleton. Qed.

Definition route (p : list Z) : ove_httpd_route := {| r_method := str "GET"; rt_path := p; handler := 5 |}.
Definition blank_route : ove_httpd_route := {| r_method := []; rt_path := []; handler := 0 |}.
Definition server : httpd_state :=
  {| ws := {| s_ws_pool := [{| c_sock := 0; c_path := []; frame_buf := replicate 8 0; active := false |}];
              s_ws_routes := replicate 4 {| r_path := []; on_message := 0; on_close := 0 |};
              s_ws_route_count := 0 |};
     s_routes := [route (str "/"); route (str "/api")] ++ replicate 14 blank_route;
     s_route_count := 2; s_server_sock := 3; s_port := 80; s_thread := 1; resp_sock := 0; resp_sent := false |}.
Definition with_request (r : list Z) : nst script httpd_state :=
  mk_nst {| inbox := [(OVE_OK, r)]; fresh := 6; stopped := false |} [] server.

Definition get_request : list Z := str "GET /api/x?q=1 HTTP/1.1" ++ CRLF ++ CRLF.

Lemma server_ok : ws_ok (ws server).
Proof. by split; simpl; repeat constructor. Qed.


Lemma json_escape_roundtrip_witness :
  exists k, json_unescape (json_escape (str "a b") 192) = Some (take k (str "a b")) /\ take k (str "a b") = str "a b".
Proof.
  destruct (json_escape_roundtrip (str "a b") 192) as (k & Hk & _ & Hf); [by repeat constructor|].
  exists k. split; [exact Hk|]. apply Hf. vm_compute. lia.
Defined.

Lemma match_route_best_witness :
  let req := (parse_request get_request).2 in
  match_route server req = Some (route (str "/api")) /\ route_matches req (route (str "/api")).
Proof.
  intros req. split; [reflexivity|].
  pose proof (match_route_best server req ltac:(by repeat constructor)) as Hm.
  change (match_route server req) with (Some (route (str "/api"))) in Hm.
  destruct Hm as (before & after & _ & Hr & _). exact Hr.
Defined.

(** A handler that fails without answering makes the server answer twice:
    the 500 response is followed by a 404 response on the same connection,
    and the body of that 404 is cut one byte short of its closing brace. *)
Lemma httpd_double_response :
  exists n1, serve_client (HApp := mute) 7 (with_request get_request) = Some (tt, n1) /\
    wire 7 (tr n1) =
      response_header 500 APPLICATION_JSON 26 false ++ json_error (str "internal error") ++
      response_header 404 APPLICATION_JSON 20 false ++ take 20 (json_error (str "not found")) /\
    length (json_error (str "not found")) = 21%nat.
Proof. eexists. split; [vm_compute; reflexivity|]. split; vm_compute; reflexivity. Qed.

End HttpdDemo.
