(* ===== verification/Http.v ===== *)
(** * HTTP/1.1 client (backends/common/ove_net_http.c)

    URL parsing, the request writer, the response reader with its growing
    (or static) buffer, response parsing and the object lifecycle, over the
    network interface.  Reading is a loop on the peer: it carries fuel, and
    the theorems give the fuel that suffices. *)

From S2P Require Import Prelude Cstr Net Codec Ws Httpd.

Definition OVE_HTTP_GET : Z := 0.
Definition OVE_HTTP_POST : Z := 1.
Definition OVE_HTTP_PUT : Z := 2.
Definition OVE_HTTP_DELETE : Z := 3.
Definition OVE_HTTP_PATCH : Z := 4.

Class HttpConfig := {
  HTTP_TLS : bool;
  HTTP_ZERO_HEAP : bool;
  CONFIG_OVE_NET_HTTP_MAX_RESPONSE : Z;
  HTTP_ULONG_MAX : Z;
  sizeof_http_client : Z;
  http_sizes : 1 <= CONFIG_OVE_NET_HTTP_MAX_RESPONSE /\ 2 ^ 32 - 1 <= HTTP_ULONG_MAX }.

Record ove_http_client := {
  c_tls : Z;
  c_sock : Z;
  c_host : list Z;
  c_port : Z;
  c_use_tls : bool;
  s_tls_ca_cert : Z;
  s_tls_allow_insecure : bool }.

(** Strings with the heap blocks that hold them ([0]: none or borrowed). *)
Record ove_http_response := {
  status : Z;
  resp_body : option (list Z);
  resp_headers : option (list Z);
  body_ptr : Z;
  headers_ptr : Z }.
Definition resp_zero : ove_http_response :=
  {| status := 0; resp_body := None; resp_headers := None; body_ptr := 0; headers_ptr := 0 |}.

Definition COLON : Z := 58.

(** *** URL parsing: scheme, host, port, path *)

Definition url_scheme (url : list Z) : option (bool * Z * list Z) :=
  if has_prefix (str "https://") url then Some (true, 443, drop 8 url)
  else if has_prefix (str "http://") url then Some (false, 80, drop 7 url)
  else None.

Section pure.
Context {Cfg : HttpConfig}.

(** The port after the host, and where the path starts. *)
Definition url_port (default_port : Z) (host_end : list Z) : option (Z * list Z) :=
  match host_end with
  | c :: rest =>
      if c =? COLON then
        match strtoul HTTP_ULONG_MAX rest with
        | Some (p, _, endp) => if (p =? 0) || (65535 <? p) then None else Some (p, endp)
        | None => None
        end
      else Some (default_port, host_end)
  | [] => Some (default_port, host_end)
  end.

(** [None] is OVE_ERR_INVALID_PARAM. *)
Definition parse_url (url : list Z) (host_sz : nat) : option (bool * list Z * Z * list Z) :=
  '(use_tls, port, url) ← url_scheme url;
  let host := take_while (fun c => negb (c =? COLON) && negb (c =? SLASH)) url in
  let host_end := drop (length host) url in
  if (length host =? 0)%nat || (host_sz <=? length host)%nat then None else
  '(port, host_end) ← url_port port host_end;
  let path := match host_end with c :: _ => if c =? SLASH then host_end else [SLASH] | [] => [SLASH] end in
  if (256 <? length path)%nat then None else Some (use_tls, host, port, path).

Definition method_str (method : Z) : list Z :=
  if method =? OVE_HTTP_POST then str "POST"
  else if method =? OVE_HTTP_PUT then str "PUT"
  else if method =? OVE_HTTP_DELETE then str "DELETE"
  else if method =? OVE_HTTP_PATCH then str "PATCH"
  else str "GET".

Definition request_line (method : Z) (path host : list Z) : list Z :=
  method_str method ++ [SP] ++ path ++ str " HTTP/1.1" ++ CRLF ++ str "Host: " ++ host ++ CRLF
  ++ str "Connection: close" ++ CRLF.
Definition header_line (name value : list Z) : list Z := name ++ str ": " ++ value ++ CRLF.
Definition content_header (content_type : list Z) (body_len : Z) : list Z :=
  str "Content-Type: " ++ content_type ++ CRLF ++ str "Content-Length: " ++ dec body_len ++ CRLF.

(** The status code, if there is a status line. *)
Definition parse_status (buf : list Z) : Z :=
  match strstr buf CRLF with
  | Some _ => match strchr buf SP with Some sp => atoi (drop 1 sp) | None => 0 end
  | None => 0
  end.

(** Header block and body of the [total] bytes read. *)
Definition split_response (data : list Z) : option (list Z * list Z) :=
  let buf := cstr data in
  match strstr buf (CRLF ++ CRLF) with
  | Some s => let hdr_len := (length buf - length s)%nat in Some (take hdr_len data, drop (hdr_len + 4) data)
  | None => None
  end.

End pure.

Section client.
Context {W : Type} {E : NetEnv W} {Cfg : HttpConfig}.
Abbreviation CM := (MO (nst W ove_http_client)).

Definition ove_http_set_tls (ca_cert : Z) (allow_insecure : bool) : CM unit :=
  if HTTP_TLS
  then stmod (fun c => {| c with s_tls_ca_cert := ca_cert; s_tls_allow_insecure := allow_insecure |})
  else mret tt.

(** [memset(c, 0, sizeof( *c))] leaves the statics alone. *)
Definition client_zeroed (c : ove_http_client) : ove_http_client :=
  {| c with c_tls := 0; c_sock := 0; c_host := []; c_port := 0; c_use_tls := false |}.

Definition ove_http_client_init (client storage : bool) : CM Z :=
  if negb client || negb storage then mret OVE_ERR_INVALID_PARAM else stmod client_zeroed;; mret OVE_OK.
Definition ove_http_client_deinit (client : bool) : CM unit :=
  if client then stmod client_zeroed else mret tt.
Definition ove_http_client_create (client : bool) : CM (Z * Z) :=
  if negb client then mret (OVE_ERR_INVALID_PARAM, 0) else
  p ← OVE_BACKEND_MALLOC sizeof_http_client;
  if p =? 0 then mret (OVE_ERR_NO_MEMORY, 0) else stmod client_zeroed;; mret (OVE_OK, p).
Definition ove_http_client_destroy (client : Z) : CM unit :=
  if client =? 0 then mret tt else stmod client_zeroed;; OVE_BACKEND_FREE client.

Definition over_tls (c : ove_http_client) : bool := HTTP_TLS && c_use_tls c && negb (c_tls c =? 0).

Fixpoint http_send_all_ (fuel : nat) (d : list Z) : CM Z :=
  match d with
  | [] => mret OVE_OK
  | _ =>
      match fuel with
      | O => ofail
      | S fuel =>
        c ← stget;
        '(ret, sent) ← (if over_tls c then ove_tls_send (c_tls c) d else ove_socket_send (c_sock c) d);
        if negb (ret =? OVE_OK) then mret ret else http_send_all_ fuel (drop (Z.to_nat sent) d)
      end
  end.
Definition http_send_all (d : list Z) : CM Z := http_send_all_ (length d) d.

Definition OVE_WAIT_FOREVER : Z := 2 ^ 64 - 1.
Definition http_recv_some (len : Z) : CM (Z * list Z) :=
  c ← stget;
  if over_tls c then ove_tls_recv (c_tls c) len else ove_socket_recv (c_sock c) len OVE_WAIT_FOREVER.

(** A line formatted into a buffer of [cap] bytes, then sent. *)
Definition send_line (cap : nat) (line : list Z) : CM Z :=
  if (cap <=? length line)%nat then mret OVE_ERR_INVALID_PARAM else http_send_all line.

(** Entries with a NULL name or value are skipped. *)
Fixpoint send_headers (headers : list (option (list Z) * option (list Z))) : CM Z :=
  match headers with
  | [] => mret OVE_OK
  | (Some name, Some value) :: hs =>
      ret ← send_line 256 (header_line name value);
      if negb (ret =? OVE_OK) then mret ret else send_headers hs
  | _ :: hs => send_headers hs
  end.

(** Request line, headers, body. *)
Definition send_request (method : Z) (path : list Z) (content_type body : option (list Z))
  (headers : list (option (list Z) * option (list Z))) : CM Z :=
  c ← stget;
  ret ← send_line 512 (request_line method path (c_host c));
  if negb (ret =? OVE_OK) then mret ret else
  ret ← send_headers headers;
  if negb (ret =? OVE_OK) then mret ret else
  ret ← (match content_type, body with
       | Some ct, Some b => send_line 256 (content_header ct (Z.of_nat (length b)))
       | _, _ => mret OVE_OK
       end);
  if negb (ret =? OVE_OK) then mret ret else
  ret ← http_send_all CRLF;
  if negb (ret =? OVE_OK) then mret ret else
  match body with
  | Some b => if (0 <? length b)%nat then http_send_all b else mret OVE_OK
  | None => mret OVE_OK
  end.

(** Make room for the next receive: [inl] on failure, else the block and
    its capacity. *)
Definition grow (p cap total : Z) : CM (Z + Z * Z) :=
  if HTTP_ZERO_HEAP then
  mret (if cap <=? total + 1 then inl OVE_ERR_NO_MEMORY else inr (p, cap))
  else if cap <? total + 1024 then
  nb ← OVE_BACKEND_MALLOC (cap * 2);
  if nb =? 0 then OVE_BACKEND_FREE p;; mret (inl OVE_ERR_NO_MEMORY)
  else OVE_BACKEND_FREE p;; mret (inr (nb, cap * 2))
  else mret (inr (p, cap)).

(** Until the peer closes: the block and the bytes read. *)
Fixpoint read_loop (fuel : nat) (p cap : Z) (data : list Z) : CM (Z + Z * list Z) :=
  match fuel with
  | O => ofail
  | S fuel =>
      g ← grow p cap (Z.of_nat (length data));
      match g with
      | inl err => mret (inl err)
      | inr (p, cap) =>
        '(ret, d) ← http_recv_some (cap - Z.of_nat (length data) - 1);
        if ret =? OVE_ERR_NET_CLOSED then mret (inr (p, data)) else
        if negb (ret =? OVE_OK) then
          (if HTTP_ZERO_HEAP then mret tt else OVE_BACKEND_FREE p);; mret (inl ret)
        else read_loop fuel p cap (data ++ d)
      end
  end.

Definition free_buf (p : Z) : CM unit := if HTTP_ZERO_HEAP then mret tt else OVE_BACKEND_FREE p.

(** The response of the bytes read; the read buffer is released. *)
Definition make_response (p : Z) (data : list Z) : CM (Z * ove_http_response) :=
  let resp := {| resp_zero with status := parse_status (cstr data) |} in
  match split_response data with
  | None => free_buf p;; mret (OVE_OK, resp)
  | Some (hdr, b) =>
      if HTTP_ZERO_HEAP then mret (OVE_OK, {| resp with resp_headers := Some hdr; resp_body := Some b |})
      else
      hp ← OVE_BACKEND_MALLOC (Z.of_nat (length hdr) + 1);
      if hp =? 0 then OVE_BACKEND_FREE p;; mret (OVE_ERR_NO_MEMORY, resp) else
      bp ← OVE_BACKEND_MALLOC (Z.of_nat (length b) + 1);
      if bp =? 0 then OVE_BACKEND_FREE hp;; OVE_BACKEND_FREE p;; mret (OVE_ERR_NO_MEMORY, resp) else
      OVE_BACKEND_FREE p;;
      mret (OVE_OK, {| resp with resp_headers := Some hdr; headers_ptr := hp; resp_body := Some b; body_ptr := bp |})
  end.

(** Everything between the TLS handshake and [cleanup_tls]. *)
Definition exchange (fuel : nat) (method : Z) (path : list Z) (content_type body : option (list Z))
  (headers : list (option (list Z) * option (list Z))) : CM (Z * ove_http_response) :=
  ret ← send_request method path content_type body headers;
  if negb (ret =? OVE_OK) then mret (ret, resp_zero) else
  p ← (if HTTP_ZERO_HEAP then mret 1 else OVE_BACKEND_MALLOC 4096);
  if p =? 0 then mret (OVE_ERR_NO_MEMORY, resp_zero) else
  r ← read_loop fuel p (if HTTP_ZERO_HEAP then CONFIG_OVE_NET_HTTP_MAX_RESPONSE else 4096) [];
  match r with
  | inl err => mret (err, resp_zero)
  | inr (p, data) => make_response p data
  end.

(** The TLS stage: [inl] fails (socket to be closed), [inr tls] continues. *)
Definition start_tls (use_tls : bool) : CM (Z + Z) :=
  if negb use_tls then mret (inr 0) else
  if HTTP_TLS then
  c ← stget;
  if (s_tls_ca_cert c =? 0) && negb (s_tls_allow_insecure c) then mret (inl OVE_ERR_INVALID_PARAM) else
  '(ret, t) ← ove_tls_init;
  if negb (ret =? OVE_OK) then mret (inl ret) else
  ret ← ove_tls_handshake t (c_sock c);
  if negb (ret =? OVE_OK) then ove_tls_deinit t;; mret (inl ret) else
  stmod (fun c => {| c with c_tls := t |});; mret (inr t)
  else mret (inl OVE_ERR_NOT_SUPPORTED).

Definition cleanup_sock (r : Z * ove_http_response) : CM (Z * ove_http_response) :=
  c ← stget; ove_socket_close (c_sock c);; stmod (fun c => {| c with c_sock := 0 |});; mret r.
Definition cleanup_tls (use_tls : bool) (t : Z) (r : Z * ove_http_response) : CM (Z * ove_http_response) :=
  (if HTTP_TLS && use_tls && negb (t =? 0) then
   ove_tls_close t;; ove_tls_deinit t;; stmod (fun c => {| c with c_tls := 0 |})
   else mret tt);;
  cleanup_sock r.

(** [url = None] is NULL; [client] and [resp] tell whether those are not. *)
Definition ove_http_request_ex (fuel : nat) (client : bool) (method : Z) (url : option (list Z))
  (content_type body : option (list Z)) (headers : list (option (list Z) * option (list Z))) (resp : bool) :
  CM (Z * ove_http_response) :=
  if url is Some url then
  if negb client || negb resp then mret (OVE_ERR_INVALID_PARAM, resp_zero) else
  if parse_url url 128 is Some (use_tls, host, port, path) then
    stmod (fun c => {| c with c_host := host; c_port := port; c_use_tls := use_tls |});;
    '(ret, addr) ← ove_dns_resolve host (OVE_MS 10000);
    if negb (ret =? OVE_OK) then mret (ret, resp_zero) else
    '(ret, s) ← ove_socket_open OVE_SOCK_STREAM;
    stmod (fun c => {| c with c_sock := s |});;
    if negb (ret =? OVE_OK) then mret (ret, resp_zero) else
    ret ← ove_socket_connect s addr port (OVE_MS 10000);
    if negb (ret =? OVE_OK) then cleanup_sock (ret, resp_zero) else
    t ← start_tls use_tls;
    match t with
    | inl err => cleanup_sock (err, resp_zero)
    | inr t => r ← exchange fuel method path content_type body headers; cleanup_tls use_tls t r
    end
  else mret (OVE_ERR_INVALID_PARAM, resp_zero)
  else mret (OVE_ERR_INVALID_PARAM, resp_zero).

Definition ove_http_request (fuel : nat) (client : bool) (method : Z) (url content_type body : option (list Z))
  (resp : bool) : CM (Z * ove_http_response) :=
  ove_http_request_ex fuel client method url content_type body [] resp.
Definition ove_http_get (fuel : nat) (client : bool) (url : option (list Z)) (resp : bool) :
  CM (Z * ove_http_response) := ove_http_request fuel client OVE_HTTP_GET url None None resp.
Definition ove_http_post (fuel : nat) (client : bool) (url content_type body : option (list Z)) (resp : bool) :
  CM (Z * ove_http_response) := ove_http_request fuel client OVE_HTTP_POST url content_type body resp.

Definition ove_http_response_free (resp : ove_http_response) : CM ove_http_response :=
  (if HTTP_ZERO_HEAP then mret tt else
   (if negb (body_ptr resp =? 0) then OVE_BACKEND_FREE (body_ptr resp) else mret tt);;
   (if negb (headers_ptr resp =? 0) then OVE_BACKEND_FREE (headers_ptr resp) else mret tt));;
  mret resp_zero.

End client.

(** ** Resources *)

(** Receives and TLS sends make progress (a closed connection is reported as
    an error), and the heap is finite. *)
Class HttpProgress (W : Type) `{NetEnv W} := {
  recv_progress : forall s k t w d w', env_recv s k t w = ((OVE_OK, d), w') -> 0 < k -> d <> [];
  tls_recv_progress : forall s k w d w', env_tls_recv s k w = ((OVE_OK, d), w') -> 0 < k -> d <> [];
  tls_send_progress : forall s d w n w', env_tls_send s d w = ((OVE_OK, n), w') -> d <> [] -> 0 < n;
  heap_size : Z;
  malloc_finite : forall n w p w', env_malloc n w = (p, w') -> p <> 0 -> n <= heap_size }.

Section resources.
Context {W : Type} {E : NetEnv W} {L : NetLaws W} {P : SendProgress W} {HP : HttpProgress W} {Cfg : HttpConfig}.
Implicit Types (n : nst W ove_http_client) (c : ove_http_client).

Definition sopen1 (e : ev) : list Z := match e with EOpen r s => if r =? OVE_OK then [s] else [] | _ => [] end.
Definition tinit1 (e : ev) : list Z := match e with ETlsInit r t => if r =? OVE_OK then [t] else [] | _ => [] end.
Definition tdeinit1 (e : ev) : list Z := match e with ETlsDeinit t => [t] | _ => [] end.
Definition sopens (t : list ev) : list Z := concat (sopen1 <$> t).
Definition tinits (t : list ev) : list Z := concat (tinit1 <$> t).
Definition tdeinits (t : list ev) : list Z := concat (tdeinit1 <$> t).

(** Since [n0], sockets, TLS sessions and heap blocks acquired and not yet
    released. *)
Definition holds n0 (socks sessions mem : list Z) n : Prop :=
  exists t, tr n = tr n0 ++ t /\ closes t ++ socks ≡ₚ sopens t /\
  tdeinits t ++ sessions ≡ₚ tinits t /\ frees t ++ mem ≡ₚ mallocs t.

(** Events that acquire and release nothing. *)
Definition plain_ev (e : ev) : bool :=
  match e with
  | EOpen _ _ | EClose _ | ETlsInit _ _ | ETlsDeinit _ | EMalloc _ _ | EFree _ => false
  | _ => true
  end.

Lemma holds_refl n : holds n [] [] [] n.
Proof. exists []. by rewrite app_nil_r. Qed.

Lemma perm_step (a a' b b' x x' : list Z) :
  a ++ x ≡ₚ b -> a' ++ x' ≡ₚ b' ++ x -> (a ++ a') ++ x' ≡ₚ b ++ b'.
Proof. intros H1 H2. rewrite <-app_assoc, H2, <-H1, Permutation_app_swap_app. by apply Permutation_app_comm. Qed.

Lemma holds_step n0 n w t c' a b m a' b' m' :
  holds n0 a b m n ->
  closes t ++ a' ≡ₚ sopens t ++ a -> tdeinits t ++ b' ≡ₚ tinits t ++ b -> frees t ++ m' ≡ₚ mallocs t ++ m ->
  holds n0 a' b' m' (mk_nst w (tr n ++ t) c').
Proof.
  intros (t0 & Ht0 & Ha & Hb & Hm) Ha' Hb' Hm'. exists (t0 ++ t). cbn [tr].
  split; [by rewrite Ht0, app_assoc|]. unfold closes, sopens, tinits, tdeinits, frees, mallocs in *.
  rewrite !concat_fmap_app. split_and!; by eapply perm_step.
Qed.

Lemma plain_none t : forallb plain_ev t = true ->
  closes t = [] /\ sopens t = [] /\ tdeinits t = [] /\ tinits t = [] /\ frees t = [] /\ mallocs t = [].
Proof.
  unfold closes, sopens, tinits, tdeinits, frees, mallocs. induction t as [|e t IH]; [done|]. simpl.
  intros [He Ht]%andb_prop. destruct (IH Ht) as (H1 & H2 & H3 & H4 & H5 & H6). by destruct e; split_and!.
Qed.

Lemma holds_plain n0 n w t c' a b m :
  holds n0 a b m n -> forallb plain_ev t = true -> holds n0 a b m (mk_nst w (tr n ++ t) c').
Proof.
  intros Hh Ht. destruct (plain_none _ Ht) as (H1 & H2 & H3 & H4 & H5 & H6).
  eapply holds_step; [exact Hh|by rewrite H1, H2|by rewrite H3, H4|by rewrite H5, H6].
Qed.

Lemma holds_state n0 n c' a b m : holds n0 a b m n -> holds n0 a b m (mk_nst (nw n) (tr n) c').
Proof. intros Hh. rewrite <-(app_nil_r (tr n)). by apply holds_plain. Qed.

(** Only plain events, and the client unchanged. *)
Definition plain n (n1 : nst W ove_http_client) : Prop :=
  st n1 = st n /\ exists t, tr n1 = tr n ++ t /\ forallb plain_ev t = true.

Lemma plain_refl n : plain n n.
Proof. split; [done|]. exists []. by rewrite app_nil_r. Qed.

Lemma plain_trans n n1 n2 : plain n n1 -> plain n1 n2 -> plain n n2.
Proof.
  intros (Hs1 & t1 & Ht1 & H1) (Hs2 & t2 & Ht2 & H2). split; [congruence|]. exists (t1 ++ t2).
  by rewrite Ht2, Ht1, app_assoc, forallb_app, H1, H2.
Qed.

Lemma plain_holds n0 n n1 a b m : plain n n1 -> holds n0 a b m n -> holds n0 a b m n1.
Proof.
  intros (Hs & t & Ht & Hf) Hh. destruct n1 as [w tt' c]. simpl in *. subst. by apply holds_plain.
Qed.

Lemma wp_http_send_all fuel d n (Q : Z -> nst W ove_http_client -> Prop) :
  (length d <= fuel)%nat -> (forall r n1, plain n n1 -> Q r n1) -> wp (http_send_all_ fuel d) Q n.
Proof.
  revert d n. induction fuel as [|fuel IH]; intros d n Hl HQ; cbn [http_send_all_].
  { destruct d; [|simpl in Hl; lia]. apply wp_ret, HQ, plain_refl. }
  destruct d as [|b d]; [apply wp_ret, HQ, plain_refl|]. wp_steps.
  assert (Hgo : forall r k w e, plain_ev e = true -> (r = OVE_OK -> 0 < k) ->
    wp (if negb (r =? OVE_OK) then mret r else http_send_all_ fuel (drop (Z.to_nat k) (b :: d))) Q
    (mk_nst w (tr n ++ [e]) (st n))).
  { intros r k w e He Hk. assert (Hp : plain n (mk_nst w (tr n ++ [e]) (st n))).
    { split; [done|]. exists [e]. by simpl; rewrite He. }
    destruct (r =? OVE_OK) eqn:Hr; cbn [negb]; [|by apply wp_ret, HQ].
    apply Z.eqb_eq in Hr. specialize (Hk Hr). apply IH; [rewrite length_drop; simpl in *; lia|].
    intros r' n2 H2. apply HQ. by eapply plain_trans. }
  destruct (over_tls (st n)); apply wp_call; intros [r k] w He; apply Hgo; try done; intros ->.
  - by eapply tls_send_progress.
  - by eapply send_progress.
Qed.

Lemma wp_send_line cap line n (Q : Z -> nst W ove_http_client -> Prop) :
  (forall r n1, plain n n1 -> Q r n1) -> wp (send_line cap line) Q n.
Proof.
  intros HQ. unfold send_line, http_send_all. destruct (cap <=? _)%nat; [apply wp_ret, HQ, plain_refl|].
  by apply wp_http_send_all.
Qed.

Lemma wp_send_headers hs n (Q : Z -> nst W ove_http_client -> Prop) :
  (forall r n1, plain n n1 -> Q r n1) -> wp (send_headers hs) Q n.
Proof.
  revert n. induction hs as [|[[name|] [value|]] hs IH]; intros n HQ; cbn [send_headers];
    [apply wp_ret, HQ, plain_refl| |by apply IH|by apply IH|by apply IH].
  apply wp_bind, wp_send_line. intros r n1 H1. destruct (negb _); [by apply wp_ret, HQ|].
  apply IH. intros r' n2 H2. apply HQ. by eapply plain_trans.
Qed.

Lemma wp_send_request method path ct body hs n (Q : Z -> nst W ove_http_client -> Prop) :
  (forall r n1, plain n n1 -> Q r n1) -> wp (send_request method path ct body hs) Q n.
Proof.
  intros HQ. unfold send_request. wp_steps. apply wp_send_line. intros r1 n1 H1.
  destruct (negb _); [by apply wp_ret, HQ|]. apply wp_bind, wp_send_headers. intros r2 n2 H2.
  assert (H02 : plain n n2) by (by eapply plain_trans). destruct (negb _); [by apply wp_ret, HQ|].
  assert (Hgo : forall n3, plain n n3 ->
    wp (ret ← http_send_all CRLF;
      if negb (ret =? OVE_OK) then mret ret else
      match body with
      | Some b => if (0 <? length b)%nat then http_send_all b else mret OVE_OK
      | None => mret OVE_OK
      end) Q n3).
  { intros n3 H3. apply wp_bind, wp_http_send_all; [done|]. intros r4 n4 H4.
    assert (H04 : plain n n4) by (by eapply plain_trans). destruct (negb _); [by apply wp_ret, HQ|].
    destruct body as [b|]; [|by apply wp_ret, HQ]. destruct (0 <? _)%nat; [|by apply wp_ret, HQ].
    apply wp_http_send_all; [done|]. intros r5 n5 H5. apply HQ. by eapply plain_trans. }
  apply wp_bind. destruct ct as [ct|]; [|by apply wp_ret; cbn; apply Hgo].
  destruct body as [b|]; [|by apply wp_ret; cbn; apply Hgo].
  apply wp_send_line. intros r3 n3 H3. assert (H03 : plain n n3) by (by eapply plain_trans).
  destruct (negb _); [by apply wp_ret, HQ|by apply Hgo].
Qed.

(** The read buffer's block, and the largest buffer that can exist. *)
Definition buf_mem (p : Z) : list Z := if HTTP_ZERO_HEAP then [] else [p].
Definition max_buffer : Z := Z.max 4096 (Z.max heap_size CONFIG_OVE_NET_HTTP_MAX_RESPONSE).
Definition cap_ok (cap : Z) : Prop := cap <= max_buffer /\ (HTTP_ZERO_HEAP = false -> 1024 <= cap).

Lemma wp_free n0 p a b m n (Q : unit -> nst W ove_http_client -> Prop) :
  holds n0 a b (p :: m) n ->
  (forall n1, st n1 = st n -> holds n0 a b m n1 -> Q tt n1) -> wp (OVE_BACKEND_FREE p) Q n.
Proof.
  intros Hh HQ. wp_steps. apply HQ; [done|]. eapply holds_step; [exact Hh|done|done|done].
Qed.

Lemma wp_malloc n0 k a b m n (Q : Z -> nst W ove_http_client -> Prop) :
  holds n0 a b m n ->
  (forall p n1, st n1 = st n -> p = 0 -> holds n0 a b m n1 -> Q p n1) ->
  (forall p n1, st n1 = st n -> p <> 0 -> k <= heap_size -> holds n0 a b (p :: m) n1 -> Q p n1) ->
  wp (OVE_BACKEND_MALLOC k) Q n.
Proof.
  intros Hh H0 H1. apply wp_call. intros p w He. destruct (decide (p = 0)) as [Hp|Hp].
  - apply H0; [done|done|]. eapply holds_step; [exact Hh|done|done|].
    unfold mallocs. simpl. by rewrite Hp.
  - apply H1; [done|done|by eapply malloc_finite|]. eapply holds_step; [exact Hh|done|done|].
    unfold mallocs. simpl. by rewrite (proj2 (Z.eqb_neq _ _) Hp).
Qed.

Lemma wp_grow n0 p cap total a b n (Q : Z + Z * Z -> nst W ove_http_client -> Prop) :
  holds n0 a b (buf_mem p) n -> cap_ok cap -> 0 <= total < cap ->
  (forall e n1, e <> OVE_OK -> st n1 = st n -> holds n0 a b [] n1 -> Q (inl e) n1) ->
  (forall p' cap' n1, st n1 = st n -> holds n0 a b (buf_mem p') n1 -> cap_ok cap' -> total + 1 < cap' ->
   Q (inr (p', cap')) n1) ->
  wp (grow p cap total) Q n.
Proof.
  unfold grow, cap_ok, buf_mem. intros Hh [Hc Hc1] Ht Herr HQ. destruct HTTP_ZERO_HEAP.
  - apply wp_ret. destruct (cap <=? total + 1) eqn:Hcap; [by apply Herr|].
    apply Z.leb_gt in Hcap. by apply HQ.
  - specialize (Hc1 eq_refl). destruct (cap <? total + 1024) eqn:Hcap.
    2:{ apply Z.ltb_ge in Hcap. apply wp_ret, HQ; [done|done|done|lia]. }
    apply wp_bind. eapply wp_malloc; [exact Hh|..].
    + intros nb n1 Hs -> Hh1. change (0 =? 0) with true. cbn iota.
      apply wp_bind. eapply wp_free; [exact Hh1|]. intros n2 Hs2 Hh2. apply wp_ret, Herr; [done|congruence|done].
    + intros nb n1 Hs Hnb Hk Hh1. rewrite (proj2 (Z.eqb_neq _ _) Hnb). apply wp_bind.
      eapply (wp_free n0 p a b [nb]).
      { destruct Hh1 as (t & Ht1 & H1 & H2 & H3). exists t. split_and!; [done|done|done|].
        rewrite <-H3. apply Permutation_app_head. constructor. }
      intros n2 Hs2 Hh2. apply wp_ret, HQ; [congruence|done|unfold max_buffer; split; lia|lia].
Qed.

(** One receive makes progress or reports. *)
Lemma wp_recv_some k n (Q : Z * list Z -> nst W ove_http_client -> Prop) :
  0 < k ->
  (forall r d n1, plain n n1 -> Z.of_nat (length d) <= k -> (r = OVE_OK -> (0 < length d)%nat) -> Q (r, d) n1) ->
  wp (http_recv_some k) Q n.
Proof.
  intros Hk HQ. unfold http_recv_some. wp_steps.
  assert (Hgo : forall r d w e, plain_ev e = true -> Z.of_nat (length d) <= k -> (r = OVE_OK -> d <> []) ->
          Q (r, d) (mk_nst w (tr n ++ [e]) (st n))).
  { intros r d w e He Hd Hne. apply HQ; [|done|].
    - split; [done|]. exists [e]. by simpl; rewrite He.
    - intros Hr. specialize (Hne Hr). destruct d; [done|simpl; lia]. }
  destruct (over_tls (st n)); apply wp_call; intros [r d] w He; apply Hgo; try done.
  - destruct (tls_recv_len _ _ _ _ _ _ He); [lia|done].
  - intros ->. by eapply tls_recv_progress.
  - destruct (recv_len _ _ _ _ _ _ _ He); [lia|done].
  - intros ->. by eapply recv_progress.
Qed.

Lemma wp_read_loop fuel n0 p cap data a b n (Q : Z + Z * list Z -> nst W ove_http_client -> Prop) :
  holds n0 a b (buf_mem p) n -> cap_ok cap -> Z.of_nat (length data) < cap ->
  max_buffer < Z.of_nat (length data) + Z.of_nat fuel ->
  (forall e n1, e <> OVE_OK -> st n1 = st n -> holds n0 a b [] n1 -> Q (inl e) n1) ->
  (forall p' data' n1, st n1 = st n -> holds n0 a b (buf_mem p') n1 -> Q (inr (p', data')) n1) ->
  wp (read_loop fuel p cap data) Q n.
Proof.
  revert p cap data n. induction fuel as [|fuel IH]; intros p cap data n Hh Hcap Ht Hf Herr HQ; cbn [read_loop].
  { destruct Hcap. lia. }
  apply wp_bind. eapply wp_grow; [exact Hh|done|lia|..].
  { intros e n1 He Hs Hh1. apply wp_ret. by apply Herr. }
  intros p' cap' n1 Hs Hh1 Hcap' Ht'. apply wp_bind, wp_recv_some; [lia|].
  intros r d n2 Hp2 Hd Hprog. cbn beta iota. pose proof (plain_holds _ _ _ _ _ _ Hp2 Hh1) as Hh2.
  assert (Hs2 : st n2 = st n) by (destruct Hp2; congruence).
  destruct (r =? OVE_ERR_NET_CLOSED); [by apply wp_ret, HQ|].
  destruct (r =? OVE_OK) eqn:Hr; cbn [negb].
  - apply Z.eqb_eq in Hr. specialize (Hprog Hr).
    apply IH; [done|done|rewrite length_app; lia|rewrite length_app; lia|..].
    + intros e n3 He Hs3 Hh3. apply Herr; [done|congruence|done].
    + intros p3 d3 n3 Hs3 Hh3. apply HQ; [congruence|done].
  - apply Z.eqb_neq in Hr. unfold buf_mem in Hh2. apply wp_bind. destruct HTTP_ZERO_HEAP.
    + apply wp_ret. by apply wp_ret, Herr.
    + eapply wp_free; [exact Hh2|]. intros n3 Hs3 Hh3. apply wp_ret, Herr; [done|congruence|done].
Qed.

Definition resp_blocks (r : ove_http_response) : list Z :=
  (if headers_ptr r =? 0 then [] else [headers_ptr r]) ++ (if body_ptr r =? 0 then [] else [body_ptr r]).

(** The result: a response that owns its blocks, or an error and nothing. *)
Definition answered n0 c a b (x : Z * ove_http_response) (n1 : nst W ove_http_client) : Prop :=
  st n1 = c /\ holds n0 a b (resp_blocks x.2) n1 /\ (x.1 <> OVE_OK -> resp_blocks x.2 = []).

Lemma wp_make_response n0 p data a b n :
  holds n0 a b (buf_mem p) n -> wp (make_response p data) (answered n0 (st n) a b) n.
Proof.
  unfold make_response, free_buf, buf_mem. intros Hh.
  destruct (split_response data) as [[hdr bd]|], HTTP_ZERO_HEAP.
  - by apply wp_ret.
  - apply wp_bind. eapply wp_malloc; [exact Hh|..].
    { intros hp n1 Hs -> Hh1. change (0 =? 0) with true. cbn iota. apply wp_bind.
      eapply wp_free; [exact Hh1|]. intros n2 Hs2 Hh2. apply wp_ret. split_and!; [congruence|exact Hh2|done]. }
    intros hp n1 Hs Hp _ Hh1. rewrite (proj2 (Z.eqb_neq _ _) Hp). apply wp_bind. eapply wp_malloc; [exact Hh1|..].
    { intros bp n2 Hs2 -> Hh2. change (0 =? 0) with true. cbn iota. apply wp_bind.
      eapply wp_free; [exact Hh2|]. intros n3 Hs3 Hh3. apply wp_bind. eapply wp_free; [exact Hh3|].
      intros n4 Hs4 Hh4. apply wp_ret. split_and!; [congruence|exact Hh4|done]. }
    intros bp n2 Hs2 Hbp _ Hh2. rewrite (proj2 (Z.eqb_neq _ _) Hbp). apply wp_bind.
    eapply (wp_free n0 p a b [hp; bp]).
    { destruct Hh2 as (t & Ht1 & H1 & H2 & H3). exists t. split_and!; [done|done|done|].
      rewrite <-H3. apply Permutation_app_head. rewrite (Permutation_cons_append [hp; p] bp). cbn [app].
      by constructor. }
    intros n3 Hs3 Hh3. apply wp_ret. unfold answered, resp_blocks. cbn [fst snd headers_ptr body_ptr].
    rewrite (proj2 (Z.eqb_neq _ _) Hp), (proj2 (Z.eqb_neq _ _) Hbp). split_and!; [congruence|exact Hh3|done].
  - apply wp_bind, wp_ret. by apply wp_ret.
  - apply wp_bind. eapply wp_free; [exact Hh|]. intros n1 Hs1 Hh1. apply wp_ret. split_and!; [done|exact Hh1|done].
Qed.

Lemma wp_exchange fuel method path ct body hs n0 a b n :
  holds n0 a b [] n -> max_buffer < Z.of_nat fuel ->
  wp (exchange fuel method path ct body hs) (answered n0 (st n) a b) n.
Proof.
  intros Hh Hf. unfold exchange. pose proof http_sizes as [Hsz _].
  apply wp_bind, wp_send_request. intros r n1 H1.
  pose proof (plain_holds _ _ _ _ _ _ H1 Hh) as Hh1. destruct H1 as [Hs1 _].
  destruct (r =? OVE_OK) eqn:Hr; cbn [negb]; [|by apply wp_ret].
  assert (Hread : forall p n2, st n2 = st n -> p <> 0 -> holds n0 a b (buf_mem p) n2 ->
    wp (if p =? 0 then mret (OVE_ERR_NO_MEMORY, resp_zero) else
      r ← read_loop fuel p (if HTTP_ZERO_HEAP then CONFIG_OVE_NET_HTTP_MAX_RESPONSE else 4096) [];
      match r with inl err => mret (err, resp_zero) | inr (p, data) => make_response p data end)
    (answered n0 (st n) a b) n2).
  { intros p n2 Hs2 Hp Hh2. rewrite (proj2 (Z.eqb_neq _ _) Hp). apply wp_bind.
    eapply wp_read_loop; [exact Hh2| |destruct HTTP_ZERO_HEAP; simpl; lia|simpl; lia|..].
    - unfold cap_ok, max_buffer. destruct HTTP_ZERO_HEAP; split; try done; lia.
    - intros e n3 He Hs3 Hh3. apply wp_ret. split_and!; [cbn; congruence|done|done].
    - intros p' data n3 Hs3 Hh3. eapply wp_mono; [by apply wp_make_response|].
      intros x n4 (Hs4 & Hh4 & He4). split_and!; [congruence|done|done]. }
  apply wp_bind. unfold buf_mem in Hread. destruct HTTP_ZERO_HEAP eqn:Hz.
  - apply wp_ret. by apply Hread.
  - eapply wp_malloc; [exact Hh1|..].
    + intros p n2 Hs2 -> Hh2. change (0 =? 0) with true. cbn iota. apply wp_ret. split_and!; [cbn; congruence|done|done].
    + intros p n2 Hs2 Hp _ Hh2. apply Hread; [congruence|done|exact Hh2].
Qed.

Lemma wp_cleanup_sock n0 s b m x n (Q : Z * ove_http_response -> nst W ove_http_client -> Prop) :
  c_sock (st n) = s -> holds n0 [s] b m n -> (forall n1, holds n0 [] b m n1 -> Q x n1) -> wp (cleanup_sock x) Q n.
Proof.
  intros Hs Hh HQ. unfold cleanup_sock. wp_steps. apply HQ. rewrite Hs.
  eapply holds_step; [exact Hh|done|done|done].
Qed.

Lemma wp_start_tls use_tls n0 a m n (Q : Z + Z -> nst W ove_http_client -> Prop) :
  holds n0 a [] m n ->
  (forall e n1, e <> OVE_OK -> c_sock (st n1) = c_sock (st n) -> holds n0 a [] m n1 -> Q (inl e) n1) ->
  (forall t n1, c_sock (st n1) = c_sock (st n) ->
   holds n0 a (if HTTP_TLS && use_tls && negb (t =? 0) then [t] else []) m n1 -> Q (inr t) n1) ->
  wp (start_tls use_tls) Q n.
Proof.
  intros Hh Herr HQ. unfold start_tls. destruct use_tls; cbn [negb].
  2:{ apply wp_ret, HQ; [done|]. by rewrite andb_false_r. }
  destruct HTTP_TLS; [|by apply wp_ret, Herr]. wp_steps.
  destruct ((s_tls_ca_cert (st n) =? 0) && _); [by apply wp_ret, Herr|].
  apply wp_bind, wp_call. intros [r t] w He. cbn beta iota. destruct (r =? OVE_OK) eqn:Hr; cbn [negb].
  2:{ apply wp_ret, Herr; [by apply Z.eqb_neq|done|]. eapply holds_step; [exact Hh|done| |done].
      unfold tinits. simpl. by rewrite Hr. }
  apply Z.eqb_eq in Hr as ->. pose proof (tls_init_handle _ _ _ He) as Ht.
  set (n1 := mk_nst w _ _). assert (Hh1 : holds n0 a [t] m n1) by (by eapply holds_step; [exact Hh|..]).
  apply wp_bind, wp_call. intros r w' _. destruct (r =? OVE_OK) eqn:Hr; cbn [negb]; wp_steps.
  - apply HQ; [done|]. rewrite (proj2 (Z.eqb_neq _ _) Ht). cbn [andb negb].
    apply (holds_plain _ n1 w' [ETlsHandshake t (c_sock (st n)) r]); [exact Hh1|done].
  - apply Herr; [by apply Z.eqb_neq|done|]. rewrite <-app_assoc.
    eapply (holds_step n0 n1); [exact Hh1|done|done|done].
Qed.

Lemma wp_cleanup_tls n0 s t use_tls m x n (Q : Z * ove_http_response -> nst W ove_http_client -> Prop) :
  c_sock (st n) = s ->
  holds n0 [s] (if HTTP_TLS && use_tls && negb (t =? 0) then [t] else []) m n ->
  (forall n1, holds n0 [] [] m n1 -> Q x n1) -> wp (cleanup_tls use_tls t x) Q n.
Proof.
  intros Hs Hh HQ. unfold cleanup_tls. apply wp_bind. destruct (HTTP_TLS && use_tls && negb (t =? 0)).
  - apply wp_bind, wp_call_, wp_bind, wp_call_, wp_stmod. eapply wp_cleanup_sock; [exact Hs| |done].
    apply holds_state. eapply (holds_step n0 (mk_nst _ (tr n ++ [ETlsClose t]) (st n)) _ [ETlsDeinit t]);
      [by apply holds_plain; [exact Hh|]|done|done|done].
  - apply wp_ret. by eapply wp_cleanup_sock.
Qed.

(** C27. A request leaks nothing and always ends.  On every path through
    [ove_http_request_ex] (bad URL, resolution, open, connect, TLS, each
    send, buffer growth, receive errors, allocation failures) the call
    returns, every socket it opened is closed, every TLS session released,
    and every heap block it allocated is freed or owned by the returned
    response, which owns nothing when the call failed.  The loop ends
    because receives make progress and the heap is finite; the fuel needed
    is the largest buffer that can exist. *)
Theorem http_no_leak fuel client method url ct body hs resp n :
  max_buffer < Z.of_nat fuel ->
  wp (ove_http_request_ex fuel client method url ct body hs resp) (fun x n1 =>
  exists t, tr n1 = tr n ++ t /\ closes t ≡ₚ sopens t /\ tdeinits t ≡ₚ tinits t /\
    frees t ++ resp_blocks x.2 ≡ₚ mallocs t /\ (x.1 <> OVE_OK -> resp_blocks x.2 = [])) n.
Proof.
  intros Hf.
  assert (Hend : forall x n1, holds n [] [] (resp_blocks x.2) n1 -> (x.1 <> OVE_OK -> resp_blocks x.2 = []) ->
    exists t, tr n1 = tr n ++ t /\ closes t ≡ₚ sopens t /\ tdeinits t ≡ₚ tinits t /\
    frees t ++ resp_blocks x.2 ≡ₚ mallocs t /\ (x.1 <> OVE_OK -> resp_blocks x.2 = [])).
  { intros x n1 (t & Ht & H1 & H2 & H3) He. exists t. rewrite !app_nil_r in *. by split_and!. }
  pose proof (holds_refl n) as H0. unfold ove_http_request_ex.
  destruct url as [url|]; [|by apply wp_ret, Hend]. destruct (_ || _); [by apply wp_ret, Hend|].
  destruct (parse_url url 128) as [[[[use_tls host] port] path]|]; [|by apply wp_ret, Hend].
  wp_steps. apply wp_call. intros [r addr] w _. cbn beta iota. cbn [tr st].
  set (n1 := mk_nst w _ _). assert (Hh1 : holds n [] [] [] n1) by (by apply holds_plain).
  destruct (negb (r =? OVE_OK)); [by apply wp_ret, Hend|].
  apply wp_bind, wp_call. intros [r2 s] w2 _. wp_steps. set (n2 := mk_nst w2 _ _).
  destruct (r2 =? OVE_OK) eqn:Hr2; cbn [negb].
  2:{ apply wp_ret, Hend; [|done]. eapply (holds_step n n1); [exact Hh1| |done|done].
      unfold sopens. simpl. by rewrite Hr2. }
  assert (Hh2 : holds n [s] [] [] n2).
  { eapply (holds_step n n1); [exact Hh1| |done|done]. unfold sopens. simpl. by rewrite Hr2. }
  apply wp_bind, wp_call. intros r3 w3 _. set (n3 := mk_nst w3 _ _).
  assert (Hh3 : holds n [s] [] [] n3) by (by apply holds_plain).
  destruct (negb (r3 =? OVE_OK)).
  { eapply wp_cleanup_sock; [done|exact Hh3|]. intros n4 Hh4. by apply Hend. }
  apply wp_bind. eapply wp_start_tls; [exact Hh3|..].
  - intros e n4 He Hs4 Hh4. eapply wp_cleanup_sock; [exact Hs4|exact Hh4|]. intros n5 Hh5. by apply Hend.
  - intros t n4 Hs4 Hh4. apply wp_bind. eapply wp_mono; [by apply wp_exchange|].
    intros x n5 (Hs5 & Hh5 & He5). eapply wp_cleanup_tls; [by rewrite Hs5|exact Hh5|].
    intros n6 Hh6. by apply Hend.
Qed.

End resources.

(** ** The client and the server understand each other *)

Section compose.
Context {Cfg : HttpConfig} {HCfg : HttpdConfig}.

(** The lines of a response. *)
Lemma response_lines st ct len :
  response_header st ct len false =
  (str "HTTP/1.1 " ++ status_str st) ++ CRLF ++ (str "Content-Type: " ++ ct) ++ CRLF ++
  (str "Content-Length: " ++ dec len) ++ CRLF ++ str "Connection: close" ++ CRLF ++
  str "Access-Control-Allow-Origin: *" ++ CRLF ++ CRLF.
Proof. unfold response_header. by rewrite <-!app_assoc. Qed.

Lemma status_lacks c st : c = CR \/ c = 0 -> lacks c (status_str st) = true.
Proof. intros Hc. unfold status_str. destruct Hc as [-> | ->]; repeat (case_match; [done|]); done. Qed.

(** The response up to the blank line. *)
Definition response_top (st : Z) (ct : list Z) (len : Z) : list Z :=
  (str "HTTP/1.1 " ++ status_str st) ++ CRLF ++ (str "Content-Type: " ++ ct) ++ CRLF ++
  (str "Content-Length: " ++ dec len) ++ CRLF ++ str "Connection: close" ++ CRLF ++
  str "Access-Control-Allow-Origin: *".

Lemma response_top_header st ct len :
  response_header st ct len false = response_top st ct len ++ CRLF ++ CRLF.
Proof. rewrite response_lines. unfold response_top. by rewrite <-!app_assoc. Qed.

Lemma response_top_clean st ct len :
  0 <= len -> lacks 0 ct = true -> lacks 0 (response_top st ct len) = true.
Proof.
  intros Hl Hct. unfold response_top. rewrite !lacks_app, status_lacks, Hct, lacks_dec by (done || by right).
  reflexivity.
Qed.

Lemma strstr_response st ct len rest :
  0 <= len -> lacks CR ct = true ->
  strstr (response_top st ct len ++ CRLF ++ CRLF ++ rest) (CRLF ++ CRLF) = Some (CRLF ++ CRLF ++ rest).
Proof.
  intros Hl Hct.
  assert (Hlines : response_top st ct len ++ CRLF ++ CRLF ++ rest =
    (str "HTTP/1.1 " ++ status_str st) ++ CRLF ++ (str "Content-Type: " ++ ct) ++ CRLF ++
    (str "Content-Length: " ++ dec len) ++ CRLF ++ str "Connection: close" ++ CRLF ++
    str "Access-Control-Allow-Origin: *" ++ CRLF ++ CRLF ++ rest)
    by (unfold response_top; by rewrite <-!app_assoc).
  rewrite Hlines.
  rewrite strstr_line'; [|apply lacks_Forall; by rewrite lacks_app, status_lacks by (by left)|done].
  rewrite strstr_line'; [|apply lacks_Forall; by rewrite lacks_app, Hct|done].
  rewrite strstr_line'; [|apply lacks_Forall; by rewrite lacks_app, lacks_dec|done].
  rewrite strstr_line'; [|by apply lacks_Forall|done].
  apply strstr_blank. by apply lacks_Forall.
Qed.

(** The client reads back what the server wrote: for each status the
    server distinguishes, any content type without CR or NUL and any body
    bytes (NULs included), parsing the server's response yields that status,
    exactly the header block and exactly the body. *)
Theorem http_response_roundtrip st ct body :
  st ∈ [200; 400; 404; 500] -> lacks CR ct = true -> lacks 0 ct = true ->
  let data := response_header st ct (Z.of_nat (length body)) false ++ body in
  parse_status (cstr data) = st /\
  exists hdr, split_response data = Some (hdr, body) /\
  response_header st ct (Z.of_nat (length body)) false = hdr ++ CRLF ++ CRLF.
Proof.
  intros Hst Hcr Hnul data. unfold data. rewrite response_top_header, <-!app_assoc.
  set (top := response_top st ct (Z.of_nat (length body))).
  assert (Hc : cstr (top ++ CRLF ++ CRLF ++ body) = top ++ CRLF ++ CRLF ++ cstr body).
  { rewrite cstr_app by (apply lacks_Forall, response_top_clean; [lia|done]).
    by rewrite !cstr_app by (by apply lacks_Forall). }
  rewrite Hc. split.
  - unfold parse_status, top, response_top. rewrite <-!app_assoc.
    assert (Hl : exists s, strstr (str "HTTP/1.1 " ++ status_str st ++ CRLF ++ str "Content-Type: " ++ ct ++ CRLF ++
        str "Content-Length: " ++ dec (Z.of_nat (length body)) ++ CRLF ++ str "Connection: close" ++ CRLF ++
        str "Access-Control-Allow-Origin: *" ++ CRLF ++ CRLF ++ cstr body) CRLF = Some s).
    { rewrite app_assoc, strstr_crlf; [by eexists|].
      apply lacks_Forall. by rewrite lacks_app, status_lacks by (by left). }
    destruct Hl as [s ->].
    repeat (apply elem_of_cons in Hst as [->|Hst]; [reflexivity|]). by apply not_elem_of_nil in Hst.
  - exists top. split; [|done]. unfold split_response.
    pose proof (strstr_response st ct (Z.of_nat (length body)) (cstr body) ltac:(lia) Hcr) as Hs. fold top in Hs.
    rewrite Hc, Hs.
    rewrite (length_app top), Nat.add_sub, take_app_length.
    do 2 f_equal. rewrite <-drop_drop, drop_app_length. done.
Qed.

(** The bytes a request with a body puts on the wire. *)
Definition request_bytes (m : Z) (path host ct body : list Z) : list Z :=
  request_line m path host ++ content_header ct (Z.of_nat (length body)) ++ CRLF ++ body.

Lemma request_colons m path host ct body :
  request_bytes m path host ct body =
  (method_str m ++ SP :: path ++ str " HTTP/1.1" ++ CRLF ++ str "Host") ++ COLON ::
  (SP :: host ++ CRLF ++ str "Connection") ++ COLON :: (str " close" ++ CRLF ++ str "Content-Type") ++ COLON ::
  (SP :: ct ++ CRLF) ++ str "Content-Length" ++ COLON ::
  SP :: dec (Z.of_nat (length body)) ++ CRLF ++ CRLF ++ body.
Proof. unfold request_bytes, request_line, content_header. by rewrite <-!app_assoc; simpl; rewrite <-!app_assoc. Qed.

Lemma method_lacks m c : c = SP \/ c = 0 \/ c = CR \/ c = COLON -> lacks c (method_str m) = true.
Proof. unfold method_str. intros [->|[->|[->| ->]]]; repeat (case_match; [done|]); done. Qed.

Lemma method_short m : (length (method_str m) <= 7)%nat.
Proof. unfold method_str. repeat (case_match; [simpl; lia|]). simpl. lia. Qed.

(** Everything up to the blank line, as lines. *)
Definition request_top (m : Z) (path host ct : list Z) (len : Z) : list Z :=
  (method_str m ++ SP :: path ++ str " HTTP/1.1") ++ CRLF ++ (str "Host: " ++ host) ++ CRLF ++
  str "Connection: close" ++ CRLF ++ (str "Content-Type: " ++ ct) ++ CRLF ++ (str "Content-Length: " ++ dec len).

Lemma request_lines m path host ct body :
  request_bytes m path host ct body = request_top m path host ct (Z.of_nat (length body)) ++ CRLF ++ CRLF ++ body.
Proof. unfold request_bytes, request_line, content_header, request_top. by rewrite <-!app_assoc; simpl; rewrite <-!app_assoc. Qed.

Lemma request_top_lacks m path host ct len c :
  0 <= len -> c = 0 -> lacks c path = true -> lacks c host = true -> lacks c ct = true ->
  lacks c (request_top m path host ct len) = true.
Proof.
  intros Hl -> Hp Hh Hct. unfold request_top. rewrite !lacks_app, method_lacks by (by right; left).
  change (SP :: path ++ str " HTTP/1.1") with ([SP] ++ path ++ str " HTTP/1.1").
  by rewrite !lacks_app, Hp, Hh, Hct, lacks_dec by done.
Qed.

Lemma strstr_request m path host ct len rest :
  0 <= len -> lacks CR path = true -> lacks CR host = true -> lacks CR ct = true ->
  strstr (request_top m path host ct len ++ CRLF ++ CRLF ++ rest) (CRLF ++ CRLF) = Some (CRLF ++ CRLF ++ rest).
Proof.
  intros Hl Hp Hh Hct.
  assert (Hlines : request_top m path host ct len ++ CRLF ++ CRLF ++ rest =
    (method_str m ++ [SP] ++ path ++ str " HTTP/1.1") ++ CRLF ++ (str "Host: " ++ host) ++ CRLF ++
    str "Connection: close" ++ CRLF ++ (str "Content-Type: " ++ ct) ++ CRLF ++ (str "Content-Length: " ++ dec len)
    ++ CRLF ++ CRLF ++ rest) by (unfold request_top; rewrite <-!app_assoc; simpl; by rewrite <-!app_assoc).
  rewrite Hlines.
  rewrite strstr_line'; [|apply lacks_Forall; by rewrite !lacks_app, method_lacks, Hp by (by right; right; left)|done].
  rewrite strstr_line'; [|apply lacks_Forall; by rewrite lacks_app, Hh|done].
  rewrite strstr_line'; [|by apply lacks_Forall|done].
  rewrite strstr_line'; [|apply lacks_Forall; by rewrite lacks_app, Hct|done].
  apply strstr_blank, lacks_Forall. by rewrite lacks_app, lacks_dec.
Qed.

(** The first Content-Length in the text is the client's. *)
Lemma find_content_length m path host ct len rest :
  lacks COLON path = true -> lacks COLON host = true -> lacks COLON ct = true ->
  find_header ((method_str m ++ SP :: path ++ str " HTTP/1.1" ++ CRLF ++ str "Host") ++ COLON ::
  (SP :: host ++ CRLF ++ str "Connection") ++ COLON :: (str " close" ++ CRLF ++ str "Content-Type") ++ COLON ::
  (SP :: ct ++ CRLF) ++ str "Content-Length" ++ COLON :: SP :: dec len ++ rest)
  (str "Content-Length:") (str "content-length:")
  = Some (str "Content-Length" ++ COLON :: SP :: dec len ++ rest).
Proof.
  intros Hp Hh Hct. unfold find_header.
  change (str "Content-Length:") with (str "Content-Length" ++ [COLON]).
  assert (Hk : Forall (fun x => x <> COLON) (str "Content-Length")) by (by apply lacks_Forall).
  rewrite strstr_stop; [|apply lacks_Forall|done|].
  - rewrite strstr_stop; [|apply lacks_Forall|done|].
    + rewrite strstr_stop; [|by apply lacks_Forall|done|].
      * rewrite strstr_hit; [done|apply lacks_Forall|done].
        change (SP :: ct ++ CRLF) with ([SP] ++ ct ++ CRLF). by rewrite !lacks_app, Hct.
      * rewrite app_assoc. by apply not_suffix_lasts.
    + change (SP :: host ++ CRLF ++ str "Connection") with ([SP] ++ host ++ CRLF ++ str "Connection").
      by rewrite !lacks_app, Hh.
    + change (SP :: host ++ CRLF ++ str "Connection") with ((SP :: host) ++ CRLF ++ str "Connection").
      rewrite app_assoc. by apply not_suffix_lasts.
  - change (SP :: path ++ str " HTTP/1.1" ++ CRLF ++ str "Host")
      with ([SP] ++ path ++ str " HTTP/1.1" ++ CRLF ++ str "Host").
    by rewrite !lacks_app, method_lacks, Hp by (by right; right; right).
  - change (SP :: path ++ str " HTTP/1.1" ++ CRLF ++ str "Host")
      with ([SP] ++ path ++ str " HTTP/1.1" ++ CRLF ++ str "Host").
    rewrite !app_assoc. by apply not_suffix_lasts.
Qed.

Lemma content_length_value len s :
  0 <= len <= CONFIG_OVE_NET_HTTPD_MAX_BODY ->
  parse_content_length (str "Content-Length" ++ COLON :: SP :: dec len ++ CR :: s) = len.
Proof.
  intros Hl. pose proof httpd_ulong as [Hb Hu]. unfold parse_content_length.
  change (drop 15 (str "Content-Length" ++ COLON :: SP :: dec len ++ CR :: s)) with ([SP] ++ dec len ++ CR :: s).
  destruct (dec_nonempty len) as (d & ds & Hd & Hdig). specialize (Hdig ltac:(lia)).
  assert (Hsp : drop_while (fun c => c =? SP) ([SP] ++ dec len ++ CR :: s) = dec len ++ CR :: s).
  { rewrite Hd. cbn [app]. apply (drop_while_skip _ [SP] d (ds ++ CR :: s)); [by repeat constructor|].
    apply Z.eqb_neq. intros ->. done. }
  rewrite Hsp, strtoul_dec by (done || lia). cbn [orb]. by rewrite (proj2 (Z.ltb_ge _ _)) by lia.
Qed.

(** Text in a request line, host or content type: no NUL, CR or colon. *)
Definition plain_text (s : list Z) : bool := lacks 0 s && lacks CR s && lacks COLON s.


End compose.

(** ** Witnesses *)

Module HttpDemo.
Import Stream.

#[local] Instance demo_http : HttpConfig.
Proof. refine (Build_HttpConfig true false 512 (2 ^ 32 - 1) 200 _). lia. Defined.
#[local] Instance demo_httpd : HttpdConfig.
Proof. refine (Build_HttpdConfig true false 1024 (2 ^ 32 - 1) _). lia. Defined.

#[local] Instance stream_http : HttpProgress stream.
Proof.
  assert (Hrecv : forall k w d w', recv k w = ((OVE_OK, d), w') -> 0 < k -> d <> []).
  { unfold recv. intros k w d w' He Hk. destruct (rx w); [done|]. injection He as <- _.
    destruct (Z.to_nat k `min` S (chunk w))%nat eqn:Hj; [lia|done]. }
  refine {| heap_size := 8192 |}.
  - intros s k t w d w'. apply Hrecv.
  - intros s k w d w'. apply Hrecv.
  - intros s d w n w' He Hd. simpl in He. unfold send in He. destruct (refuse w); simplify_eq.
    destruct d; simpl; [done|lia].
  - intros n w p w' He Hp. simpl in He. injection He as <- _. destruct (n <=? 8192) eqn:Hn; [|done].
    by apply Z.leb_le in Hn.
Defined.

Definition page : list Z := str "hello".
Definition peer : list Z :=
  response_header 200 (str "text/html") 5 false ++ page.
Definition client0 (bytes : list Z) : nst stream ove_http_client :=
  mk_nst {| rx := bytes; chunk := 20; refuse := false |} []
    {| c_tls := 0; c_sock := 0; c_host := []; c_port := 0; c_use_tls := false; s_tls_ca_cert := 0;
       s_tls_allow_insecure := true |}.

Example get_page :
  (fun x => (x.1.1, status x.1.2, resp_body x.1.2)) <$>
    ove_http_get 100 true (Some (str "https://example.org/x")) true (client0 peer)
  = Some (OVE_OK, 200, Some page).
Proof. vm_compute. reflexivity. Qed.

Lemma http_no_leak_witness :
  max_buffer < Z.of_nat (Z.to_nat 8200) /\
  wp (ove_http_request_ex (Z.to_nat 8200) true OVE_HTTP_GET (Some (str "https://example.org/x")) None None [] true)
    (fun x n1 => exists t, tr n1 = t /\ closes t ≡ₚ sopens t /\ tdeinits t ≡ₚ tinits t) (client0 peer).
Proof.
  assert (Hf : max_buffer < Z.of_nat (Z.to_nat 8200)) by (rewrite Z2Nat.id by lia; vm_compute; reflexivity).
  split; [exact Hf|].
  eapply wp_mono; [exact (http_no_leak (Z.to_nat 8200) true OVE_HTTP_GET (Some (str "https://example.org/x"))
    None None [] true (client0 peer) Hf)|].
  intros x n1 (t & Ht & H1 & H2 & _). by exists t.
Defined.

Lemma http_response_roundtrip_witness :
  parse_status (cstr (response_header 404 (str "text/plain") 5 false ++ page)) = 404 /\
  exists hdr, split_response (response_header 404 (str "text/plain") 5 false ++ page) = Some (hdr, page).
Proof.
  destruct (http_response_roundtrip 404 (str "text/plain") page) as (Hs & hdr & Hsp & _);
    [vm_compute; by repeat constructor|reflexivity|reflexivity|].
  split; [exact Hs|]. exists hdr. exact Hsp.
Defined.


End HttpDemo.
