(* ===== verification/Sntp.v ===== *)
(** * SNTP client (backends/common/ove_net_sntp.c)

    One request and reply over UDP; the offset between NTP time and the
    local clock is kept in two statics.  64-bit arithmetic is written out
    with its wrap-around. *)

From S2P Require Import Prelude Bits Net.

Definition NTP_UNIX_DELTA : Z := 2208988800.
Definition NTP_PKT_LEN : Z := 48.
Definition SNTP_DEFAULT_SERVER : list Z := str "pool.ntp.org".
Definition SNTP_DEFAULT_TIMEOUT_NS : Z := 5 * 1000000000.

Record sntp_state := { s_offset_us : Z; s_synced : bool }.
Record ove_sntp_config := { server : option (list Z); timeout_ns : Z }.

(** Bytes [i .. i+3], most significant first. *)
Definition ntp_word (pkt : list Z) (i : nat) : Z :=
  Z.lor (Z.lor (Z.lor (Z.shiftl (aget 0 pkt i) 24) (Z.shiftl (aget 0 pkt (i + 1)) 16))
           (Z.shiftl (aget 0 pkt (i + 2)) 8)) (aget 0 pkt (i + 3)).

Definition ntp_request : list Z := Z.lor (Z.shiftl 4 3) 3 :: replicate 47 0.

(** NTP timestamp to Unix microseconds, in [uint64_t]. *)
Definition ntp_to_unix_us (ntp_secs ntp_frac : Z) : Z :=
  let unix_secs := u64 (ntp_secs - NTP_UNIX_DELTA) in
  let frac_us := Z.shiftr (u64 (ntp_frac * 1000000)) 32 in
  u64 (u64 (unix_secs * 1000000) + frac_us).

(** [(int64_t)ntp_us - (int64_t)local_mid_us] *)
Definition sntp_offset (ntp_us t1_us t4_us : Z) : Z :=
  let local_mid_us := u64 (t1_us + u64 (t4_us - t1_us) / 2) in
  swrap 64 (swrap 64 ntp_us - swrap 64 local_mid_us).

Section sntp.
Context {W : Type} {E : NetEnv W}.
Abbreviation CM := (MO (nst W sntp_state)).

Definition ove_sntp_sync (cfg : option ove_sntp_config) : CM Z :=
  let srv := match cfg with Some c => default SNTP_DEFAULT_SERVER (server c) | None => SNTP_DEFAULT_SERVER end in
  let timeout := match cfg with
                 | Some c => if 0 <? timeout_ns c then timeout_ns c else SNTP_DEFAULT_TIMEOUT_NS
                 | None => SNTP_DEFAULT_TIMEOUT_NS
                 end in
  '(ret, addr) ← ove_dns_resolve srv timeout;
  if negb (ret =? OVE_OK) then mret ret else
  '(ret, sock) ← ove_socket_open OVE_SOCK_DGRAM;
  if negb (ret =? OVE_OK) then mret ret else
  t1_us ← ove_time_get_us;
  ret ← ove_socket_sendto sock ntp_request addr 123;
  if negb (ret =? OVE_OK) then ove_socket_close sock;; mret ret else
  '(ret, d) ← ove_socket_recvfrom sock NTP_PKT_LEN timeout;
  ove_socket_close sock;;
  if negb (ret =? OVE_OK) then mret ret else
  if Z.of_nat (length d) <? NTP_PKT_LEN then mret OVE_ERR_NOT_SUPPORTED else
  t4_us ← ove_time_get_us;
  let ntp_secs := ntp_word d 40 in
  let ntp_frac := ntp_word d 44 in
  if ntp_secs =? 0 then mret OVE_ERR_NOT_SUPPORTED else
  if ntp_secs <? NTP_UNIX_DELTA then mret OVE_ERR_NOT_SUPPORTED else
  stmod (fun s => {| s_offset_us := sntp_offset (ntp_to_unix_us ntp_secs ntp_frac) t1_us t4_us;
                     s_synced := true |});;
  mret OVE_OK.

(** The result and the value stored; [out] tells whether the pointer is
    not NULL. *)
Definition ove_sntp_get_offset_us (out : bool) : CM (Z * option Z) :=
  s ← stget;
  if negb (s_synced s) || negb out then mret (OVE_ERR_NOT_SUPPORTED, None)
  else mret (OVE_OK, Some (s_offset_us s)).

Definition ove_sntp_get_utc (out : bool) : CM (Z * option Z) :=
  s ← stget;
  if negb (s_synced s) || negb out then mret (OVE_ERR_NOT_SUPPORTED, None) else
  local_us ← ove_time_get_us;
  let utc_us := swrap 64 (swrap 64 local_us + s_offset_us s) in
  mret (OVE_OK, Some (u32 (u64 utc_us / 1000000))).

End sntp.

(** ** Arithmetic *)

Lemma ntp_word_range pkt i : Forall is_byte pkt -> is_word 32 (ntp_word pkt i).
Proof.
  intros Hb. unfold ntp_word. assert (Hg : forall j, 0 <= aget 0 pkt j < 256).
  { intros j. apply (Forall_aget is_byte 0 pkt j Hb). unfold is_word. lia. }
  pose proof (Hg i). pose proof (Hg (i + 1)%nat). pose proof (Hg (i + 2)%nat). pose proof (Hg (i + 3)%nat).
  rewrite <-!Z.lor_assoc.
  rewrite (lor_shiftl_add _ _ 8) by (change (2 ^ 8) with 256; lia).
  rewrite (lor_shiftl_add _ _ 16) by (change (2 ^ 16) with 65536; change (2 ^ 8) with 256; lia).
  rewrite (lor_shiftl_add _ _ 24) by
    (change (2 ^ 24) with 16777216; change (2 ^ 16) with 65536; change (2 ^ 8) with 256; lia).
  unfold is_word. change (2 ^ 24) with 16777216; change (2 ^ 16) with 65536; change (2 ^ 8) with 256.
  change (2 ^ 32) with 4294967296. lia.
Qed.

(** Seconds and fraction as exact microseconds since 1970. *)
Definition exact_unix_us (secs frac : Z) : Z := (secs - NTP_UNIX_DELTA) * 1000000 + frac * 1000000 / 2 ^ 32.

Lemma ntp_to_unix_exact secs frac :
  NTP_UNIX_DELTA <= secs < 2 ^ 32 -> is_word 32 frac ->
  ntp_to_unix_us secs frac = exact_unix_us secs frac /\ 0 <= exact_unix_us secs frac < 2 ^ 52.
Proof.
  unfold is_word, ntp_to_unix_us, exact_unix_us, NTP_UNIX_DELTA. intros Hs Hf.
  change (2 ^ 32) with 4294967296 in *. change (2 ^ 52) with 4503599627370496.
  assert (Hfr : 0 <= frac * 1000000 / 4294967296 < 1000000) by dlia.
  rewrite Z.shiftr_div_pow2 by lia. change (2 ^ 32) with 4294967296.
  rewrite (wrap_small 64 (secs - 2208988800)), (wrap_small 64 (frac * 1000000)),
    (wrap_small 64 (_ * _)), wrap_small
    by (unfold is_word; change (2 ^ 64) with 18446744073709551616; lia). lia.
Qed.

Lemma sntp_offset_exact ntp t1 t4 :
  0 <= ntp < 2 ^ 52 -> 0 <= t1 -> t1 <= t4 -> t4 < 2 ^ 62 ->
  sntp_offset ntp t1 t4 = ntp - (t1 + (t4 - t1) / 2).
Proof.
  intros Hn H1 H14 H4. unfold sntp_offset. change (2 ^ 52) with 4503599627370496 in *.
  change (2 ^ 62) with 4611686018427387904 in *.
  assert (Hd : 0 <= (t4 - t1) / 2 <= t4 - t1) by dlia.
  rewrite (wrap_small 64 (t4 - t1)) by (unfold is_word; change (2 ^ 64) with 18446744073709551616; lia).
  rewrite wrap_small by (unfold is_word; change (2 ^ 64) with 18446744073709551616; lia).
  rewrite (swrap_small 64 ntp), (swrap_small 64 (t1 + _)), swrap_small by (change (2 ^ (64 - 1)) with 9223372036854775808; lia). done.
Qed.

(** ** Synchronisation *)

Section proofs.
Context {W : Type} {E : NetEnv W} {L : NetLaws W}.
Implicit Types n : nst W sntp_state.

(** The local clock of this trace: the readings in order. *)
Definition readings (t : list ev) : list Z := omap (fun e => match e with ETime x => Some x | _ => None end) t.
Definition sock1 (e : ev) : list Z :=
  match e with EOpen r s => if r =? OVE_OK then [s] else [] | _ => [] end.
Definition unsock1 (e : ev) : list Z := match e with EClose s => [s] | _ => [] end.

(** What a synchronisation leaves behind: the UDP socket it opened, if any,
    is closed exactly once; on success the offset is that of the reply. *)
Definition sync_post n (r : Z) (n1 : nst W sntp_state) : Prop :=
  exists t, tr n1 = tr n ++ t /\ concat (unsock1 <$> t) = concat (sock1 <$> t) /\
    if r =? OVE_OK
    then s_synced (st n1) = true /\ exists d s t1 t4,
      ERecvFrom s NTP_PKT_LEN OVE_OK d ∈ t /\ readings t = [t1; t4] /\
      (t1 <= t4 -> t4 < 2 ^ 62 ->
       s_offset_us (st n1) = exact_unix_us (ntp_word d 40) (ntp_word d 44) - (t1 + (t4 - t1) / 2))
    else st n1 = st n.

Lemma sync_fail n w t r :
  r <> OVE_OK -> concat (unsock1 <$> t) = concat (sock1 <$> t) -> sync_post n r (mk_nst w (tr n ++ t) (st n)).
Proof. intros Hr Ht. exists t. by rewrite (proj2 (Z.eqb_neq _ _) Hr). Qed.

(** Synchronising computes the exact offset: the call always returns and
    closes its socket on every path after opening it; on success the stored
    offset is the reply's transmit time in Unix microseconds minus the
    midpoint of the two local clock readings, exactly (no 64-bit operation
    wraps, also when the local clock is ahead); on failure the previous
    offset is kept. *)
Theorem sntp_sync_exact cfg n : wp (ove_sntp_sync cfg) (sync_post n) n.
Proof.
  unfold ove_sntp_sync. cbv zeta. set (srv := match cfg with Some _ => _ | None => _ end).
  set (tmo := match cfg with Some _ => _ | None => _ end).
  apply wp_bind, wp_call. intros [r addr] w _. cbn beta iota.
  destruct (r =? OVE_OK) eqn:Hr; cbn [negb]; [|by apply wp_ret, sync_fail; [apply Z.eqb_neq|]].
  apply wp_bind, wp_call. intros [r2 s] w2 _. cbn [tr st nw].
  destruct (r2 =? OVE_OK) eqn:Hr2; cbn [negb].
  2:{ apply wp_ret. rewrite <-app_assoc. apply sync_fail; [by apply Z.eqb_neq|]. simpl. by rewrite Hr2. }
  apply wp_bind, wp_call. intros t1 w3 Ht1. apply wp_bind, wp_call. intros r4 w4 _. cbn [tr st nw].
  rewrite <-!app_assoc. apply Z.eqb_eq in Hr2 as ->.
  destruct (r4 =? OVE_OK) eqn:Hr4; cbn [negb].
  2:{ wp_steps. rewrite <-!app_assoc. apply sync_fail; [by apply Z.eqb_neq|done]. }
  apply wp_bind, wp_call. intros [r5 d] w5 Hd. apply recvfrom_len in Hd as [_ Hb]; [|done].
  wp_steps. destruct (r5 =? OVE_OK) eqn:Hr5; cbn [negb].
  2:{ wp_steps. rewrite <-!app_assoc. apply sync_fail; [by apply Z.eqb_neq|done]. }
  apply Z.eqb_eq in Hr5 as ->.
  destruct (Z.of_nat (length d) <? NTP_PKT_LEN); [wp_steps; rewrite <-!app_assoc; by apply sync_fail|].
  apply wp_bind, wp_call. intros t4 w6 Ht4. cbn [tr st nw].
  destruct (ntp_word d 40 =? 0); [wp_steps; rewrite <-!app_assoc; by apply sync_fail|].
  destruct (ntp_word d 40 <? NTP_UNIX_DELTA) eqn:Hera; [wp_steps; rewrite <-!app_assoc; by apply sync_fail|].
  apply Z.ltb_ge in Hera. wp_steps. unfold sync_post. rewrite Z.eqb_refl. cbn [tr st].
  eexists. rewrite <-!app_assoc. split; [reflexivity|]. split; [done|]. split; [done|].
  exists d, s, t1, t4. split_and!; [set_solver|done|]. intros H14 H4. cbn [s_offset_us].
  apply time_us_word in Ht1, Ht4. unfold is_word in Ht1, Ht4.
  pose proof (ntp_word_range d 40 Hb) as Hw. unfold is_word in Hw.
  destruct (ntp_to_unix_exact (ntp_word d 40) (ntp_word d 44)) as [-> Hr']; [lia|by apply ntp_word_range|].
  apply sntp_offset_exact; [done|lia|done|done].
Qed.

End proofs.

(** ** Witnesses *)

Module SntpDemo.
Import Script.

(** Transmit timestamp 2^31 + 10^9 seconds and a half. *)
Definition reply : list Z := replicate 40 0 ++ [187; 154; 202; 0; 128; 0; 0; 0].
Definition clock : nst script sntp_state :=
  mk_nst {| inbox := [(OVE_OK, reply)]; fresh := 5; stopped := false |} [] {| s_offset_us := 0; s_synced := false |}.

Example sync_demo :
  (fun x => (x.1, s_offset_us (st x.2))) <$> ove_sntp_sync None clock
  = Some (OVE_OK, (3147483648 - 2208988800) * 1000000 + 500000 - 506).
Proof. vm_compute. reflexivity. Qed.

Lemma sntp_sync_exact_witness : wp (ove_sntp_sync None) (sync_post clock) clock.
Proof. apply sntp_sync_exact. Defined.

End SntpDemo.
