(* ===== verification/Audio.v ===== *)
(** * Audio graph (backends/common/ove_audio_graph.c)

    A graph of at most sixteen nodes.  Each node is a vtable and a context;
    [ove_audio_graph_build] sorts the nodes topologically, negotiates
    formats and lays the intermediate buffers out in one block;
    [ove_audio_graph_process] runs one period.  The vtables are functions on
    a world [W]; every call through one is recorded in a trace.  Array
    accesses out of range, NULL vtables and writes outside the block are
    failures ([None]). *)

From S2P Require Import Prelude.

Definition OVE_AUDIO_GRAPH_MAX_NODES : nat := 16.
Definition OVE_AUDIO_GRAPH_MAX_EDGES : nat := 16.

(** ** Data *)

Definition OVE_AUDIO_FMT_S16 : Z := 0.
Definition OVE_AUDIO_FMT_S32 : Z := 1.
Definition OVE_AUDIO_FMT_F32 : Z := 2.

Definition ove_audio_sample_size (fmt : Z) : Z :=
  if fmt =? OVE_AUDIO_FMT_S16 then 2 else
  if fmt =? OVE_AUDIO_FMT_S32 then 4 else
  if fmt =? OVE_AUDIO_FMT_F32 then 4 else 0.

Record ove_audio_fmt := mk_fmt { sample_rate : Z; channels : Z; sample_fmt : Z }.

(** [data] is an offset into the graph's block, [fmt] the index of the node
    whose [out_fmt] is pointed to; [None] is NULL. *)
Record ove_audio_buf := mk_buf { data : option Z; frames : Z; fmt : option nat }.

(** A buffer as a node sees it: its bytes, frame count and format. *)
Record buf_view := mk_view { v_bytes : list Z; v_frames : Z; v_fmt : ove_audio_fmt }.

(** [configure] returns the format it stores when [out_fmt] is not NULL,
    [process] the bytes it leaves in [out]. *)
Record ove_audio_node_ops (W : Type) := mk_ops {
  configure : Z -> option ove_audio_fmt -> option ove_audio_fmt -> W -> Z * ove_audio_fmt * W;
  start : option (Z -> W -> Z * W);
  stop : option (Z -> W -> Z * W);
  process : Z -> option buf_view -> option buf_view -> W -> Z * list Z * W;
  destroy : option (Z -> W -> unit * W) }.
Arguments mk_ops {W}.
Arguments configure {W}.
Arguments start {W}.
Arguments stop {W}.
Arguments process {W}.
Arguments destroy {W}.

Inductive ove_audio_node_type :=
  | OVE_AUDIO_NODE_SOURCE | OVE_AUDIO_NODE_PROCESSOR | OVE_AUDIO_NODE_SINK.
Global Instance node_type_eq_dec : EqDecision ove_audio_node_type.
Proof. solve_decision. Defined.

Inductive ove_audio_graph_state :=
  | OVE_AUDIO_GRAPH_IDLE | OVE_AUDIO_GRAPH_READY | OVE_AUDIO_GRAPH_RUNNING.
Global Instance graph_state_eq_dec : EqDecision ove_audio_graph_state.
Proof. solve_decision. Defined.

Record ove_audio_node (W : Type) := mk_node {
  name : list Z; type : ove_audio_node_type; ops : option (ove_audio_node_ops W);
  ctx : Z; out_fmt : ove_audio_fmt }.
Arguments mk_node {W}.
Arguments name {W}.
Arguments type {W}.
Arguments ops {W}.
Arguments ctx {W}.
Arguments out_fmt {W}.

Record ove_audio_edge := mk_edge { from : nat; to : nat }.
Global Instance edge_eq_dec : EqDecision ove_audio_edge.
Proof. solve_decision. Defined.

Record ove_audio_graph_stats := mk_stats {
  cycles : Z; underruns : Z; overruns : Z; node_errors : Z; max_process_us : Z; avg_process_us : Z }.

(** [buf_storage] is the content of the block, [None] for NULL. *)
Record ove_audio_graph (W : Type) := mk_graph {
  nodes : list (ove_audio_node W); node_count : nat;
  edges : list ove_audio_edge; edge_count : nat;
  exec_order : list nat; exec_count : nat;
  buffers : list ove_audio_buf;
  buf_storage : option (list Z); buf_storage_size : Z;
  frames_per_period : Z; state : ove_audio_graph_state;
  stats : ove_audio_graph_stats }.
Arguments mk_graph {W}.
Arguments nodes {W}.
Arguments node_count {W}.
Arguments edges {W}.
Arguments edge_count {W}.
Arguments exec_order {W}.
Arguments exec_count {W}.
Arguments buffers {W}.
Arguments buf_storage {W}.
Arguments buf_storage_size {W}.
Arguments frames_per_period {W}.
Arguments state {W}.
Arguments stats {W}.

(** Assignments to the graph's fields. *)
Section setters.
Context {W : Type} (g : ove_audio_graph W).
Definition set_nodes l n : ove_audio_graph W :=
  mk_graph l n (edges g) (edge_count g) (exec_order g) (exec_count g) (buffers g) (buf_storage g)
    (buf_storage_size g) (frames_per_period g) (state g) (stats g).
Definition set_edges l n : ove_audio_graph W :=
  mk_graph (nodes g) (node_count g) l n (exec_order g) (exec_count g) (buffers g) (buf_storage g)
    (buf_storage_size g) (frames_per_period g) (state g) (stats g).
Definition set_exec l n : ove_audio_graph W :=
  mk_graph (nodes g) (node_count g) (edges g) (edge_count g) l n (buffers g) (buf_storage g)
    (buf_storage_size g) (frames_per_period g) (state g) (stats g).
Definition set_buffers l : ove_audio_graph W :=
  mk_graph (nodes g) (node_count g) (edges g) (edge_count g) (exec_order g) (exec_count g) l
    (buf_storage g) (buf_storage_size g) (frames_per_period g) (state g) (stats g).
Definition set_storage b n : ove_audio_graph W :=
  mk_graph (nodes g) (node_count g) (edges g) (edge_count g) (exec_order g) (exec_count g) (buffers g)
    b n (frames_per_period g) (state g) (stats g).
Definition set_state x : ove_audio_graph W :=
  mk_graph (nodes g) (node_count g) (edges g) (edge_count g) (exec_order g) (exec_count g) (buffers g)
    (buf_storage g) (buf_storage_size g) (frames_per_period g) x (stats g).
Definition set_stats x : ove_audio_graph W :=
  mk_graph (nodes g) (node_count g) (edges g) (edge_count g) (exec_order g) (exec_count g) (buffers g)
    (buf_storage g) (buf_storage_size g) (frames_per_period g) (state g) x.
End setters.

(** The [memset] of the whole graph followed by the stores of [init]. *)
Definition zero_fmt : ove_audio_fmt := mk_fmt 0 0 OVE_AUDIO_FMT_S16.
Definition zero_node {W} : ove_audio_node W := mk_node [] OVE_AUDIO_NODE_SOURCE None 0 zero_fmt.
Definition zero_graph {W} (n : Z) : ove_audio_graph W :=
  mk_graph (replicate OVE_AUDIO_GRAPH_MAX_NODES zero_node) 0
    (replicate OVE_AUDIO_GRAPH_MAX_EDGES (mk_edge 0 0)) 0
    (replicate OVE_AUDIO_GRAPH_MAX_NODES 0%nat) 0
    (replicate OVE_AUDIO_GRAPH_MAX_NODES (mk_buf None 0 None)) None 0 n
    OVE_AUDIO_GRAPH_IDLE (mk_stats 0 0 0 0 0 0).

(** ** Helpers *)

Definition buf_byte_size (f : ove_audio_fmt) (n : Z) : Z :=
  u64 (u64 (n * channels f) * ove_audio_sample_size (sample_fmt f)).

(** The edges registered so far. *)
Definition live_edges {W} (g : ove_audio_graph W) : list ove_audio_edge := take (edge_count g) (edges g).

(** The source of the first edge into [node]; [None] is -1. *)
Fixpoint first_into (es : list ove_audio_edge) (node : nat) : option nat :=
  match es with
  | [] => None
  | e :: es => if (to e =? node)%nat then Some (from e) else first_into es node
  end.
Definition find_upstream {W} (g : ove_audio_graph W) (node : nat) : option nat :=
  first_into (live_edges g) node.

(** ** Topological sort *)

(** [in_degree[g->edges[i].to]++] for every edge. *)
Fixpoint count_in (es : list ove_audio_edge) (d : list Z) : option (list Z) :=
  match es with
  | [] => Some d
  | e :: es => x ← d !! to e; d ← ostore d (to e) (u32 (x + 1)); count_in es d
  end.

(** The queue: its array and [tail]. *)
Fixpoint enqueue_roots (js : list nat) (d : list Z) (q : list nat) (tail : nat) : option (list nat * nat) :=
  match js with
  | [] => Some (q, tail)
  | i :: js =>
      x ← d !! i;
      if x =? 0 then q ← ostore q tail i; enqueue_roots js d q (S tail)
      else enqueue_roots js d q tail
  end.

Fixpoint relax (es : list ove_audio_edge) (node : nat) (d : list Z) (q : list nat) (tail : nat)
  : option (list Z * list nat * nat) :=
  match es with
  | [] => Some (d, q, tail)
  | e :: es =>
      if (from e =? node)%nat then
        x ← d !! to e;
        let x := u32 (x - 1) in
        d ← ostore d (to e) x;
        if x =? 0 then q ← ostore q tail (to e); relax es node d q (S tail)
        else relax es node d q tail
      else relax es node d q tail
  end.

Fixpoint kahn_loop (fuel : nat) (es : list ove_audio_edge) (d : list Z) (q : list nat) (head tail : nat)
    (order : list nat) (count : nat) : option (list nat * nat) :=
  match fuel with
  | O => None
  | S fuel =>
      if (head <? tail)%nat then
        node ← q !! head;
        order ← ostore order count node;
        '(d, q, tail) ← relax es node d q tail;
        kahn_loop fuel es d q (S head) tail order (S count)
      else Some (order, count)
  end.

Definition topo_sort {W} (g : ove_audio_graph W) : option (Z * ove_audio_graph W) :=
  d ← count_in (live_edges g) (replicate OVE_AUDIO_GRAPH_MAX_NODES 0);
  '(q, tail) ← enqueue_roots (seq 0 (node_count g)) d (replicate OVE_AUDIO_GRAPH_MAX_NODES 0%nat) 0;
  '(order, count) ← kahn_loop (S (node_count g)) (live_edges g) d q 0 tail (exec_order g) 0;
  Some (if (count =? node_count g)%nat then OVE_OK else OVE_ERR_INVALID_PARAM, set_exec g order count).

(** ** The environment

    [calloc] tells whether the allocation succeeds (never, under
    CONFIG_OVE_ZERO_HEAP). *)

Class AudioEnv (W : Type) := {
  SIZE_MAX : Z;
  calloc : Z -> W -> bool * W;
  time_us : W -> Z * W }.

Inductive aev :=
  | EConfigure (i : nat) (inf : option ove_audio_fmt) (r : Z)
  | EProcess (i : nat) (inb : option (list Z)) (out : list Z) (r : Z)
  | EStart (i : nat) (r : Z)
  | EStop (i : nat)
  | EDestroy (i : nat)
  | ECalloc (n : Z) (ok : bool)
  | EFree
  | EClock (t : Z).

Record ast (W : Type) := mk_ast { aw : W; atr : list aev; ag : ove_audio_graph W }.
Arguments mk_ast {W}.
Arguments aw {W}.
Arguments atr {W}.
Arguments ag {W}.

(** Loops: for side effects, and up to the first error. *)
Fixpoint ofor {S A} (f : A -> MO S unit) (l : list A) : MO S unit :=
  match l with [] => mret tt | x :: l => f x;; ofor f l end.
Fixpoint until_err {S A} (f : A -> MO S Z) (l : list A) : MO S Z :=
  match l with
  | [] => mret OVE_OK
  | x :: l => r ← f x; if r =? OVE_OK then until_err f l else mret r
  end.

Section graph.
Context {W : Type} {E : AudioEnv W}.
Abbreviation GM := (MO (ast W)).
Abbreviation graph := (ove_audio_graph W).

Definition gget : GM graph := ogets ag.
Definition gmod (f : graph -> graph) : GM unit := omodify (fun s => mk_ast (aw s) (atr s) (f (ag s))).
Definition acall {A} (f : W -> A * W) (e : A -> aev) : GM A :=
  fun s => let '(a, w) := f (aw s) in Some (a, mk_ast w (atr s ++ [e a]) (ag s)).

(** [&g->nodes[i]] with its vtable. *)
Definition node_at (i : nat) : GM (ove_audio_node W * ove_audio_node_ops W) :=
  g ← gget; n ← olift (nodes g !! i); o ← olift (ops n); mret (n, o).

(** ** Init, add, connect *)

Definition ove_audio_graph_init (n : Z) : GM Z :=
  if n =? 0 then mret OVE_ERR_INVALID_PARAM else gmod (fun _ => zero_graph n);; mret OVE_OK.

Definition ove_audio_graph_set_buf_storage (storage : option (list Z)) (size : Z) : GM Z :=
  match storage with
  | None => mret OVE_ERR_INVALID_PARAM
  | Some b =>
      if size =? 0 then mret OVE_ERR_INVALID_PARAM else
      g ← gget;
      if decide (state g <> OVE_AUDIO_GRAPH_IDLE) then mret OVE_ERR_NOT_SUPPORTED else
      gmod (fun g => set_storage g (Some b) size);; mret OVE_OK
  end.

Definition ove_audio_graph_add_node (o : option (ove_audio_node_ops W)) (c : Z) (nm : option (list Z))
    (ty : ove_audio_node_type) : GM Z :=
  match o, nm with
  | Some o, Some nm =>
      g ← gget;
      if decide (state g <> OVE_AUDIO_GRAPH_IDLE) then mret OVE_ERR_NOT_SUPPORTED else
      if (OVE_AUDIO_GRAPH_MAX_NODES <=? node_count g)%nat then mret OVE_ERR_QUEUE_FULL else
      let idx := node_count g in
      l ← olift (ostore (nodes g) idx (mk_node nm ty (Some o) c zero_fmt));
      gmod (fun g => set_nodes g l (S idx));;
      mret (Z.of_nat idx)
  | _, _ => mret OVE_ERR_INVALID_PARAM
  end.

Definition ove_audio_graph_connect (f t : nat) : GM Z :=
  g ← gget;
  if decide (state g <> OVE_AUDIO_GRAPH_IDLE) then mret OVE_ERR_NOT_SUPPORTED else
  if ((node_count g <=? f) || (node_count g <=? t) || (f =? t))%nat then mret OVE_ERR_INVALID_PARAM else
  if (OVE_AUDIO_GRAPH_MAX_EDGES <=? edge_count g)%nat then mret OVE_ERR_QUEUE_FULL else
  nf ← olift (nodes g !! f);
  if decide (type nf = OVE_AUDIO_NODE_SINK) then mret OVE_ERR_INVALID_PARAM else
  nt ← olift (nodes g !! t);
  if decide (type nt = OVE_AUDIO_NODE_SOURCE) then mret OVE_ERR_INVALID_PARAM else
  if existsb (fun e => to e =? t)%nat (live_edges g) then mret OVE_ERR_INVALID_PARAM else
  l ← olift (ostore (edges g) (edge_count g) (mk_edge f t));
  gmod (fun g => set_edges g l (S (edge_count g)));;
  mret OVE_OK.

(** ** Build *)

Definition configure_node (i : nat) : GM Z :=
  g ← gget;
  idx ← olift (exec_order g !! i);
  '(n, o) ← node_at idx;
  in_fmt ← (if decide (type n <> OVE_AUDIO_NODE_SOURCE) then
              match find_upstream g idx with
              | Some u => nu ← olift (nodes g !! u); mret (Some (out_fmt nu))
              | None => mret None
              end
            else mret None);
  let out_ptr := if decide (type n <> OVE_AUDIO_NODE_SINK) then Some (out_fmt n) else None in
  '(ret, f) ← acall (configure o (ctx n) in_fmt out_ptr) (fun r => EConfigure idx in_fmt r.1);
  (if decide (type n <> OVE_AUDIO_NODE_SINK) then
     gmod (fun g => set_nodes g (aset (nodes g) idx (mk_node (name n) (type n) (ops n) (ctx n) f)) (node_count g))
   else mret tt);;
  mret ret.

Definition check_format (i : nat) : GM Z :=
  g ← gget;
  n ← olift (nodes g !! i);
  if decide (type n <> OVE_AUDIO_NODE_SINK) then
    if (channels (out_fmt n) =? 0) || (sample_rate (out_fmt n) =? 0) then mret OVE_ERR_INVALID_PARAM
    else mret OVE_OK
  else mret OVE_OK.

Definition check_rate (i : nat) : GM Z :=
  g ← gget;
  e ← olift (edges g !! i);
  nf ← olift (nodes g !! from e);
  nt ← olift (nodes g !! to e);
  if decide (type nt <> OVE_AUDIO_NODE_SINK) then
    if negb (sample_rate (out_fmt nf) =? sample_rate (out_fmt nt)) then mret OVE_ERR_INVALID_PARAM
    else mret OVE_OK
  else mret OVE_OK.

(** [size_t] arithmetic. *)
Definition szwrap (z : Z) : Z := z mod (SIZE_MAX + 1).

(** Offsets and total size, or the error of the overflow guard. *)
Fixpoint layout (ns : list (ove_audio_node W)) (n total : Z) : option (list Z * Z) :=
  match ns with
  | [] => Some ([], total)
  | x :: ns =>
      if decide (type x <> OVE_AUDIO_NODE_SINK) then
        let bs := buf_byte_size (out_fmt x) n in
        if SIZE_MAX - total <? bs then None else
        '(offs, sz) ← layout ns n (szwrap (total + szwrap bs)); Some (total :: offs, sz)
      else '(offs, sz) ← layout ns n total; Some (total :: offs, sz)
  end.

(** The block: the caller's, cleared, or a fresh one. *)
Definition get_storage (total : Z) : GM Z :=
  g ← gget;
  if 0 <? total then
    if 0 <? buf_storage_size g then
      if buf_storage_size g <? total then mret OVE_ERR_NO_MEMORY else
      b ← olift (buf_storage g);
      gmod (fun g => set_storage g (Some (replicate (Z.to_nat total) 0 ++ drop (Z.to_nat total) b))
                       (buf_storage_size g));;
      mret OVE_OK
    else
      ok ← acall (calloc total) (ECalloc total);
      if ok : bool then
        gmod (fun g => set_storage g (Some (replicate (Z.to_nat total) 0)) (buf_storage_size g));; mret OVE_OK
      else mret OVE_ERR_NO_MEMORY
  else mret OVE_OK.

Definition make_buffer (g : graph) (off : Z) (i : nat) (n : ove_audio_node W) : ove_audio_buf :=
  if decide (type n <> OVE_AUDIO_NODE_SINK)
  then mk_buf ((fun _ => off) <$> buf_storage g) (frames_per_period g) (Some i)
  else mk_buf None (frames_per_period g) None.

Definition set_buffer (offs : list Z) (i : nat) : GM unit :=
  g ← gget;
  n ← olift (nodes g !! i);
  off ← olift (offs !! i);
  l ← olift (ostore (buffers g) i (make_buffer g off i n));
  gmod (fun g => set_buffers g l).

Definition ove_audio_graph_build : GM Z :=
  g ← gget;
  if decide (state g <> OVE_AUDIO_GRAPH_IDLE) then mret OVE_ERR_NOT_SUPPORTED else
  '(ret, g) ← olift (topo_sort g);
  gmod (fun _ => g);;
  if negb (ret =? OVE_OK) then mret ret else
  ret ← until_err configure_node (seq 0 (exec_count g));
  if negb (ret =? OVE_OK) then mret ret else
  ret ← until_err check_format (seq 0 (node_count g));
  if negb (ret =? OVE_OK) then mret ret else
  ret ← until_err check_rate (seq 0 (edge_count g));
  if negb (ret =? OVE_OK) then mret ret else
  g ← gget;
  match layout (take (node_count g) (nodes g)) (frames_per_period g) 0 with
  | None => mret OVE_ERR_NO_MEMORY
  | Some (offs, total) =>
      ret ← get_storage total;
      if negb (ret =? OVE_OK) then mret ret else
      ofor (set_buffer offs) (seq 0 (node_count g));;
      gmod (fun g => set_state g OVE_AUDIO_GRAPH_READY);;
      mret OVE_OK
  end.

(** ** Process *)

(** The bytes a buffer holds: [buf_byte_size] of them from [data]. *)
Definition view_of (g : graph) (b : ove_audio_buf) : option buf_view :=
  i ← fmt b; n ← nodes g !! i;
  match data b with
  | None => Some (mk_view [] (frames b) (out_fmt n))
  | Some off =>
      st ← buf_storage g;
      let sz := buf_byte_size (out_fmt n) (frames b) in
      if decide (off + sz <= Z.of_nat (length st))
      then Some (mk_view (take (Z.to_nat sz) (drop (Z.to_nat off) st)) (frames b) (out_fmt n))
      else None
  end.

(** A store at an offset of the block. *)
Definition mem_write (d : option Z) (bs : list Z) : GM unit :=
  g ← gget;
  match d, buf_storage g with
  | Some off, Some st =>
      if decide (off + Z.of_nat (length bs) <= Z.of_nat (length st))
      then gmod (fun g => set_storage g (Some (overwrite st (Z.to_nat off) bs)) (buf_storage_size g))
      else ofail
  | _, _ => if decide (bs = []) then mret tt else ofail
  end.

Definition count_error (x : ove_audio_graph_stats) : ove_audio_graph_stats :=
  mk_stats (cycles x) (underruns x) (overruns x) (u32 (node_errors x + 1)) (max_process_us x) (avg_process_us x).

Definition process_node (i : nat) : GM unit :=
  g ← gget;
  idx ← olift (exec_order g !! i);
  '(n, o) ← node_at idx;
  in_buf ← (if decide (type n <> OVE_AUDIO_NODE_SOURCE) then
              match find_upstream g idx with
              | Some u => b ← olift (buffers g !! u); v ← olift (view_of g b); mret (Some v)
              | None => mret None
              end
            else mret None);
  out_buf ← (if decide (type n <> OVE_AUDIO_NODE_SINK) then
               b ← olift (buffers g !! idx); v ← olift (view_of g b); mret (Some (b, v))
             else mret None);
  '(ret, bs) ← acall (process o (ctx n) in_buf (snd <$> out_buf))
                 (fun r => EProcess idx (v_bytes <$> in_buf) r.2 r.1);
  match out_buf with Some (b, _) => mem_write (data b) bs | None => mret tt end;;
  if negb (ret =? OVE_OK) then
    gmod (fun g => set_stats g (count_error (stats g)));;
    match out_buf with
    | Some (b, v) =>
        if decide (data b <> None)
        then mem_write (data b) (replicate (Z.to_nat (buf_byte_size (v_fmt v) (v_frames v))) 0)
        else mret tt
    | None => mret tt
    end
  else mret tt.

Definition count_cycle (x : ove_audio_graph_stats) : ove_audio_graph_stats :=
  mk_stats (u32 (cycles x + 1)) (underruns x) (overruns x) (node_errors x) (max_process_us x) (avg_process_us x).

(** Worst case and rolling average, in [unsigned int]. *)
Definition update_times (elapsed : Z) (x : ove_audio_graph_stats) : ove_audio_graph_stats :=
  mk_stats (cycles x) (underruns x) (overruns x) (node_errors x)
    (if max_process_us x <? elapsed then elapsed else max_process_us x)
    (if cycles x =? 1 then elapsed
     else u32 (avg_process_us x + u32 (elapsed - avg_process_us x) / cycles x)).

Definition ove_audio_graph_process : GM Z :=
  g ← gget;
  if decide (state g = OVE_AUDIO_GRAPH_IDLE) then mret OVE_ERR_NOT_SUPPORTED else
  t_start ← acall time_us EClock;
  ofor process_node (seq 0 (exec_count g));;
  gmod (fun g => set_stats g (count_cycle (stats g)));;
  t_end ← acall time_us EClock;
  gmod (fun g => set_stats g (update_times (u32 (u64 (t_end - t_start))) (stats g)));;
  mret OVE_OK.

(** ** Start, stop, deinit *)

Definition stop_node (i : nat) : GM unit :=
  g ← gget;
  idx ← olift (exec_order g !! i);
  '(n, o) ← node_at idx;
  match stop o with
  | Some f => acall (f (ctx n)) (fun _ => EStop idx);; mret tt
  | None => mret tt
  end.

Definition start_node (i : nat) : GM Z :=
  g ← gget;
  idx ← olift (exec_order g !! i);
  '(n, o) ← node_at idx;
  match start o with
  | Some f =>
      ret ← acall (f (ctx n)) (EStart idx);
      if negb (ret =? OVE_OK) then ofor stop_node (rev (seq 0 i));; mret ret
      else mret OVE_OK
  | None => mret OVE_OK
  end.

Definition ove_audio_graph_start : GM Z :=
  g ← gget;
  if decide (state g <> OVE_AUDIO_GRAPH_READY) then mret OVE_ERR_NOT_SUPPORTED else
  ret ← until_err start_node (seq 0 (exec_count g));
  if negb (ret =? OVE_OK) then mret ret else
  gmod (fun g => set_state g OVE_AUDIO_GRAPH_RUNNING);;
  mret OVE_OK.

Definition ove_audio_graph_stop : GM Z :=
  g ← gget;
  if decide (state g <> OVE_AUDIO_GRAPH_RUNNING) then mret OVE_ERR_NOT_SUPPORTED else
  ofor stop_node (rev (seq 0 (exec_count g)));;
  gmod (fun g => set_state g OVE_AUDIO_GRAPH_READY);;
  mret OVE_OK.

Definition destroy_node (i : nat) : GM unit :=
  g ← gget;
  n ← olift (nodes g !! i);
  match ops n with
  | Some o => match destroy o with
              | Some f => acall (f (ctx n)) (fun _ => EDestroy i)
              | None => mret tt
              end
  | None => mret tt
  end.

Definition ove_audio_graph_deinit : GM unit :=
  g ← gget;
  (if decide (state g = OVE_AUDIO_GRAPH_RUNNING) then ove_audio_graph_stop;; mret tt else mret tt);;
  ofor destroy_node (seq 0 (node_count g));;
  g ← gget;
  (if (buf_storage_size g =? 0) && bool_decide (is_Some (buf_storage g))
   then acall (fun w => (tt, w)) (fun _ => EFree) else mret tt);;
  gmod (fun _ => zero_graph 0).

Definition ove_audio_graph_create_ (n : Z) : GM Z := ove_audio_graph_init n.
Definition ove_audio_graph_destroy : GM Z := ove_audio_graph_deinit;; mret OVE_OK.

Definition ove_audio_graph_get_stats : GM (Z * ove_audio_graph_stats) :=
  g ← gget; mret (OVE_OK, stats g).

End graph.

(** ** The sort *)

(** Edges into [v] whose source has not been executed. *)
Definition deg (es : list ove_audio_edge) (P : list nat) (v : nat) : Z :=
  Z.of_nat (length (filter (fun e => to e = v /\ from e ∉ P) es)).

(** Every edge's producer stands before its consumer. *)
Definition ordered (es : list ove_audio_edge) (l : list nat) : Prop :=
  forall j v e, l !! j = Some v -> e ∈ es -> to e = v -> from e ∈ take j l.

Definition topo_order (es : list ove_audio_edge) (n : nat) (l : list nat) : Prop :=
  NoDup l /\ (forall v, v ∈ l <-> (v < n)%nat) /\ ordered es l.

Definition edge_rel (es : list ove_audio_edge) (u v : nat) : Prop := mk_edge u v ∈ es.

(** In-degrees [f], and the queue holding the nodes of degree zero. *)
Record queue_inv (n : nat) (es : list ove_audio_edge) (f : nat -> Z) (d : list Z) (Q : list nat) : Prop := {
  qi_len : length d = OVE_AUDIO_GRAPH_MAX_NODES;
  qi_deg : forall v, (v < OVE_AUDIO_GRAPH_MAX_NODES)%nat -> d !! v = Some (f v);
  qi_nodup : NoDup Q;
  qi_zero : forall v, v ∈ Q <-> (v < n)%nat /\ f v = 0;
  qi_ord : ordered es Q }.

Lemma deg_app e1 e2 P v : deg (e1 ++ e2) P v = deg e1 P v + deg e2 P v.
Proof. unfold deg. rewrite filter_app, length_app. lia. Qed.

Lemma deg_cons e es P v :
  deg (e :: es) P v = (if decide (to e = v /\ from e ∉ P) then 1 else 0) + deg es P v.
Proof. unfold deg. rewrite filter_cons. case_decide; simpl; lia. Qed.

Lemma deg_nonneg es P v : 0 <= deg es P v.
Proof. unfold deg. lia. Qed.

Lemma deg_le es P v : deg es P v <= Z.of_nat (length es).
Proof. unfold deg. pose proof (length_filter (fun e => to e = v /\ from e ∉ P) es). lia. Qed.

Lemma deg_zero es P v : deg es P v = 0 <-> forall e, e ∈ es -> to e = v -> from e ∈ P.
Proof.
  unfold deg. split.
  - intros H e He Hv. destruct (decide (from e ∈ P)); [done|].
    assert (filter (fun e => to e = v /\ from e ∉ P) es = []) as Hn by (apply nil_length_inv; lia).
    assert (e ∈ filter (fun e => to e = v /\ from e ∉ P) es) as Hin by (by apply list_elem_of_filter).
    rewrite Hn in Hin. by apply elem_of_nil in Hin.
  - intros H. destruct (filter _ es) as [|e l] eqn:Hf; [done|].
    assert (e ∈ filter (fun e => to e = v /\ from e ∉ P) es) as Hin by (rewrite Hf; left).
    apply list_elem_of_filter in Hin as [[Hv Hn] Hin]. by destruct Hn; apply H.
Qed.

(** Appending at [tail]. *)
Lemma take_aset_snoc {A} (l : list A) i x :
  (i < length l)%nat -> take (S i) (aset l i x) = take i l ++ [x].
Proof.
  intros Hi. unfold aset. rewrite (take_S_r _ _ x) by (by apply list_lookup_insert_eq).
  by rewrite take_insert_ge.
Qed.

Lemma bounded_length (Q : list nat) n : NoDup Q -> (forall v, v ∈ Q -> (v < n)%nat) -> (length Q <= n)%nat.
Proof.
  intros HN HQ. rewrite <-(length_seq n 0). apply submseteq_length, NoDup_submseteq; [done|].
  intros v Hv. apply elem_of_seq. specialize (HQ v Hv). lia.
Qed.

Lemma ordered_snoc es Q v :
  ordered es Q -> (forall e, e ∈ es -> to e = v -> from e ∈ Q) -> ordered es (Q ++ [v]).
Proof.
  intros HQ Hv j w e Hj He Hw. destruct (decide (j < length Q)%nat) as [Hlt|Hge].
  - rewrite lookup_app_l in Hj by done. rewrite take_app_le by lia. by eapply HQ.
  - rewrite lookup_app_r in Hj by lia. apply list_lookup_singleton_Some in Hj as [Hj0 ->].
    rewrite take_app_ge by lia. rewrite elem_of_app. left. by apply Hv.
Qed.

Lemma count_in_spec es d :
  (forall e, e ∈ es -> (to e < OVE_AUDIO_GRAPH_MAX_NODES)%nat) ->
  length d = OVE_AUDIO_GRAPH_MAX_NODES ->
  (forall v x, d !! v = Some x -> 0 <= x /\ x + Z.of_nat (length es) < 2 ^ 32) ->
  exists d', count_in es d = Some d' /\ length d' = OVE_AUDIO_GRAPH_MAX_NODES /\
    forall v x, d !! v = Some x -> d' !! v = Some (x + deg es [] v).
Proof.
  revert d. induction es as [|e es IH]; intros d He Hl Hd; cbn [count_in].
  { exists d. split_and!; [done..|]. intros v x Hx. rewrite Hx. f_equal. unfold deg. simpl. lia. }
  assert (to e < length d)%nat as Hlt by (rewrite Hl; apply He; left).
  destruct (lookup_lt_is_Some_2 _ _ Hlt) as [x Hx]. rewrite Hx. cbn [mbind option_bind].
  rewrite ostore_Some by done. cbn [mbind option_bind].
  pose proof (Hd _ _ Hx) as [Hx0 Hx1]. cbn [length] in Hx1.
  rewrite wrap_small by (unfold is_word; lia).
  assert (forall v y, aset d (to e) (x + 1) !! v = Some y ->
            exists x0, d !! v = Some x0 /\ y = x0 + (if decide (to e = v /\ from e ∉ []) then 1 else 0)) as Hset.
  { intros v y. unfold aset. rewrite list_lookup_insert_Some. intros [(<- & <- & _)|[Hne Hv]].
    - exists x. split; [done|]. rewrite decide_True; [done|]. split; [done|apply not_elem_of_nil].
    - exists y. split; [done|]. rewrite decide_False by (intros []; congruence). lia. }
  destruct (IH (aset d (to e) (x + 1))) as (d' & Hc & Hl' & Hd').
  - intros e' He'. apply He. by right.
  - by rewrite length_aset.
  - intros v y (x0 & Hx0' & ->)%Hset. destruct (Hd _ _ Hx0') as [? Hb]. cbn [length] in Hb.
    destruct (decide (to e = v /\ from e ∉ [])); lia.
  - exists d'. split_and!; [done..|]. intros v y Hy.
    assert (v < length (aset d (to e) (x + 1)%Z))%nat as Hv
      by (rewrite length_aset; by eapply lookup_lt_Some).
    destruct (lookup_lt_is_Some_2 _ _ Hv) as [y' Hy'].
    rewrite (Hd' _ _ Hy'). apply Hset in Hy' as (x0 & Hx0' & ->). rewrite deg_cons. simplify_eq. f_equal. lia.
Qed.

Lemma enqueue_roots_spec n f d js q tail :
  (forall v, (v < OVE_AUDIO_GRAPH_MAX_NODES)%nat -> d !! v = Some (f v)) ->
  length q = OVE_AUDIO_GRAPH_MAX_NODES -> (n <= OVE_AUDIO_GRAPH_MAX_NODES)%nat ->
  (tail + length js <= n)%nat -> (forall v, v ∈ js -> (v < n)%nat) ->
  exists q', enqueue_roots js d q tail = Some (q', length (take tail q ++ filter (fun v => f v = 0) js)) /\
    length q' = OVE_AUDIO_GRAPH_MAX_NODES /\
    take (length (take tail q ++ filter (fun v => f v = 0) js)) q' = take tail q ++ filter (fun v => f v = 0) js.
Proof.
  intros Hd Hq Hn. revert q tail Hq. induction js as [|i js IH]; intros q tail Hq Ht Hjs; cbn [enqueue_roots].
  { exists q. rewrite app_nil_r. cbn [length] in Ht. rewrite length_take, Hq, Nat.min_l by lia.
    split_and!; [done..|]. done. }
  cbn [length] in Ht. assert (i < n)%nat by (apply Hjs; left).
  rewrite Hd by lia. cbn [mbind option_bind]. rewrite filter_cons.
  destruct (f i =? 0) eqn:Hf.
  - apply Z.eqb_eq in Hf. rewrite decide_True by done. rewrite ostore_Some by lia. cbn [mbind option_bind].
    destruct (IH (aset q tail i) (S tail)) as (q' & He & Hl & Htk).
    + by rewrite length_aset.
    + lia.
    + intros v Hv. apply Hjs. by right.
    + rewrite take_aset_snoc in He, Htk by lia. rewrite <-app_assoc in He, Htk. by exists q'.
  - apply Z.eqb_neq in Hf. rewrite decide_False by done. apply IH; [done|lia|].
    intros v Hv. apply Hjs. by right.
Qed.

Lemma queue_inv_ext n es f f' d Q : (forall v, f v = f' v) -> queue_inv n es f d Q -> queue_inv n es f' d Q.
Proof.
  intros Hf [H1 H2 H3 H4 H5]. split; [done| |done| |done].
  - intros v Hv. rewrite <-Hf. auto.
  - intros v. rewrite <-Hf. auto.
Qed.

(** Decrementing the degree of [v], and pushing it when it reaches zero. *)
Lemma queue_inv_dec n es f d Q v :
  queue_inv n es f d Q -> (v < n)%nat -> (n <= OVE_AUDIO_GRAPH_MAX_NODES)%nat -> 0 < f v ->
  (f v = 1 -> forall e, e ∈ es -> to e = v -> from e ∈ Q) ->
  queue_inv n es (fun w => f w - (if decide (w = v) then 1 else 0)) (aset d v (f v - 1))
    (if f v - 1 =? 0 then Q ++ [v] else Q).
Proof.
  intros [Hl Hd HN Hz Ho] Hv Hn Hp He.
  assert (v ∉ Q) as HvQ by (intros [_ H0]%Hz; lia). split.
  - by rewrite length_aset.
  - intros w Hw. unfold aset. destruct (decide (w = v)) as [->|Hne].
    + apply list_lookup_insert_eq. lia.
    + rewrite list_lookup_insert_ne by done. rewrite Hd by done. f_equal. lia.
  - destruct (f v - 1 =? 0); [|done]. apply NoDup_app. split_and!; [done| |apply NoDup_singleton].
    intros x Hx ->%list_elem_of_singleton. done.
  - intros w. destruct (f v - 1 =? 0) eqn:Hf.
    + rewrite elem_of_app, list_elem_of_singleton, Hz. destruct (decide (w = v)) as [->|]; lia.
    + rewrite Hz. destruct (decide (w = v)) as [->|]; lia.
  - destruct (f v - 1 =? 0) eqn:Hf; [|done]. apply ordered_snoc; [done|]. apply He. lia.
Qed.

(** The queue's array agrees with its contents. *)
Definition queue_rep (q : list nat) (tail : nat) (Q : list nat) : Prop :=
  length q = OVE_AUDIO_GRAPH_MAX_NODES /\ take tail q = Q /\ length Q = tail.

Lemma queue_rep_push q tail Q v :
  queue_rep q tail Q -> (tail < OVE_AUDIO_GRAPH_MAX_NODES)%nat ->
  ostore q tail v = Some (aset q tail v) /\ queue_rep (aset q tail v) (S tail) (Q ++ [v]).
Proof.
  intros (Hl & Hq & HQ) Ht. rewrite ostore_Some by lia. split; [done|]. split_and!.
  - by rewrite length_aset.
  - rewrite take_aset_snoc by lia. by rewrite Hq.
  - rewrite length_app. simpl. lia.
Qed.

Section relax.
Context (n node : nat) (es : list ove_audio_edge) (P : list nat).
Hypothesis Hn : (n <= OVE_AUDIO_GRAPH_MAX_NODES)%nat.
Hypothesis Hes : forall e, e ∈ es -> (to e < n)%nat.
Hypothesis Hlen : Z.of_nat (length es) < 2 ^ 32.
Hypothesis Hnode : node ∉ P.

Definition mixed (e1 e2 : list ove_audio_edge) (v : nat) : Z := deg e1 (P ++ [node]) v + deg e2 P v.

Lemma mixed_other e1 e e2 v : from e <> node -> mixed e1 (e :: e2) v = mixed (e1 ++ [e]) e2 v.
Proof.
  intros Hne. unfold mixed. rewrite deg_app, !deg_cons.
  assert (deg [] (P ++ [node]) v = 0) as -> by done.
  destruct (decide (to e = v /\ from e ∉ P)) as [Hc|Hc]; [rewrite decide_True|rewrite decide_False]; try lia.
  - split; [tauto|]. rewrite elem_of_app, list_elem_of_singleton. tauto.
  - rewrite elem_of_app, list_elem_of_singleton. tauto.
Qed.

Lemma mixed_node e1 e e2 v : from e = node ->
  mixed (e1 ++ [e]) e2 v = mixed e1 (e :: e2) v - (if decide (v = to e) then 1 else 0).
Proof.
  intros He. unfold mixed. rewrite deg_app, !deg_cons.
  assert (deg [] (P ++ [node]) v = 0) as -> by done.
  rewrite (decide_False (P := to e = v /\ from e ∉ P ++ [node]))
    by (rewrite He, elem_of_app, list_elem_of_singleton; tauto).
  destruct (decide (v = to e)) as [->|]; [rewrite decide_True by (by rewrite He)|rewrite decide_False by (intros [? ?]; congruence)]; lia.
Qed.

Lemma mixed_zero e1 e2 v : mixed e1 e2 v = 0 -> forall e, e ∈ e1 ++ e2 -> to e = v -> from e ∈ P ++ [node].
Proof.
  unfold mixed. intros H e [He|He]%elem_of_app Hv; pose proof (deg_nonneg e1 (P ++ [node]) v);
    pose proof (deg_nonneg e2 P v).
  - eapply (deg_zero e1 (P ++ [node]) v); [lia|done..].
  - rewrite elem_of_app. left. eapply (deg_zero e2 P v); [lia|done..].
Qed.

Lemma relax_spec e2 : forall e1 d q tail Q,
  es = e1 ++ e2 -> queue_rep q tail Q -> queue_inv n es (mixed e1 e2) d Q ->
  (forall x, x ∈ P ++ [node] -> x ∈ Q) ->
  exists d' q' tail' K, relax e2 node d q tail = Some (d', q', tail') /\
    queue_rep q' tail' (Q ++ K) /\ queue_inv n es (deg es (P ++ [node])) d' (Q ++ K).
Proof.
  induction e2 as [|e e2 IH]; intros e1 d q tail Q Hsp Hrep Hinv HP; cbn [relax].
  { exists d, q, tail, []. rewrite !app_nil_r. split_and!; [done..|]. rewrite app_nil_r in Hsp.
    eapply queue_inv_ext; [|done]. intros v. rewrite Hsp. unfold mixed, deg at 2. simpl. lia. }
  assert (es = (e1 ++ [e]) ++ e2) as Heq by (by rewrite <-app_assoc).
  destruct (from e =? node)%nat eqn:Hfe.
  2:{ apply Nat.eqb_neq in Hfe. apply (IH (e1 ++ [e]) d q tail Q); [done..| |done].
      eapply queue_inv_ext; [|done]. intros v. by apply mixed_other. }
  apply Nat.eqb_eq in Hfe.
  assert (to e < n)%nat as Ht by (apply Hes; rewrite Hsp, elem_of_app; right; left).
  rewrite (qi_deg _ _ _ _ _ Hinv) by lia. cbn [mbind option_bind].
  pose proof (mixed_node e1 e e2 (to e) Hfe) as Hm. rewrite decide_True in Hm by done.
  assert (0 <= mixed (e1 ++ [e]) e2 (to e)) as Hm0
    by (unfold mixed; pose proof (deg_nonneg (e1 ++ [e]) (P ++ [node]) (to e)); pose proof (deg_nonneg e2 P (to e)); lia).
  assert (mixed (e1 ++ [e]) e2 (to e) < 2 ^ 32) as Hm1.
  { unfold mixed. pose proof (deg_le (e1 ++ [e]) (P ++ [node]) (to e)). pose proof (deg_le e2 P (to e)).
    rewrite Heq, length_app in Hlen. lia. }
  rewrite wrap_small by (unfold is_word; lia).
  rewrite (ostore_Some d) by (rewrite (qi_len _ _ _ _ _ Hinv); lia). cbn [mbind option_bind].
  assert (0 < mixed e1 (e :: e2) (to e)) as Hpos by lia.
  pose proof (queue_inv_dec _ _ _ _ _ (to e) Hinv Ht Hn Hpos) as Hdec.
  assert (mixed e1 (e :: e2) (to e) = 1 -> forall e', e' ∈ es -> to e' = to e -> from e' ∈ Q) as Hz.
  { intros H1 e' He' Hto. apply HP. rewrite Heq in He'. apply (mixed_zero (e1 ++ [e]) e2 (to e)); [lia|done..]. }
  specialize (Hdec Hz). assert (forall v, mixed e1 (e :: e2) v - (if decide (v = to e) then 1 else 0) = mixed (e1 ++ [e]) e2 v) as Hext
    by (intros v; by rewrite mixed_node).
  apply (queue_inv_ext _ _ _ _ _ _ Hext) in Hdec.
  destruct (mixed e1 (e :: e2) (to e) - 1 =? 0) eqn:H0.
  2:{ by apply (IH (e1 ++ [e]) _ q tail Q). }
  assert (length (Q ++ [to e]) <= n)%nat as Hql
    by (apply bounded_length; [apply Hdec|intros v Hv; by apply (qi_zero _ _ _ _ _ Hdec)]).
  rewrite length_app in Hql. cbn [length] in Hql. destruct Hrep as (Hr1 & Hr2 & Hr3).
  destruct (queue_rep_push q tail Q (to e)) as [-> Hrep']; [done|lia|]. cbn [mbind option_bind].
  destruct (IH (e1 ++ [e]) (aset d (to e) (mixed e1 (e :: e2) (to e) - 1)) (aset q tail (to e)) (S tail) (Q ++ [to e])) as (d' & q' & tail' & K & -> & Hrep2 & Hinv2); [done..| |].
  { intros x Hx. rewrite elem_of_app. auto. }
  exists d', q', tail', (to e :: K). rewrite <-!app_assoc in Hrep2, Hinv2. done.
Qed.
End relax.

Lemma kahn_loop_spec n es fuel : forall d q head tail order Q,
  (n <= OVE_AUDIO_GRAPH_MAX_NODES)%nat -> (forall e, e ∈ es -> (to e < n)%nat) ->
  Z.of_nat (length es) < 2 ^ 32 ->
  queue_rep q tail Q -> queue_inv n es (deg es (take head Q)) d Q ->
  (head <= tail)%nat -> (n < fuel + head)%nat ->
  length order = OVE_AUDIO_GRAPH_MAX_NODES -> take head order = take head Q ->
  exists order' d' Q', kahn_loop fuel es d q head tail order head = Some (order', length Q') /\
    length order' = OVE_AUDIO_GRAPH_MAX_NODES /\ take (length Q') order' = Q' /\
    queue_inv n es (deg es Q') d' Q'.
Proof.
  induction fuel as [|fuel IH]; intros d q head tail order Q Hn Hes Hlen Hrep Hinv Hht Hf Ho Hord.
  { destruct Hrep as (_ & _ & HQ). assert (length Q <= n)%nat; [|lia].
    apply bounded_length; [apply Hinv|]. intros v Hv. by apply (qi_zero _ _ _ _ _ Hinv). }
  assert (length Q <= n)%nat as HQn.
  { apply bounded_length; [apply Hinv|]. intros v Hv. by apply (qi_zero _ _ _ _ _ Hinv). }
  pose proof Hrep as (Hq1 & Hq2 & Hq3). cbn [kahn_loop].
  destruct (head <? tail)%nat eqn:Hlt.
  2:{ apply Nat.ltb_ge in Hlt. assert (head = length Q) as -> by lia. rewrite (take_ge Q) in Hinv, Hord by lia.
      by exists order, d, Q. }
  apply Nat.ltb_lt in Hlt. destruct (lookup_lt_is_Some_2 Q head) as [node Hnode]; [lia|].
  assert (q !! head = Some node) as ->.
  { rewrite <-Hq2 in Hnode. by rewrite lookup_take_lt in Hnode by lia. }
  cbn [mbind option_bind]. rewrite ostore_Some by lia. cbn [mbind option_bind].
  assert (take (S head) Q = take head Q ++ [node]) as Htk by (by apply take_S_r).
  assert (node ∉ take head Q) as Hfresh.
  { intros (i & Hi)%list_elem_of_lookup. apply lookup_take_Some in Hi as [Hi Hih].
    assert (i = head); [|lia]. by eapply NoDup_lookup; [apply Hinv|..]. }
  destruct (relax_spec n node es (take head Q) Hn Hes Hlen Hfresh es [] d q tail Q)
    as (d' & q' & tail' & K & -> & Hrep' & Hinv'); [done|done|done| |].
  { intros x. rewrite <-Htk. intros (j & Hx)%list_elem_of_lookup.
    apply lookup_take_Some in Hx as [Hx _]. by eapply list_elem_of_lookup_2. }
  cbn [mbind option_bind]. pose proof Hrep' as (_ & _ & Hq3'). rewrite length_app in Hq3'.
  apply (IH d' q' (S head) tail' _ (Q ++ K)); [done..| |lia|lia| |].
  - by rewrite take_app_le, Htk by lia.
  - by rewrite length_aset.
  - rewrite take_aset_snoc by lia. rewrite take_app_le by lia. by rewrite Hord, Htk.
Qed.

(** ** Cycles *)

Lemma dup_cases (l : list nat) :
  NoDup l \/ exists i j x, (i < j)%nat /\ l !! i = Some x /\ l !! j = Some x.
Proof.
  induction l as [|x l [HN|(i & j & y & ? & ? & ?)]].
  - left. apply NoDup_nil_2.
  - destruct (decide (x ∈ l)) as [(j & Hj)%list_elem_of_lookup|Hx].
    + right. exists 0%nat, (S j), x. split_and!; [lia|done..].
    + left. by apply NoDup_cons.
  - right. exists (S i), (S j), y. split_and!; [lia|done..].
Qed.

Definition chain (R : nat -> nat -> Prop) (l : list nat) : Prop :=
  forall i a b, l !! i = Some a -> l !! S i = Some b -> R a b.

Lemma chain_tc R l i k a b : chain R l -> l !! i = Some a -> l !! (i + S k)%nat = Some b -> tc R a b.
Proof.
  intros Hc Ha. revert b. induction k as [|k IH]; intros b Hb.
  - apply tc_once, (Hc i); [done|]. by rewrite Nat.add_1_r in Hb.
  - destruct (lookup_lt_is_Some_2 l (i + S k)) as [c Hc'].
    { apply lookup_lt_Some in Hb. lia. }
    eapply tc_r; [by apply IH|]. apply (Hc (i + S k)%nat); [done|]. by rewrite <-Nat.add_succ_r.
Qed.

(** A finite nonempty set in which every element has a predecessor
    contains a cycle. *)
Lemma predecessor_cycle (R : nat -> nat -> Prop) (A : nat -> Prop) n v0 :
  A v0 -> (forall v, A v -> (v < n)%nat) -> (forall v, A v -> exists u, A u /\ R u v) ->
  exists v, tc R v v.
Proof.
  intros H0 Hn Hp.
  assert (forall k, exists l, length l = S k /\ (forall v, v ∈ l -> A v) /\ chain R l) as Hch.
  { induction k as [|k (l & Hl & HA & Hc)].
    - exists [v0]. split_and!; [done| |]; [by intros v ->%list_elem_of_singleton|].
      intros [|i] a b Ha Hb; done.
    - destruct l as [|x l]; [done|]. destruct (Hp x) as (u & Hu & HR); [apply HA; left|].
      exists (u :: x :: l). split_and!; [by rewrite <-Hl| |].
      + intros v [->|Hv]%elem_of_cons; [done|by apply HA].
      + intros [|i] a b Ha Hb; [by simplify_eq/=|]. by apply (Hc i). }
  destruct (Hch n) as (l & Hl & HA & Hc). destruct (dup_cases l) as [HN|(i & j & x & Hij & Hi & Hj)].
  - assert (length l <= n)%nat; [|lia]. apply bounded_length; [done|]. intros v Hv. by apply Hn, HA.
  - exists x. apply (chain_tc R l i (j - i - 1)); [done..|]. by replace (i + S (j - i - 1))%nat with j by lia.
Qed.

(** Along a path of edges positions in an ordered list increase. *)
Lemma ordered_pos es l u v j :
  ordered es l -> tc (edge_rel es) u v -> l !! j = Some v -> exists i, (i < j)%nat /\ l !! i = Some u.
Proof.
  intros Ho Ht. revert j. induction Ht as [u v He|u w v He Ht IH]; intros j Hj.
  - pose proof (Ho j v (mk_edge u v) Hj He eq_refl) as (i & Hi)%list_elem_of_lookup.
    apply lookup_take_Some in Hi as [Hi Hlt]. by exists i.
  - destruct (IH j Hj) as (i & Hi & Hw).
    pose proof (Ho i w (mk_edge u w) Hw He eq_refl) as (i' & Hi')%list_elem_of_lookup.
    apply lookup_take_Some in Hi' as [Hi' Hlt]. exists i'. split; [lia|done].
Qed.

Lemma topo_order_acyclic es n l :
  (forall e, e ∈ es -> (to e < n)%nat) -> topo_order es n l -> forall v, ~ tc (edge_rel es) v v.
Proof.
  intros Hes (HN & Hl & Ho) v Hc.
  assert (v ∈ l) as (j & Hj)%list_elem_of_lookup.
  { apply Hl. apply tc_rtc in Hc as Hr. inversion Hc as [? ? He|? w ? He Ht]; subst.
    - apply (Hes _ He).
    - clear Hr He Hc. induction Ht as [? ? He|? ? ? _ _ IH]; [apply (Hes _ He)|done]. }
  destruct (ordered_pos es l v v j Ho Hc Hj) as (i & Hij & Hi).
  assert (i = j) by (by eapply NoDup_lookup). lia.
Qed.

Lemma missing_node Q n :
  NoDup Q -> (forall v, v ∈ Q -> (v < n)%nat) -> length Q <> n -> exists v, (v < n)%nat /\ v ∉ Q.
Proof.
  intros HN Hb Hl. destruct (decide (Forall (fun v => v ∈ Q) (seq 0 n))) as [HF|HF].
  - pose proof (bounded_length Q n HN Hb).
    assert (length (seq 0 n) <= length Q)%nat as Hle.
    { apply submseteq_length, NoDup_submseteq; [apply NoDup_seq|]. by apply Forall_forall. }
    rewrite length_seq in Hle. lia.
  - apply not_Forall_Exists, Exists_exists in HF as (v & [_ Hv]%elem_of_seq & Hnv); [|apply _].
    exists v. split; [lia|done].
Qed.

Lemma NoDup_full Q n v :
  NoDup Q -> (forall v, v ∈ Q -> (v < n)%nat) -> length Q = n -> (v < n)%nat -> v ∈ Q.
Proof.
  intros HN Hb Hl Hv. destruct (decide (v ∈ Q)) as [|Hn]; [done|].
  assert (length (v :: Q) <= n)%nat; [|simpl in *; lia].
  apply bounded_length; [by apply NoDup_cons|]. intros w [->|Hw]%elem_of_cons; auto.
Qed.

Lemma deg_pos es P v : deg es P v <> 0 -> exists e, e ∈ es /\ to e = v /\ from e ∉ P.
Proof.
  unfold deg. destruct (filter _ es) as [|e l] eqn:Hf; [done|]. intros _.
  assert (e ∈ filter (fun e => to e = v /\ from e ∉ P) es) as Hin by (rewrite Hf; left).
  apply list_elem_of_filter in Hin as [[? ?] ?]. by exists e.
Qed.

(** What the sort needs of the arrays. *)
Record sortable {W} (g : ove_audio_graph W) : Prop := {
  so_n : (node_count g <= OVE_AUDIO_GRAPH_MAX_NODES)%nat;
  so_exec : length (exec_order g) = OVE_AUDIO_GRAPH_MAX_NODES;
  so_edges : length (edges g) = OVE_AUDIO_GRAPH_MAX_EDGES;
  so_live : forall e, e ∈ live_edges g -> (from e < node_count g)%nat /\ (to e < node_count g)%nat }.

Lemma topo_sort_spec {W} (g : ove_audio_graph W) :
  sortable g -> exists order Q,
    topo_sort g = Some (if (length Q =? node_count g)%nat then OVE_OK else OVE_ERR_INVALID_PARAM,
                        set_exec g order (length Q)) /\
    length order = OVE_AUDIO_GRAPH_MAX_NODES /\ take (length Q) order = Q /\
    NoDup Q /\ ordered (live_edges g) Q /\
    forall v, v ∈ Q <-> (v < node_count g)%nat /\ deg (live_edges g) Q v = 0.
Proof.
  intros [Hn Hx He Hl]. unfold topo_sort.
  assert (Z.of_nat (length (live_edges g)) < 2 ^ 32) as Hlen.
  { unfold live_edges. rewrite length_take, He. unfold OVE_AUDIO_GRAPH_MAX_EDGES. lia. }
  destruct (count_in_spec (live_edges g) (replicate OVE_AUDIO_GRAPH_MAX_NODES 0)) as (d & -> & Hdl & Hd).
  { intros e Hin. destruct (Hl e Hin). lia. }
  { apply length_replicate. }
  { intros v x [-> _]%lookup_replicate. lia. }
  cbn [mbind option_bind].
  assert (forall v, (v < OVE_AUDIO_GRAPH_MAX_NODES)%nat -> d !! v = Some (deg (live_edges g) [] v)) as Hdeg.
  { intros v Hv. rewrite (Hd v 0) by (by apply lookup_replicate). done. }
  destruct (enqueue_roots_spec (node_count g) (deg (live_edges g) []) d (seq 0 (node_count g))
              (replicate OVE_AUDIO_GRAPH_MAX_NODES 0%nat) 0) as (q & -> & Hql & Hqt).
  { done. } { apply length_replicate. } { done. } { by rewrite length_seq. }
  { intros v [_ Hv]%elem_of_seq. lia. }
  cbn [mbind option_bind]. change (take 0 _ ++ ?l) with l in *.
  set (R := filter _ _) in *.
  destruct (kahn_loop_spec (node_count g) (live_edges g) (S (node_count g)) d q 0 (length R) (exec_order g) R)
    as (order & d' & Q & -> & Ho & Htk & Hq); [done| |done| | |lia|lia|done|done|].
  { intros e Hin. by destruct (Hl e Hin). }
  { done. }
  { split; [done|by rewrite take_0|apply NoDup_filter, NoDup_seq| |].
    - intros v. rewrite take_0. unfold R. rewrite list_elem_of_filter, elem_of_seq. split; intros []; split; try lia.
    - intros j v e Hj Hin Hv. assert (v ∈ R) as [Hz _]%list_elem_of_filter by (by eapply list_elem_of_lookup_2).
      pose proof (proj1 (deg_zero _ _ _) Hz e Hin Hv) as []%elem_of_nil. }
  exists order, Q. cbn [mbind option_bind]. destruct Hq. done.
Qed.

(** C4. The sort decides acyclicity: on every graph built through the API it
    returns without overrunning its queue or wrapping a degree, within one
    iteration per node; it reports success exactly when no node reaches
    itself along edges, and then the execution order lists every node once,
    each producer before its consumers. *)
Theorem topo_sort_correct {W} (g : ove_audio_graph W) :
  sortable g -> exists r order n,
    topo_sort g = Some (r, set_exec g order n) /\
    (r = OVE_OK <-> forall v, ~ tc (edge_rel (live_edges g)) v v) /\
    (r = OVE_OK -> n = node_count g /\ topo_order (live_edges g) (node_count g) (take n order)).
Proof.
  intros Hs. destruct (topo_sort_spec g Hs) as (order & Q & -> & Hlo & Htk & HN & Ho & Hz).
  exists (if (length Q =? node_count g)%nat then OVE_OK else OVE_ERR_INVALID_PARAM), order, (length Q).
  assert (forall v, v ∈ Q -> (v < node_count g)%nat) as Hb by (intros v Hv; by apply Hz).
  assert (length Q = node_count g -> topo_order (live_edges g) (node_count g) Q) as Htopo.
  { intros Hl. split_and!; [done| |done]. intros v. split; [apply Hb|]. intros Hv.
    eapply NoDup_full; done. }
  split; [done|]. rewrite Htk. destruct (length Q =? node_count g)%nat eqn:Hl.
  - apply Nat.eqb_eq in Hl. split; [|auto]. split; [|done]. intros _.
    eapply topo_order_acyclic; [|by apply Htopo]. intros e He. by destruct (so_live g Hs e He).
  - apply Nat.eqb_neq in Hl. split; [|done]. split; [done|]. intros Hc. exfalso.
    destruct (missing_node Q (node_count g)) as (v0 & Hv0 & Hn0); [done..|].
    destruct (predecessor_cycle (edge_rel (live_edges g)) (fun v => (v < node_count g)%nat /\ v ∉ Q)
                (node_count g) v0) as (v & Hv); [done|by intros v []| |by apply (Hc v)].
    intros v [Hv Hnv]. destruct (deg_pos (live_edges g) Q v) as (e & He & Hto & Hfr).
    { intros H0. apply Hnv. by apply Hz. }
    exists (from e). split; [split; [by destruct (so_live g Hs e He)|done]|].
    unfold edge_rel. rewrite <-Hto. by destruct e.
Qed.

(** ** Loops and calls *)

Section wp_audio.
Context {S : Type}.

Lemma wp_ofor_seq (I : nat -> S -> Prop) f n s :
  I 0%nat s -> (forall k s, (k < n)%nat -> I k s -> wp (f k) (fun _ => I (Datatypes.S k)) s) ->
  wp (ofor f (seq 0 n)) (fun _ => I n) s.
Proof.
  intros H0 Hf. assert (forall m k s, (k + m = n)%nat -> I k s -> wp (ofor f (seq k m)) (fun _ => I n) s) as H.
  { induction m as [|m IH]; intros k s' Hk HI; cbn [seq ofor].
    - apply wp_ret. by rewrite Nat.add_0_r in Hk; subst.
    - apply wp_bind. eapply wp_mono; [apply Hf; [lia|done]|]. intros [] s2 Hs2. apply IH; [lia|done]. }
  by apply H.
Qed.

Lemma wp_ofor_rev (I : nat -> S -> Prop) f n s :
  I n s -> (forall k s, (k < n)%nat -> I (Datatypes.S k) s -> wp (f k) (fun _ => I k) s) ->
  wp (ofor f (rev (seq 0 n))) (fun _ => I 0%nat) s.
Proof.
  revert s. induction n as [|n IH]; intros s Hn Hf; [by apply wp_ret|].
  rewrite seq_S, rev_unit. cbn [ofor Nat.add]. apply wp_bind. eapply wp_mono; [apply Hf; [lia|done]|].
  intros [] s2 Hs2. apply IH; [done|]. intros k s3 Hk. apply Hf. lia.
Qed.

Lemma wp_until_err_seq (I : nat -> S -> Prop) (Q : Z -> S -> Prop) f n s :
  I 0%nat s ->
  (forall k s, (k < n)%nat -> I k s ->
     wp (f k) (fun r s' => if r =? OVE_OK then I (Datatypes.S k) s' else Q r s') s) ->
  wp (until_err f (seq 0 n)) (fun r s' => if r =? OVE_OK then I n s' else Q r s') s.
Proof.
  intros H0 Hf. assert (forall m k s, (k + m = n)%nat -> I k s ->
    wp (until_err f (seq k m)) (fun r s' => if r =? OVE_OK then I n s' else Q r s') s) as H.
  { induction m as [|m IH]; intros k s' Hk HI; cbn [seq until_err].
    - apply wp_ret. cbn. by rewrite Nat.add_0_r in Hk; subst.
    - apply wp_bind. eapply wp_mono; [apply Hf; [lia|done]|]. intros r s2 Hs2. cbv beta in Hs2.
      destruct (r =? OVE_OK) eqn:Hr; [apply IH; [lia|done]|]. apply wp_ret. by rewrite Hr. }
  by apply H.
Qed.
End wp_audio.

(** ** The invariant *)

Definition fmt_word (f : ove_audio_fmt) : Prop := is_word 32 (sample_rate f) /\ is_word 32 (channels f).

(** The bytes of [n] frames, without wrap-around. *)
Definition exact_size (f : ove_audio_fmt) (n : Z) : Z := n * channels f * ove_audio_sample_size (sample_fmt f).

(** What the graph relies on in a vtable (audio_node.h): a format made
    of unsigned ints is answered by another one, and [process] fills exactly
    the buffer it is given. *)
Record ops_ok {W} (o : ove_audio_node_ops W) : Prop := {
  oo_fmt : forall c i f w, (forall x, i = Some x -> fmt_word x) -> fmt_word (configure o c i f w).1.2;
  oo_len : forall c i v w, length (v_bytes v) = Z.to_nat (exact_size (v_fmt v) (v_frames v)) ->
    length (process o c i (Some v) w).1.2 = length (v_bytes v) }.

Section inv.
Context {W : Type} {E : AudioEnv W}.
Abbreviation graph := (ove_audio_graph W).
Implicit Types g : graph.

Definition size_of (n : Z) (x : ove_audio_node W) : Z :=
  if decide (type x <> OVE_AUDIO_NODE_SINK) then exact_size (out_fmt x) n else 0.
Definition sizes g : list Z := size_of (frames_per_period g) <$> take (node_count g) (nodes g).
Definition offset g (i : nat) : Z := sumZ (take i (sizes g)).

(** A graph that was built: the execution order is topological and the
    buffers are consecutive slices of the block. *)
Record built g : Prop := {
  bu_count : exec_count g = node_count g;
  bu_topo : topo_order (live_edges g) (node_count g) (take (exec_count g) (exec_order g));
  bu_bufs : forall i n, (i < node_count g)%nat -> nodes g !! i = Some n ->
    buffers g !! i = Some (make_buffer g (offset g i) i n);
  bu_fits : sumZ (sizes g) <= Z.of_nat (length (default [] (buf_storage g))) }.

Record graph_wf g : Prop := {
  gw_sort : sortable g;
  gw_nodes : length (nodes g) = OVE_AUDIO_GRAPH_MAX_NODES;
  gw_bufs : length (buffers g) = OVE_AUDIO_GRAPH_MAX_NODES;
  gw_ec : (edge_count g <= OVE_AUDIO_GRAPH_MAX_EDGES)%nat;
  gw_ops : forall i n, (i < node_count g)%nat -> nodes g !! i = Some n -> exists o, ops n = Some o /\ ops_ok o;
  gw_fmt : Forall (fun n => fmt_word (out_fmt n)) (nodes g);
  gw_edge : forall e, e ∈ live_edges g -> from e <> to e /\
    (forall n, nodes g !! from e = Some n -> type n <> OVE_AUDIO_NODE_SINK) /\
    (forall n, nodes g !! to e = Some n -> type n <> OVE_AUDIO_NODE_SOURCE);
  gw_fanin : NoDup (to <$> live_edges g);
  gw_frames : 0 <= frames_per_period g < 2 ^ 30;
  gw_size : 0 <= buf_storage_size g;
  gw_store : 0 < buf_storage_size g ->
    exists st, buf_storage g = Some st /\ Z.of_nat (length st) = buf_storage_size g;
  gw_idle : state g = OVE_AUDIO_GRAPH_IDLE -> buf_storage_size g = 0 -> buf_storage g = None;
  gw_built : state g <> OVE_AUDIO_GRAPH_IDLE -> built g }.

(** The balance of allocations, and what the graph owns. *)
Definition heap_ev (e : aev) : Z :=
  match e with ECalloc _ true => 1 | EFree => -1 | _ => 0 end.
Definition heap_bal (t : list aev) : Z := sumZ (heap_ev <$> t).
Definition heap_live g : Z :=
  if (buf_storage_size g =? 0) && bool_decide (is_Some (buf_storage g)) then 1 else 0.
Definition ast_wf (s : ast W) : Prop := graph_wf (ag s) /\ heap_bal (atr s) = heap_live (ag s).

Lemma heap_bal_app t u : heap_bal (t ++ u) = heap_bal t + heap_bal u.
Proof. unfold heap_bal. by rewrite fmap_app, sumZ_app. Qed.

Lemma heap_bal_snoc t e : heap_ev e = 0 -> heap_bal (t ++ [e]) = heap_bal t.
Proof. intros He. rewrite heap_bal_app. unfold heap_bal at 2. simpl. lia. Qed.

Lemma wp_acall {A} (f : W -> A * W) e (Q : A -> ast W -> Prop) s :
  (forall a w, f (aw s) = (a, w) -> Q a (mk_ast w (atr s ++ [e a]) (ag s))) -> wp (acall f e) Q s.
Proof. intros H. unfold wp, acall. destruct (f (aw s)) as [a w] eqn:Hf. auto. Qed.

Lemma wp_node_at i n o (Q : _ -> ast W -> Prop) s :
  nodes (ag s) !! i = Some n -> ops n = Some o -> Q (n, o) s -> wp (node_at i) Q s.
Proof.
  intros Hn Ho HQ. unfold node_at, gget. apply wp_bind, wp_gets, wp_bind.
  apply (wp_lift _ _ _ _ Hn), wp_bind, (wp_lift _ _ _ _ Ho), wp_ret, HQ.
Qed.

Lemma wp_gmod (f : graph -> graph) (Q : unit -> ast W -> Prop) s :
  Q tt (mk_ast (aw s) (atr s) (f (ag s))) -> wp (gmod f) Q s.
Proof. done. Qed.

Lemma node_lookup g i : graph_wf g -> (i < node_count g)%nat ->
  exists n o, nodes g !! i = Some n /\ ops n = Some o /\ ops_ok o.
Proof.
  intros Hg Hi. pose proof (so_n g (gw_sort g Hg)). destruct (lookup_lt_is_Some_2 (nodes g) i) as [n Hn].
  { rewrite (gw_nodes g Hg). lia. }
  destruct (gw_ops g Hg i n Hi Hn) as (o & ? & ?). by exists n, o.
Qed.

Lemma live_lookup_len g : graph_wf g -> length (live_edges g) = edge_count g.
Proof.
  intros Hg. unfold live_edges. rewrite length_take, (so_edges g (gw_sort g Hg)). pose proof (gw_ec g Hg). lia.
Qed.

(** ** Preservation, field by field *)

Lemma wf_zero n : 0 <= n < 2 ^ 30 -> graph_wf (zero_graph n).
Proof.
  intros Hn. split; try done.
  - split; cbn; try done; [lia|]. intros e He. by apply elem_of_nil in He.
  - cbn. lia.
  - intros i x Hi. cbn in Hi. lia.
  - cbn [nodes zero_graph]. apply Forall_replicate. unfold fmt_word, is_word. cbn. lia.
  - intros e He. by apply elem_of_nil in He.
  - apply NoDup_nil_2.
Qed.

Lemma wf_set_stats g x : graph_wf g -> graph_wf (set_stats g x).
Proof. intros [[] ? ? ? ? ? ? ? ? ? ? ? Hb]. split; try done. intros H. destruct (Hb H). by split. Qed.

Lemma wf_set_state g x : graph_wf g -> state g <> OVE_AUDIO_GRAPH_IDLE -> x <> OVE_AUDIO_GRAPH_IDLE ->
  graph_wf (set_state g x).
Proof. intros [[] ? ? ? ? ? ? ? ? ? ? ? Hb] Hs Hx. split; try done. intros H. destruct (Hb Hs). by split. Qed.

Lemma wf_set_exec g l n : graph_wf g -> state g = OVE_AUDIO_GRAPH_IDLE ->
  length l = OVE_AUDIO_GRAPH_MAX_NODES -> graph_wf (set_exec g l n).
Proof. intros [[] ? ? ? ? ? ? ? ? ? ? ? Hb] Hs Hl. by split. Qed.

Lemma wf_set_fmt g i n f : graph_wf g -> state g = OVE_AUDIO_GRAPH_IDLE ->
  nodes g !! i = Some n -> fmt_word f ->
  graph_wf (set_nodes g (aset (nodes g) i (mk_node (name n) (type n) (ops n) (ctx n) f)) (node_count g)).
Proof.
  intros [[] Hn ? ? Hops Hfmt Hedge ? ? ? ? ? Hb] Hs Hi Hf.
  assert (forall j x, aset (nodes g) i (mk_node (name n) (type n) (ops n) (ctx n) f) !! j = Some x ->
    exists y, nodes g !! j = Some y /\ type x = type y /\ ops x = ops y) as Hsame.
  { intros j x. unfold aset. rewrite list_lookup_insert_Some. intros [(<- & <- & _)|[_ Hj]]; [by exists n|by exists x]. }
  split; cbn [nodes node_count set_nodes edges edge_count]; try done.
  - by rewrite length_aset.
  - intros j x Hj (y & Hy & _ & ->)%Hsame. by apply (Hops j).
  - by apply Forall_aset.
  - intros e He. destruct (Hedge e He) as (? & Hfr & Hto). split_and!; [done| |].
    + intros x (y & Hy & -> & _)%Hsame. by apply Hfr.
    + intros x (y & Hy & -> & _)%Hsame. by apply Hto.
Qed.
End inv.

(** ** Layout *)

Section layout.
Context {W : Type} {E : AudioEnv W}.
Hypothesis HSM : 0 <= SIZE_MAX.
Implicit Types g : ove_audio_graph W.

Lemma sample_size_range f : 0 <= ove_audio_sample_size f <= 4.
Proof. unfold ove_audio_sample_size. repeat case_match; lia. Qed.

Lemma exact_size_nonneg f n : 0 <= n -> fmt_word f -> 0 <= exact_size f n.
Proof.
  intros Hn [_ Hc]. unfold is_word in Hc. pose proof (sample_size_range (sample_fmt f)). unfold exact_size.
  apply Z.mul_nonneg_nonneg; [apply Z.mul_nonneg_nonneg|]; lia.
Qed.

(** Below [2^30] frames the 64-bit product is exact. *)
Lemma buf_byte_size_exact f n : 0 <= n < 2 ^ 30 -> fmt_word f -> buf_byte_size f n = exact_size f n.
Proof.
  intros Hn [_ Hc]. unfold is_word in Hc. pose proof (sample_size_range (sample_fmt f)).
  unfold buf_byte_size, exact_size. change (2 ^ 30) with 1073741824 in *. change (2 ^ 32) with 4294967296 in *.
  assert (0 <= n * channels f <= 1073741823 * 4294967295) by nia.
  rewrite (wrap_small 64 (n * _)) by (unfold is_word; change (2 ^ 64) with 18446744073709551616; lia).
  apply wrap_small. unfold is_word. change (2 ^ 64) with 18446744073709551616. nia.
Qed.

Lemma layout_spec ns n : forall total offs tot,
  0 <= n < 2 ^ 30 -> Forall (fun x => fmt_word (out_fmt x)) ns -> 0 <= total <= SIZE_MAX ->
  layout ns n total = Some (offs, tot) ->
  tot = total + sumZ (size_of n <$> ns) /\ tot <= SIZE_MAX /\
  forall i, (i < length ns)%nat -> offs !! i = Some (total + sumZ (take i (size_of n <$> ns))).
Proof.
  induction ns as [|x ns IH]; intros total offs tot Hn Hf Ht; cbn [layout].
  { intros [= <- <-]. cbn. split_and!; [lia..|]. intros i Hi. lia. }
  apply Forall_cons in Hf as [Hx Hf]. cbn [fmap list_fmap]. unfold size_of at 1 3.
  assert (forall total' sz, 0 <= total' <= SIZE_MAX -> total' = total + sz ->
    ('(offs0, sz0) ← layout ns n total'; Some (total :: offs0, sz0)) = Some (offs, tot) ->
    tot = total + sumZ (sz :: (size_of n <$> ns)) /\ tot <= SIZE_MAX /\
    forall i, (i < length (x :: ns))%nat -> offs !! i = Some (total + sumZ (take i (sz :: (size_of n <$> ns))))) as Hstep.
  { intros total' sz Ht' Heq. destruct (layout ns n total') as [[o z]|] eqn:Hl; cbn [mbind option_bind]; [|done].
    intros [= <- <-]. destruct (IH total' o z Hn Hf Ht' Hl) as (Hz & Hle & Ho). cbn [sumZ foldr].
    change (foldr Z.add 0 ?l) with (sumZ l). split_and!; [lia|done|]. intros [|i] Hi; cbn in Hi |- *.
    - f_equal. lia.
    - rewrite Ho by lia. f_equal. change (foldr Z.add 0 ?l) with (sumZ l). lia. }
  destruct (decide (type x <> OVE_AUDIO_NODE_SINK)); [|by apply (Hstep total 0); [done|lia]].
  rewrite buf_byte_size_exact by done. pose proof (exact_size_nonneg (out_fmt x) n (proj1 Hn) Hx) as H0.
  destruct (SIZE_MAX - total <? exact_size (out_fmt x) n) eqn:Hg; [done|]. apply Z.ltb_ge in Hg.
  unfold szwrap. rewrite (Z.mod_small (exact_size _ _)), Z.mod_small by lia.
  apply Hstep; lia.
Qed.

Lemma sizes_nonneg g : graph_wf g -> Forall (fun z => 0 <= z) (sizes g).
Proof.
  intros Hg. unfold sizes. apply Forall_fmap. apply Forall_take.
  eapply Forall_impl; [apply (gw_fmt g Hg)|]. intros x Hx. unfold compose, size_of.
  case_decide; [|lia]. apply exact_size_nonneg; [apply (gw_frames g Hg)|done].
Qed.

Lemma sumZ_nonneg l : Forall (fun z => 0 <= z) l -> 0 <= sumZ l.
Proof. induction 1; simpl; lia. Qed.

Lemma sumZ_take_step l i : (i < length l)%nat -> sumZ (take (S i) l) = sumZ (take i l) + aget 0 l i.
Proof.
  intros Hi. destruct (lookup_lt_is_Some_2 l i Hi) as [x Hx]. rewrite (take_S_r _ _ x Hx), sumZ_app.
  unfold aget. rewrite Hx. simpl. lia.
Qed.

Lemma sumZ_take_mono l i j : Forall (fun z => 0 <= z) l -> (i <= j)%nat -> sumZ (take i l) <= sumZ (take j l).
Proof.
  intros Hl Hij. rewrite <-(take_drop i (take j l)), sumZ_app, take_take, Nat.min_l by lia.
  pose proof (sumZ_nonneg (drop i (take j l)) ltac:(by apply Forall_drop, Forall_take)). lia.
Qed.

Lemma sizes_length g : graph_wf g -> length (sizes g) = node_count g.
Proof.
  intros Hg. unfold sizes. rewrite length_fmap, length_take, (gw_nodes g Hg).
  pose proof (so_n g (gw_sort g Hg)). lia.
Qed.

Definition buf_size g (i : nat) : Z := aget 0 (sizes g) i.

Lemma buf_size_node g i n : (i < node_count g)%nat -> nodes g !! i = Some n ->
  buf_size g i = size_of (frames_per_period g) n.
Proof.
  intros Hi Hn. unfold buf_size, aget, sizes. rewrite list_lookup_fmap, lookup_take_lt by done. by rewrite Hn.
Qed.

(** Buffers are disjoint, in order, and inside the block. *)
Lemma offset_bounds g i : graph_wf g -> (i < node_count g)%nat ->
  0 <= offset g i /\ 0 <= buf_size g i /\ offset g i + buf_size g i <= sumZ (sizes g) /\
  forall j, (i < j)%nat -> offset g i + buf_size g i <= offset g j.
Proof.
  intros Hg Hi. pose proof (sizes_nonneg g Hg) as Hnn. pose proof (sizes_length g Hg) as Hl. unfold offset, buf_size.
  rewrite <-sumZ_take_step by lia. split_and!.
  - by apply sumZ_nonneg, Forall_take.
  - apply (Forall_aget (fun z => 0 <= z)); [done|lia].
  - rewrite <-(firstn_all (sizes g)) at 2. apply sumZ_take_mono; [done|lia].
  - intros j Hj. apply sumZ_take_mono; [done|lia].
Qed.

End layout.

(** ** Reading and writing the block

    During a period only the content of the block and the statistics
    change: [upd g b x] is the graph [g] with block [b] and statistics [x]. *)

Section dataflow.
Context {W : Type} {E : AudioEnv W}.
Implicit Types g : ove_audio_graph W.
Implicit Types b : option (list Z).

Definition upd g b (x : ove_audio_graph_stats) : ove_audio_graph W :=
  set_stats (set_storage g b (buf_storage_size g)) x.

Definition shape_ok g b : Prop :=
  match b, buf_storage g with
  | Some st, Some st0 => length st = length st0
  | None, None => True
  | _, _ => False
  end.

Definition slice g b (i : nat) : list Z :=
  match b with
  | Some st => take (Z.to_nat (buf_size g i)) (drop (Z.to_nat (offset g i)) st)
  | None => []
  end.

Definition store g b (i : nat) (bs : list Z) : option (list Z) :=
  (fun st => overwrite st (Z.to_nat (offset g i)) bs) <$> b.

Lemma upd_refl g : upd g (buf_storage g) (stats g) = g.
Proof. by destruct g. Qed.

Lemma shape_refl g : shape_ok g (buf_storage g).
Proof. unfold shape_ok. by destruct (buf_storage g). Qed.

Lemma make_buffer_upd g b x off i n : shape_ok g b -> make_buffer (upd g b x) off i n = make_buffer g off i n.
Proof. unfold make_buffer, shape_ok. cbn. by destruct b, (buf_storage g). Qed.

Lemma wf_upd g b x : graph_wf g -> shape_ok g b -> graph_wf (upd g b x).
Proof.
  intros [[] ? ? ? ? ? ? ? ? ? Hst Hidle Hb] Hsh. split; try done.
  - cbn [buf_storage_size upd set_stats set_storage buf_storage]. intros Hs. destruct (Hst Hs) as (st & Hst' & Hl).
    unfold shape_ok in Hsh. rewrite Hst' in Hsh. destruct b as [st'|]; [|done]. exists st'. split; [done|]. lia.
  - cbn [buf_storage_size upd set_stats set_storage buf_storage state]. intros Hi Hs.
    unfold shape_ok in Hsh. rewrite (Hidle Hi Hs) in Hsh. by destruct b.
  - intros Hs. destruct (Hb Hs) as [? ? Hbufs Hfits]. split; [done|done| |].
    + intros i n Hi Hn. rewrite make_buffer_upd by done. by apply Hbufs.
    + cbn [upd set_stats set_storage buf_storage]. change (sizes _) with (sizes g).
      unfold shape_ok in Hsh. destruct b as [st|], (buf_storage g) as [st0|]; cbn in Hfits |- *; try done. lia.
Qed.

Section built.
Context (g : ove_audio_graph W) (Hg : graph_wf g) (Hst : state g <> OVE_AUDIO_GRAPH_IDLE).

Lemma slot_fits b i : shape_ok g b -> (i < node_count g)%nat -> forall st, b = Some st ->
  (Z.to_nat (offset g i) + Z.to_nat (buf_size g i) <= length st)%nat.
Proof.
  intros Hsh Hi st ->. destruct (offset_bounds g i Hg Hi) as (? & ? & Hle & _).
  pose proof (bu_fits g (gw_built g Hg Hst)) as Hf. unfold shape_ok in Hsh.
  destruct (buf_storage g); [|done]. cbn in Hf. lia.
Qed.

Lemma slice_length b i : shape_ok g b -> (i < node_count g)%nat ->
  length (slice g b i) = Z.to_nat (buf_size g i).
Proof.
  intros Hsh Hi. destruct (offset_bounds g i Hg Hi) as (? & ? & Hle & _). unfold slice.
  destruct b as [st|].
  - pose proof (slot_fits (Some st) i Hsh Hi st eq_refl). rewrite length_take, length_drop. lia.
  - pose proof (bu_fits g (gw_built g Hg Hst)) as Hf. unfold shape_ok in Hsh.
    destruct (buf_storage g); [done|]. cbn in *. lia.
Qed.

Lemma store_shape b i bs : shape_ok g b -> (i < node_count g)%nat ->
  length bs = Z.to_nat (buf_size g i) -> shape_ok g (store g b i bs).
Proof.
  intros Hsh Hi Hl. unfold shape_ok, store. pose proof (slot_fits b i Hsh Hi) as Hf. unfold shape_ok in Hsh.
  destruct b as [st|]; [|done]. cbn. destruct (buf_storage g); [|done]. rewrite overwrite_length; [done|].
  specialize (Hf st eq_refl). lia.
Qed.

Lemma slice_store_eq b i bs : shape_ok g b -> (i < node_count g)%nat ->
  length bs = Z.to_nat (buf_size g i) -> slice g (store g b i bs) i = bs.
Proof.
  intros Hsh Hi Hl. pose proof (slot_fits b i Hsh Hi) as Hf.
  pose proof (slice_length b i Hsh Hi) as Hsl. unfold slice, store in *. destruct b as [st|].
  - cbn. rewrite <-Hl. apply overwrite_same. specialize (Hf st eq_refl). lia.
  - cbn. symmetry. apply nil_length_inv. cbn in Hsl. lia.
Qed.

Lemma slice_store_ne b i j bs : shape_ok g b -> (i < node_count g)%nat -> (j < node_count g)%nat -> i <> j ->
  length bs = Z.to_nat (buf_size g i) -> slice g (store g b i bs) j = slice g b j.
Proof.
  intros Hsh Hi Hj Hne Hl. pose proof (slot_fits b i Hsh Hi) as Hf.
  destruct (offset_bounds g i Hg Hi) as (? & ? & _ & Hi'), (offset_bounds g j Hg Hj) as (? & ? & _ & Hj').
  unfold slice, store. destruct b as [st|]; [|done]. cbn. specialize (Hf st eq_refl).
  destruct (decide (i < j)%nat) as [Hlt|Hge].
  - specialize (Hi' j Hlt). apply overwrite_after; lia.
  - assert (j < i)%nat as Hlt by lia. specialize (Hj' i Hlt). apply overwrite_before; lia.
Qed.

Lemma buffer_lookup b x i n : shape_ok g b -> (i < node_count g)%nat -> nodes g !! i = Some n ->
  type n <> OVE_AUDIO_NODE_SINK ->
  buffers g !! i = Some (mk_buf ((fun _ => offset g i) <$> b) (frames_per_period g) (Some i)) /\
  view_of (upd g b x) (mk_buf ((fun _ => offset g i) <$> b) (frames_per_period g) (Some i))
  = Some (mk_view (slice g b i) (frames_per_period g) (out_fmt n)).
Proof.
  intros Hsh Hi Hn Hty. split.
  { rewrite (bu_bufs g (gw_built g Hg Hst) i n Hi Hn). unfold make_buffer. rewrite decide_True by done.
    unfold shape_ok in Hsh. by destruct b, (buf_storage g). }
  unfold view_of. cbn [fmt mbind option_bind]. change (nodes (upd g b x)) with (nodes g). rewrite Hn.
  cbn [mbind option_bind data buf_storage upd set_stats set_storage frames].
  assert (fmt_word (out_fmt n)) as Hw by exact (Forall_lookup_1 _ _ _ _ (gw_fmt g Hg) Hn).
  rewrite buf_byte_size_exact; [|apply (gw_frames g Hg)|done].
  assert (exact_size (out_fmt n) (frames_per_period g) = buf_size g i) as ->.
  { rewrite (buf_size_node g i n) by done. unfold size_of. by rewrite decide_True. }
  pose proof (slot_fits b i Hsh Hi) as Hf. destruct (offset_bounds g i Hg Hi) as (? & ? & _ & _).
  destruct b as [st|]; [|done]. cbn. specialize (Hf st eq_refl). rewrite decide_True by lia. done.
Qed.

Lemma wp_mem_write b x i bs (Q : unit -> ast W -> Prop) w t : shape_ok g b -> (i < node_count g)%nat ->
  length bs = Z.to_nat (buf_size g i) ->
  Q tt (mk_ast w t (upd g (store g b i bs) x)) ->
  wp (mem_write ((fun _ => offset g i) <$> b) bs) Q (mk_ast w t (upd g b x)).
Proof.
  intros Hsh Hi Hl HQ. unfold mem_write, gget. apply wp_bind, wp_gets. cbn [ag upd set_stats set_storage buf_storage].
  pose proof (slot_fits b i Hsh Hi) as Hf. pose proof (slice_length b i Hsh Hi) as Hsl.
  destruct (offset_bounds g i Hg Hi) as (? & ? & _ & _). destruct b as [st|]; cbn [fmap option_fmap option_map].
  - specialize (Hf st eq_refl). rewrite decide_True by lia. by apply wp_gmod.
  - cbn in Hsl. rewrite decide_True by (apply nil_length_inv; lia). by apply wp_ret.
Qed.

End built.
End dataflow.

(** ** One period *)

Section process.
Context {W : Type} {E : AudioEnv W}.
Implicit Types g : ove_audio_graph W.

Lemma first_into_Some es v u : first_into es v = Some u -> mk_edge u v ∈ es.
Proof.
  induction es as [|[a c] es IH]; cbn [first_into from to]; [done|].
  destruct (c =? v)%nat eqn:Hc; [|intros ?; right; auto].
  apply Nat.eqb_eq in Hc as ->. intros [= ->]. left.
Qed.

(** What [idx] reads: the buffer of its upstream. *)
Definition input_of g (b : option (list Z)) (idx : nat) : option (list Z) :=
  match nodes g !! idx with
  | Some n => if decide (type n <> OVE_AUDIO_NODE_SOURCE) then slice g b <$> find_upstream g idx else None
  | None => None
  end.

Definition is_sink g (idx : nat) : Prop :=
  exists n, nodes g !! idx = Some n /\ type n = OVE_AUDIO_NODE_SINK.

(** What [idx] leaves in its buffer: its output, or silence on error. *)
Definition left_by g (idx : nat) (bs : list Z) (r : Z) : list Z :=
  if r =? OVE_OK then bs else replicate (Z.to_nat (buf_size g idx)) 0.

Section step.
Context (g : ove_audio_graph W) (Hg : graph_wf g) (Hst : state g <> OVE_AUDIO_GRAPH_IDLE).

Lemma upstream_node idx u : find_upstream g idx = Some u ->
  (u < node_count g)%nat /\ exists n, nodes g !! u = Some n /\ type n <> OVE_AUDIO_NODE_SINK.
Proof.
  intros Hu%first_into_Some. destruct (so_live g (gw_sort g Hg) _ Hu) as [Hlt _]. cbn in Hlt.
  destruct (gw_edge g Hg _ Hu) as (_ & Hty & _). split; [done|].
  destruct (node_lookup g u Hg Hlt) as (n & _ & Hn & _). exists n. split; [done|]. by apply Hty.
Qed.

Lemma wp_read_input b x idx n (Q : option buf_view -> ast W -> Prop) s :
  shape_ok g b -> ag s = upd g b x -> nodes g !! idx = Some n ->
  (forall v, v_bytes <$> v = input_of g b idx -> Q v s) ->
  wp (if decide (type n <> OVE_AUDIO_NODE_SOURCE) then
        match find_upstream (upd g b x) idx with
        | Some u => c ← olift (buffers (upd g b x) !! u); v ← olift (view_of (upd g b x) c); mret (Some v)
        | None => mret None
        end
      else mret None) Q s.
Proof.
  intros Hsh Hs Hn HQ. unfold input_of in HQ. rewrite Hn in HQ.
  destruct (decide (type n <> OVE_AUDIO_NODE_SOURCE)); [|by apply wp_ret, HQ].
  change (find_upstream (upd g b x) idx) with (find_upstream g idx).
  destruct (find_upstream g idx) as [u|] eqn:Hu; [|by apply wp_ret, HQ].
  destruct (upstream_node idx u Hu) as (Hlt & nu & Hnu & Hty).
  destruct (buffer_lookup g Hg Hst b x u nu Hsh Hlt Hnu Hty) as [Hb Hv].
  apply wp_bind, (wp_lift _ _ _ _ Hb), wp_bind, (wp_lift _ _ _ _ Hv), wp_ret, HQ. done.
Qed.

(** Storing a node's output and clearing it on error. *)
Lemma wp_write_output b x idx n bs r w t (Q : unit -> ast W -> Prop) :
  shape_ok g b -> (idx < node_count g)%nat -> nodes g !! idx = Some n ->
  type n <> OVE_AUDIO_NODE_SINK -> length bs = Z.to_nat (buf_size g idx) ->
  (forall b', shape_ok g b' -> slice g b' idx = left_by g idx bs r ->
     (forall j, (j < node_count g)%nat -> j <> idx -> slice g b' j = slice g b j) ->
     Q tt (mk_ast w t (upd g b' (if r =? OVE_OK then x else count_error x)))) ->
  let c := mk_buf ((fun _ => offset g idx) <$> b) (frames_per_period g) (Some idx) in
  wp (mem_write (data c) bs;;
      if negb (r =? OVE_OK) then
        gmod (fun g => set_stats g (count_error (stats g)));;
        if decide (data c <> None)
        then mem_write (data c) (replicate (Z.to_nat (buf_byte_size (out_fmt n) (frames_per_period g))) 0)
        else mret tt
      else mret tt) Q (mk_ast w t (upd g b x)).
Proof.
  intros Hsh Hi Hn Hty Hl HQ c. subst c. cbn [data]. pose proof (store_shape g Hg Hst b idx bs Hsh Hi Hl) as Hsh1.
  apply wp_bind, wp_mem_write; [done..|]. unfold left_by in HQ. destruct (r =? OVE_OK) eqn:Hr; cbn [negb].
  { apply wp_ret, HQ; [done|by apply slice_store_eq|]. intros j Hj Hne. apply slice_store_ne; auto. }
  apply wp_bind, wp_gmod. cbn [aw atr ag]. change (set_stats (upd g ?b1 x) ?y) with (upd g b1 y).
  change (stats (upd g _ x)) with x.
  assert (fmt_word (out_fmt n)) as Hw by exact (Forall_lookup_1 _ _ _ _ (gw_fmt g Hg) Hn).
  rewrite buf_byte_size_exact; [|apply (gw_frames g Hg)|done].
  assert (exact_size (out_fmt n) (frames_per_period g) = buf_size g idx) as ->.
  { rewrite (buf_size_node g idx n) by done. unfold size_of. by rewrite decide_True. }
  set (z := replicate (Z.to_nat (buf_size g idx)) 0) in *.
  assert (length z = Z.to_nat (buf_size g idx)) as Hlz by apply length_replicate.
  pose proof (slice_length g Hg Hst b idx Hsh Hi) as Hsl.
  destruct b as [st|]; cbn [fmap option_fmap option_map].
  - rewrite decide_True by done.
    change (Some (offset g idx)) with ((fun _ => offset g idx) <$> store g (Some st) idx bs).
    apply wp_mem_write; [done..|]. apply HQ.
    + by apply store_shape.
    + by apply slice_store_eq.
    + intros j Hj Hne. rewrite !slice_store_ne by auto. done.
  - rewrite decide_False by auto. apply wp_ret, HQ; [done| |done]. symmetry. apply nil_length_inv.
    cbn in Hsl. by rewrite Hlz, <-Hsl.
Qed.

Lemma wp_process_node b x k idx w t (Q : unit -> ast W -> Prop) :
  shape_ok g b -> exec_order g !! k = Some idx -> (idx < node_count g)%nat ->
  (forall w' bs r b', shape_ok g b' -> (~ is_sink g idx -> slice g b' idx = left_by g idx bs r) ->
     (forall j, (j < node_count g)%nat -> j <> idx -> slice g b' j = slice g b j) ->
     Q tt (mk_ast w' (t ++ [EProcess idx (input_of g b idx) bs r])
             (upd g b' (if r =? OVE_OK then x else count_error x)))) ->
  wp (process_node k) Q (mk_ast w t (upd g b x)).
Proof.
  intros Hsh Hk Hi HQ. destruct (node_lookup g idx Hg Hi) as (n & o & Hn & Ho & Hoo).
  unfold process_node, gget. apply wp_bind, wp_gets. cbn [ag]. apply wp_bind, (wp_lift _ _ _ _ Hk).
  apply wp_bind, (wp_node_at idx n o); [done..|]. cbn beta iota. apply wp_bind.
  apply (wp_read_input b x idx n); [done..|]. intros v Hv. rewrite <-Hv in HQ. apply wp_bind.
  destruct (decide (type n <> OVE_AUDIO_NODE_SINK)) as [Hty|Hty].
  - destruct (buffer_lookup g Hg Hst b x idx n Hsh Hi Hn Hty) as [Hb Hvw].
    apply wp_bind, (wp_lift _ _ _ _ Hb), wp_bind, (wp_lift _ _ _ _ Hvw), wp_ret. cbn beta iota.
    apply wp_bind, wp_acall. intros [r bs] w' Hp. cbn beta iota. cbn [aw atr ag v_fmt v_frames fst snd].
    apply wp_write_output; [done..| |].
    + pose proof (oo_len o Hoo (ctx n) v (mk_view (slice g b idx) (frames_per_period g) (out_fmt n)) w) as Hlen.
      cbn [v_bytes v_fmt v_frames aw fmap option_fmap option_map snd] in Hp, Hlen. rewrite Hp in Hlen.
      rewrite (slice_length g Hg Hst b idx Hsh Hi) in Hlen. apply Hlen.
      rewrite (buf_size_node g idx n) by done. unfold size_of. by rewrite decide_True.
    + intros b' Hsh' Heq Hoth. by apply HQ.
  - apply wp_ret. cbn beta iota. apply wp_bind, wp_acall. intros [r bs] w' Hp. cbn beta iota. cbn [aw atr ag fst snd].
    assert (is_sink g idx) as Hsink by (exists n; split; [done|]; destruct (decide (type n = OVE_AUDIO_NODE_SINK)); tauto).
    apply wp_bind, wp_ret. specialize (HQ w' bs r b Hsh).
    destruct (r =? OVE_OK) eqn:Hr; cbn [negb].
    + apply wp_ret, HQ; [done|auto].
    + apply wp_bind, wp_gmod, wp_ret, HQ; [done|auto].
Qed.

(** The trace [t] of a period that ran the nodes [P], against the block
    [b] it leaves: every input is what the upstream left. *)
Definition flow_ok (b : option (list Z)) (P : list nat) (t : list aev) : Prop :=
  Forall2 (fun idx e => exists bs r, e = EProcess idx (input_of g b idx) bs r /\
             (~ is_sink g idx -> slice g b idx = left_by g idx bs r)) P t.

Definition failed (e : aev) : bool := match e with EProcess _ _ _ r => negb (r =? OVE_OK) | _ => false end.
Definition failures (t : list aev) : nat := length (List.filter failed t).

(** Running one more node leaves what the earlier ones read and wrote. *)
Lemma flow_step b b' P idx t bs r :
  flow_ok b P t -> (forall v, v ∈ P -> (v < node_count g)%nat) -> idx ∉ P ->
  (forall v u, v ∈ P -> find_upstream g v = Some u -> u ∈ P) ->
  (forall u, find_upstream g idx = Some u -> u ∈ P) ->
  (~ is_sink g idx -> slice g b' idx = left_by g idx bs r) ->
  (forall j, (j < node_count g)%nat -> j <> idx -> slice g b' j = slice g b j) ->
  flow_ok b' (P ++ [idx]) (t ++ [EProcess idx (input_of g b idx) bs r]).
Proof.
  intros Hf Hb Hni Hup Hui Hs Hj.
  assert (forall v, v ∈ P -> slice g b' v = slice g b v) as Hsame.
  { intros v Hv. apply Hj; [by apply Hb|]. by intros ->. }
  assert (forall v, (forall u, find_upstream g v = Some u -> u ∈ P) -> input_of g b' v = input_of g b v) as Hin.
  { intros v Hv. unfold input_of. destruct (nodes g !! v); [|done]. case_decide; [|done].
    destruct (find_upstream g v) as [u|] eqn:Hu; [|done]. cbn. f_equal. by apply Hsame, Hv. }
  apply Forall2_app.
  - apply Forall2_same_length_lookup_2; [by eapply Forall2_length|]. intros i v e Hv He.
    pose proof (Forall2_lookup_lr _ _ _ _ _ _ Hf Hv He) as (bs' & r' & -> & Hl).
    assert (v ∈ P) as HvP by (by eapply list_elem_of_lookup_2).
    exists bs', r'. split; [|intros Hns; rewrite Hsame by done; auto].
    f_equal. symmetry. apply Hin. intros u. by apply Hup.
  - apply Forall2_cons. split; [|by apply Forall2_nil]. exists bs, r. split; [|done]. f_equal. symmetry. by apply Hin.
Qed.

End step.
End process.

(** ** Whole periods *)

Section period.
Context {W : Type} {E : AudioEnv W}.
Implicit Types g : ove_audio_graph W.

(** The nodes in execution order. *)
Definition run_order g : list nat := take (exec_count g) (exec_order g).

Lemma run_order_lookup g k : built g -> (k < exec_count g)%nat -> graph_wf g ->
  exists idx, exec_order g !! k = Some idx /\ run_order g !! k = Some idx /\ (idx < node_count g)%nat.
Proof.
  intros Hb Hk Hg. destruct (lookup_lt_is_Some_2 (exec_order g) k) as [idx Hi].
  { rewrite (so_exec g (gw_sort g Hg)). pose proof (so_n g (gw_sort g Hg)). rewrite (bu_count g Hb) in Hk. lia. }
  exists idx. assert (run_order g !! k = Some idx) as Hr by (unfold run_order; by rewrite lookup_take_lt).
  split_and!; [done..|]. destruct (bu_topo g Hb) as (_ & Hm & _). apply Hm. by eapply list_elem_of_lookup_2.
Qed.

(** Upstream nodes ran earlier. *)
Lemma upstream_before g k j v u : built g -> (j <= k)%nat ->
  run_order g !! j = Some v -> find_upstream g v = Some u -> u ∈ take k (run_order g).
Proof.
  intros Hb Hjk Hj Hu%first_into_Some. destruct (bu_topo g Hb) as (_ & _ & Ho).
  pose proof (Ho j v _ Hj Hu eq_refl) as (i & Hi)%list_elem_of_lookup. cbn in Hi.
  apply lookup_take_Some in Hi as [Hi Hlt]. eapply list_elem_of_lookup_2. rewrite lookup_take_lt; [done|lia].
Qed.

Definition period_inv g t0 (k : nat) (s : ast W) : Prop :=
  exists b x t, ag s = upd g b x /\ atr s = t0 ++ t /\ shape_ok g b /\
    flow_ok g b (take k (run_order g)) t /\
    node_errors x = Nat.iter (failures t) (fun e => u32 (e + 1)) (node_errors (stats g)) /\
    cycles x = cycles (stats g).

Lemma failures_snoc t e : failures (t ++ [e]) = (failures t + if failed e then 1 else 0)%nat.
Proof. unfold failures. rewrite List.filter_app, length_app. simpl. by destruct (failed e). Qed.

Lemma process_loop g w t0 : graph_wf g -> state g <> OVE_AUDIO_GRAPH_IDLE ->
  wp (ofor process_node (seq 0 (exec_count g))) (fun _ => period_inv g t0 (exec_count g)) (mk_ast w t0 g).
Proof.
  intros Hg Hst. pose proof (gw_built g Hg Hst) as Hb. apply wp_ofor_seq.
  { exists (buf_storage g), (stats g), []. rewrite app_nil_r, upd_refl, take_0. split_and!; try done.
    - apply shape_refl.
    - by apply Forall2_nil. }
  intros k [w1 t1 g1] Hk (b & x & t & Hg1 & Ht1 & Hsh & Hf & Herr & Hcyc). cbn [ag atr] in Hg1, Ht1. subst g1 t1.
  destruct (run_order_lookup g k Hb Hk Hg) as (idx & He & Hr & Hi).
  apply (wp_process_node g Hg Hst) with (idx := idx); [done..|]. intros w' bs r b' Hsh' Hs Hj.
  exists b', (if r =? OVE_OK then x else count_error x), (t ++ [EProcess idx (input_of g b idx) bs r]).
  cbn [ag atr]. split_and!; [done|by rewrite app_assoc|done| | |].
  - rewrite (take_S_r _ _ idx Hr). destruct (bu_topo g Hb) as (HN & Hm & _). apply flow_step; try done.
    + intros v (i & Hv)%list_elem_of_lookup. apply lookup_take_Some in Hv as [Hv _].
      apply Hm. by eapply list_elem_of_lookup_2.
    + intros (i & Hv)%list_elem_of_lookup. apply lookup_take_Some in Hv as [Hv Hlt].
      assert (i = k); [|lia]. by eapply NoDup_lookup.
    + intros v u (i & Hv)%list_elem_of_lookup Hu. apply lookup_take_Some in Hv as [Hv Hlt].
      eapply (upstream_before g k i); [done|lia|done|done].
    + intros u Hu. by eapply (upstream_before g k k).
  - rewrite failures_snoc. cbn [failed]. destruct (r =? OVE_OK); cbn [negb].
    + by rewrite Nat.add_0_r.
    + rewrite Nat.add_1_r. cbn [Nat.iter nat_rect count_error node_errors]. by rewrite Herr.
  - destruct (r =? OVE_OK); [done|]. by cbn.
Qed.

(** What one period does. *)
Definition period_post g t0 (r : Z) (s' : ast W) : Prop :=
  r = OVE_OK /\ graph_wf (ag s') /\ exists b x t c1 c2,
    ag s' = upd g b x /\ atr s' = t0 ++ [EClock c1] ++ t ++ [EClock c2] /\
    shape_ok g b /\ flow_ok g b (run_order g) t /\
    node_errors x = Nat.iter (failures t) (fun e => u32 (e + 1)) (node_errors (stats g)) /\
    cycles x = u32 (cycles (stats g) + 1).

Lemma process_spec s : graph_wf (ag s) -> state (ag s) <> OVE_AUDIO_GRAPH_IDLE ->
  wp ove_audio_graph_process (period_post (ag s) (atr s)) s.
Proof.
  intros Hg Hst. destruct s as [w t0 g]. cbn [ag atr] in *. unfold ove_audio_graph_process, gget.
  apply wp_bind, wp_gets. cbn [ag]. rewrite decide_False by done. apply wp_bind, wp_acall. intros c1 w1 _.
  cbn [aw atr ag]. apply wp_bind. eapply wp_mono; [by apply process_loop|].
  intros [] [w2 t2 g2] (b & x & t & Hg2 & Ht2 & Hsh & Hf & Herr & Hcyc). cbn [ag atr] in Hg2, Ht2. subst g2 t2.
  apply wp_bind, wp_gmod, wp_bind, wp_acall. intros c2 w3 _. apply wp_bind, wp_gmod, wp_ret.
  cbn [aw atr ag]. split; [done|].
  change (set_stats _ ?y) with (upd g b y). split; [by apply wf_upd|].
  eexists b, _, t, c1, c2. split; [done|]. split; [by rewrite <-!app_assoc|].
  rewrite firstn_all2 in Hf by (unfold run_order; rewrite length_take; lia). split; [done|]. split; [done|].
  split; [exact Herr|]. rewrite <-Hcyc. done.
Qed.

(** ** Start and stop *)

Definition has_op {A} (f : ove_audio_node_ops W -> option A) g (i : nat) : bool :=
  match nodes g !! i with
  | Some n => match ops n with Some o => bool_decide (is_Some (f o)) | None => false end
  | None => false
  end.

Lemma has_op_eq {A} (f : ove_audio_node_ops W -> option A) g i n o :
  nodes g !! i = Some n -> ops n = Some o -> has_op f g i = bool_decide (is_Some (f o)).
Proof. intros Hn Ho. unfold has_op. by rewrite Hn, Ho. Qed.

(** Nodes stopped, latest first. *)
Definition stopped g (l : list nat) : list aev := EStop <$> List.filter (has_op stop g) (rev l).
Definition started g (l : list nat) : list aev := (fun i => EStart i OVE_OK) <$> List.filter (has_op start g) l.

Lemma stop_loop g w t n : built g -> graph_wf g -> (n <= exec_count g)%nat ->
  wp (ofor stop_node (rev (seq 0 n)))
    (fun _ s => ag s = g /\ atr s = t ++ stopped g (take n (run_order g))) (mk_ast w t g).
Proof.
  intros Hb Hg Hn. eapply wp_mono.
  { apply (wp_ofor_rev (fun k s => ag s = g /\
      atr s ++ stopped g (take k (run_order g)) = t ++ stopped g (take n (run_order g)))); [done|].
    intros k [w1 t1 g1] Hk [Hg1 Ht]. cbn [ag atr] in Hg1, Ht. subst g1.
    destruct (run_order_lookup g k Hb ltac:(lia) Hg) as (idx & He & Hr & Hi).
    destruct (node_lookup g idx Hg Hi) as (nd & o & Hnd & Ho & _).
    unfold stop_node, gget. apply wp_bind, wp_gets. cbn [ag]. apply wp_bind, (wp_lift _ _ _ _ He).
    apply wp_bind, (wp_node_at idx nd o); [done..|]. cbn beta iota.
    unfold stopped in *. rewrite (take_S_r _ _ idx Hr), rev_unit in Ht. cbn [List.filter] in Ht.
    rewrite (has_op_eq stop g idx nd o) in Ht by done.
    destruct (stop o) as [f|].
    - rewrite bool_decide_true in Ht by done. apply wp_bind, wp_acall. intros a w' _. apply wp_ret. cbn [ag atr].
      split; [done|]. rewrite <-app_assoc. exact Ht.
    - rewrite bool_decide_false in Ht by (by intros [? [=]]). apply wp_ret. done. }
  intros [] s [Hs Ht]. split; [done|]. rewrite take_0 in Ht. unfold stopped at 1 in Ht. cbn in Ht.
  by rewrite app_nil_r in Ht.
Qed.

(** What starting does: all nodes, or a prefix that is stopped again. *)
Definition start_post g t0 (r : Z) (s' : ast W) : Prop :=
  if r =? OVE_OK
  then ag s' = set_state g OVE_AUDIO_GRAPH_RUNNING /\ atr s' = t0 ++ started g (run_order g)
  else ag s' = g /\ exists k idx, run_order g !! k = Some idx /\ has_op start g idx = true /\
    atr s' = t0 ++ started g (take k (run_order g)) ++ [EStart idx r] ++ stopped g (take k (run_order g)).

Lemma start_loop g w t0 : built g -> graph_wf g ->
  wp (until_err start_node (seq 0 (exec_count g)))
    (fun r s => if r =? OVE_OK then ag s = g /\ atr s = t0 ++ started g (take (exec_count g) (run_order g))
                else start_post g t0 r s) (mk_ast w t0 g).
Proof.
  intros Hb Hg. apply (wp_until_err_seq
    (fun k s => ag s = g /\ atr s = t0 ++ started g (take k (run_order g))) (start_post g t0)).
  { cbn. rewrite take_0, app_nil_r. done. }
  intros k [w1 t1 g1] Hk [Hg1 Ht]. cbn [ag atr] in Hg1, Ht. subst g1 t1.
  destruct (run_order_lookup g k Hb Hk Hg) as (idx & He & Hr & Hi).
  destruct (node_lookup g idx Hg Hi) as (nd & o & Hnd & Ho & _).
  unfold start_node, gget. apply wp_bind, wp_gets. cbn [ag]. apply wp_bind, (wp_lift _ _ _ _ He).
  apply wp_bind, (wp_node_at idx nd o); [done..|]. cbn beta iota.
  pose proof (has_op_eq start g idx nd o Hnd Ho) as Hop.
  assert (started g (take (S k) (run_order g)) = started g (take k (run_order g)) ++
            if has_op start g idx then [EStart idx OVE_OK] else []) as Hsnoc.
  { unfold started. rewrite (take_S_r _ _ idx Hr), List.filter_app, fmap_app. cbn [List.filter].
    by destruct (has_op start g idx). }
  destruct (start o) as [f|].
  - rewrite bool_decide_true in Hop by done. rewrite Hop in Hsnoc.
    apply wp_bind, wp_acall. intros r w' _. cbn [ag atr]. destruct (r =? OVE_OK) eqn:Hro; cbn [negb].
    + apply Z.eqb_eq in Hro as ->. apply wp_ret. cbn [ag atr Z.eqb OVE_OK].
      split; [done|]. by rewrite Hsnoc, app_assoc.
    + apply wp_bind. eapply wp_mono; [apply (stop_loop g); [done..|lia]|].
      intros [] s [Hs Htr]. apply wp_ret. rewrite Hro. unfold start_post. rewrite Hro. split; [done|].
      exists k, idx. split_and!; [done..|]. by rewrite Htr, <-!app_assoc.
  - rewrite bool_decide_false in Hop by (by intros [? [=]]). rewrite Hop, app_nil_r in Hsnoc.
    apply wp_ret. cbn [ag atr Z.eqb OVE_OK]. by rewrite Hsnoc.
Qed.

Lemma start_spec s : graph_wf (ag s) -> state (ag s) = OVE_AUDIO_GRAPH_READY ->
  wp ove_audio_graph_start (start_post (ag s) (atr s)) s.
Proof.
  intros Hg Hst. destruct s as [w t0 g]. cbn [ag atr] in *.
  assert (built g) as Hb by (apply gw_built; [done|by rewrite Hst]).
  unfold ove_audio_graph_start, gget. apply wp_bind, wp_gets. cbn [ag].
  rewrite decide_False by auto. apply wp_bind. eapply wp_mono; [by apply start_loop|].
  intros r s' Hs. cbv beta in Hs. destruct (r =? OVE_OK) eqn:Hr; cbn [negb]; [|by apply wp_ret].
  destruct Hs as [Hs Ht]. apply wp_bind, wp_gmod, wp_ret. unfold start_post. cbn [ag atr Z.eqb OVE_OK].
  rewrite firstn_all2 in Ht by (unfold run_order; rewrite length_take; lia). by rewrite Hs.
Qed.

Lemma stop_spec s : graph_wf (ag s) -> state (ag s) = OVE_AUDIO_GRAPH_RUNNING ->
  wp ove_audio_graph_stop (fun r s' => r = OVE_OK /\ ag s' = set_state (ag s) OVE_AUDIO_GRAPH_READY /\
    atr s' = atr s ++ stopped (ag s) (run_order (ag s))) s.
Proof.
  intros Hg Hst. destruct s as [w t0 g]. cbn [ag atr] in *.
  assert (built g) as Hb by (apply gw_built; [done|by rewrite Hst]).
  unfold ove_audio_graph_stop, gget. apply wp_bind, wp_gets. cbn [ag].
  rewrite decide_False by auto. apply wp_bind. eapply wp_mono; [by apply stop_loop|].
  intros [] s' [Hs Ht]. apply wp_bind, wp_gmod, wp_ret. cbn [ag atr].
  rewrite firstn_all2 in Ht by (unfold run_order; rewrite length_take; lia). by rewrite Hs.
Qed.

End period.

(** ** Every operation keeps the invariant *)

Section api.
Context {W : Type} {E : AudioEnv W}.
Hypothesis HSM : 0 <= SIZE_MAX.
Implicit Types g : ove_audio_graph W.
Implicit Types s : ast W.

Lemma heap_bal_zero t : Forall (fun e => heap_ev e = 0) t -> heap_bal t = 0.
Proof.
  unfold heap_bal. induction 1 as [|e t He _ IH]; [done|]. change (heap_ev e + sumZ (heap_ev <$> t) = 0). lia.
Qed.

Lemma heap_flow g b P t : flow_ok g b P t -> heap_bal t = 0.
Proof.
  intros Hf. apply heap_bal_zero. eapply Forall2_Forall_r; [exact Hf|].
  apply Forall_forall. intros x _ e (bs & r & -> & _). done.
Qed.

Lemma heap_stopped g l : heap_bal (stopped g l) = 0.
Proof. apply heap_bal_zero, Forall_fmap, Forall_forall. done. Qed.

Lemma heap_started g l : heap_bal (started g l) = 0.
Proof. apply heap_bal_zero, Forall_fmap, Forall_forall. done. Qed.

Lemma heap_live_upd g b x : shape_ok g b -> heap_live (upd g b x) = heap_live g.
Proof.
  unfold heap_live, shape_ok. cbn [upd set_stats set_storage buf_storage_size buf_storage].
  by destruct b, (buf_storage g).
Qed.

Lemma process_safe s : ast_wf s -> wp ove_audio_graph_process (fun _ s' => ast_wf s') s.
Proof.
  intros [Hg Hh]. destruct (decide (state (ag s) = OVE_AUDIO_GRAPH_IDLE)) as [Hst|Hst].
  { unfold ove_audio_graph_process, gget. apply wp_bind, wp_gets. rewrite decide_True by done. by apply wp_ret. }
  eapply wp_mono; [by apply process_spec|].
  intros r s' (_ & Hg' & b & x & t & c1 & c2 & Hs & Ht & Hsh & Hf & _). split; [done|].
  rewrite Ht, !heap_bal_app, (heap_flow _ _ _ _ Hf), Hh. rewrite Hs.
  rewrite (heap_live_upd _ _ _ Hsh). unfold heap_bal. simpl. lia.
Qed.

Lemma start_safe s : ast_wf s -> wp ove_audio_graph_start (fun _ s' => ast_wf s') s.
Proof.
  intros [Hg Hh]. destruct (decide (state (ag s) = OVE_AUDIO_GRAPH_READY)) as [Hst|Hst].
  2:{ unfold ove_audio_graph_start, gget. apply wp_bind, wp_gets. rewrite decide_True by done. by apply wp_ret. }
  eapply wp_mono; [by apply start_spec|]. intros r s'. unfold start_post. destruct (r =? OVE_OK).
  - intros [Hs Ht]. split; [rewrite Hs; apply wf_set_state; [done|by rewrite Hst|done]|].
    rewrite Ht, heap_bal_app, heap_started, Hs, Hh. change (heap_live (set_state _ _)) with (heap_live (ag s)). lia.
  - intros (Hs & k & idx & _ & _ & Ht). split; [by rewrite Hs|].
    rewrite Ht, !heap_bal_app, heap_started, heap_stopped, Hs, Hh. unfold heap_bal. simpl. lia.
Qed.

Lemma stop_safe s : ast_wf s -> wp ove_audio_graph_stop (fun _ s' => ast_wf s' /\ node_count (ag s') = node_count (ag s)) s.
Proof.
  intros [Hg Hh]. destruct (decide (state (ag s) = OVE_AUDIO_GRAPH_RUNNING)) as [Hst|Hst].
  2:{ unfold ove_audio_graph_stop, gget. apply wp_bind, wp_gets. rewrite decide_True by done. by apply wp_ret. }
  eapply wp_mono; [by apply stop_spec|]. intros r s' (_ & Hs & Ht). split; [|by rewrite Hs].
  split; [rewrite Hs; apply wf_set_state; [done|by rewrite Hst|done]|].
  rewrite Ht, heap_bal_app, heap_stopped, Hs, Hh. change (heap_live (set_state _ _)) with (heap_live (ag s)). lia.
Qed.

Lemma destroy_loop s n : graph_wf (ag s) -> (n <= node_count (ag s))%nat ->
  wp (ofor destroy_node (seq 0 n)) (fun _ s' => ag s' = ag s /\ heap_bal (atr s') = heap_bal (atr s)) s.
Proof.
  intros Hg Hn. apply (wp_ofor_seq (fun _ s' => ag s' = ag s /\ heap_bal (atr s') = heap_bal (atr s))); [done|].
  intros k [w t g] Hk [Hs Ht]. cbn [ag atr] in Hs, Ht. subst g.
  destruct (node_lookup (ag s) k Hg) as (nd & o & Hnd & Ho & _); [lia|].
  unfold destroy_node, gget. apply wp_bind, wp_gets. cbn [ag]. apply wp_bind, (wp_lift _ _ _ _ Hnd).
  rewrite Ho. destruct (destroy o) as [f|]; [|by apply wp_ret].
  apply wp_acall. intros [] w' _. cbn [ag atr]. by rewrite heap_bal_snoc.
Qed.

Lemma deinit_spec s : ast_wf s -> wp ove_audio_graph_deinit
  (fun _ s' => ag s' = zero_graph 0 /\ heap_bal (atr s') = 0) s.
Proof.
  intros Hs. unfold ove_audio_graph_deinit, gget. apply wp_bind, wp_gets, wp_bind.
  assert (wp (if decide (state (ag s) = OVE_AUDIO_GRAPH_RUNNING) then ove_audio_graph_stop;; mret tt else mret tt)
            (fun _ s' => ast_wf s' /\ node_count (ag s') = node_count (ag s)) s) as Hstop.
  { case_decide; [|by apply wp_ret]. apply wp_bind. eapply wp_mono; [by apply stop_safe|].
    intros r s' Hs'. by apply wp_ret. }
  eapply wp_mono; [exact Hstop|]. intros [] s1 [[Hg1 Hh1] Hc]. apply wp_bind.
  eapply wp_mono; [apply destroy_loop; [done|lia]|]. intros [] s2 [Hs2 Ht2]. apply wp_bind, wp_gets, wp_bind.
  rewrite <-Ht2 in Hh1. rewrite <-Hs2 in Hh1. unfold heap_live in Hh1.
  destruct ((buf_storage_size (ag s2) =? 0) && bool_decide (is_Some (buf_storage (ag s2)))).
  - apply wp_acall. intros [] w _. apply wp_gmod. cbn [ag atr]. split; [done|].
    rewrite heap_bal_app, Hh1. done.
  - apply wp_ret, wp_gmod. done.
Qed.

End api.

(** ** Building *)

Section build.
Context {W : Type} {E : AudioEnv W}.
Hypothesis HSM : 0 <= SIZE_MAX.
Implicit Types g : ove_audio_graph W.
Implicit Types s : ast W.

(** Sorted but not yet built. *)
Record sorted g : Prop := {
  sd_idle : state g = OVE_AUDIO_GRAPH_IDLE;
  sd_count : exec_count g = node_count g;
  sd_topo : topo_order (live_edges g) (node_count g) (run_order g) }.
Definition sorted_like g0 s : Prop :=
  ast_wf s /\ sorted (ag s) /\ node_count (ag s) = node_count g0 /\ edge_count (ag s) = edge_count g0.
Definition idle_wf s : Prop := ast_wf s /\ state (ag s) = OVE_AUDIO_GRAPH_IDLE.

Lemma sorted_like_idle g0 s : sorted_like g0 s -> idle_wf s.
Proof. intros (? & [] & _). done. Qed.

Lemma configure_safe g0 k s : sorted_like g0 s -> (k < node_count g0)%nat ->
  wp (configure_node k) (fun _ s' => sorted_like g0 s') s.
Proof.
  intros ([Hg Hh] & [Hi Hc Ht] & Hn & He) Hk. destruct s as [w t g]. cbn [ag atr] in *.
  destruct (lookup_lt_is_Some_2 (exec_order g) k) as [idx Hidx].
  { rewrite (so_exec g (gw_sort g Hg)). pose proof (so_n g (gw_sort g Hg)). lia. }
  assert (idx < node_count g)%nat as Hlt.
  { apply Ht. unfold run_order. apply (list_elem_of_lookup_2 _ k). rewrite lookup_take_lt by lia. done. }
  destruct (node_lookup g idx Hg Hlt) as (n & o & Hnd & Ho & Hoo).
  unfold configure_node, gget. apply wp_bind, wp_gets. cbn [ag]. apply wp_bind, (wp_lift _ _ _ _ Hidx).
  apply wp_bind, (wp_node_at idx n o); [done..|]. cbn beta iota. apply wp_bind.
  assert (forall (Q : option ove_audio_fmt -> ast W -> Prop) s,
    (forall f, (forall x, f = Some x -> fmt_word x) -> Q f s) ->
    wp (if decide (type n <> OVE_AUDIO_NODE_SOURCE) then
          match find_upstream g idx with
          | Some u => nu ← olift (nodes g !! u); mret (Some (out_fmt nu))
          | None => mret None
          end
        else mret None) Q s) as Hin.
  { intros Q s HQ. case_decide; [|by apply wp_ret, HQ].
    destruct (find_upstream g idx) as [u|] eqn:Hu; [|by apply wp_ret, HQ].
    destruct (upstream_node g Hg idx u Hu) as (_ & nu & Hnu & _).
    apply wp_bind, (wp_lift _ _ _ _ Hnu), wp_ret, HQ. intros x [= <-].
    exact (Forall_lookup_1 _ _ _ _ (gw_fmt g Hg) Hnu). }
  apply Hin. intros inf Hinf. apply wp_bind, wp_acall. intros [r f] w' Hcall. cbn beta iota.
  apply wp_bind. cbn [aw atr ag].
  assert (heap_bal (t ++ [EConfigure idx inf r]) = heap_live g) as Hh' by (by rewrite heap_bal_snoc).
  case_decide; [|by apply wp_ret, wp_ret].
  apply wp_gmod, wp_ret. split; [|done]. split; [|done]. cbn [ag]. apply wf_set_fmt; [done..|].
  cbn [aw] in Hcall. pose proof (oo_fmt o Hoo (ctx n) inf (Some (out_fmt n)) w Hinf) as Hf.
  by rewrite Hcall in Hf.
Qed.

Lemma check_format_safe g0 k s : sorted_like g0 s -> (k < node_count g0)%nat ->
  wp (check_format k) (fun _ s' => sorted_like g0 s') s.
Proof.
  intros Hs Hk. pose proof Hs as ([Hg _] & _ & Hn & _). destruct (node_lookup (ag s) k Hg) as (n & o & Hnd & _); [lia|].
  unfold check_format, gget. apply wp_bind, wp_gets, wp_bind, (wp_lift _ _ _ _ Hnd).
  repeat case_match; by apply wp_ret.
Qed.

Lemma check_rate_safe g0 k s : sorted_like g0 s -> (k < edge_count g0)%nat ->
  wp (check_rate k) (fun _ s' => sorted_like g0 s') s.
Proof.
  intros Hs Hk. pose proof Hs as ([Hg _] & _ & _ & He).
  destruct (lookup_lt_is_Some_2 (edges (ag s)) k) as [e Hek].
  { rewrite (so_edges _ (gw_sort _ Hg)). pose proof (gw_ec _ Hg). lia. }
  assert (e ∈ live_edges (ag s)) as Hin.
  { apply (list_elem_of_lookup_2 _ k). unfold live_edges. rewrite lookup_take_lt; [done|lia]. }
  destruct (so_live _ (gw_sort _ Hg) e Hin) as [Hf Ht].
  destruct (node_lookup (ag s) _ Hg Hf) as (nf & _ & Hnf & _), (node_lookup (ag s) _ Hg Ht) as (nt & _ & Hnt & _).
  unfold check_rate, gget. apply wp_bind, wp_gets, wp_bind, (wp_lift _ _ _ _ Hek).
  apply wp_bind, (wp_lift _ _ _ _ Hnf), wp_bind, (wp_lift _ _ _ _ Hnt).
  repeat case_match; by apply wp_ret.
Qed.

(** A checking loop keeps the graph sorted. *)
Lemma sorted_loop g0 f n s :
  sorted_like g0 s -> (forall k s, (k < n)%nat -> sorted_like g0 s -> wp (f k) (fun _ s' => sorted_like g0 s') s) ->
  wp (until_err f (seq 0 n)) (fun _ s' => sorted_like g0 s') s.
Proof.
  intros Hs Hf. eapply wp_mono.
  - apply (wp_until_err_seq (fun _ => sorted_like g0) (fun _ => sorted_like g0)); [done|].
    intros k s' Hk Hs'. eapply wp_mono; [by apply Hf|]. intros r s2 H2. by destruct (r =? OVE_OK).
  - intros r s' H. cbv beta in H. by destruct (r =? OVE_OK).
Qed.

(** The block chosen by [build]. *)
Definition got_storage g total s' : Prop :=
  exists b, ag s' = set_storage g b (buf_storage_size g) /\
    (0 < buf_storage_size g -> exists st, b = Some st /\ Z.of_nat (length st) = buf_storage_size g) /\
    total <= Z.of_nat (length (default [] b)) /\ heap_bal (atr s') = heap_live (ag s').

Lemma get_storage_spec s total : idle_wf s ->
  wp (get_storage total) (fun r s' => if r =? OVE_OK then got_storage (ag s) total s' else idle_wf s') s.
Proof.
  intros [[Hg Hh] Hi]. destruct s as [w t g]. cbn [ag atr] in *. unfold get_storage, gget.
  apply wp_bind, wp_gets. cbn [ag]. destruct (0 <? total) eqn:Ht.
  2:{ apply Z.ltb_ge in Ht. apply wp_ret. exists (buf_storage g). cbn [ag atr].
      split_and!; [by destruct g|apply (gw_store g Hg)|lia|done]. }
  apply Z.ltb_lt in Ht. destruct (0 <? buf_storage_size g) eqn:Hsz.
  - apply Z.ltb_lt in Hsz. destruct (buf_storage_size g <? total) eqn:Hlt; [by apply wp_ret|].
    apply Z.ltb_ge in Hlt. destruct (gw_store g Hg Hsz) as (st & Hst & Hl).
    apply wp_bind, (wp_lift _ _ _ _ Hst), wp_bind, wp_gmod, wp_ret. cbn [ag atr aw].
    eexists. split; [reflexivity|]. cbn [from_option id]. split_and!; [intros _; eexists; split; [done|]| |].
    + rewrite length_app, length_replicate, length_drop. lia.
    + rewrite length_app, length_replicate, length_drop. lia.
    + cbn [atr ag]. rewrite Hh. unfold heap_live. cbn [set_storage buf_storage_size buf_storage].
      by rewrite (proj2 (Z.eqb_neq _ _)) by lia.
  - apply Z.ltb_ge in Hsz. assert (buf_storage_size g = 0) as Hsz0 by (pose proof (gw_size g Hg); lia).
    pose proof (gw_idle g Hg Hi Hsz0) as Hnone.
    apply wp_bind, wp_acall. intros ok w' _. cbn [aw atr ag]. destruct ok.
    + apply wp_bind, wp_gmod, wp_ret. cbn [ag atr aw]. eexists. split; [reflexivity|]. cbn [from_option id].
      rewrite length_replicate. split_and!; [lia|lia|]. cbn [atr ag]. rewrite heap_bal_app, Hh. unfold heap_live.
      cbn [set_storage buf_storage_size buf_storage]. by rewrite Hsz0, Hnone.
    + apply wp_ret. split; [|done]. split; [done|]. cbn [ag atr]. by rewrite heap_bal_snoc.
Qed.

Lemma set_buffers_loop g w t offs : length (nodes g) = OVE_AUDIO_GRAPH_MAX_NODES ->
  length (buffers g) = OVE_AUDIO_GRAPH_MAX_NODES -> (node_count g <= OVE_AUDIO_GRAPH_MAX_NODES)%nat ->
  (forall i, (i < node_count g)%nat -> offs !! i = Some (offset g i)) ->
  wp (ofor (set_buffer offs) (seq 0 (node_count g)))
    (fun _ s' => exists l, s' = mk_ast w t (set_buffers g l) /\ length l = OVE_AUDIO_GRAPH_MAX_NODES /\
       forall i n, (i < node_count g)%nat -> nodes g !! i = Some n -> l !! i = Some (make_buffer g (offset g i) i n))
    (mk_ast w t g).
Proof.
  intros Hn Hb Hc Ho. apply (wp_ofor_seq (fun k s' => exists l, s' = mk_ast w t (set_buffers g l) /\
    length l = OVE_AUDIO_GRAPH_MAX_NODES /\
    forall i n, (i < k)%nat -> nodes g !! i = Some n -> l !! i = Some (make_buffer g (offset g i) i n))).
  { exists (buffers g). split_and!; [by destruct g|done|]. intros i n Hi. lia. }
  intros k s' Hk (l & -> & Hl & Hlk). destruct (lookup_lt_is_Some_2 (nodes g) k) as [n Hnk]; [lia|].
  unfold set_buffer, gget. apply wp_bind, wp_gets. cbn [ag].
  apply wp_bind, (wp_lift _ n); [done|]. apply wp_bind, (wp_lift _ _ _ _ (Ho k Hk)).
  apply wp_bind. eapply wp_lift; [apply ostore_Some; cbn; lia|]. apply wp_gmod. cbn [aw atr ag].
  eexists. split; [reflexivity|]. cbn [set_buffers buffers]. split; [by rewrite length_aset|].
  intros i m Hi Him. unfold aset. destruct (decide (i = k)) as [->|Hne].
  - rewrite list_lookup_insert_eq by lia. simplify_eq. done.
  - rewrite list_lookup_insert_ne by done. apply Hlk; [lia|done].
Qed.

Lemma wf_ready g b l : graph_wf g -> sorted g ->
  (0 < buf_storage_size g -> exists st, b = Some st /\ Z.of_nat (length st) = buf_storage_size g) ->
  sumZ (sizes g) <= Z.of_nat (length (default [] b)) -> length l = OVE_AUDIO_GRAPH_MAX_NODES ->
  (forall i n, (i < node_count g)%nat -> nodes g !! i = Some n ->
     l !! i = Some (make_buffer (set_storage g b (buf_storage_size g)) (offset g i) i n)) ->
  graph_wf (set_state (set_buffers (set_storage g b (buf_storage_size g)) l) OVE_AUDIO_GRAPH_READY).
Proof.
  intros [[] ? ? ? ? ? ? ? ? ? Hst Hidle Hb] [Hi Hc Ht] Hb' Hsum Hl Hlk. split; try done.
Qed.

Lemma topo_sort_sorted g : graph_wf g -> state g = OVE_AUDIO_GRAPH_IDLE ->
  exists r g', topo_sort g = Some (r, g') /\ graph_wf g' /\ state g' = OVE_AUDIO_GRAPH_IDLE /\
    heap_live g' = heap_live g /\ (r = OVE_OK -> sorted g').
Proof.
  intros Hg Hi. destruct (topo_sort_spec g (gw_sort g Hg)) as (order & Q & -> & Hlo & Htk & HN & Ho & Hz).
  eexists _, _. split; [reflexivity|]. split_and!; [by apply wf_set_exec|done|done|].
  destruct (length Q =? node_count g)%nat eqn:Hl; [|done]. intros _. apply Nat.eqb_eq in Hl.
  split; [done|done|]. change (run_order (set_exec g order (length Q))) with (take (length Q) order). rewrite Htk.
  split_and!; [done| |done]. intros v. split; [intros Hv; by apply Hz|]. intros Hv.
  apply (NoDup_full Q (node_count g)); [done| |done|done]. intros x Hx. by apply Hz.
Qed.

Lemma build_safe s : ast_wf s -> wp ove_audio_graph_build (fun r s' => ast_wf s' /\
  (state (ag s) = OVE_AUDIO_GRAPH_IDLE ->
   state (ag s') = if r =? OVE_OK then OVE_AUDIO_GRAPH_READY else OVE_AUDIO_GRAPH_IDLE)) s.
Proof.
  intros [Hg Hh]. unfold ove_audio_graph_build, gget. apply wp_bind, wp_gets.
  destruct (decide (state (ag s) <> OVE_AUDIO_GRAPH_IDLE)) as [Hst|Hst]; [by apply wp_ret|].
  assert (state (ag s) = OVE_AUDIO_GRAPH_IDLE) as Hi by (destruct (decide (state (ag s) = OVE_AUDIO_GRAPH_IDLE)); tauto).
  destruct (topo_sort_sorted (ag s) Hg Hi) as (r0 & g0 & Hts & Hg0 & Hi0 & Hh0 & Hsd).
  assert (forall r s', (r =? OVE_OK) = false -> idle_wf s' -> ast_wf s' /\ (state (ag s) = OVE_AUDIO_GRAPH_IDLE ->
    state (ag s') = if r =? OVE_OK then OVE_AUDIO_GRAPH_READY else OVE_AUDIO_GRAPH_IDLE)) as Hfail.
  { intros r s' -> [Hs' Hi']. done. }
  apply wp_bind, (wp_lift _ _ _ _ Hts). cbn beta iota. apply wp_bind, wp_gmod.
  destruct (r0 =? OVE_OK) eqn:Hr0; cbn [negb].
  2:{ apply wp_ret, Hfail; [done|]. split; [split; [done|]|done]. cbn [ag atr]. by rewrite Hh0. }
  apply Z.eqb_eq in Hr0. specialize (Hsd Hr0).
  assert (sorted_like g0 (mk_ast (aw s) (atr s) g0)) as Hs0.
  { split; [|done]. split; [done|]. cbn [ag atr]. by rewrite Hh0. }
  apply wp_bind. eapply wp_mono.
  { apply (sorted_loop g0); [exact Hs0|]. rewrite (sd_count g0 Hsd). intros; by apply configure_safe. }
  intros r1 s1 Hs1. destruct (r1 =? OVE_OK) eqn:Hr1; cbn [negb]; [|by apply wp_ret, Hfail, (sorted_like_idle g0)].
  apply wp_bind. eapply wp_mono; [apply (sorted_loop g0); [exact Hs1|]; intros; by apply check_format_safe|].
  intros r2 s2 Hs2. destruct (r2 =? OVE_OK) eqn:Hr2; cbn [negb]; [|by apply wp_ret, Hfail, (sorted_like_idle g0)].
  apply wp_bind. eapply wp_mono; [apply (sorted_loop g0); [exact Hs2|]; intros; by apply check_rate_safe|].
  intros r3 s3 Hs3. destruct (r3 =? OVE_OK) eqn:Hr3; cbn [negb]; [|by apply wp_ret, Hfail, (sorted_like_idle g0)].
  apply wp_bind, wp_gets. pose proof (sorted_like_idle _ _ Hs3) as Hi3. destruct Hs3 as ([Hg3 Hh3] & Hsd3 & _).
  destruct (layout _ _ _) as [[offs total]|] eqn:Hlay; [|apply wp_ret, Hfail; done].
  destruct (layout_spec _ _ _ _ _ (gw_frames _ Hg3) (Forall_take _ _ _ (gw_fmt _ Hg3)) (conj (Z.le_refl 0) HSM) Hlay) as (-> & _ & Hoffs). rewrite Z.add_0_l in *.
  change (size_of _ <$> _) with (sizes (ag s3)) in *.
  apply wp_bind. eapply wp_mono; [by apply get_storage_spec|].
  intros r4 [w4 t4 g4] Hs4. cbv beta in Hs4. destruct (r4 =? OVE_OK) eqn:Hr4; cbn [negb]; [|by apply wp_ret, Hfail].
  destruct Hs4 as (b & Hg4 & Hbst & Hfit & Hh4). cbn [ag atr] in Hg4, Hh4. subst g4.
  apply wp_bind. pose proof (so_n _ (gw_sort _ Hg3)) as Hn3. eapply wp_mono.
  { apply (set_buffers_loop (set_storage (ag s3) b (buf_storage_size (ag s3)))).
    - apply (gw_nodes _ Hg3).
    - apply (gw_bufs _ Hg3).
    - done.
    - intros i Hlt. cbn [set_storage node_count] in Hlt. rewrite Hoffs; [done|].
      rewrite length_take, (gw_nodes _ Hg3). lia. }
  intros [] s5 (l & -> & Hl & Hlk). apply wp_bind, wp_gmod, wp_ret. cbn [aw atr ag]. split; [|done].
  split; [|done]. by apply wf_ready.
Qed.

End build.

(** ** Any sequence of calls *)

Section calls.
Context {W : Type} {E : AudioEnv W}.
Implicit Types g : ove_audio_graph W.
Implicit Types s : ast W.

Lemma live_snoc g e : graph_wf g -> (edge_count g < OVE_AUDIO_GRAPH_MAX_EDGES)%nat ->
  live_edges (set_edges g (aset (edges g) (edge_count g) e) (S (edge_count g))) = live_edges g ++ [e].
Proof. intros Hg Hc. unfold live_edges. cbn. apply take_aset_snoc. by rewrite (so_edges g (gw_sort g Hg)). Qed.

Lemma connect_wf g f t nf nt : graph_wf g -> state g = OVE_AUDIO_GRAPH_IDLE ->
  (f < node_count g)%nat -> (t < node_count g)%nat -> f <> t ->
  (edge_count g < OVE_AUDIO_GRAPH_MAX_EDGES)%nat ->
  nodes g !! f = Some nf -> type nf <> OVE_AUDIO_NODE_SINK ->
  nodes g !! t = Some nt -> type nt <> OVE_AUDIO_NODE_SOURCE ->
  t ∉ to <$> live_edges g ->
  graph_wf (set_edges g (aset (edges g) (edge_count g) (mk_edge f t)) (S (edge_count g))).
Proof.
  intros Hg Hi Hf Ht Hne Hc Hnf Htf Hnt Htt Hfan. pose proof (live_snoc g (mk_edge f t) Hg Hc) as Hlive.
  destruct Hg as [[? ? Hel Hso] ? ? ? ? ? Hedge Hfi ? ? ? ? Hb].
  split; rewrite ?Hlive; try done.
  - split; rewrite ?Hlive; try done.
    + cbn. by rewrite length_aset.
    + intros e [He| ->%list_elem_of_singleton]%elem_of_app; [by apply Hso|done].
  - intros e [He| ->%list_elem_of_singleton]%elem_of_app; [by apply Hedge|]. cbn [from to nodes set_edges].
    split_and!; [done| |]; intros x Hx; simplify_eq; done.
  - rewrite fmap_app. apply NoDup_app. split_and!; [done| |apply NoDup_singleton].
    intros x Hx ->%list_elem_of_singleton. done.
Qed.

Lemma connect_safe f t s : ast_wf s -> wp (ove_audio_graph_connect f t) (fun _ s' => ast_wf s') s.
Proof.
  intros [Hg Hh]. unfold ove_audio_graph_connect, gget. apply wp_bind, wp_gets.
  destruct (decide (state (ag s) <> OVE_AUDIO_GRAPH_IDLE)) as [|Hst]; [by apply wp_ret|].
  assert (state (ag s) = OVE_AUDIO_GRAPH_IDLE) as Hi by (destruct (decide (state (ag s) = OVE_AUDIO_GRAPH_IDLE)); tauto).
  destruct ((node_count (ag s) <=? f)%nat || (node_count (ag s) <=? t)%nat || (f =? t)%nat) eqn:Hb; [by apply wp_ret|].
  apply orb_false_iff in Hb as [[Hf Ht]%orb_false_iff Hne].
  apply Nat.leb_gt in Hf, Ht. apply Nat.eqb_neq in Hne.
  destruct (OVE_AUDIO_GRAPH_MAX_EDGES <=? edge_count (ag s))%nat eqn:Hc; [by apply wp_ret|]. apply Nat.leb_gt in Hc.
  destruct (node_lookup _ f Hg Hf) as (nf & _ & Hnf & _), (node_lookup _ t Hg Ht) as (nt & _ & Hnt & _).
  apply wp_bind, (wp_lift _ _ _ _ Hnf). destruct (decide (type nf = _)); [by apply wp_ret|].
  apply wp_bind, (wp_lift _ _ _ _ Hnt). destruct (decide (type nt = _)); [by apply wp_ret|].
  destruct (existsb _ _) eqn:Hex; [by apply wp_ret|].
  apply wp_bind. eapply wp_lift; [apply ostore_Some; by rewrite (so_edges _ (gw_sort _ Hg))|].
  apply wp_bind, wp_gmod, wp_ret. split; [|done]. cbn [ag]. eapply connect_wf; try done.
  intros (e & -> & He)%list_elem_of_fmap. apply not_true_iff_false in Hex. apply Hex, existsb_exists.
  exists e. split; [by apply list_elem_of_In|]. apply Nat.eqb_refl.
Qed.

Lemma add_wf g x o : graph_wf g -> state g = OVE_AUDIO_GRAPH_IDLE ->
  (node_count g < OVE_AUDIO_GRAPH_MAX_NODES)%nat -> ops x = Some o -> ops_ok o -> fmt_word (out_fmt x) ->
  graph_wf (set_nodes g (aset (nodes g) (node_count g) x) (S (node_count g))).
Proof.
  intros [[? ? ? Hso] Hl ? ? Hops Hfmt Hedge ? ? ? ? ? Hb] Hi Hc Ho Hoo Hf. split; try done.
  - split; try done. intros e He. destruct (Hso e He). cbn [set_nodes node_count]. lia.
  - cbn. by rewrite length_aset.
  - cbn [set_nodes node_count nodes]. intros i n Hi'. unfold aset. rewrite list_lookup_insert_Some.
    intros [(<- & <- & _)|[Hne Hn]]; [by exists o|]. apply (Hops i n); [lia|done].
  - by apply Forall_aset.
  - intros e He. destruct (Hso e He), (Hedge e He) as (? & Hfr & Hto). cbn [set_nodes nodes]. unfold aset.
    rewrite !list_lookup_insert_ne by lia. done.
Qed.

Lemma add_safe o c nm ty s : ast_wf s -> (forall o', o = Some o' -> ops_ok o') ->
  wp (ove_audio_graph_add_node o c nm ty) (fun _ s' => ast_wf s') s.
Proof.
  intros [Hg Hh] Hoo. unfold ove_audio_graph_add_node, gget. destruct o as [o|]; [|by apply wp_ret].
  destruct nm as [nm|]; [|by apply wp_ret]. apply wp_bind, wp_gets.
  destruct (decide (state (ag s) <> OVE_AUDIO_GRAPH_IDLE)) as [|Hst]; [by apply wp_ret|].
  assert (state (ag s) = OVE_AUDIO_GRAPH_IDLE) as Hi by (destruct (decide (state (ag s) = OVE_AUDIO_GRAPH_IDLE)); tauto).
  destruct (OVE_AUDIO_GRAPH_MAX_NODES <=? node_count (ag s))%nat eqn:Hc; [by apply wp_ret|]. apply Nat.leb_gt in Hc.
  cbv zeta. apply wp_bind. eapply wp_lift; [apply ostore_Some; by rewrite (gw_nodes _ Hg)|].
  apply wp_bind, wp_gmod, wp_ret. split; [|done]. cbn [ag].
  eapply add_wf; [done..|by apply Hoo|]. unfold fmt_word, is_word. cbn. lia.
Qed.

Lemma storage_safe b size s : ast_wf s -> (forall st, b = Some st -> Z.of_nat (length st) = size) ->
  wp (ove_audio_graph_set_buf_storage b size) (fun _ s' => ast_wf s') s.
Proof.
  intros [Hg Hh] Hb. unfold ove_audio_graph_set_buf_storage, gget. destruct b as [st|]; [|by apply wp_ret].
  specialize (Hb st eq_refl). destruct (size =? 0) eqn:Hz; [by apply wp_ret|]. apply Z.eqb_neq in Hz.
  apply wp_bind, wp_gets.
  destruct (decide (state (ag s) <> OVE_AUDIO_GRAPH_IDLE)) as [|Hst]; [by apply wp_ret|].
  assert (state (ag s) = OVE_AUDIO_GRAPH_IDLE) as Hi by (destruct (decide (state (ag s) = OVE_AUDIO_GRAPH_IDLE)); tauto).
  apply wp_bind, wp_gmod, wp_ret. cbn [ag]. split; cbn [ag atr].
  - destruct Hg as [[] ? ? ? ? ? ? ? ? ? ? Hidle ?]. split; try done.
    + cbn. lia.
    + intros _. by exists st.
  - rewrite Hh. unfold heap_live. cbn [set_storage buf_storage_size buf_storage].
    rewrite (proj2 (Z.eqb_neq _ _) Hz). destruct (buf_storage_size (ag s) =? 0) eqn:H0; [|done].
    apply Z.eqb_eq in H0. by rewrite (gw_idle _ Hg Hi H0).
Qed.

(** The calls of a client; a graph is initialised again only after it was
    deinitialised. *)
Inductive audio_call :=
  | CAdd (o : option (ove_audio_node_ops W)) (c : Z) (nm : option (list Z)) (ty : ove_audio_node_type)
  | CConnect (f t : nat)
  | CStorage (b : option (list Z)) (size : Z)
  | CBuild | CProcess | CStart | CStop
  | CReinit (n : Z).

Definition audio_call_run (c : audio_call) : MO (ast W) Z :=
  match c with
  | CAdd o c nm ty => ove_audio_graph_add_node o c nm ty
  | CConnect f t => ove_audio_graph_connect f t
  | CStorage b size => ove_audio_graph_set_buf_storage b size
  | CBuild => ove_audio_graph_build
  | CProcess => ove_audio_graph_process
  | CStart => ove_audio_graph_start
  | CStop => ove_audio_graph_stop
  | CReinit n => ove_audio_graph_deinit;; ove_audio_graph_init n
  end.

(** What the caller owes: vtables that keep their contract, a block of the
    size it announces, and fewer than [2^30] frames a period. *)
Definition call_ok (c : audio_call) : Prop :=
  match c with
  | CAdd (Some o) _ _ _ => ops_ok o
  | CStorage (Some st) size => Z.of_nat (length st) = size
  | CReinit n => 0 <= n < 2 ^ 30
  | _ => True
  end.

Lemma init_safe n s : ast_wf s -> heap_bal (atr s) = 0 -> 0 <= n < 2 ^ 30 ->
  wp (ove_audio_graph_init n) (fun _ s' => ast_wf s') s.
Proof.
  intros Hs Hh Hn. unfold ove_audio_graph_init. destruct (n =? 0); [by apply wp_ret|].
  apply wp_bind, wp_gmod, wp_ret. split; [by apply wf_zero|done].
Qed.

Lemma call_safe c s : 0 <= SIZE_MAX -> ast_wf s -> call_ok c -> wp (audio_call_run c) (fun _ s' => ast_wf s') s.
Proof.
  intros HSM Hs Hc. destruct c as [o c nm ty|f t|b size| | | | |n]; cbn [audio_call_run].
  - apply add_safe; [done|]. by intros o' ->.
  - by apply connect_safe.
  - apply storage_safe; [done|]. by intros st ->.
  - eapply wp_mono; [by apply build_safe|]. by intros r s' [? _].
  - by apply process_safe.
  - by apply start_safe.
  - eapply wp_mono; [by apply stop_safe|]. by intros r s' [? _].
  - apply wp_bind. eapply wp_mono; [by apply deinit_spec|]. intros [] s' [Hg' Hh'].
    apply init_safe; [|done..]. split; [rewrite Hg'; by apply wf_zero|]. by rewrite Hh', Hg'.
Qed.

Lemma calls_safe cs s : 0 <= SIZE_MAX -> Forall call_ok cs -> ast_wf s ->
  wp (ofor (fun c => audio_call_run c;; mret tt) cs) (fun _ s' => ast_wf s') s.
Proof.
  intros HSM Hcs. revert s. induction Hcs as [|c cs Hc _ IH]; intros s Hs; cbn [ofor]; [by apply wp_ret|].
  apply wp_bind, wp_bind. eapply wp_mono; [by apply call_safe|]. intros r s' Hs'. apply wp_ret. by apply IH.
Qed.



(** Starting is all or nothing: on success every node with a start
    callback was started once, in execution order, and the graph runs; when
    a node refuses, the nodes before it are stopped in reverse order, the
    refusing node's error is returned and the graph is left unchanged. *)
Theorem audio_start_rollback s :
  graph_wf (ag s) -> state (ag s) = OVE_AUDIO_GRAPH_READY ->
  wp ove_audio_graph_start (start_post (ag s) (atr s)) s.
Proof. apply start_spec. Qed.

End calls.

(** ** A concrete graph *)

Module AudioDemo.

(** The world is a clock; memory is 1000 bytes of [size_t]. *)
Definition tick (w : Z) : Z * Z := (w, w + 7).
Global Instance demo_env : AudioEnv Z :=
  {| SIZE_MAX := 65535; calloc := fun n w => (n <? 1000, w); time_us := tick |}.

Definition mono : ove_audio_fmt := mk_fmt 48000 1 OVE_AUDIO_FMT_S16.

(** A source of the byte [c], a node that adds [c] to every byte (failing
    at the time 99), and a sink whose start returns [c]. *)
Definition source : ove_audio_node_ops Z :=
  mk_ops (fun _ _ _ w => (OVE_OK, mono, w)) None None
    (fun c _ o w => (OVE_OK, match o with Some v => replicate (length (v_bytes v)) c | None => [] end, w)) None.
Definition adder : ove_audio_node_ops Z :=
  mk_ops (fun _ _ _ w => (OVE_OK, mono, w)) (Some (fun _ w => (OVE_OK, w))) (Some (fun _ w => (OVE_OK, w)))
    (fun c i o w => (if w =? 99 then OVE_ERR_TIMEOUT else OVE_OK,
       match o with
       | Some v => let b := match i with Some u => v_bytes u | None => [] end in
                   (fun k => aget 0 b k + c) <$> seq 0 (length (v_bytes v))
       | None => []
       end, w)) None.
Definition sink : ove_audio_node_ops Z :=
  mk_ops (fun _ _ _ w => (OVE_OK, mono, w)) (Some (fun c w => (c, w))) None
    (fun _ _ o w => (OVE_OK, match o with Some v => v_bytes v | None => [] end, w)) (Some (fun _ w => (tt, w))).

Lemma demo_ops : ops_ok source /\ ops_ok adder /\ ops_ok sink.
Proof.
  assert (fmt_word mono) as Hm by (unfold fmt_word, is_word; cbn; lia).
  split_and!; split; try done; intros c i v w Hl; cbn -[length fmap seq replicate].
  - apply length_replicate.
  - by rewrite length_fmap, length_seq.
Qed.

(** Sink 0, adder 1, source 2, wired backwards; [c] is the sink's answer to
    start. *)
Definition wire (c : Z) : list audio_call :=
  [CAdd (Some sink) c (Some (str "out")) OVE_AUDIO_NODE_SINK;
   CAdd (Some adder) 3 (Some (str "add")) OVE_AUDIO_NODE_PROCESSOR;
   CAdd (Some source) 5 (Some (str "in")) OVE_AUDIO_NODE_SOURCE;
   CConnect 1 0; CConnect 2 1].
Definition fresh_graph : ast Z := mk_ast 0 [] (zero_graph 4).
Definition after (cs : list audio_call) : ast Z :=
  match ofor (fun c => audio_call_run c;; mret tt) cs fresh_graph with Some (_, s) => s | None => fresh_graph end.
Definition ready (c : Z) : ast Z := after (wire c ++ [CBuild]).

Example ready_order : run_order (ag (ready 0)) = [2; 1; 0]%nat /\ buf_storage (ag (ready 0)) = Some (replicate 16 0).
Proof. vm_compute. done. Qed.

(** One period: the source writes fives, the adder eights. *)
Example period_demo :
  (fun x => (x.1, buf_storage (ag x.2))) <$> ove_audio_graph_process (ready 0)
  = Some (OVE_OK, Some (replicate 8 8 ++ replicate 8 5)).
Proof. vm_compute. done. Qed.

(** A sink that refuses to start makes the adder stop again. *)
Example rollback_demo :
  (fun x => (x.1, drop 4 (atr x.2))) <$> ove_audio_graph_start (ready OVE_ERR_BUSY)
  = Some (OVE_ERR_BUSY, [EStart 1 OVE_OK; EStart 0 OVE_ERR_BUSY; EStop 1]).
Proof. vm_compute. done. Qed.

(** The 64-bit byte count does wrap when frames and channels are both huge. *)
Example byte_size_wraps : buf_byte_size (mk_fmt 48000 (2 ^ 31) OVE_AUDIO_FMT_S32) (2 ^ 31) = 0.
Proof. reflexivity. Qed.

(** The rolling average leaves the range of the samples as soon as one
    period is faster than the average. *)
Example average_wraps : avg_process_us (update_times 50 (mk_stats 2 0 0 0 100 100)) = 2147483723.
Proof. reflexivity. Qed.

Lemma wire_ok c : Forall call_ok (wire c ++ [CBuild]).
Proof. destruct demo_ops as (? & ? & ?). unfold wire. cbn [app]. repeat apply Forall_cons_2; try done. Qed.

Lemma after_wf cs : Forall call_ok cs -> ast_wf (after cs).
Proof.
  intros Hcs. assert (ast_wf fresh_graph) as H0 by (split; [by apply wf_zero|done]).
  assert (0 <= @SIZE_MAX Z demo_env) as HSM by done. pose proof (calls_safe cs fresh_graph HSM Hcs H0) as Hwp.
  unfold after.
  destruct (ofor _ cs fresh_graph) as [[u s]|] eqn:He; [exact (wp_Some _ _ _ _ _ He Hwp)|exact H0].
Qed.

Lemma ready_wf c : graph_wf (ag (ready c)).
Proof. exact (proj1 (after_wf _ (wire_ok c))). Qed.

Lemma topo_sort_correct_witness :
  sortable (ag (after (wire 0))) /\ exists r order n,
    topo_sort (ag (after (wire 0))) = Some (r, set_exec (ag (after (wire 0))) order n) /\
    (r = OVE_OK <-> forall v, ~ tc (edge_rel (live_edges (ag (after (wire 0))))) v v) /\
    (r = OVE_OK -> n = node_count (ag (after (wire 0))) /\
       topo_order (live_edges (ag (after (wire 0)))) (node_count (ag (after (wire 0)))) (take n order)).
Proof.
  assert (sortable (ag (after (wire 0)))) as Hs.
  { split; [vm_compute; lia|done|done|]. intros e He. vm_compute in He |- *.
    repeat (apply elem_of_cons in He as [->|He]; [cbn; lia|]). by apply elem_of_nil in He. }
  split; [exact Hs|]. apply topo_sort_correct, Hs.
Defined.



Lemma audio_start_rollback_witness :
  wp ove_audio_graph_start (start_post (ag (ready OVE_ERR_BUSY)) (atr (ready OVE_ERR_BUSY))) (ready OVE_ERR_BUSY).
Proof. apply audio_start_rollback; [apply ready_wf|by vm_compute]. Defined.

End AudioDemo.
