(* ===== verification/Monitor.v ===== *)
(** * Monitors: a mutex with condition variables

    The kernel objects of the POSIX backend keep their state under one
    mutex and block on condition variables of that mutex.  A thread is
    modelled by what it will do when it next holds the mutex: the code
    between two points where the mutex is free (taking it, and the next
    unlock or wait) is one atomic segment, which mutual exclusion makes
    the only granularity that matters.  Waiting, signals, broadcasts,
    spurious wake-ups and expired timeouts are explicit, so that lost
    wake-ups can be stated and excluded.  The guarantees of the threads
    library used here: a signal wakes one of the waiting threads if there
    are any, a broadcast all of them, and a wait gives the mutex up and
    starts waiting in one step. *)

From S2P Require Import Prelude.

(** Number of list elements satisfying [p]. *)
Definition count {A} (p : A -> bool) (l : list A) : nat := length (List.filter p l).

Lemma count_insert {A} (p : A -> bool) l i x y :
  l !! i = Some x -> (count p (<[i := y]> l) + Nat.b2n (p x) = count p l + Nat.b2n (p y))%nat.
Proof.
  unfold count. revert i. induction l as [|z l IH]; intros [|i] Hi; simplify_eq/=.
  - destruct (p x), (p y); simpl; lia.
  - specialize (IH i Hi). destruct (p z); simpl; lia.
Qed.

Lemma count_zero {A} (p : A -> bool) l : count p l = 0%nat <-> forall i x, l !! i = Some x -> p x = false.
Proof.
  unfold count. induction l as [|z l IH]; simpl; [by split|]. destruct (p z) eqn:Hz; simpl; split.
  - done.
  - intros H. specialize (H 0%nat z eq_refl). congruence.
  - intros H [|i] x Hx; simplify_eq/=; [done|]. by apply (proj1 IH H i).
  - intros H. apply IH. intros i x Hx. by apply (H (S i)).
Qed.

Section monitor.
Context {Sh L C R Ev : Type} `{EqDecision C}.

(** [TReady l]: about to run [l] (taking the mutex first).  [TWaiting c l e]:
    blocked on [c]; woken, it runs [l]; if its timeout expires, [e]. *)
Inductive tstate :=
  | TIdle
  | TReady (l : L)
  | TWaiting (c : C) (l : L) (e : option L)
  | TReturned (r : R).

Inductive sig := Signal (c : C) | Broadcast (c : C).

(** How a segment ends: in a wait, in an unlock after which the thread goes
    on with [l], or by returning from the call. *)
Inductive next :=
  | NBlock (c : C) (l : L) (e : option L)
  | NUnlock (l : L)
  | NReturn (r : R).

Record segment := mk_seg { seg_sh : Sh; seg_sigs : list sig; seg_evs : list Ev; seg_next : next }.

Record mstate := mk_mon { shared : Sh; threads : list tstate; log : list (nat * Ev) }.

Definition waits_on (c : C) (t : tstate) : bool :=
  match t with TWaiting c' _ _ => bool_decide (c = c') | _ => false end.
Definition wake (t : tstate) : tstate := match t with TWaiting _ l _ => TReady l | t => t end.

(** [pthread_cond_signal]: the scheduler's choice if it waits on [c],
    otherwise the first waiter. *)
Definition wake_one (c : C) (pick : nat) (ts : list tstate) : list tstate :=
  match ts !! pick with
  | Some (TWaiting c' l _) =>
      if decide (c = c') then <[pick := TReady l]> ts
      else match find_idx (waits_on c) ts with Some i => alter wake i ts | None => ts end
  | _ => match find_idx (waits_on c) ts with Some i => alter wake i ts | None => ts end
  end.

Definition wake_all (c : C) (ts : list tstate) : list tstate :=
  (fun t => if waits_on c t then wake t else t) <$> ts.

Fixpoint deliver (sigs : list sig) (picks : list nat) (ts : list tstate) : list tstate :=
  match sigs with
  | [] => ts
  | Signal c :: sigs => deliver sigs (tail picks) (wake_one c (default 0%nat (head picks)) ts)
  | Broadcast c :: sigs => deliver sigs picks (wake_all c ts)
  end.

Definition after (n : next) : tstate :=
  match n with NBlock c l e => TWaiting c l e | NUnlock l => TReady l | NReturn r => TReturned r end.

Context (body : L -> Sh -> segment).

(** What can happen next; an action that is not enabled changes nothing. *)
Inductive act :=
  | ACall (t : nat) (l : L)
  | ARun (t : nat) (picks : list nat)
  | ASpurious (t : nat)
  | AExpire (t : nat).

Definition mstep (s : mstate) (a : act) : mstate :=
  match a with
  | ACall t l =>
      match threads s !! t with
      | Some TIdle | Some (TReturned _) => mk_mon (shared s) (<[t := TReady l]> (threads s)) (log s)
      | _ => s
      end
  | ARun t picks =>
      match threads s !! t with
      | Some (TReady l) =>
          let g := body l (shared s) in
          mk_mon (seg_sh g) (<[t := after (seg_next g)]> (deliver (seg_sigs g) picks (threads s)))
            (log s ++ (pair t <$> seg_evs g))
      | _ => s
      end
  | ASpurious t =>
      match threads s !! t with
      | Some (TWaiting c l e) => mk_mon (shared s) (<[t := TReady l]> (threads s)) (log s)
      | _ => s
      end
  | AExpire t =>
      match threads s !! t with
      | Some (TWaiting c l (Some e)) => mk_mon (shared s) (<[t := TReady e]> (threads s)) (log s)
      | _ => s
      end
  end.

Definition mrun (s : mstate) (acts : list act) : mstate := foldl mstep s acts.

(** [n] threads, none inside a call. *)
Definition mstart (sh : Sh) (n : nat) : mstate := mk_mon sh (replicate n TIdle) [].

(** ** Thread lists *)

Lemma find_waiter c ts : find_idx (waits_on c) ts = None <-> count (waits_on c) ts = 0%nat.
Proof.
  rewrite find_idx_None, count_zero, Forall_lookup. done.
Qed.

(** A signal wakes exactly one waiter, if there is any. *)
Lemma wake_one_cases c pick ts :
  (count (waits_on c) ts = 0%nat /\ wake_one c pick ts = ts) \/
  exists i l e, ts !! i = Some (TWaiting c l e) /\ wake_one c pick ts = <[i := TReady l]> ts.
Proof.
  unfold wake_one. assert (Hf :
    (count (waits_on c) ts = 0%nat /\
      match find_idx (waits_on c) ts with Some i => alter wake i ts | None => ts end = ts) \/
    exists i l e, ts !! i = Some (TWaiting c l e) /\
      match find_idx (waits_on c) ts with Some i => alter wake i ts | None => ts end = <[i := TReady l]> ts).
  { destruct (find_idx (waits_on c) ts) as [i|] eqn:Hi; [|left; split; [by apply find_waiter|done]].
    right. apply find_idx_Some in Hi as [(x & Hx & Hw) _]. destruct x as [| |c' l e|]; try done.
    apply bool_decide_eq_true in Hw as <-. exists i, l, e. split; [done|].
    apply list_eq. intros j. destruct (decide (j = i)) as [->|Hne].
    - rewrite list_lookup_alter_eq, Hx, list_lookup_insert_eq by (by eapply lookup_lt_Some). done.
    - by rewrite list_lookup_alter_ne, list_lookup_insert_ne by done. }
  destruct (ts !! pick) as [[| |c' l e|]|] eqn:Hp; try exact Hf.
  case_decide; [|exact Hf]. subst. right. by exists pick, l, e.
Qed.

(** Delivering only turns waiting threads into woken ones. *)
Definition woken_from (ts ts' : list tstate) : Prop :=
  length ts' = length ts /\
  forall i x, ts' !! i = Some x -> exists y, ts !! i = Some y /\ (x = y \/ x = wake y).

Lemma woken_from_refl ts : woken_from ts ts.
Proof. split; [done|]. intros i x Hx. exists x. auto. Qed.

Lemma woken_from_trans a b c : woken_from a b -> woken_from b c -> woken_from a c.
Proof.
  intros [Hl1 H1] [Hl2 H2]. split; [congruence|]. intros i x Hx.
  destruct (H2 i x Hx) as (y & Hy & Hxy). destruct (H1 i y Hy) as (z & Hz & Hyz).
  exists z. split; [done|]. destruct Hxy as [->| ->]; [done|]. destruct Hyz as [->| ->]; [auto|].
  right. by destruct z.
Qed.

Lemma wake_one_from c pick ts : woken_from ts (wake_one c pick ts).
Proof.
  destruct (wake_one_cases c pick ts) as [[_ ->]|(i & l & e & Hi & ->)]; [apply woken_from_refl|].
  split; [apply length_insert|]. intros j x. rewrite list_lookup_insert_Some.
  intros [(<- & <- & _)|[_ Hj]]; [|by exists x; auto]. eexists. split; [exact Hi|]. by right.
Qed.

Lemma wake_all_from c ts : woken_from ts (wake_all c ts).
Proof.
  split; [apply length_fmap|]. intros i x. unfold wake_all. rewrite list_lookup_fmap_Some.
  intros (y & -> & Hy). exists y. split; [done|]. destruct (waits_on c y); auto.
Qed.

Lemma deliver_from sigs picks ts : woken_from ts (deliver sigs picks ts).
Proof.
  revert picks ts. induction sigs as [|[c|c] sigs IH]; intros picks ts; cbn [deliver].
  - apply woken_from_refl.
  - eapply woken_from_trans; [apply wake_one_from|apply IH].
  - eapply woken_from_trans; [apply wake_all_from|apply IH].
Qed.

(** ** Invariants of the shared state

    [Phi] relates the shared state and the log; [Linv] holds of everything a
    thread may run.  Both are kept by every run if every segment keeps
    them. *)

Definition next_ok (Linv : L -> Prop) (n : next) : Prop :=
  match n with
  | NBlock _ l e => Linv l /\ (forall l', e = Some l' -> Linv l')
  | NUnlock l => Linv l
  | NReturn _ => True
  end.
Definition thread_ok (Linv : L -> Prop) (t : tstate) : Prop :=
  match t with
  | TReady l => Linv l
  | TWaiting _ l e => Linv l /\ (forall l', e = Some l' -> Linv l')
  | _ => True
  end.
Definition act_ok (Linv : L -> Prop) (a : act) : Prop := match a with ACall _ l => Linv l | _ => True end.

Section shared_inv.
Context (Phi : Sh -> list (nat * Ev) -> Prop) (Linv : L -> Prop).
Hypothesis Hbody : forall t l sh lg, Linv l -> Phi sh lg ->
  Phi (seg_sh (body l sh)) (lg ++ (pair t <$> seg_evs (body l sh))) /\ next_ok Linv (seg_next (body l sh)).

Definition mon_inv (s : mstate) : Prop := Phi (shared s) (log s) /\ Forall (thread_ok Linv) (threads s).

Lemma thread_ok_from ts ts' : woken_from ts ts' -> Forall (thread_ok Linv) ts -> Forall (thread_ok Linv) ts'.
Proof.
  intros [_ Hf] Hts. apply Forall_lookup. intros i x Hx. destruct (Hf i x Hx) as (y & Hy & Hxy).
  eapply Forall_lookup_1 in Hts; [|exact Hy]. destruct Hxy as [->| ->]; [done|].
  destruct y; cbn in *; tauto.
Qed.

Lemma mstep_inv s a : act_ok Linv a -> mon_inv s -> mon_inv (mstep s a).
Proof.
  intros Ha [HP HT]. destruct a as [t l|t picks|t|t]; cbn [mstep].
  - destruct (threads s !! t) as [[]|]; try by split. all: split; [done|by apply Forall_insert].
  - destruct (threads s !! t) as [[|l| |]|] eqn:Ht; try by split.
    pose proof (Forall_lookup_1 _ _ _ _ HT Ht) as Hl. destruct (Hbody t l (shared s) (log s) Hl HP) as [HP' Hn].
    split; [exact HP'|]. cbn [threads]. apply Forall_insert.
    + eapply thread_ok_from; [apply deliver_from|done].
    + by destruct (seg_next (body l (shared s))).
  - destruct (threads s !! t) as [[| |c l e|]|] eqn:Ht; try by split.
    pose proof (Forall_lookup_1 _ _ _ _ HT Ht) as [Hl _]. split; [done|by apply Forall_insert].
  - destruct (threads s !! t) as [[| |c l [e|]|]|] eqn:Ht; try by split.
    pose proof (Forall_lookup_1 _ _ _ _ HT Ht) as [_ Hl]. split; [done|].
    apply Forall_insert; [done|]. by apply Hl.
Qed.

Lemma mrun_inv acts s : Forall (act_ok Linv) acts -> mon_inv s -> mon_inv (mrun s acts).
Proof.
  unfold mrun. revert s. induction acts as [|a acts IH]; intros s Ha Hs; [done|].
  apply Forall_cons in Ha as [Ha Has]. cbn [foldl]. apply IH; [done|]. by apply mstep_inv.
Qed.

Lemma mstart_inv sh n : Phi sh [] -> mon_inv (mstart sh n).
Proof. intros HP. split; [done|]. by apply Forall_replicate. Qed.
End shared_inv.
End monitor.

Arguments tstate : clear implicits.
Arguments sig : clear implicits.
Arguments next : clear implicits.
Arguments segment : clear implicits.
Arguments mstate : clear implicits.
Arguments act : clear implicits.

(** ** No lost wake-ups

    A condition variable [c] guards a resource of which [avail] units are
    free.  [W] marks what woken waiters run.  If every segment that frees
    units signals [c] once per unit (or broadcasts), if a woken waiter that
    goes on takes a unit, and if a thread waits only when none is left, then
    waiters never outlast the resource: as long as some thread waits, every
    free unit is matched by a woken thread that has not run yet. *)

Section wakeups.
Context {Sh L C R Ev : Type} `{EqDecision C} (body : L -> Sh -> segment Sh L C R Ev).
Context (Phi : Sh -> Prop) (Linv : L -> Prop) (c : C) (W : L -> bool) (avail : Sh -> nat).

(** Units signalled. *)
Definition signals (sigs : list (sig C)) : nat :=
  count (fun x => match x with Signal c' => bool_decide (c = c') | Broadcast _ => false end) sigs.

Definition woken (t : tstate L C R) : bool := match t with TReady l => W l | _ => false end.

Hypothesis Hphi : forall l sh, Linv l -> Phi sh -> Phi (seg_sh (body l sh)) /\ next_ok Linv (seg_next (body l sh)).
Hypothesis Hblock : forall l sh l' e, Linv l -> Phi sh -> seg_next (body l sh) = NBlock c l' e ->
  W l' = true /\ avail (seg_sh (body l sh)) = 0%nat.
Hypothesis Hunits : forall l sh, Linv l -> Phi sh ->
  (forall l' e, seg_next (body l sh) <> NBlock c l' e) ->
  (avail (seg_sh (body l sh)) + Nat.b2n (W l) <= avail sh + signals (seg_sigs (body l sh)))%nat.

Definition waiters_ok (ts : list (tstate L C R)) : Prop :=
  forall i l e, ts !! i = Some (TWaiting c l e) -> W l = true.
Definition matched (s : mstate Sh L C R Ev) : Prop :=
  waiters_ok (threads s) /\
  (count (waits_on c) (threads s) <> 0 -> avail (shared s) <= count woken (threads s))%nat.

Lemma waiters_ok_from ts ts' : woken_from ts ts' -> waiters_ok ts -> waiters_ok ts'.
Proof.
  intros [_ Hf] Hw i l e Hi. destruct (Hf i _ Hi) as (y & Hy & [<-|Hwk]); [by eapply Hw|].
  by destruct y; simplify_eq/=.
Qed.

(** Waking never reduces the number of woken threads, and adds no waiter. *)
Lemma from_count ts ts' : woken_from ts ts' ->
  (count woken ts <= count woken ts')%nat /\ (count (waits_on c) ts' <= count (waits_on c) ts)%nat.
Proof.
  revert ts'. induction ts as [|y ts IH]; intros [|x ts'] [Hl Hf]; try done.
  destruct (IH ts') as [IH1 IH2].
  { split; [by injection Hl|]. intros i z Hz. exact (Hf (S i) z Hz). }
  destruct (Hf 0%nat x eq_refl) as (y' & [= <-] & [->| ->]); unfold count in *; cbn [List.filter].
  - destruct (woken y), (waits_on c y); cbn [length]; lia.
  - destruct y; cbn [wake woken waits_on]; repeat case_match; cbn [length]; lia.
Qed.

Lemma deliver_matched sigs : forall picks ts, waiters_ok ts ->
  count (waits_on c) (deliver sigs picks ts) <> 0%nat ->
  (count woken ts + signals sigs <= count woken (deliver sigs picks ts))%nat.
Proof.
  induction sigs as [|x sigs IH]; intros picks ts Hw Hn; cbn [deliver] in *.
  { unfold signals, count. simpl. lia. }
  destruct x as [c'|c'].
  - assert (Hw' : waiters_ok (wake_one c' (default 0%nat (head picks)) ts))
      by (eapply waiters_ok_from; [apply wake_one_from|done]).
    specialize (IH _ _ Hw' Hn). revert IH. unfold signals, count at 2 5. cbn [List.filter].
    destruct (bool_decide_reflect (c = c')) as [<-|Hne]; cbn [length].
    + destruct (wake_one_cases c (default 0%nat (head picks)) ts) as [[H0 Hwo]|(i & l & e & Hi & Hwo)]; rewrite Hwo.
      * exfalso. apply Hn. rewrite Hwo. destruct (from_count ts (deliver sigs (tail picks) ts)); [apply deliver_from|].
        lia.
      * pose proof (count_insert woken ts i _ (TReady l) Hi) as Hci. cbn [woken Nat.b2n] in Hci.
        rewrite (Hw _ _ _ Hi) in Hci. cbn [Nat.b2n] in Hci. unfold count in *. lia.
    + destruct (from_count ts (wake_one c' (default 0%nat (head picks)) ts)); [apply wake_one_from|].
      unfold count in *. lia.
  - assert (Hw' : waiters_ok (wake_all c' ts)) by (eapply waiters_ok_from; [apply wake_all_from|done]).
    specialize (IH _ _ Hw' Hn). destruct (from_count ts (wake_all c' ts)); [apply wake_all_from|].
    unfold signals, count in *. cbn [List.filter]. lia.
Qed.

Lemma run_matched t l picks s :
  Linv l -> Phi (shared s) -> matched s -> threads s !! t = Some (TReady l) ->
  matched (mstep body s (ARun t picks)).
Proof.
  intros Hl HP [Hw Hm] Ht. cbn [mstep]. rewrite Ht. set (g := body l (shared s)).
  set (ts := deliver (seg_sigs g) picks (threads s)).
  assert (Hfrom : woken_from (threads s) ts) by apply deliver_from.
  assert (Hw' : waiters_ok ts) by (by eapply waiters_ok_from).
  assert (Ht' : ts !! t = Some (TReady l)).
  { destruct Hfrom as [Hlen Hf]. destruct (lookup_lt_is_Some_2 ts t) as [x Hx].
    { rewrite Hlen. by eapply lookup_lt_Some. }
    destruct (Hf t x Hx) as (y & Hy & Hxy). rewrite Ht in Hy. injection Hy as <-. by destruct Hxy as [->| ->]. }
  pose proof (count_insert (waits_on c) ts t _ (after (seg_next g)) Ht') as Hcw.
  pose proof (count_insert woken ts t _ (after (seg_next g)) Ht') as Hck. cbn [waits_on woken Nat.b2n] in Hcw, Hck.
  destruct (from_count _ _ Hfrom) as [Hge Hle]. split; cbn [threads shared].
  - intros i l' e. rewrite list_lookup_insert_Some. intros [(<- & Hn & _)|[_ Hi]]; [|by eapply Hw'].
    destruct (seg_next g) as [c' l2 e2| |] eqn:Hg; simplify_eq/=. by eapply (Hblock l (shared s)).
  - intros Hn. destruct (seg_next g) as [c' l2 e2|l2|r] eqn:Hg.
    + destruct (decide (c' = c)) as [->|Hne].
      { destruct (Hblock l (shared s) l2 e2 Hl HP Hg) as [_ H0]. fold g in H0. lia. }
      assert (Hnb : forall l' e, seg_next g <> NBlock c l' e) by (intros; rewrite Hg; congruence).
      pose proof (Hunits l (shared s) Hl HP Hnb) as Hu. fold g in Hu.
      cbn [after waits_on woken Nat.b2n] in Hcw, Hck. rewrite bool_decide_false in Hcw by congruence.
      cbn [after] in Hn |- *. cbn [Nat.b2n] in Hcw.
      pose proof (deliver_matched (seg_sigs g) picks (threads s) Hw) as Hd. fold ts in Hd. lia.
    + pose proof (Hunits l (shared s) Hl HP) as Hu. fold g in Hu. rewrite Hg in Hu. specialize (Hu ltac:(done)).
      cbn [after waits_on woken Nat.b2n] in *. pose proof (deliver_matched (seg_sigs g) picks (threads s) Hw) as Hd.
      fold ts in Hd. lia.
    + pose proof (Hunits l (shared s) Hl HP) as Hu. fold g in Hu. rewrite Hg in Hu. specialize (Hu ltac:(done)).
      cbn [after waits_on woken Nat.b2n] in *. pose proof (deliver_matched (seg_sigs g) picks (threads s) Hw) as Hd.
      fold ts in Hd. lia.
Qed.

(** Replacing a thread that does not wait on [c] by a ready one. *)
Lemma ready_matched s t x l :
  matched s -> threads s !! t = Some x -> woken x = false ->
  matched (mk_mon (shared s) (<[t := TReady l]> (threads s)) (log s)).
Proof.
  intros [Hw Hm] Ht Hx. split; cbn [threads shared].
  - intros i l' e. rewrite list_lookup_insert_Some. intros [(<- & Hn & _)|[_ Hi]]; [done|by eapply Hw].
  - pose proof (count_insert (waits_on c) (threads s) t x (TReady l) Ht) as Hcw.
    pose proof (count_insert woken (threads s) t x (TReady l) Ht) as Hck. rewrite Hx in Hck.
    cbn [waits_on woken Nat.b2n] in *. intros Hn. assert (count (waits_on c) (threads s) <> 0%nat) as H0 by lia.
    specialize (Hm H0). lia.
Qed.

Lemma mstep_matched s a : act_ok Linv a -> mon_inv (fun sh _ => Phi sh) Linv s -> matched s -> matched (mstep body s a).
Proof.
  intros Ha [HP HT] Hm. destruct a as [t l|t picks|t|t].
  - cbn [mstep]. destruct (threads s !! t) as [[]|] eqn:Ht; try done; by eapply ready_matched.
  - destruct (threads s !! t) as [[|l| |]|] eqn:Ht; try (cbn [mstep]; by rewrite Ht).
    apply (run_matched t l); [|done..]. exact (Forall_lookup_1 _ _ _ _ HT Ht).
  - cbn [mstep]. destruct (threads s !! t) as [[]|] eqn:Ht; try done; by eapply ready_matched.
  - cbn [mstep]. destruct (threads s !! t) as [[| |c' l [e|]|]|] eqn:Ht; try done; by eapply ready_matched.
Qed.

(** The conclusion, for every run: free units are matched by woken threads,
    so that when no thread is ready nobody waits for a free unit. *)
Lemma no_lost_wakeup acts sh n :
  Phi sh -> Forall (act_ok Linv) acts ->
  matched (mrun body (mstart sh n) acts).
Proof.
  intros HP Ha. assert (mon_inv (fun sh _ => Phi sh) Linv (mstart (L := L) (R := R) (Ev := Ev) (C := C) sh n)) as Hi by (by apply mstart_inv).
  assert (matched (mstart sh n)) as Hm.
  { split; cbn [threads mstart].
    - intros i l e Hl. apply lookup_replicate in Hl as [Hl _]. done.
    - intros Hn. exfalso. apply Hn, count_zero. intros i x [-> _]%lookup_replicate. done. }
  unfold mrun. generalize dependent (mstart (L := L) (R := R) (Ev := Ev) (C := C) sh n).
  induction Ha as [|a acts Ha _ IH]; intros s Hi Hm; [done|]. cbn [foldl]. apply IH.
  - apply mstep_inv; [|done..]. intros. by apply Hphi.
  - by apply mstep_matched.
Qed.

(** No thread can take a step by itself. *)
Definition quiescent (s : mstate Sh L C R Ev) : Prop :=
  forall t l, threads s !! t <> Some (TReady l).

Lemma quiescent_drained s t l e :
  matched s -> quiescent s -> threads s !! t = Some (TWaiting c l e) -> avail (shared s) = 0%nat.
Proof.
  intros [_ Hm] Hq Ht.
  assert (count woken (threads s) = 0%nat) as Hw.
  { apply count_zero. intros i x Hx. destruct x as [|l'| |]; try done. by destruct (Hq i l'). }
  assert (count (waits_on c) (threads s) <> 0%nat) as Hn.
  { intros H0. apply (proj1 (count_zero _ _) H0 t) in Ht. cbn in Ht.
    by rewrite bool_decide_true in Ht. }
  specialize (Hm Hn). lia.
Qed.

End wakeups.

(** ** Waiting with broadcasts

    Where waiters have different conditions the code broadcasts.  [P l sh]
    says that what [l] waits for has not happened: if a thread waits only
    then, and a segment that makes it happen broadcasts, every waiting
    thread has a reason to wait, in every state and not only when all
    threads are blocked. *)

Section broadcasts.
Context {Sh L C R Ev : Type} `{EqDecision C} (body : L -> Sh -> segment Sh L C R Ev).
Context (Phi : Sh -> Prop) (Linv : L -> Prop) (c : C) (P : L -> Sh -> Prop).

Hypothesis Hphi : forall l sh, Linv l -> Phi sh -> Phi (seg_sh (body l sh)) /\ next_ok Linv (seg_next (body l sh)).
Hypothesis Hblock : forall l sh l' e, Linv l -> Phi sh -> seg_next (body l sh) = NBlock c l' e ->
  P l' (seg_sh (body l sh)).
Hypothesis Hcast : forall l sh l', Linv l -> Phi sh -> P l' sh ->
  P l' (seg_sh (body l sh)) \/ Broadcast c ∈ seg_sigs (body l sh).

Definition unmet (s : mstate Sh L C R Ev) : Prop :=
  forall t l e, threads s !! t = Some (TWaiting c l e) -> P l (shared s).

Lemma broadcast_wakes sigs picks (ts : list (tstate L C R)) t l e :
  Broadcast c ∈ sigs -> deliver sigs picks ts !! t <> Some (TWaiting c l e).
Proof.
  revert picks ts. induction sigs as [|x sigs IH]; intros picks ts Hin; [by apply elem_of_nil in Hin|].
  apply elem_of_cons in Hin as [<-|Hin]; [|destruct x; by apply IH].
  cbn [deliver]. intros Ht. destruct (deliver_from sigs picks (wake_all c ts)) as [_ Hf].
  destruct (Hf t _ Ht) as (y & Hy & [<-|Hw]); [|by destruct y].
  unfold wake_all in Hy. apply list_lookup_fmap_Some in Hy as (z & Hz & _).
  destruct (waits_on c z) eqn:Hwz; [by destruct z|]. subst z. cbn in Hwz. by rewrite bool_decide_true in Hwz.
Qed.

Lemma waiting_before sigs picks (ts : list (tstate L C R)) t l e :
  deliver sigs picks ts !! t = Some (TWaiting c l e) -> ts !! t = Some (TWaiting c l e).
Proof.
  intros Ht. destruct (deliver_from sigs picks ts) as [_ Hf]. destruct (Hf t _ Ht) as (y & Hy & [<-|Hw]); [done|].
  by destruct y.
Qed.

Lemma mstep_unmet s a : act_ok Linv a -> mon_inv (fun sh _ => Phi sh) Linv s -> unmet s -> unmet (mstep body s a).
Proof.
  intros Ha [HP HT] Hu. destruct a as [t l|t picks|t|t]; cbn [mstep].
  2: { destruct (threads s !! t) as [[|l| |]|] eqn:Ht; try done. pose proof (Forall_lookup_1 _ _ _ _ HT Ht) as Hl.
    intros i l' e. cbn [threads shared]. rewrite list_lookup_insert_Some. intros [(<- & Hn & _)|[_ Hi]].
    - destruct (seg_next (body l (shared s))) as [c' l2 e2| |] eqn:Hg; simplify_eq/=. by eapply Hblock.
    - destruct (Hcast l (shared s) l' Hl HP) as [H'|Hb]; [|done|by destruct (broadcast_wakes _ _ _ _ _ _ Hb Hi)].
      eapply Hu. by eapply waiting_before. }
  all: destruct (threads s !! t) as [[| |? ? []|]|]; try done; intros i l' e'; cbn [threads shared];
    rewrite list_lookup_insert_Some; (intros [(_ & Hn & _)|[_ Hi]]; [done|by eapply Hu]).
Qed.

Lemma waiters_unmet acts sh n : Phi sh -> Forall (act_ok Linv) acts -> unmet (mrun body (mstart sh n) acts).
Proof.
  intros HP Ha. assert (mon_inv (fun sh _ => Phi sh) Linv (mstart (L := L) (R := R) (Ev := Ev) (C := C) sh n)) as Hi by (by apply mstart_inv).
  assert (unmet (mstart sh n)) as Hu by (intros t l e [Hl _]%lookup_replicate; done).
  unfold mrun. generalize dependent (mstart (L := L) (R := R) (Ev := Ev) (C := C) sh n).
  induction Ha as [|a acts Ha _ IH]; intros s Hi Hm; [done|]. cbn [foldl]. apply IH.
  - apply mstep_inv; [|done..]. intros. by apply Hphi.
  - by apply mstep_unmet.
Qed.
End broadcasts.

(** ** A sole waiter

    A signal reaches a thread that is the only one waiting. *)

Section sole.
Context {L C R : Type} `{EqDecision C}.

Lemma signal_sole (c : C) i (l : L) e picks (ts : list (tstate L C R)) :
  ts !! i = Some (TWaiting c l e) -> (forall j l' e', j <> i -> ts !! j <> Some (TWaiting c l' e')) ->
  deliver [Signal c] picks ts !! i = Some (TReady l).
Proof.
  intros Hi Hj. cbn [deliver]. destruct (wake_one_cases c (default 0%nat (head picks)) ts) as [[H0 _]|(j & l' & e' & Hl & ->)].
  - apply (proj1 (count_zero _ _) H0 i) in Hi. cbn in Hi. by rewrite bool_decide_true in Hi.
  - destruct (decide (j = i)) as [->|Hne]; [|by destruct (Hj j l' e')].
    rewrite list_lookup_insert_eq by (by eapply lookup_lt_Some). congruence.
Qed.

(** A thread that does not wait is not touched. *)
Lemma deliver_running sigs picks (ts : list (tstate L C R)) i x :
  ts !! i = Some x -> (forall c l e, x <> TWaiting c l e) -> deliver sigs picks ts !! i = Some x.
Proof.
  intros Hi Hx. destruct (deliver_from sigs picks ts) as [Hlen Hf].
  destruct (lookup_lt_is_Some_2 (deliver sigs picks ts) i) as [y Hy]; [rewrite Hlen; by eapply lookup_lt_Some|].
  destruct (Hf i y Hy) as (z & Hz & Hzy). assert (z = x) as -> by congruence. rewrite Hy. f_equal.
  destruct Hzy as [->| ->]; [done|]. destruct x as [| |c l e|]; try done. by destruct (Hx c l e).
Qed.

(** What holds of a thread after the signals, from what held before. *)
Lemma deliver_keeps (Q Q' : tstate L C R -> Prop) sigs picks (ts : list (tstate L C R)) i x :
  (forall y, Q y -> Q (wake y)) ->
  (forall y, Q y -> (forall c, Broadcast c ∈ sigs -> waits_on c y = false) -> Q' y) ->
  (forall y, ts !! i = Some y -> Q y) -> deliver sigs picks ts !! i = Some x -> Q' x.
Proof.
  intros Hw HQ Hy Hd. destruct (deliver_from sigs picks ts) as [_ Hf]. destruct (Hf i x Hd) as (y & Hi & Hyx).
  specialize (Hy y Hi). destruct Hyx as [->| ->].
  - apply HQ; [done|]. intros c Hb. destruct (waits_on c y) eqn:Hwt; [|done]. exfalso.
    destruct y as [| |c' l e|]; try done. apply bool_decide_eq_true in Hwt as <-. by eapply broadcast_wakes in Hb.
  - assert (forall c, waits_on c (wake y) = false) as Hn by (by destruct y). apply HQ; [by apply Hw|done].
Qed.
End sole.
