(* ===== verification/Queue.v ===== *)
(** * Message queues (backends/posix/posix_queue.c, src/ove_queue.c)

    A ring of fixed-size items under a mutex, with the condition variables
    [not_full] and [not_empty].  The item buffer is the byte array the C
    code copies into; every call is a program of the monitor model. *)

From S2P Require Import Prelude Monitor.

Definition OVE_WAIT_FOREVER : Z := 2 ^ 64 - 1.

(** ** Deadlines *)

Record timespec := mk_ts { tv_sec : Z; tv_nsec : Z }.

(** [now] is what [clock_gettime] returned. *)
Definition ns_to_abstime (timeout_ns : Z) (now : timespec) : timespec :=
  let sec := tv_sec now + timeout_ns / 1000000000 in
  let nsec := tv_nsec now + timeout_ns mod 1000000000 in
  if 1000000000 <=? nsec then mk_ts (sec + 1) (nsec - 1000000000) else mk_ts sec nsec.

Definition ts_ns (t : timespec) : Z := tv_sec t * 1000000000 + tv_nsec t.

(** The deadline is normalised and exactly [timeout_ns] away. *)
Lemma ns_to_abstime_exact timeout_ns now :
  0 <= timeout_ns -> 0 <= tv_nsec now < 1000000000 ->
  0 <= tv_nsec (ns_to_abstime timeout_ns now) < 1000000000 /\
  ts_ns (ns_to_abstime timeout_ns now) = ts_ns now + timeout_ns.
Proof.
  intros Ht Hn. unfold ns_to_abstime, ts_ns. destruct (1000000000 <=? _) eqn:Hc; cbn [tv_sec tv_nsec];
    [apply Z.leb_le in Hc|apply Z.leb_gt in Hc]; dlia.
Qed.

Module PosixQueue.

(** ** Data *)

Record ove_queue := mk_queue {
  buffer : list Z; item_size : nat; max_items : nat;
  qcount : nat; qhead : nat; qtail : nat; notify_cb : Z; notify_ud : Z }.

Inductive cond := not_full | not_empty.
Global Instance cond_eq_dec : EqDecision cond.
Proof. solve_decision. Defined.

Inductive ev := ESent (d : list Z) | EReceived (d : list Z) | ENotify (cb ud : Z).

(** What a thread runs when it next holds the mutex ([SendNotify] runs
    without it). *)
Inductive pc :=
  | SendEnter (d : list Z) (timeout_ns : Z)
  | SendWoken (d : list Z) (timeout_ns : Z)
  | SendExpired (timeout_ns : Z)
  | SendNotify (cb ud : Z)
  | RecvEnter (timeout_ns : Z)
  | RecvWoken (timeout_ns : Z)
  | RecvExpired (timeout_ns : Z)
  | RecvIsr
  | SetNotify (cb ud : Z).

(** The return code, and the item copied out. *)
Abbreviation result := (Z * option (list Z))%type.
Abbreviation seg := (segment ove_queue pc cond result ev).

Definition ove_queue_init (buf : list Z) (isz max : nat) : Z * option ove_queue :=
  if (isz =? 0)%nat || (max =? 0)%nat then (OVE_ERR_INVALID_PARAM, None)
  else (OVE_OK, Some (mk_queue buf isz max 0 0 0 0 0)).

(** ** Send and receive *)

(** [pthread_cond_timedwait] unless the wait is unbounded. *)
Definition expiry (timeout_ns : Z) (e : pc) : option pc :=
  if timeout_ns =? OVE_WAIT_FOREVER then None else Some e.

(** Copying the item in, from [memcpy] on. *)
Definition enqueue (q : ove_queue) (d : list Z) : seg :=
  mk_seg {| q with buffer := overwrite (buffer q) (qhead q * item_size q) d;
                   qhead := (qhead q + 1) mod max_items q; qcount := qcount q + 1 |}
    [Signal not_empty] [ESent d]
    (if notify_cb q =? 0 then NReturn (OVE_OK, None) else NUnlock (SendNotify (notify_cb q) (notify_ud q))).

Definition ove_queue_send (q : ove_queue) (d : list Z) (timeout_ns : Z) : seg :=
  if (max_items q <=? qcount q)%nat
  then mk_seg q [] [] (NBlock not_full (SendWoken d timeout_ns) (expiry timeout_ns (SendExpired timeout_ns)))
  else enqueue q d.

Definition send_timeout (q : ove_queue) (timeout_ns : Z) : seg :=
  mk_seg q [] [] (NReturn (if timeout_ns =? 0 then OVE_ERR_QUEUE_FULL else OVE_ERR_TIMEOUT, None)).

Definition dequeue (q : ove_queue) : seg :=
  let d := take (item_size q) (drop (qtail q * item_size q) (buffer q)) in
  mk_seg {| q with qtail := (qtail q + 1) mod max_items q; qcount := qcount q - 1 |}
    [Signal not_full] [EReceived d] (NReturn (OVE_OK, Some d)).

Definition ove_queue_receive (q : ove_queue) (timeout_ns : Z) : seg :=
  if (qcount q =? 0)%nat
  then mk_seg q [] [] (NBlock not_empty (RecvWoken timeout_ns) (expiry timeout_ns (RecvExpired timeout_ns)))
  else dequeue q.

Definition receive_timeout (q : ove_queue) (timeout_ns : Z) : seg :=
  mk_seg q [] [] (NReturn (if timeout_ns =? 0 then OVE_ERR_QUEUE_EMPTY else OVE_ERR_TIMEOUT, None)).

Definition ove_queue_receive_from_isr (q : ove_queue) : seg :=
  if (qcount q =? 0)%nat then mk_seg q [] [] (NReturn (OVE_ERR_QUEUE_EMPTY, None)) else dequeue q.

Definition ove_queue_send_from_isr (d : list Z) : pc := SendEnter d 0.

Definition ove_queue_set_notify (q : ove_queue) (cb ud : Z) : seg :=
  mk_seg {| q with notify_cb := cb; notify_ud := ud |} [] [] (NReturn (OVE_OK, None)).

Definition queue_body (l : pc) (q : ove_queue) : seg :=
  match l with
  | SendEnter d t | SendWoken d t => ove_queue_send q d t
  | SendExpired t => send_timeout q t
  | SendNotify cb ud => mk_seg q [] [ENotify cb ud] (NReturn (OVE_OK, None))
  | RecvEnter t | RecvWoken t => ove_queue_receive q t
  | RecvExpired t => receive_timeout q t
  | RecvIsr => ove_queue_receive_from_isr q
  | SetNotify cb ud => ove_queue_set_notify q cb ud
  end.

(** ** The heap variant (src/ove_queue.c)

    The size of the block requested from the allocator, or the error. *)
Definition ove_queue_create (SIZE_MAX sizeof_storage : Z) (isz max : Z) : Z + Z :=
  if (isz =? 0) || (max =? 0) || (SIZE_MAX / max <? isz) then inl OVE_ERR_INVALID_PARAM else
  let buffer_size := isz * max mod (SIZE_MAX + 1) in
  if SIZE_MAX - sizeof_storage <? buffer_size then inl OVE_ERR_INVALID_PARAM
  else inr ((sizeof_storage + buffer_size) mod (SIZE_MAX + 1)).

(** The request never wraps: the block holds the storage and all items. *)
Lemma queue_create_exact SIZE_MAX sizeof_storage isz max n :
  0 <= sizeof_storage <= SIZE_MAX -> 0 <= isz -> 0 <= max ->
  ove_queue_create SIZE_MAX sizeof_storage isz max = inr n -> n = sizeof_storage + isz * max.
Proof.
  unfold ove_queue_create. intros Hs Hi Hm. destruct (isz =? 0) eqn:H1, (max =? 0) eqn:H2; try done.
  destruct (SIZE_MAX / max <? isz) eqn:H3; [done|]. apply Z.eqb_neq in H1, H2. apply Z.ltb_ge in H3.
  assert (isz * max <= SIZE_MAX).
  { assert (SIZE_MAX / max * max <= SIZE_MAX) by (rewrite Z.mul_comm; apply Z.mul_div_le; lia). nia. }
  cbn [orb]. rewrite Z.mod_small by lia. destruct (_ <? _) eqn:H4; [done|]. apply Z.ltb_ge in H4.
  rewrite Z.mod_small by lia. congruence.
Qed.

(** ** The queue is a FIFO *)

Definition sent (lg : list (nat * ev)) : list (list Z) :=
  omap (fun x => match x.2 with ESent d => Some d | _ => None end) lg.
Definition received (lg : list (nat * ev)) : list (list Z) :=
  omap (fun x => match x.2 with EReceived d => Some d | _ => None end) lg.

Definition item (q : ove_queue) (i : nat) : list Z := take (item_size q) (drop (i * item_size q) (buffer q)).

(** The ring holds [items], oldest first. *)
Record holds (q : ove_queue) (items : list (list Z)) : Prop := {
  ho_isz : (0 < item_size q)%nat;
  ho_max : (0 < max_items q)%nat;
  ho_buf : length (buffer q) = (max_items q * item_size q)%nat;
  ho_count : length items = qcount q;
  ho_bound : (qcount q <= max_items q)%nat;
  ho_tail : (qtail q < max_items q)%nat;
  ho_head : qhead q = ((qtail q + qcount q) mod max_items q)%nat;
  ho_items : forall k d, items !! k = Some d -> item q ((qtail q + k) mod max_items q) = d }.

Definition queue_rep (isz max : nat) (q : ove_queue) (lg : list (nat * ev)) : Prop :=
  item_size q = isz /\ max_items q = max /\ exists items, holds q items /\ sent lg = received lg ++ items.

(** Items have the queue's size. *)
Definition pc_ok (isz : nat) (l : pc) : Prop :=
  match l with SendEnter d _ | SendWoken d _ => length d = isz | _ => True end.

Lemma item_fits i isz max : (i < max -> i * isz + isz <= max * isz)%nat.
Proof. nia. Qed.

Lemma mod_add_inj m t a b : (0 < m)%nat -> (a < m)%nat -> (b < m)%nat ->
  ((t + a) mod m = (t + b) mod m)%nat -> a = b.
Proof.
  intros Hm Ha Hb H. pose proof (Nat.div_mod (t + a) m ltac:(lia)) as H1.
  pose proof (Nat.div_mod (t + b) m ltac:(lia)) as H2. rewrite H in H1.
  assert ((t + a) / m = (t + b) / m)%nat by nia. nia.
Qed.

Lemma holds_enqueue q items d : holds q items -> (qcount q < max_items q)%nat -> length d = item_size q ->
  holds (seg_sh (enqueue q d)) (items ++ [d]).
Proof.
  intros [Hi Hm Hb Hc Hbd Ht Hh Hit] Hlt Hd. assert (qhead q < max_items q)%nat as Hhl by (rewrite Hh; apply Nat.mod_upper_bound; lia).
  pose proof (item_fits _ (item_size q) _ Hhl) as Hfit.
  split; cbn [enqueue seg_sh buffer item_size max_items qcount qhead qtail]; try done.
  - rewrite overwrite_length; [done|]. lia.
  - rewrite length_app. cbn [length]. lia.
  - lia.
  - rewrite Hh, Nat.Div0.add_mod_idemp_l. f_equal. lia.
  - intros k e Hk. unfold item. cbn [buffer item_size max_items qtail]. destruct (decide (k < length items)%nat) as [Hkl|Hkg].
    + rewrite lookup_app_l in Hk by done. rewrite <-(Hit k e Hk).
      assert ((qtail q + k) mod max_items q < max_items q)%nat as Hj by (apply Nat.mod_upper_bound; lia).
      assert ((qtail q + k) mod max_items q <> qhead q)%nat as Hne.
      { rewrite Hh. intros He. apply mod_add_inj in He; lia. }
      pose proof (item_fits _ (item_size q) _ Hj). unfold item.
      destruct (decide ((qtail q + k) mod max_items q < qhead q)%nat).
      * apply overwrite_before; [nia|lia].
      * apply overwrite_after; [nia|lia].
    + rewrite lookup_app_r in Hk by lia. apply list_lookup_singleton_Some in Hk as [Hk0 <-].
      replace (qtail q + k)%nat with (qtail q + qcount q)%nat by lia. rewrite <-Hh, <-Hd.
      rewrite <-Hd in Hfit. apply overwrite_same. lia.
Qed.

Lemma holds_dequeue q d items : holds q (d :: items) ->
  seg_evs (dequeue q) = [EReceived d] /\ holds (seg_sh (dequeue q)) items.
Proof.
  intros [Hi Hm Hb Hc Hbd Ht Hh Hit]. cbn [length] in Hc.
  assert (item q (qtail q) = d) as Hd.
  { rewrite <-(Hit 0%nat d eq_refl). by rewrite Nat.add_0_r, Nat.mod_small. }
  split; [cbn [dequeue seg_evs]; by fold (item q (qtail q)); rewrite Hd|].
  split; cbn [dequeue seg_sh buffer item_size max_items qcount qhead qtail]; try done.
  - lia.
  - lia.
  - apply Nat.mod_upper_bound. lia.
  - rewrite Hh, Nat.Div0.add_mod_idemp_l. f_equal. lia.
  - intros k e Hk. rewrite Nat.Div0.add_mod_idemp_l. specialize (Hit (S k) e Hk).
    by replace (qtail q + 1 + k)%nat with (qtail q + S k)%nat by lia.
Qed.

Lemma sent_app a b : sent (a ++ b) = sent a ++ sent b.
Proof. apply omap_app. Qed.
Lemma received_app a b : received (a ++ b) = received a ++ received b.
Proof. apply omap_app. Qed.

(** Segments that move no item. *)
Lemma rep_still isz max q q' lg t evs : queue_rep isz max q lg ->
  sent (pair t <$> evs) = [] -> received (pair t <$> evs) = [] ->
  q' = {| q with notify_cb := notify_cb q'; notify_ud := notify_ud q' |} ->
  queue_rep isz max q' (lg ++ (pair t <$> evs)).
Proof.
  intros (Hi & Hm & items & Hh & Hl) Hs Hr ->. split; [done|]. split; [done|]. exists items.
  rewrite sent_app, received_app, Hs, Hr, !app_nil_r. split; [|done]. by destruct Hh.
Qed.

Lemma rep_dequeue isz max q lg t : queue_rep isz max q lg -> (qcount q <> 0)%nat ->
  queue_rep isz max (seg_sh (dequeue q)) (lg ++ (pair t <$> seg_evs (dequeue q))).
Proof.
  intros (Hi & Hm & [|d items] & Hh & Hl) Hq; [by pose proof (ho_count q _ Hh)|].
  destruct (holds_dequeue q d items Hh) as [He Hh']. split; [done|]. split; [done|]. exists items. split; [done|].
  rewrite sent_app, received_app, He, Hl. cbn. by rewrite app_nil_r, <-app_assoc.
Qed.

Lemma expiry_ok isz t e l : pc_ok isz e -> expiry t e = Some l -> pc_ok isz l.
Proof. unfold expiry. intros He. case_match; congruence. Qed.

Lemma rep_nothing isz max q lg t : queue_rep isz max q lg -> queue_rep isz max q (lg ++ (pair t <$> [])).
Proof. intros Hq. apply (rep_still _ _ q); [done..|by destruct q]. Qed.

Definition segment_ok (isz max t : nat) (lg : list (nat * ev)) (g : seg) : Prop :=
  queue_rep isz max (seg_sh g) (lg ++ (pair t <$> seg_evs g)) /\ next_ok (pc_ok isz) (seg_next g).

Lemma send_segment isz max t d to q lg : length d = isz -> queue_rep isz max q lg ->
  segment_ok isz max t lg (ove_queue_send q d to).
Proof.
  intros Hd Hq. unfold ove_queue_send. destruct (max_items q <=? qcount q)%nat eqn:Hf.
  { split; [by apply rep_nothing|]. split; [done|]. intros l'. by apply expiry_ok. }
  apply Nat.leb_gt in Hf. destruct Hq as (Hi & Hm & items & Hh & Hlog).
  split; [|cbn [enqueue seg_next]; by case_match]. split; [done|]. split; [done|]. exists (items ++ [d]).
  split; [apply holds_enqueue; [done|done|congruence]|]. rewrite sent_app, received_app, Hlog. cbn.
  by rewrite app_nil_r, <-app_assoc.
Qed.

Lemma receive_segment isz max t to q lg : queue_rep isz max q lg ->
  segment_ok isz max t lg (ove_queue_receive q to).
Proof.
  intros Hq. unfold ove_queue_receive. destruct (qcount q =? 0)%nat eqn:H0.
  - split; [by apply rep_nothing|]. split; [done|]. intros l'. by apply expiry_ok.
  - split; [apply rep_dequeue; [done|by apply Nat.eqb_neq]|done].
Qed.

Lemma queue_segment isz max t l q lg : pc_ok isz l -> queue_rep isz max q lg ->
  segment_ok isz max t lg (queue_body l q).
Proof.
  intros Hl Hq. destruct l as [d to|d to|to|cb ud|to|to|to| |cb ud]; cbn [queue_body pc_ok] in *.
  - by apply send_segment.
  - by apply send_segment.
  - split; [by apply rep_nothing|done].
  - split; [|done]. apply (rep_still _ _ q); [done..|by destruct q].
  - by apply receive_segment.
  - by apply receive_segment.
  - split; [by apply rep_nothing|done].
  - unfold ove_queue_receive_from_isr. destruct (qcount q =? 0)%nat eqn:H0; [split; [by apply rep_nothing|done]|].
    split; [apply rep_dequeue; [done|by apply Nat.eqb_neq]|done].
  - split; [|done]. by apply (rep_still _ _ q).
Qed.

(** ** Blocking *)

Definition send_woken (l : pc) : bool := match l with SendWoken _ _ => true | _ => false end.
Definition recv_woken (l : pc) : bool := match l with RecvWoken _ => true | _ => false end.
Definition free_slots (q : ove_queue) : nat := max_items q - qcount q.

Definition some_rep (isz max : nat) (q : ove_queue) : Prop := exists lg, queue_rep isz max q lg.

Lemma some_rep_segment isz max l q : pc_ok isz l -> some_rep isz max q ->
  some_rep isz max (seg_sh (queue_body l q)) /\ next_ok (pc_ok isz) (seg_next (queue_body l q)).
Proof. intros Hl [lg Hq]. destruct (queue_segment isz max 0 l q lg Hl Hq) as [H1 H2]. split; [by eexists|done]. Qed.

Lemma some_rep_count isz max q : some_rep isz max q -> (qcount q <= max_items q)%nat.
Proof. intros (lg & _ & _ & items & Hh & _). apply Hh. Qed.

(** Case analysis on a segment of the queue. *)
Ltac queue_cases l :=
  destruct l; cbn [queue_body]; unfold ove_queue_send, ove_queue_receive, ove_queue_receive_from_isr;
  repeat match goal with
  | |- context [if (?a <=? ?b)%nat then _ else _] =>
      destruct (a <=? b)%nat eqn:?Hb; [apply Nat.leb_le in Hb|apply Nat.leb_gt in Hb]
  | |- context [if (?a =? ?b)%nat then _ else _] =>
      destruct (a =? b)%nat eqn:?Hb; [apply Nat.eqb_eq in Hb|apply Nat.eqb_neq in Hb]
  end.

Lemma signals_units :
  signals not_empty [Signal not_empty] = 1%nat /\ signals not_empty [Signal not_full] = 0%nat /\
  signals not_full [Signal not_empty] = 0%nat /\ signals not_full [Signal not_full] = 1%nat /\
  signals not_empty [] = 0%nat /\ signals not_full [] = 0%nat.
Proof. by vm_compute. Qed.

Lemma receivers_matched isz max acts q n : some_rep isz max q -> Forall (act_ok (pc_ok isz)) acts ->
  matched not_empty recv_woken qcount (mrun queue_body (mstart q n) acts).
Proof.
  intros Hq Ha. apply (no_lost_wakeup queue_body (some_rep isz max) (pc_ok isz)); [| | |done..].
  - intros; by apply some_rep_segment.
  - intros l q' l' e _ _. queue_cases l; cbn; try case_match; intros; simplify_eq; done.
  - intros l q' _ Hq' Hnb. revert Hnb. pose proof signals_units as Hs.
    queue_cases l; unfold enqueue, dequeue, send_timeout, receive_timeout, ove_queue_set_notify; cbn [seg_sh seg_sigs seg_next qcount recv_woken Nat.b2n]; intros Hnb; try lia;
      by destruct (Hnb _ _ eq_refl).
Qed.

Lemma senders_matched isz max acts q n : some_rep isz max q -> Forall (act_ok (pc_ok isz)) acts ->
  matched not_full send_woken free_slots (mrun queue_body (mstart q n) acts).
Proof.
  intros Hq Ha. apply (no_lost_wakeup queue_body (some_rep isz max) (pc_ok isz)); [| | |done..].
  - intros; by apply some_rep_segment.
  - intros l q' l' e _ Hq'. unfold free_slots.
    queue_cases l; cbn; try case_match; intros; simplify_eq; (split; [done|lia]).
  - intros l q' _ Hq' Hnb. apply some_rep_count in Hq'. revert Hnb. unfold free_slots.
    pose proof signals_units as Hs.
    queue_cases l; unfold enqueue, dequeue, send_timeout, receive_timeout, ove_queue_set_notify; cbn [seg_sh seg_sigs seg_next qcount max_items send_woken Nat.b2n]; intros Hnb; try lia;
      by destruct (Hnb _ _ eq_refl).
Qed.

Lemma init_rep buf isz max q : ove_queue_init buf isz max = (OVE_OK, Some q) ->
  length buf = (max * isz)%nat -> queue_rep isz max q [].
Proof.
  unfold ove_queue_init. destruct (isz =? 0)%nat eqn:H1, (max =? 0)%nat eqn:H2; try done. intros [= <-] Hl.
  apply Nat.eqb_neq in H1, H2. split; [done|]. split; [done|]. exists []. split; [|done].
  split; cbn; try lia; [by rewrite Nat.Div0.mod_0_l|]. intros k d Hk. done.
Qed.

(** C8. A message queue is a bounded FIFO under every interleaving of any
    number of senders, receivers, interrupt handlers, timeouts and spurious
    wake-ups: the items received so far, in order, are a prefix of the items
    sent, the ring holds exactly the rest (at most [max_items]), and every
    copy stays inside the item buffer. *)
Theorem queue_fifo buf isz max q n acts :
  ove_queue_init buf isz max = (OVE_OK, Some q) -> length buf = (max * isz)%nat ->
  Forall (act_ok (pc_ok isz)) acts ->
  let s := mrun queue_body (mstart q n) acts in
  exists items, holds (shared s) items /\ sent (log s) = received (log s) ++ items.
Proof.
  intros Hi Hl Ha s. pose proof (init_rep _ _ _ _ Hi Hl) as Hq.
  assert (mon_inv (queue_rep isz max) (pc_ok isz) s) as [(_ & _ & items & Hh & Hlog) _].
  { apply mrun_inv; [|done|by apply mstart_inv]. intros. by apply queue_segment. }
  by exists items.
Qed.

(** C22. Queue waits are not lost: when no thread can run by itself, a thread
    blocked in a receive means the queue is empty, and a thread blocked in a
    send means it is full, although each operation wakes one waiter only and
    other threads may overtake the woken one. *)
Theorem queue_no_lost_wakeup buf isz max q n acts t l e :
  ove_queue_init buf isz max = (OVE_OK, Some q) -> length buf = (max * isz)%nat ->
  Forall (act_ok (pc_ok isz)) acts ->
  let s := mrun queue_body (mstart q n) acts in
  quiescent s ->
  (threads s !! t = Some (TWaiting not_empty l e) -> qcount (shared s) = 0%nat) /\
  (threads s !! t = Some (TWaiting not_full l e) -> qcount (shared s) = max).
Proof.
  intros Hi Hl Ha s Hq. pose proof (init_rep _ _ _ _ Hi Hl) as Hrep.
  assert (some_rep isz max q) as Hs by (by eexists). split; intros Ht.
  - by eapply (quiescent_drained not_empty recv_woken qcount); [apply (receivers_matched isz max)|..].
  - assert (free_slots (shared s) = 0%nat) as H0
      by (by eapply (quiescent_drained not_full send_woken free_slots); [apply (senders_matched isz max)|..]).
    assert (mon_inv (queue_rep isz max) (pc_ok isz) s) as [(_ & Hm & items & Hh & _) _].
    { apply mrun_inv; [|done|by apply mstart_inv]. intros. by apply queue_segment. }
    unfold free_slots in H0. pose proof (ho_bound _ _ Hh). lia.
Qed.

End PosixQueue.

(** ** A run *)

Module QueueDemo.
Import PosixQueue.

Definition ring : ove_queue := mk_queue (replicate 4 0) 2 2 0 0 0 0 0.

(** Thread 0 sends three items through a ring of two; thread 1 receives. *)
Definition acts : list (act pc) :=
  [ACall 1 (RecvEnter OVE_WAIT_FOREVER); ARun 1 []; ACall 0 (SendEnter [1; 2] 5); ARun 0 [1%nat];
   ACall 0 (SendEnter [3; 4] 5); ARun 0 []; ACall 0 (SendEnter [5; 6] 5); ARun 0 []; ARun 1 [];
   ARun 0 []].

Example queue_run : let s := mrun queue_body (mstart ring 2) acts in
  received (log s) = [[1; 2]] /\ buffer (shared s) = [5; 6; 3; 4] /\
  threads s = [TReturned (OVE_OK, None); TReturned (OVE_OK, Some [1; 2])].
Proof. vm_compute. done. Qed.

Lemma acts_ok : Forall (act_ok (pc_ok 2)) acts.
Proof. repeat constructor. Qed.

Lemma queue_fifo_witness :
  exists items, holds (shared (mrun queue_body (mstart ring 2) acts)) items /\
    sent (log (mrun queue_body (mstart ring 2) acts)) = received (log (mrun queue_body (mstart ring 2) acts)) ++ items.
Proof. exact (queue_fifo (replicate 4 0) 2 2 ring 2 acts eq_refl eq_refl acts_ok). Defined.

(** A receiver alone blocks on the empty queue. *)
Lemma queue_no_lost_wakeup_witness :
  let s := mrun queue_body (mstart ring 2) (take 2 acts) in
  threads s !! 1%nat = Some (TWaiting not_empty (RecvWoken OVE_WAIT_FOREVER) None) /\ qcount (shared s) = 0%nat.
Proof.
  split; [reflexivity|]. eapply (queue_no_lost_wakeup (replicate 4 0) 2 2 ring 2 (take 2 acts) 1);
    [reflexivity|reflexivity|repeat constructor| |reflexivity].
  intros [|[|t]] l; discriminate.
Defined.

End QueueDemo.
