(* ===== verification/PosixStream.v ===== *)
(** * Byte streams (backends/posix/posix_stream.c)

    A ring of bytes under a mutex with the condition variables
    [data_avail] and [space_avail]; a receiver waits for [trigger] bytes.
    Every call is a program of the monitor model. *)

From S2P Require Import Prelude Monitor Queue.

Module ByteRing.

(** ** Data *)

Record ove_stream := mk_stream {
  buffer : list Z; size : nat; trigger : nat; shead : nat; stail : nat; scount : nat;
  notify_cb : Z; notify_ud : Z }.

Inductive cond := data_avail | space_avail.
Global Instance cond_eq_dec : EqDecision cond.
Proof. solve_decision. Defined.

Inductive ev := EWrote (bs : list Z) | ERead (bs : list Z) | EReset | ENotify (cb ud : Z).

(** [src] is what is left to send, [n] the bytes sent so far. *)
Inductive pc :=
  | SendEnter (src : list Z) (timeout_ns : Z)
  | SendWoken (src : list Z) (n : nat) (timeout_ns : Z)
  | SendExpired (n : nat)
  | SendNotify (cb ud : Z) (n : nat)
  | RecvEnter (len : nat) (timeout_ns : Z)
  | RecvWoken (len : nat) (timeout_ns : Z)
  | RecvExpired
  | Reset
  | BytesAvailable
  | SetNotify (cb ud : Z).

(** The return code, the byte count reported and the bytes copied out. *)
Abbreviation result := (Z * nat * list Z)%type.
Abbreviation seg := (segment ove_stream pc cond result ev).

Definition ove_stream_init (buf : option (list Z)) (sz trig : nat) : Z * option ove_stream :=
  match buf with
  | Some buf =>
      if (sz =? 0)%nat then (OVE_ERR_INVALID_PARAM, None)
      else (OVE_OK, Some (mk_stream buf sz (if (0 <? trig)%nat then trig else 1) 0 0 0 0 0))
  | None => (OVE_ERR_INVALID_PARAM, None)
  end.

(** ** Send *)

(** [pthread_cond_timedwait] unless the wait is unbounded. *)
Definition expiry (timeout_ns : Z) (e : pc) : option pc :=
  if timeout_ns =? OVE_WAIT_FOREVER then None else Some e.

(** One byte into the ring, with the signal it sends. *)
Definition put_byte (s : ove_stream) (b : Z) : ove_stream :=
  {| s with buffer := aset (buffer s) (shead s) b; shead := (shead s + 1) mod size s; scount := scount s + 1 |}.
Definition put_signal (s : ove_stream) : list (sig cond) :=
  if (trigger s <=? scount s)%nat then [Signal data_avail] else [].

(** The bytes that fit now: the stream, the signals, and the bytes left. *)
Fixpoint fill (s : ove_stream) (src : list Z) : ove_stream * list (sig cond) * list Z :=
  match src with
  | [] => (s, [], [])
  | b :: rest =>
      if (size s <=? scount s)%nat then (s, [], src)
      else let s1 := put_byte s b in
           let '(s2, sigs, unsent) := fill s1 rest in (s2, put_signal s1 ++ sigs, unsent)
  end.

(** From label [done] on; the hook runs after the unlock. *)
Definition send_done (s : ove_stream) (n : nat) : next pc cond result :=
  if (0 <? n)%nat && negb (notify_cb s =? 0)
  then NUnlock (SendNotify (notify_cb s) (notify_ud s) n)
  else NReturn (OVE_OK, n, []).

Definition ove_stream_send (s : ove_stream) (src : list Z) (n : nat) (timeout_ns : Z) : seg :=
  let '(s', sigs, unsent) := fill s src in
  let k := (length src - length unsent)%nat in
  mk_seg s' sigs [EWrote (take k src)]
    (match unsent with
     | [] => send_done s' (n + k)
     | _ => if timeout_ns =? 0 then send_done s' (n + k)
            else NBlock space_avail (SendWoken unsent (n + k) timeout_ns) (expiry timeout_ns (SendExpired (n + k)))
     end).

(** ** Receive *)

Fixpoint drain (s : ove_stream) (len : nat) : ove_stream * list Z :=
  match len with
  | O => (s, [])
  | S len =>
      if (scount s =? 0)%nat then (s, [])
      else let b := aget 0 (buffer s) (stail s) in
           let '(s', bs) := drain {| s with stail := (stail s + 1) mod size s; scount := scount s - 1 |} len in
           (s', b :: bs)
  end.

Definition ove_stream_receive (s : ove_stream) (len : nat) (timeout_ns : Z) : seg :=
  if (scount s <? trigger s)%nat then
    if timeout_ns =? 0 then mk_seg s [] [] (NReturn (OVE_OK, 0%nat, []))
    else mk_seg s [] [] (NBlock data_avail (RecvWoken len timeout_ns) (expiry timeout_ns RecvExpired))
  else
    let '(s', bs) := drain s len in
    mk_seg s' [Signal space_avail] [ERead bs] (NReturn (OVE_OK, length bs, bs)).

Definition ove_stream_reset (s : ove_stream) : seg :=
  mk_seg {| s with shead := 0%nat; stail := 0%nat; scount := 0%nat |} [] [EReset] (NReturn (OVE_OK, 0%nat, [])).

Definition ove_stream_bytes_available (s : ove_stream) : seg :=
  mk_seg s [] [] (NReturn (OVE_OK, scount s, [])).

Definition ove_stream_set_notify (s : ove_stream) (cb ud : Z) : seg :=
  mk_seg {| s with notify_cb := cb; notify_ud := ud |} [] [] (NReturn (OVE_OK, 0%nat, [])).

(** The argument checks made before the mutex is taken. *)
Definition send_call (data : option (list Z)) (timeout_ns : Z) : Z + pc :=
  match data with
  | Some d => if (length d =? 0)%nat then inl OVE_ERR_INVALID_PARAM else inr (SendEnter d timeout_ns)
  | None => inl OVE_ERR_INVALID_PARAM
  end.
Definition receive_call (len : nat) (timeout_ns : Z) : Z + pc :=
  if (len =? 0)%nat then inl OVE_ERR_INVALID_PARAM else inr (RecvEnter len timeout_ns).
Definition ove_stream_send_from_isr (data : option (list Z)) : Z + pc := send_call data 0.
Definition ove_stream_receive_from_isr (len : nat) : Z + pc := receive_call len 0.

Definition stream_body (l : pc) (s : ove_stream) : seg :=
  match l with
  | SendEnter src t => ove_stream_send s src 0 t
  | SendWoken src n t => ove_stream_send s src n t
  | SendExpired n => mk_seg s [] [] (send_done s n)
  | SendNotify cb ud n => mk_seg s [] [ENotify cb ud] (NReturn (OVE_OK, n, []))
  | RecvEnter len t | RecvWoken len t => ove_stream_receive s len t
  | RecvExpired => mk_seg s [] [] (NReturn (OVE_OK, 0%nat, []))
  | Reset => ove_stream_reset s
  | BytesAvailable => ove_stream_bytes_available s
  | SetNotify cb ud => ove_stream_set_notify s cb ud
  end.

(** ** The stream is a FIFO of bytes *)

(** The content after the events of a log; [None] if some read returned
    anything but the oldest bytes. *)
Definition replay1 (c : option (list Z)) (e : ev) : option (list Z) :=
  c ← c;
  match e with
  | EWrote bs => Some (c ++ bs)
  | ERead bs => if decide (take (length bs) c = bs) then Some (drop (length bs) c) else None
  | EReset => Some []
  | ENotify _ _ => Some c
  end.
Definition replay (lg : list (nat * ev)) : option (list Z) := foldl replay1 (Some []) (snd <$> lg).

Record holds (s : ove_stream) (c : list Z) : Prop := {
  ho_size : (0 < size s)%nat;
  ho_trigger : (0 < trigger s)%nat;
  ho_buf : length (buffer s) = size s;
  ho_count : length c = scount s;
  ho_bound : (scount s <= size s)%nat;
  ho_tail : (stail s < size s)%nat;
  ho_head : shead s = ((stail s + scount s) mod size s)%nat;
  ho_bytes : forall k b, c !! k = Some b -> buffer s !! ((stail s + k) mod size s)%nat = Some b }.

Definition stream_rep (sz : nat) (s : ove_stream) (lg : list (nat * ev)) : Prop :=
  size s = sz /\ exists c, holds s c /\ replay lg = Some c.

Definition pc_ok (l : pc) : Prop :=
  match l with
  | RecvEnter len _ => (0 < len)%nat
  | RecvWoken len t => (0 < len)%nat /\ t <> 0
  | _ => True
  end.

Lemma replay_app lg t evs c : replay lg = Some c -> replay (lg ++ (pair t <$> evs)) = foldl replay1 (Some c) evs.
Proof.
  intros Hc. unfold replay in *. rewrite fmap_app, foldl_app, Hc. f_equal.
  rewrite <-list_fmap_compose. rewrite <-(list_fmap_id evs) at 2. apply list_fmap_ext. done.
Qed.

Lemma holds_put s c b : holds s c -> (scount s < size s)%nat -> holds (put_byte s b) (c ++ [b]).
Proof.
  intros [Hs Htr Hb Hc Hbd Ht Hh Hby] Hlt.
  assert (shead s < size s)%nat as Hhl by (rewrite Hh; apply Nat.mod_upper_bound; lia).
  split; cbn [put_byte buffer size trigger scount shead stail]; try done.
  - by rewrite length_aset.
  - rewrite length_app. cbn [length]. lia.
  - lia.
  - rewrite Hh, Nat.Div0.add_mod_idemp_l. f_equal. lia.
  - intros k x Hk. unfold aset. destruct (decide (k < length c)%nat) as [Hkl|Hkg].
    + rewrite lookup_app_l in Hk by done. rewrite list_lookup_insert_ne; [by apply Hby|].
      rewrite Hh. intros He. apply PosixQueue.mod_add_inj in He; lia.
    + rewrite lookup_app_r in Hk by lia. apply list_lookup_singleton_Some in Hk as [Hk0 <-].
      replace (stail s + k)%nat with (stail s + scount s)%nat by lia. rewrite <-Hh.
      apply list_lookup_insert_eq. lia.
Qed.

Lemma fill_spec src : forall s c s' sigs unsent, holds s c -> fill s src = (s', sigs, unsent) ->
  exists k, src = take k src ++ unsent /\ length (take k src) = k /\ holds s' (c ++ take k src) /\
    size s' = size s /\ trigger s' = trigger s /\ (unsent <> [] -> scount s' = size s') /\
    notify_cb s' = notify_cb s /\ notify_ud s' = notify_ud s.
Proof.
  induction src as [|b rest IH]; intros s c s' sigs unsent Hh; cbn [fill].
  { intros [= <- <- <-]. exists 0%nat. cbn [take]. rewrite (app_nil_r c). by split_and!. }
  destruct (size s <=? scount s)%nat eqn:Hf.
  { intros [= <- <- <-]. apply Nat.leb_le in Hf. exists 0%nat. cbn [take]. rewrite (app_nil_r c).
    split_and!; try done. intros _. pose proof (ho_bound _ _ Hh). lia. }
  apply Nat.leb_gt in Hf. destruct (fill (put_byte s b) rest) as [[s2 sg2] l2] eqn:Hr. intros [= <- <- <-].
  destruct (IH _ _ _ _ _ (holds_put _ _ b Hh Hf) Hr) as (k & Heq & Hk & Hh2 & Hsz & Htr & Hfull & Hcb & Hud).
  exists (S k). cbn [take]. rewrite <-app_assoc in Hh2. cbn [app] in *. split_and!; try done.
  - by rewrite <-Heq.
  - cbn [length]. by rewrite Hk.
Qed.

Lemma holds_get s b c : holds s (b :: c) ->
  aget 0 (buffer s) (stail s) = b /\
  holds {| s with stail := (stail s + 1) mod size s; scount := scount s - 1 |} c.
Proof.
  intros [Hs Htr Hb Hc Hbd Ht Hh Hby]. cbn [length] in Hc. split.
  { unfold aget. pose proof (Hby 0%nat b eq_refl) as H0. rewrite Nat.add_0_r, Nat.mod_small in H0 by done. by rewrite H0. }
  split; cbn [buffer size trigger scount shead stail]; try done; try lia.
  - apply Nat.mod_upper_bound. lia.
  - rewrite Hh, Nat.Div0.add_mod_idemp_l. f_equal. lia.
  - intros k x Hk. rewrite Nat.Div0.add_mod_idemp_l. specialize (Hby (S k) x Hk).
    by replace (stail s + 1 + k)%nat with (stail s + S k)%nat by lia.
Qed.

Lemma drain_spec len : forall s c s' bs, holds s c -> drain s len = (s', bs) ->
  exists c', c = bs ++ c' /\ length bs = min len (scount s) /\ holds s' c' /\ size s' = size s /\
    trigger s' = trigger s /\ scount s' = (scount s - length bs)%nat.
Proof.
  induction len as [|len IH]; intros s c s' bs Hh; cbn [drain].
  { intros [= <- <-]. exists c. split_and!; try done. cbn. lia. }
  destruct (scount s =? 0)%nat eqn:H0.
  { intros [= <- <-]. apply Nat.eqb_eq in H0. exists c. rewrite H0, Nat.min_0_r. by split_and!. }
  apply Nat.eqb_neq in H0. destruct c as [|b c]; [by pose proof (ho_count _ _ Hh)|].
  destruct (holds_get s b c Hh) as [Hb Hh']. destruct (drain _ len) as [s2 bs2] eqn:Hd. intros [= <- <-].
  destruct (IH _ _ _ _ Hh' Hd) as (c' & -> & Hl & Hh2 & Hsz & Htr & Hct). cbn [scount size trigger] in *.
  exists c'. rewrite Hb. cbn [app length]. split_and!; try done; lia.
Qed.

Definition segment_ok (sz t : nat) (lg : list (nat * ev)) (g : seg) : Prop :=
  stream_rep sz (seg_sh g) (lg ++ (pair t <$> seg_evs g)) /\ next_ok pc_ok (seg_next g).

(** A segment that moves no byte. *)
Lemma still_segment sz t s s' lg n evs : stream_rep sz s lg ->
  s' = {| s with notify_cb := notify_cb s'; notify_ud := notify_ud s' |} -> next_ok pc_ok n ->
  Forall (fun e => match e with ENotify _ _ => True | _ => False end) evs ->
  segment_ok sz t lg (mk_seg s' [] evs n).
Proof.
  intros (Hsz & c & Hh & Hr) Hs' Hn Hev. split; [|done]. cbn [seg_sh seg_evs]. rewrite Hs'. split; [done|]. exists c.
  split; [by destruct Hh|]. rewrite (replay_app lg t evs c Hr). clear -Hev.
  induction Hev as [|[] evs He _ IH]; try done.
Qed.

Lemma send_done_ok s n : next_ok pc_ok (send_done s n).
Proof. unfold send_done. by case_match. Qed.

Lemma stream_expiry_ok t e l : pc_ok e -> expiry t e = Some l -> pc_ok l.
Proof. unfold expiry. intros He. case_match; congruence. Qed.

Lemma stream_send_segment sz t src n to s lg : stream_rep sz s lg -> segment_ok sz t lg (ove_stream_send s src n to).
Proof.
  intros (Hsz & c & Hh & Hr). unfold ove_stream_send. destruct (fill s src) as [[s' sigs] unsent] eqn:Hf.
  destruct (fill_spec src s c s' sigs unsent Hh Hf) as (k & Heq & Hk & Hh' & Hsz' & _).
  assert (length src - length unsent = k)%nat as ->.
  { rewrite Heq at 1. rewrite length_app. lia. }
  split.
  - cbn [seg_sh seg_evs]. split; [congruence|]. exists (c ++ take k src). split; [done|].
    by rewrite (replay_app lg t _ c Hr).
  - cbn [seg_next]. destruct unsent; [apply send_done_ok|]. case_match; [apply send_done_ok|].
    split; [done|]. intros l'. by apply stream_expiry_ok.
Qed.

Lemma stream_receive_segment sz t len to s lg : (0 < len)%nat -> stream_rep sz s lg ->
  segment_ok sz t lg (ove_stream_receive s len to).
Proof.
  intros Hlen Hs. unfold ove_stream_receive. destruct (scount s <? trigger s)%nat.
  { destruct (to =? 0) eqn:Hto; (eapply still_segment; [done|by destruct s| |done]); [done|].
    apply Z.eqb_neq in Hto. split; [done|]. intros l'. by apply stream_expiry_ok. }
  destruct Hs as (Hsz & c & Hh & Hr). destruct (drain s len) as [s' bs] eqn:Hd.
  destruct (drain_spec len s c s' bs Hh Hd) as (c' & -> & Hl & Hh' & Hsz' & _).
  split; [|done]. cbn [seg_sh seg_evs]. split; [congruence|]. exists c'. split; [done|].
  rewrite (replay_app lg t _ _ Hr). cbn. rewrite take_app_length, decide_True, drop_app_length by done. done.
Qed.

Lemma reset_segment sz t s lg : stream_rep sz s lg -> segment_ok sz t lg (ove_stream_reset s).
Proof.
  intros (Hsz & c & [] & Hr). split; [|done]. split; [done|]. exists []. split; [|by rewrite (replay_app lg t _ c Hr)].
  split; cbn; try done; try lia. by rewrite Nat.Div0.mod_0_l.
Qed.

Lemma stream_segment sz t l s lg : pc_ok l -> stream_rep sz s lg -> segment_ok sz t lg (stream_body l s).
Proof.
  intros Hl Hs. destruct l; cbn [stream_body].
  - by apply stream_send_segment.
  - by apply stream_send_segment.
  - eapply still_segment; [done|by destruct s|apply send_done_ok|done].
  - eapply still_segment; [done|by destruct s|done|by repeat constructor].
  - by apply stream_receive_segment.
  - by apply stream_receive_segment; [destruct Hl|].
  - eapply still_segment; [done|by destruct s|done|done].
  - by apply reset_segment.
  - eapply still_segment; [done|by destruct s|done|done].
  - by eapply still_segment.
Qed.

(** ** Blocking

    A receiver needs [trigger] bytes, so the units that receivers take are
    the bytes from the trigger level on; a send signals once per unit. *)

Definition recv_woken (l : pc) : bool := match l with RecvWoken _ _ => true | _ => false end.
Definition ready_units (s : ove_stream) : nat := scount s + 1 - trigger s.

Definition some_rep (sz : nat) (s : ove_stream) : Prop := exists lg, stream_rep sz s lg.

Lemma stream_some_rep sz l s : pc_ok l -> some_rep sz s ->
  some_rep sz (seg_sh (stream_body l s)) /\ next_ok pc_ok (seg_next (stream_body l s)).
Proof. intros Hl [lg Hs]. destruct (stream_segment sz 0 l s lg Hl Hs) as [H1 H2]. split; [by eexists|done]. Qed.

Lemma stream_signals :
  signals data_avail [Signal data_avail] = 1%nat /\ signals data_avail [Signal space_avail] = 0%nat /\
  signals data_avail [] = 0%nat.
Proof. by vm_compute. Qed.

Lemma signals_app (a b : list (sig cond)) : signals data_avail (a ++ b) = (signals data_avail a + signals data_avail b)%nat.
Proof. unfold signals, count. by rewrite List.filter_app, length_app. Qed.

(** Every unit a send adds is signalled. *)
Lemma fill_units src : forall s s' sigs unsent, fill s src = (s', sigs, unsent) ->
  (ready_units s' <= ready_units s + signals data_avail sigs)%nat.
Proof.
  induction src as [|b rest IH]; intros s s' sigs unsent; cbn [fill].
  { intros [= <- <- <-]. lia. }
  destruct (size s <=? scount s)%nat; [intros [= <- <- <-]; lia|].
  destruct (fill (put_byte s b) rest) as [[s2 sg2] u2] eqn:Hr. intros [= <- <- <-].
  specialize (IH _ _ _ _ Hr). rewrite signals_app. pose proof stream_signals as (H1 & _ & H0).
  assert (ready_units (put_byte s b) <= ready_units s + signals data_avail (put_signal (put_byte s b)))%nat; [|lia].
  unfold put_signal, ready_units. cbn [put_byte scount trigger].
  destruct (trigger s <=? scount s + 1)%nat eqn:Ht; [rewrite H1|apply Nat.leb_gt in Ht; rewrite H0]; lia.
Qed.

Lemma send_done_returns s n l e : send_done s n <> NBlock data_avail l e.
Proof. unfold send_done. by case_match. Qed.

Lemma stream_blocks sz l s l' e : pc_ok l -> some_rep sz s -> seg_next (stream_body l s) = NBlock data_avail l' e ->
  recv_woken l' = true /\ ready_units (seg_sh (stream_body l s)) = 0%nat.
Proof.
  intros _ _. assert (forall len to, seg_next (ove_stream_receive s len to) = NBlock data_avail l' e ->
    recv_woken l' = true /\ ready_units (seg_sh (ove_stream_receive s len to)) = 0%nat) as Hrecv.
  { intros len to. unfold ove_stream_receive. destruct (scount s <? trigger s)%nat eqn:Hc; [|by destruct (drain s len)].
    apply Nat.ltb_lt in Hc. case_match; [done|]. cbn. intros [= <- _]. split; [done|]. unfold ready_units. lia. }
  assert (forall src n to, seg_next (ove_stream_send s src n to) <> NBlock data_avail l' e) as Hsend.
  { intros src n to. unfold ove_stream_send. destruct (fill s src) as [[s' sigs] unsent]. cbn [seg_next].
    destruct unsent; [apply send_done_returns|]. case_match; [apply send_done_returns|done]. }
  destruct l; cbn [stream_body]; try done; try apply Hrecv; intros H; exfalso.
  - by eapply Hsend.
  - by eapply Hsend.
  - by eapply send_done_returns.
Qed.

Lemma stream_units sz l s : pc_ok l -> some_rep sz s ->
  (forall l' e, seg_next (stream_body l s) <> NBlock data_avail l' e) ->
  (ready_units (seg_sh (stream_body l s)) + Nat.b2n (recv_woken l) <=
   ready_units s + signals data_avail (seg_sigs (stream_body l s)))%nat.
Proof.
  intros Hl (lg & Hsz & c & Hh & _) Hnb. pose proof stream_signals as (_ & H1 & H0).
  assert (forall src n to, ready_units (seg_sh (ove_stream_send s src n to)) + 0 <=
    ready_units s + signals data_avail (seg_sigs (ove_stream_send s src n to)))%nat as Hsend.
  { intros src n to. unfold ove_stream_send. destruct (fill s src) as [[s' sigs] unsent] eqn:Hf.
    apply fill_units in Hf. cbn [seg_sh seg_sigs]. lia. }
  assert (forall len to w, (0 < len)%nat -> (w = true -> to <> 0) ->
    (forall l' e, seg_next (ove_stream_receive s len to) <> NBlock data_avail l' e) ->
    (ready_units (seg_sh (ove_stream_receive s len to)) + Nat.b2n w <=
    ready_units s + signals data_avail (seg_sigs (ove_stream_receive s len to)))%nat) as Hrecv.
  { intros len to w Hlen Hw. unfold ove_stream_receive. destruct (scount s <? trigger s)%nat eqn:Hc.
    - destruct (to =? 0) eqn:Hto; [|intros Hn; by destruct (Hn _ _ eq_refl)]. intros _.
      apply Z.eqb_eq in Hto. destruct w; [by destruct Hw|]. cbn [seg_sh seg_sigs Nat.b2n]. lia.
    - apply Nat.ltb_ge in Hc. destruct (drain s len) as [s' bs] eqn:Hd. intros _.
      destruct (drain_spec len s c s' bs Hh Hd) as (c' & _ & Hlb & _ & _ & Htr & Hct).
      pose proof (ho_trigger _ _ Hh). cbn [seg_sh seg_sigs]. unfold ready_units. rewrite H1, Htr, Hct.
      destruct w; cbn [Nat.b2n]; lia. }
  destruct l as [src to|src n to|n|cb ud n|len to|len to| | | |cb ud]; cbn [stream_body recv_woken Nat.b2n] in *;
    try apply Hsend; try (by apply (Hrecv len to false)); try (by destruct Hl; apply (Hrecv len to true));
    unfold ready_units, ove_stream_reset, ove_stream_bytes_available, ove_stream_set_notify; cbn [seg_sh seg_sigs scount trigger]; lia.
Qed.

Lemma stream_receivers_matched sz acts s n : some_rep sz s -> Forall (act_ok pc_ok) acts ->
  matched data_avail recv_woken ready_units (mrun stream_body (mstart s n) acts).
Proof.
  intros Hs Ha. apply (no_lost_wakeup stream_body (some_rep sz) pc_ok); [| | |done..].
  - intros; by apply stream_some_rep.
  - intros; by eapply stream_blocks.
  - intros; by eapply stream_units.
Qed.

Lemma stream_init_rep buf sz trig s : ove_stream_init (Some buf) sz trig = (OVE_OK, Some s) ->
  length buf = sz -> stream_rep sz s [].
Proof.
  unfold ove_stream_init. destruct (sz =? 0)%nat eqn:H1; [done|]. intros [= <-] Hl. apply Nat.eqb_neq in H1.
  assert (0 < (if (0 <? trig)%nat then trig else 1))%nat.
  { destruct (0 <? trig)%nat eqn:Ht; [by apply Nat.ltb_lt in Ht|lia]. }
  split; [done|]. exists []. split; [|done].
  split; cbn [size trigger buffer scount stail shead]; try done; try (cbn; lia). by rewrite Nat.Div0.mod_0_l.
Qed.


(** A receive does not miss its trigger level: when no thread can run by
    itself, a thread blocked in a receive means that fewer than [trigger]
    bytes are in the stream, however many receivers there are and whatever
    the senders and other receivers did. *)
Theorem stream_receivers_wake buf sz trig s n acts t l e :
  ove_stream_init (Some buf) sz trig = (OVE_OK, Some s) -> length buf = sz ->
  Forall (act_ok pc_ok) acts ->
  let m := mrun stream_body (mstart s n) acts in
  quiescent m -> threads m !! t = Some (TWaiting data_avail l e) ->
  (scount (shared m) < trigger (shared m))%nat.
Proof.
  intros Hi Hl Ha m Hq Ht. pose proof (stream_init_rep _ _ _ _ Hi Hl) as Hs.
  assert (ready_units (shared m) = 0%nat) as H0.
  { eapply (quiescent_drained data_avail recv_woken ready_units); [apply (stream_receivers_matched sz)|done..].
    - by eexists.
    - done. }
  unfold ready_units in H0. lia.
Qed.

End ByteRing.

(** ** Runs *)

Module StreamDemo.
Import ByteRing.

Definition ring : ove_stream := mk_stream (replicate 4 0) 4 2 0 0 0 0 0.

(** Thread 0 sends five bytes through a ring of four; thread 1 reads. *)
Definition acts : list (act pc) :=
  [ACall 1 (RecvEnter 3 OVE_WAIT_FOREVER); ARun 1 []; ACall 0 (SendEnter [1; 2; 3; 4; 5] OVE_WAIT_FOREVER);
   ARun 0 [1%nat; 1%nat; 1%nat]; ARun 1 [0%nat]; ARun 0 []].

Example stream_run : let m := mrun stream_body (mstart ring 2) acts in
  threads m = [TReturned (OVE_OK, 5%nat, []); TReturned (OVE_OK, 3%nat, [1; 2; 3])] /\ scount (shared m) = 2%nat.
Proof. by vm_compute. Qed.

Lemma stream_acts_ok : Forall (act_ok pc_ok) acts.
Proof. repeat constructor. Qed.


(** One byte below the trigger level leaves the receiver waiting. *)
Definition short : list (act pc) :=
  [ACall 1 (RecvEnter 3 OVE_WAIT_FOREVER); ARun 1 []; ACall 0 (SendEnter [1] 0); ARun 0 []].

Lemma stream_receivers_wake_witness :
  let m := mrun stream_body (mstart ring 2) short in
  threads m !! 1%nat = Some (TWaiting data_avail (RecvWoken 3 OVE_WAIT_FOREVER) None) /\
  (scount (shared m) < trigger (shared m))%nat.
Proof.
  split; [reflexivity|].
  apply (stream_receivers_wake (replicate 4 0) 4 2 ring 2 short 1 (RecvWoken 3 OVE_WAIT_FOREVER) None);
    [reflexivity|reflexivity|repeat constructor| |reflexivity].
  intros [|[|t]] l; discriminate.
Defined.

(** Senders have no such guarantee: a receive signals [space_avail] once for
    all the bytes it frees, and the sender it wakes signals nobody.  Threads
    0 and 1 block on the full ring, thread 2 reads all of it, thread 0
    finishes, and thread 1 stays blocked with three bytes free. *)
Definition two_senders : list (act pc) :=
  [ACall 2 (SendEnter [1; 2; 3; 4] 0); ARun 2 [];
   ACall 0 (SendEnter [5] OVE_WAIT_FOREVER); ARun 0 []; ACall 1 (SendEnter [6] OVE_WAIT_FOREVER); ARun 1 [];
   ACall 2 (RecvEnter 4 0); ARun 2 [0%nat]; ARun 0 []].

Example second_sender_stuck : let m := mrun stream_body (mstart ring 3) two_senders in
  threads m = [TReturned (OVE_OK, 1%nat, []); TWaiting space_avail (SendWoken [6] 0 OVE_WAIT_FOREVER) None;
               TReturned (OVE_OK, 4%nat, [1; 2; 3; 4])] /\
  scount (shared m) = 1%nat /\ size (shared m) = 4%nat.
Proof. by vm_compute. Qed.

(** [ove_stream_reset] frees the whole ring and signals nobody. *)
Example reset_leaves_sender : let m := mrun stream_body (mstart ring 3)
    [ACall 2 (SendEnter [1; 2; 3; 4] 0); ARun 2 []; ACall 0 (SendEnter [5] OVE_WAIT_FOREVER); ARun 0 [];
     ACall 2 Reset; ARun 2 []] in
  threads m !! 0%nat = Some (TWaiting space_avail (SendWoken [5] 0 OVE_WAIT_FOREVER) None) /\ scount (shared m) = 0%nat.
Proof. by vm_compute. Qed.

(** A trigger above the ring's size is accepted, and the receiver then waits
    on a full ring. *)
Example trigger_above_size :
  exists s, ove_stream_init (Some (replicate 4 0)) 4 5 = (OVE_OK, Some s) /\
    let m := mrun stream_body (mstart s 2)
      [ACall 1 (RecvEnter 1 OVE_WAIT_FOREVER); ARun 1 []; ACall 0 (SendEnter [1; 2; 3; 4; 5] 0); ARun 0 []] in
    threads m !! 1%nat = Some (TWaiting data_avail (RecvWoken 1 OVE_WAIT_FOREVER) None) /\ scount (shared m) = 4%nat.
Proof. eexists. split; [reflexivity|]. by vm_compute. Qed.

End StreamDemo.
