(* ===== verification/Events.v ===== *)
(** * Event groups and events (backends/posix/posix_eventgroup.c, posix_sync.c)

    An event group is a word of bits under a mutex with one condition
    variable that every change broadcasts; an event is a binary semaphore
    with one condition variable that a post signals.  Both are programs of
    the monitor model. *)

From S2P Require Import Prelude Monitor Queue.

(** [pthread_cond_timedwait] unless the wait is unbounded. *)
Definition deadline {L} (timeout_ns : Z) (e : L) : option L :=
  if timeout_ns =? OVE_WAIT_FOREVER then None else Some e.

Module EventGroup.

(** ** Data *)

Record ove_eventgroup := mk_eg { bits : Z; notify_cb : Z; notify_ud : Z }.

Definition OVE_EG_WAIT_ALL : Z := 1.
Definition OVE_EG_CLEAR_ON_EXIT : Z := 2.

(** [ESet], [EClear]: bits set and cleared; [EGot]: a wait for [m] that
    succeeded and reported [r]. *)
Inductive ev := ESet (b : Z) | EClear (b : Z) | EGot (m flags r : Z) | ENotify (cb ud : Z).

Inductive pc :=
  | SetBits (b : Z)
  | SetNotified (cb ud r : Z)
  | ClearBits (b : Z)
  | GetBits
  | Wait (m flags timeout_ns : Z)
  | WaitExpired
  | SetNotify (cb ud : Z).

(** The return code and the bits reported. *)
Abbreviation result := (Z * Z)%type.
Abbreviation seg := (segment ove_eventgroup pc unit result ev).

Definition ove_eventgroup_init : Z * ove_eventgroup := (OVE_OK, mk_eg 0 0 0).

(** ** Operations *)

Definition ove_eventgroup_set_bits (g : ove_eventgroup) (b : Z) : seg :=
  let r := Z.lor (bits g) b in
  mk_seg {| g with bits := r |} [Broadcast tt] [ESet b]
    (if negb (b =? 0) && negb (notify_cb g =? 0)
     then NUnlock (SetNotified (notify_cb g) (notify_ud g) r) else NReturn (OVE_OK, r)).

Definition ove_eventgroup_set_bits_from_isr (b : Z) : pc := SetBits b.

Definition ove_eventgroup_clear_bits (g : ove_eventgroup) (b : Z) : seg :=
  mk_seg {| g with bits := Z.land (bits g) (Z.lnot b) |} [] [EClear b] (NReturn (OVE_OK, bits g)).

Definition ove_eventgroup_get_bits (g : ove_eventgroup) : seg :=
  mk_seg g [] [] (NReturn (OVE_OK, bits g)).

Definition flag (flags f : Z) : bool := negb (Z.land flags f =? 0).

Definition satisfied (m flags b : Z) : bool :=
  if flag flags OVE_EG_WAIT_ALL then Z.land b m =? m else negb (Z.land b m =? 0).

Definition taken (m flags b : Z) : Z :=
  if flag flags OVE_EG_CLEAR_ON_EXIT then Z.land b (Z.lnot m) else b.

Definition ove_eventgroup_wait_bits (g : ove_eventgroup) (m flags timeout_ns : Z) : seg :=
  if satisfied m flags (bits g)
  then mk_seg {| g with bits := taken m flags (bits g) |} [] [EGot m flags (bits g)] (NReturn (OVE_OK, bits g))
  else mk_seg g [] [] (NBlock tt (Wait m flags timeout_ns) (deadline timeout_ns WaitExpired)).

Definition wait_expired (g : ove_eventgroup) : seg := mk_seg g [] [] (NReturn (OVE_ERR_TIMEOUT, bits g)).

Definition ove_eventgroup_set_notify (g : ove_eventgroup) (cb ud : Z) : seg :=
  mk_seg {| g with notify_cb := cb; notify_ud := ud |} [] [] (NReturn (OVE_OK, 0)).

Definition eventgroup_body (l : pc) (g : ove_eventgroup) : seg :=
  match l with
  | SetBits b => ove_eventgroup_set_bits g b
  | SetNotified cb ud r => mk_seg g [] [ENotify cb ud] (NReturn (OVE_OK, r))
  | ClearBits b => ove_eventgroup_clear_bits g b
  | GetBits => ove_eventgroup_get_bits g
  | Wait m flags t => ove_eventgroup_wait_bits g m flags t
  | WaitExpired => wait_expired g
  | SetNotify cb ud => ove_eventgroup_set_notify g cb ud
  end.

(** ** The group as a word of bits

    The word after the events of a log; [None] if some wait reported
    another word, or succeeded without its bits. *)
Definition apply1 (w : option Z) (e : ev) : option Z :=
  w ← w;
  match e with
  | ESet b => Some (Z.lor w b)
  | EClear b => Some (Z.land w (Z.lnot b))
  | EGot m flags r => if (r =? w) && satisfied m flags w then Some (taken m flags w) else None
  | ENotify _ _ => Some w
  end.
Definition word (lg : list (nat * ev)) : option Z := foldl apply1 (Some 0) (snd <$> lg).

Lemma word_app lg t evs w : word lg = Some w -> word (lg ++ (pair t <$> evs)) = foldl apply1 (Some w) evs.
Proof.
  intros Hw. unfold word in *. rewrite fmap_app, foldl_app, Hw. f_equal.
  rewrite <-list_fmap_compose. rewrite <-(list_fmap_id evs) at 2. by apply list_fmap_ext.
Qed.

Lemma eventgroup_segment t l g lg : word lg = Some (bits g) ->
  word (lg ++ (pair t <$> seg_evs (eventgroup_body l g))) = Some (bits (seg_sh (eventgroup_body l g))) /\
  next_ok (fun _ => True) (seg_next (eventgroup_body l g)).
Proof.
  intros Hw. rewrite (word_app lg t _ _ Hw). split; [|by destruct (seg_next _)].
  destruct l; try done. cbn [eventgroup_body]. unfold ove_eventgroup_wait_bits.
  destruct (satisfied m flags (bits g)) eqn:Hs; [|done]. cbn. by rewrite Z.eqb_refl, Hs.
Qed.

(** ** Waiting *)

(** What [l] waits for has not happened. *)
Definition unsatisfied (l : pc) (g : ove_eventgroup) : Prop :=
  match l with Wait m flags _ => satisfied m flags (bits g) = false | _ => False end.

Lemma satisfied_subset m flags b b' : Z.land b' b = b' -> satisfied m flags b = false -> satisfied m flags b' = false.
Proof.
  unfold satisfied. intros Hsub. destruct (flag flags OVE_EG_WAIT_ALL).
  - rewrite !Z.eqb_neq. intros H H'. apply H. rewrite <-H', <-Hsub.
    apply Z.bits_inj'. intros n _. rewrite !Z.land_spec. by destruct (Z.testbit b' n), (Z.testbit b n), (Z.testbit m n).
  - rewrite !negb_false_iff, !Z.eqb_eq. intros H. rewrite <-Hsub. rewrite <-Z.land_assoc, H. apply Z.land_0_r.
Qed.

Lemma cleared_subset b m : Z.land (Z.land b (Z.lnot m)) b = Z.land b (Z.lnot m).
Proof.
  apply Z.bits_inj'. intros n _. rewrite !Z.land_spec. by destruct (Z.testbit b n), (Z.testbit (Z.lnot m) n).
Qed.

Lemma taken_subset m flags b : Z.land (taken m flags b) b = taken m flags b.
Proof. unfold taken. destruct (flag _ _); [apply cleared_subset|apply Z.land_diag]. Qed.

(** A segment takes bits away, or broadcasts. *)
Lemma eventgroup_step_bits l g :
  Z.land (bits (seg_sh (eventgroup_body l g))) (bits g) = bits (seg_sh (eventgroup_body l g)) \/
  Broadcast tt ∈ seg_sigs (eventgroup_body l g).
Proof.
  destruct l; cbn [eventgroup_body]; try (left; by rewrite Z.land_diag).
  - right. by left.
  - left. apply cleared_subset.
  - left. unfold ove_eventgroup_wait_bits. destruct (satisfied _ _ _); [apply taken_subset|by rewrite Z.land_diag].
Qed.


End EventGroup.

Module Event.

(** ** Binary semaphores *)

Record ove_event := mk_event { signaled : bool }.

Inductive ev := EPost | ETaken.
Inductive pc := Signal_ | Wait (timeout_ns : Z) | Woken (timeout_ns : Z) | WaitExpired.
Abbreviation seg := (segment ove_event pc unit Z ev).

Definition ove_event_init : Z * ove_event := (OVE_OK, mk_event false).

Definition ove_event_signal (e : ove_event) : seg := mk_seg (mk_event true) [Signal tt] [EPost] (NReturn OVE_OK).
Definition ove_event_signal_from_isr : pc := Signal_.

(** From the end of the wait loop on. *)
Definition take_event (e : ove_event) : seg := mk_seg (mk_event false) [] [ETaken] (NReturn OVE_OK).

Definition ove_event_wait (e : ove_event) (timeout_ns : Z) : seg :=
  if signaled e then take_event e
  else mk_seg e [] [] (NBlock tt (Woken timeout_ns) (deadline timeout_ns WaitExpired)).

(** The re-check after an expired wait. *)
Definition wait_expired (e : ove_event) : seg :=
  if signaled e then take_event e else mk_seg e [] [] (NReturn OVE_ERR_TIMEOUT).

Definition event_body (l : pc) (e : ove_event) : seg :=
  match l with
  | Signal_ => ove_event_signal e
  | Wait t | Woken t => ove_event_wait e t
  | WaitExpired => wait_expired e
  end.

Definition posts (lg : list (nat * ev)) : nat := count (fun x => match x.2 with EPost => true | _ => false end) lg.
Definition takes (lg : list (nat * ev)) : nat := count (fun x => match x.2 with ETaken => true | _ => false end) lg.
Definition is_woken (l : pc) : bool := match l with Woken _ => true | _ => false end.
Definition posted (e : ove_event) : nat := Nat.b2n (signaled e).

Lemma count_app {A} (p : A -> bool) l k : count p (l ++ k) = (count p l + count p k)%nat.
Proof. unfold count. by rewrite List.filter_app, length_app. Qed.

Lemma event_segment t l e lg : (takes lg + posted e <= posts lg)%nat ->
  (takes (lg ++ (pair t <$> seg_evs (event_body l e))) + posted (seg_sh (event_body l e)) <=
   posts (lg ++ (pair t <$> seg_evs (event_body l e))))%nat /\ next_ok (fun _ => True) (seg_next (event_body l e)).
Proof.
  intros Hc. split; [|by destruct (seg_next _)]. unfold takes, posts, posted in *. rewrite !count_app.
  destruct e as [[]], l; cbn in *; lia.
Qed.

Lemma event_matched n acts :
  matched tt is_woken posted (mrun event_body (mstart (snd ove_event_init) n) acts).
Proof.
  apply (no_lost_wakeup event_body (fun _ => True) (fun _ => True)); [..|done|by apply Forall_true; intros []].
  - intros l e _ _. split; [done|by destruct (seg_next _)].
  - intros l [[]] l' e' _ _; destruct l; cbn; try done; by intros [= <- _].
  - intros l [[]] _ _ Hn; destruct l; cbn [event_body] in *; try (by destruct (Hn _ _ eq_refl));
      by apply Nat.leb_le.
Qed.

(** An event is a binary semaphore: each successful wait consumes a post
    of its own (waits that returned [OVE_OK] plus the stored signal never
    exceed the posts), a wait that times out has re-checked the flag, and
    when no thread can run by itself a blocked waiter means that the event is
    not signaled: no post is lost to a waiter that another thread
    overtook. *)
Theorem event_no_lost_post n acts :
  let s := mrun event_body (mstart (snd ove_event_init) n) acts in
  (takes (log s) + Nat.b2n (signaled (shared s)) <= posts (log s))%nat /\
  (quiescent s -> forall t l e, threads s !! t = Some (TWaiting tt l e) -> signaled (shared s) = false).
Proof.
  intros s. split.
  - assert (mon_inv (fun e lg => takes lg + posted e <= posts lg)%nat (fun _ => True) s) as [Hw _]; [|exact Hw].
    apply mrun_inv; [|by apply Forall_true; intros []|by apply mstart_inv]. intros. by apply event_segment.
  - intros Hq t l e Ht.
    assert (posted (shared s) = 0%nat) as H0
      by (by eapply (quiescent_drained tt is_woken posted); [apply event_matched|..]).
    unfold posted in H0. by destruct (signaled (shared s)).
Qed.

End Event.

(** ** Runs *)

Module EventsDemo.

(** Thread 0 waits for bits 1 and 2 together and clears them; thread 1 sets
    them one after the other. *)
Definition group_acts : list (act EventGroup.pc) :=
  [ACall 0 (EventGroup.Wait 3 3 OVE_WAIT_FOREVER); ARun 0 []; ACall 1 (EventGroup.SetBits 1); ARun 1 [];
   ARun 0 []; ACall 1 (EventGroup.SetBits 6); ARun 1 []; ARun 0 []].

Example group_run :
  let s := mrun EventGroup.eventgroup_body (mstart (snd EventGroup.ove_eventgroup_init) 2) group_acts in
  threads s = [TReturned (OVE_OK, 7); TReturned (OVE_OK, 7)] /\ EventGroup.bits (shared s) = 4.
Proof. by vm_compute. Qed.


(** Two waiters, two posts, and a third thread that takes the first post
    before the woken waiter runs: one waiter is left, on a cleared event. *)
Definition event_acts : list (act Event.pc) :=
  [ACall 0 (Event.Wait OVE_WAIT_FOREVER); ARun 0 []; ACall 1 (Event.Wait OVE_WAIT_FOREVER); ARun 1 [];
   ACall 3 Event.Signal_; ARun 3 [0%nat]; ACall 2 (Event.Wait 0); ARun 2 []; ARun 0 [];
   ACall 3 Event.Signal_; ARun 3 [0%nat]; ARun 0 []].

Lemma event_no_lost_post_witness :
  let s := mrun Event.event_body (mstart (snd Event.ove_event_init) 4) event_acts in
  threads s !! 1%nat = Some (TWaiting tt (Event.Woken OVE_WAIT_FOREVER) None) /\
  Event.signaled (shared s) = false.
Proof.
  split; [reflexivity|].
  refine (proj2 (Event.event_no_lost_post 4 event_acts) _ 1%nat _ None eq_refl).
  intros [|[|[|[|t]]]] l; discriminate.
Defined.

End EventsDemo.
