(* ===== verification/Work.v ===== *)
(** * Work queues (backends/posix/posix_workqueue.c)

    One worker thread takes work items from an array under a mutex, sleeps
    for the item's delay, re-checks that it was not cancelled and runs its
    handler without the mutex; submissions, cancellations and the teardown
    run on other threads.  Each is a program of the monitor model, the
    worker being thread 0.

    The items live in a store indexed by their address; [wq] of an item
    says whether its back pointer is set (the model has one queue).  A
    handler is an event: what it does to other items appears as calls of
    other threads while the worker is between two segments. *)

From S2P Require Import Prelude Monitor.

Module WorkQueue.

(** ** Data *)

Definition OVE_WQ_MAX_PENDING : nat := 64.

Record ove_work := mk_work { handler : Z; delay_ms : Z; pending : bool; in_progress : bool; wq : bool }.
Record ove_workqueue := mk_wq { queue : list nat; qcount : nat; running : bool }.

(** The queue, the items, and whether the worker thread has ended. *)
Record sys := mk_sys { que : ove_workqueue; works : nat -> ove_work; exited : bool }.

Inductive cond := wcond | exit_cond.
Global Instance cond_eq_dec : EqDecision cond.
Proof. solve_decision. Defined.

Inductive ev :=
  | ESubmitted (w : nat) | ECancelled (w : nat) | ESleep (ms : Z) | EHandler (w : nat) | EDropped (w : nat).

Inductive pc :=
  (* the worker *)
  | WTop
  | WSleep (w : nat) (execute : bool)
  | WRecheck (w : nat) (execute : bool)
  | WCall (w : nat) (execute still_pending : bool)
  | WFinish (w : nat)
  (* the callers; [de] marks a cancellation made by [ove_work_deinit] *)
  | Submit (w : nat) (delay : Z)
  | Cancel (w : nat) (de : bool)
  | CancelLocked (w : nat) (de : bool)
  | CancelWait (w : nat) (was_pending de : bool)
  | ClearHandler (w : nat)
  | Stop
  | Join.

Abbreviation seg := (segment sys pc cond Z ev).
Abbreviation thread := (tstate pc cond Z).
Abbreviation machine := (mstate sys pc cond Z ev).

(** Stores to fields of item [w]. *)
Definition upd (f : nat -> ove_work) (w : nat) (g : ove_work -> ove_work) : nat -> ove_work :=
  fun v => if decide (v = w) then g (f v) else f v.

(** [memmove(&queue[i], &queue[i+1], (count - i - 1) * slot)] *)
Definition close_gap (q : list nat) (count i : nat) : list nat :=
  take i q ++ take (count - i - 1) (drop (S i) q) ++ drop (count - 1) q.

Definition remove_at (Q : ove_workqueue) (i : nat) : ove_workqueue :=
  {| Q with queue := close_gap (queue Q) (qcount Q) i; qcount := qcount Q - 1 |}.

(** [queue[count++] = w] *)
Definition append (Q : ove_workqueue) (w : nat) : ove_workqueue :=
  {| Q with queue := aset (queue Q) (qcount Q) w; qcount := qcount Q + 1 |}.

Definition ove_workqueue_init (slots : list nat) (items : nat -> ove_work) : sys :=
  mk_sys (mk_wq slots 0 true) items false.

Definition ove_work_init_static (h : Z) : Z * option ove_work :=
  if h =? 0 then (OVE_ERR_INVALID_PARAM, None) else (OVE_OK, Some (mk_work h 0 false false false)).

(** ** The worker *)

(** From the top of the loop to the first unlock. *)
Definition wq_dequeue (s : sys) : seg :=
  if (qcount (que s) =? 0)%nat && running (que s) then mk_seg s [] [] (NBlock wcond WTop None) else
  if negb (running (que s)) && (qcount (que s) =? 0)%nat
  then mk_seg {| s with exited := true |} [Broadcast exit_cond] [] (NReturn OVE_OK) else
  let w := aget 0%nat (queue (que s)) 0 in
  mk_seg {| s with que := remove_at (que s) 0; works := upd (works s) w (fun it => {| it with in_progress := true |}) |}
    [] [] (NUnlock (WSleep w (running (que s)))).

Definition wq_sleep (s : sys) (w : nat) (execute : bool) : seg :=
  mk_seg s [] (if execute && (0 <? delay_ms (works s w)) then [ESleep (delay_ms (works s w))] else [])
    (NUnlock (WRecheck w execute)).

Definition wq_recheck (s : sys) (w : nat) (execute : bool) : seg :=
  mk_seg {| s with works := upd (works s) w (fun it => {| it with pending := false |}) |} [] []
    (NUnlock (WCall w execute (pending (works s w)))).

Definition wq_call (s : sys) (w : nat) (execute still_pending : bool) : seg :=
  mk_seg s []
    (if execute && still_pending && negb (handler (works s w) =? 0) then [EHandler w]
     else if still_pending then [EDropped w] else [])
    (NUnlock (WFinish w)).

Definition wq_finish (s : sys) (w : nat) : seg :=
  mk_seg {| s with works := upd (works s) w (fun it => {| it with in_progress := false; wq := false |}) |}
    [Broadcast wcond] [] (NUnlock WTop).

(** ** Submission *)

Definition ove_work_submit_delayed (s : sys) (w : nat) (delay : Z) : seg :=
  let it := works s w in
  if negb (running (que s)) || wq it || pending it || in_progress it then mk_seg s [] [] (NReturn OVE_ERR_BUSY) else
  if (OVE_WQ_MAX_PENDING <=? qcount (que s))%nat then mk_seg s [] [] (NReturn OVE_ERR_NO_MEMORY) else
  mk_seg {| s with works := upd (works s) w (fun it => {| it with delay_ms := delay; wq := true; pending := true |});
                   que := append (que s) w |}
    [Signal wcond] [ESubmitted w] (NReturn OVE_OK).

Definition ove_work_submit (s : sys) (w : nat) : seg := ove_work_submit_delayed s w 0.

(** ** Cancellation *)

(** The acquire load before the mutex. *)
Definition cancel_done (w : nat) (de : bool) (rc : Z) : next pc cond Z :=
  if de then NUnlock (ClearHandler w) else NReturn rc.

Definition ove_work_cancel (s : sys) (w : nat) (de : bool) : seg :=
  if wq (works s w) then mk_seg s [] [] (NUnlock (CancelLocked w de))
  else mk_seg s [] [] (cancel_done w de OVE_ERR_INVAL).

(** The wait for the handler, and the return. *)
Definition cancel_wait (s : sys) (w : nat) (was_pending de : bool) (evs : list ev) : seg :=
  if in_progress (works s w) then mk_seg s [] evs (NBlock wcond (CancelWait w was_pending de) None)
  else mk_seg s [] evs (cancel_done w de (if was_pending then OVE_OK else OVE_ERR_INVAL)).

Definition cancel_locked (s : sys) (w : nat) (de : bool) : seg :=
  let it := works s w in
  let s1 := match find_idx (fun v => (v =? w)%nat) (take (qcount (que s)) (queue (que s))) with
            | Some i => {| s with que := remove_at (que s) i;
                                  works := upd (works s) w (fun it => {| it with pending := false; wq := false |}) |}
            | None => {| s with works := upd (works s) w (fun it => {| it with pending := false |}) |}
            end in
  cancel_wait s1 w (pending it) de (if pending it then [ECancelled w] else []).

Definition ove_work_deinit (w : nat) : pc := Cancel w true.

Definition clear_handler (s : sys) (w : nat) : seg :=
  mk_seg {| s with works := upd (works s) w (fun it => {| it with handler := 0 |}) |} [] [] (NReturn OVE_OK).

(** ** Teardown *)

Definition halt (Q : ove_workqueue) : ove_workqueue := {| Q with running := false |}.

Definition ove_workqueue_deinit (s : sys) : seg :=
  mk_seg {| s with que := halt (que s) |} [Signal wcond] [] (NUnlock Join).

(** [pthread_join] *)
Definition join (s : sys) : seg :=
  if exited s then mk_seg s [] [] (NReturn OVE_OK) else mk_seg s [] [] (NBlock exit_cond Join None).

Definition work_body (l : pc) (s : sys) : seg :=
  match l with
  | WTop => wq_dequeue s
  | WSleep w ex => wq_sleep s w ex
  | WRecheck w ex => wq_recheck s w ex
  | WCall w ex sp => wq_call s w ex sp
  | WFinish w => wq_finish s w
  | Submit w delay => ove_work_submit_delayed s w delay
  | Cancel w de => ove_work_cancel s w de
  | CancelLocked w de => cancel_locked s w de
  | CancelWait w was de => cancel_wait s w was de []
  | ClearHandler w => clear_handler s w
  | Stop => ove_workqueue_deinit s
  | Join => join s
  end.

(** ** Runs

    The worker is created with the queue; the other threads call the entry
    points. *)

Definition entry (l : pc) : Prop := match l with Submit _ _ | Cancel _ _ | Stop => True | _ => False end.
Definition caller (a : act pc) : Prop := match a with ACall t l => t <> 0%nat /\ entry l | _ => True end.

Definition started (slots : list nat) (items : nat -> ove_work) (n : nat) : machine :=
  mstep work_body (mstart (ove_workqueue_init slots items) (S n)) (ACall 0 WTop).

Definition fresh (items : nat -> ove_work) : Prop :=
  forall w, pending (items w) = false /\ in_progress (items w) = false /\ wq (items w) = false.

(** ** The invariant *)

(** The queued items, oldest first. *)
Definition queued (s : sys) : list nat := take (qcount (que s)) (queue (que s)).

(** The item the worker has in its hands, and whether it is about to decide
    on its handler. *)
Definition held (T : thread) : option nat :=
  match T with
  | TReady (WSleep w _) | TReady (WRecheck w _) | TReady (WCall w _ _) | TReady (WFinish w) => Some w
  | _ => None
  end.
Definition called (w : nat) (T : thread) : bool :=
  match T with TReady (WCall v _ true) => bool_decide (v = w) | _ => false end.

Definition worker_ok (T : thread) (s : sys) : Prop :=
  match T with
  | TReady (WTop | WSleep _ _ | WRecheck _ _) => exited s = false
  | TReady (WCall w _ _ | WFinish w) => exited s = false /\ pending (works s w) = false
  | TWaiting wcond WTop None => exited s = false /\ qcount (que s) = 0%nat /\ running (que s) = true
  | TReturned _ => exited s = true /\ qcount (que s) = 0%nat /\ running (que s) = false
  | _ => False
  end.

Definition caller_ok (h : option nat) (s : sys) (x : thread) : Prop :=
  match x with
  | TIdle | TReturned _ => True
  | TReady (Submit _ _ | Cancel _ _ | CancelLocked _ _ | CancelWait _ _ _ | ClearHandler _ | Stop) => True
  | TReady Join => running (que s) = false
  | TWaiting wcond (CancelWait w _ _) None => h = Some w
  | TWaiting exit_cond Join None => running (que s) = false /\ exited s = false
  | _ => False
  end.

Definition submitted (e : ev) : option nat := match e with ESubmitted v => Some v | _ => None end.
Definition handled (e : ev) : option nat := match e with EHandler v => Some v | _ => None end.
Definition cancelled (e : ev) : option nat := match e with ECancelled v => Some v | _ => None end.
Definition dropped (e : ev) : option nat := match e with EDropped v => Some v | _ => None end.

(** Events of one kind about item [w]. *)
Definition hits (w : nat) (kind : ev -> option nat) (evs : list ev) : nat :=
  count (fun e => bool_decide (kind e = Some w)) evs.
Definition submits (w : nat) (lg : list (nat * ev)) : nat := hits w submitted (snd <$> lg).
Definition runs (w : nat) (lg : list (nat * ev)) : nat := hits w handled (snd <$> lg).
Definition cancels (w : nat) (lg : list (nat * ev)) : nat := hits w cancelled (snd <$> lg).
Definition drops (w : nat) (lg : list (nat * ev)) : nat := hits w dropped (snd <$> lg).

(** What happened to the submissions of [w]; [c] is [called w]. *)
Definition accounted (w : nat) (c : bool) (s : sys) (lg : list (nat * ev)) : Prop :=
  submits w lg = (runs w lg + cancels w lg + drops w lg + Nat.b2n (pending (works s w)) + Nat.b2n c)%nat.

Record item_ok (h : option nat) (s : sys) (w : nat) : Prop := {
  it_wq : wq (works s w) = true <-> w ∈ queued s \/ h = Some w;
  it_progress : in_progress (works s w) = true <-> h = Some w;
  it_excl : w ∈ queued s -> h <> Some w;
  it_pending : w ∈ queued s -> pending (works s w) = true;
  it_backed : pending (works s w) = true -> wq (works s w) = true }.

Record queue_ok (s : sys) : Prop := {
  qu_slots : length (queue (que s)) = OVE_WQ_MAX_PENDING;
  qu_bound : (qcount (que s) <= OVE_WQ_MAX_PENDING)%nat;
  qu_nodup : NoDup (queued s) }.

Record work_inv (m : machine) : Prop := {
  wi_queue : queue_ok (shared m);
  wi_worker : exists T, threads m !! 0%nat = Some T /\ worker_ok T (shared m) /\
    (forall w, item_ok (held T) (shared m) w) /\
    (forall w, accounted w (called w T) (shared m) (log m)) /\
    (forall t x, t <> 0%nat -> threads m !! t = Some x -> caller_ok (held T) (shared m) x) }.

(** ** The array *)

Lemma take_close_gap q n i : (i < n)%nat -> (n <= length q)%nat -> take (n - 1) (close_gap q n i) = delete i (take n q).
Proof.
  intros Hi Hn. unfold close_gap. rewrite app_assoc, take_app_length'.
  - rewrite delete_take_drop, take_take, skipn_firstn_comm. f_equal; f_equal; lia.
  - rewrite length_app, !length_take, length_drop. lia.
Qed.

Lemma length_close_gap q n i : (i < n)%nat -> (n <= length q)%nat -> length (close_gap q n i) = length q.
Proof. intros Hi Hn. unfold close_gap. rewrite !length_app, !length_take, !length_drop. lia. Qed.

Lemma queued_remove s w i : queue_ok s -> queued s !! i = Some w ->
  forall works', let s' := {| s with que := remove_at (que s) i; works := works' |} in
  queue_ok s' /\ (forall v, v ∈ queued s' <-> v ∈ queued s /\ v <> w).
Proof.
  intros [Hl Hb Hnd] Hi works' s'. assert (Hin : (i < qcount (que s))%nat).
  { apply lookup_lt_Some in Hi. unfold queued in Hi. rewrite length_take in Hi. lia. }
  assert (Hq : queued s' = delete i (queued s)).
  { unfold queued. cbn. apply take_close_gap; lia. }
  pose proof (delete_Permutation _ _ _ Hi) as Hp. pose proof Hnd as Hnd'. rewrite Hp, NoDup_cons in Hnd'.
  split; [split|].
  - cbn. rewrite length_close_gap; lia.
  - cbn. lia.
  - rewrite Hq. apply Hnd'.
  - intros v. rewrite Hq. destruct Hnd' as [Hw _].
    assert (v ∈ queued s <-> v = w \/ v ∈ delete i (queued s)) as -> by (rewrite Hp at 1; apply elem_of_cons).
    set_solver.
Qed.

Lemma queued_append_eq s w works' : queue_ok s -> (qcount (que s) < OVE_WQ_MAX_PENDING)%nat ->
  queued {| s with works := works'; que := append (que s) w |} = queued s ++ [w].
Proof.
  intros [Hl Hb Hnd] Hlt. unfold queued. cbn. unfold aset. rewrite Nat.add_1_r.
  rewrite (take_S_r _ _ w) by (apply list_lookup_insert_eq; lia). by rewrite take_insert_ge by lia.
Qed.

Lemma queued_append s w : queue_ok s -> (qcount (que s) < OVE_WQ_MAX_PENDING)%nat -> w ∉ queued s ->
  forall works', let s' := {| s with works := works'; que := append (que s) w |} in
  queue_ok s' /\ (forall v, v ∈ queued s' <-> v ∈ queued s \/ v = w).
Proof.
  intros Hq Hlt Hw works' s'. pose proof (queued_append_eq s w works' Hq Hlt) as He. fold s' in He.
  destruct Hq as [Hl Hb Hnd]. split; [split|].
  - cbn. by rewrite length_aset.
  - cbn. lia.
  - rewrite He. apply NoDup_app. split; [done|]. split; [|apply NoDup_singleton]. set_solver.
  - intros v. rewrite He. set_solver.
Qed.

Lemma queued_head s : queue_ok s -> (qcount (que s) <> 0)%nat -> queued s !! 0%nat = Some (aget 0%nat (queue (que s)) 0).
Proof.
  intros [Hl Hb _] H0. unfold queued, aget. rewrite lookup_take_lt by lia.
  destruct (queue (que s)) as [|x q]; [by cbn in Hl|done].
Qed.

(** ** Counting *)

Lemma hits_log w k (lg : list (nat * ev)) t evs : hits w k (snd <$> (lg ++ (pair t <$> evs))) = (hits w k (snd <$> lg) + hits w k evs)%nat.
Proof.
  unfold hits, count. rewrite fmap_app, List.filter_app, length_app. do 3 f_equal.
  rewrite <-list_fmap_compose. rewrite <-(list_fmap_id evs) at 2. by apply list_fmap_ext.
Qed.

(** The new events balance the change of the flags. *)
Lemma accounted_app w c c' s s' lg t evs : accounted w c s lg ->
  (hits w submitted evs + Nat.b2n (pending (works s w)) + Nat.b2n c =
   hits w handled evs + hits w cancelled evs + hits w dropped evs + Nat.b2n (pending (works s' w)) + Nat.b2n c')%nat ->
  accounted w c' s' (lg ++ (pair t <$> evs)).
Proof. unfold accounted, submits, runs, cancels, drops. rewrite !hits_log. lia. Qed.

Ltac tally := unfold hits, count; cbn; repeat case_bool_decide; simplify_eq; cbn; try done; try lia.

(** ** Segments of the callers *)

Definition state_ok (h : option nat) (c : nat -> bool) (s : sys) (lg : list (nat * ev)) : Prop :=
  queue_ok s /\ (forall w, item_ok h s w) /\ (forall w, accounted w (c w) s lg).

Definition seg_ok (h : option nat) (c : nat -> bool) (t : nat) (lg : list (nat * ev)) (g : seg) : Prop :=
  state_ok h c (seg_sh g) (lg ++ (pair t <$> seg_evs g)).

Lemma same_seg h c t s lg sigs n : state_ok h c s lg -> seg_ok h c t lg (mk_seg s sigs [] n).
Proof. intros Hs. unfold seg_ok. cbn. by rewrite app_nil_r. Qed.

(** How a caller may change what the worker looks at. *)
Record mild (s s' : sys) (sigs : list (sig cond)) : Prop := {
  mi_exited : exited s' = exited s;
  mi_running : running (que s) = false -> running (que s') = false;
  mi_stopped : running (que s) = false -> qcount (que s) = 0%nat -> qcount (que s') = 0%nat;
  mi_signal : sigs = [Signal wcond] \/
    sigs = [] /\ running (que s') = running (que s) /\ (qcount (que s) = 0%nat -> qcount (que s') = 0%nat);
  mi_pending : forall w, wq (works s w) = true -> pending (works s w) = false -> pending (works s' w) = false }.

Lemma mild_refl s : mild s s [].
Proof. split; auto. Qed.

Lemma submit_segment h c t w d s lg : state_ok h c s lg ->
  let g := ove_work_submit_delayed s w d in
  seg_ok h c t lg g /\ mild s (seg_sh g) (seg_sigs g) /\ (exists r, seg_next g = NReturn r).
Proof.
  intros Hs. pose proof Hs as (Hq & Hi & Ha). unfold ove_work_submit_delayed.
  destruct (running (que s)) eqn:Hr, (wq (works s w)) eqn:Hw, (pending (works s w)) eqn:Hp,
    (in_progress (works s w)) eqn:Hip; cbn [negb orb];
    try (split; [by apply same_seg|]; split; [apply mild_refl|by eexists]).
  destruct (OVE_WQ_MAX_PENDING <=? qcount (que s))%nat eqn:Hc;
    [split; [by apply same_seg|]; split; [apply mild_refl|by eexists]|].
  apply Nat.leb_gt in Hc. destruct (Hi w) as [Hwq Hpr _ _ _].
  assert ((w ∉ queued s) /\ h <> Some w) as [Hnq Hnh] by (rewrite Hw in Hwq; split; intros ?; naive_solver).
  destruct (queued_append s w Hq Hc Hnq (upd (works s) w (fun it => {| it with delay_ms := d; wq := true; pending := true |})))
    as [Hq' Hmem].
  cbn zeta. split; [split; [exact Hq'|]; split|].
  - intros v. destruct (Hi v) as [I1 I2 I3 I4 I5]. split; cbn [seg_sh works]; rewrite ?Hmem; unfold upd;
      (destruct (decide (v = w)) as [->|Hne]; [cbn; naive_solver|]); naive_solver.
  - intros v. eapply accounted_app; [apply Ha|]. cbn [seg_sh seg_evs works]. unfold upd.
    destruct (decide (v = w)) as [->|Hne]; [rewrite Hp|]; tally.
  - split; [|by eexists]. split; cbn; try done; [congruence|by left|].
    intros v Hv Hpv. unfold upd. case_decide; [congruence|done].
Qed.

Lemma cancel_wait_segment h c t w was de s lg : state_ok h c s lg ->
  let g := cancel_wait s w was de [] in
  seg_ok h c t lg g /\ mild s (seg_sh g) (seg_sigs g) /\ caller_ok h (seg_sh g) (after (seg_next g)).
Proof.
  intros Hs. pose proof Hs as (_ & Hi & _). unfold cancel_wait. destruct (in_progress (works s w)) eqn:Hip.
  - split; [by apply same_seg|]. split; [apply mild_refl|]. by apply Hi.
  - split; [by apply same_seg|]. split; [apply mild_refl|]. by destruct de.
Qed.


(** Taking a queued item out, or clearing the flag of one that is not. *)
Lemma cancel_item_ok h s w : queue_ok s -> (forall v, item_ok h s v) ->
  let s1 := match find_idx (fun v => (v =? w)%nat) (queued s) with
            | Some i => {| s with que := remove_at (que s) i;
                                  works := upd (works s) w (fun it => {| it with pending := false; wq := false |}) |}
            | None => {| s with works := upd (works s) w (fun it => {| it with pending := false |}) |}
            end in
  queue_ok s1 /\ (forall v, item_ok h s1 v) /\ (w ∉ queued s1) /\ mild s s1 [] /\
  (forall v, pending (works s1 v) = if decide (v = w) then false else pending (works s v)).
Proof.
  intros Hq Hi. destruct (find_idx _ (queued s)) as [i|] eqn:Hf.
  - apply find_idx_Some in Hf as [(x & Hx & Hxw) _]. apply Nat.eqb_eq in Hxw as ->.
    destruct (queued_remove s w i Hq Hx (upd (works s) w (fun it => {| it with pending := false; wq := false |}))) as [Hq' Hmem].
    assert (Hwq : w ∈ queued s) by (by eapply list_elem_of_lookup_2).
    assert (qcount (que s) <> 0%nat) as Hc.
    { intros H0. apply lookup_lt_Some in Hx. unfold queued in Hx. rewrite length_take in Hx. lia. }
    cbn zeta. split; [exact Hq'|]. split; [|split; [rewrite Hmem; tauto|split]].
    + intros v. destruct (Hi v) as [I1 I2 I3 I4 I5]. split; cbn [works]; rewrite ?Hmem; unfold upd;
        (destruct (decide (v = w)) as [->|Hne]; [cbn; naive_solver|]); naive_solver.
    + split; cbn; try done; [right; split_and!; done|]. intros v Hv Hpv. unfold upd. by case_decide.
    + intros v. cbn. unfold upd. by case_decide.
  - apply find_idx_None in Hf. assert (Hwq : w ∉ queued s).
    { intros (i & Hx)%list_elem_of_lookup. apply (Forall_lookup_1 _ _ _ _ Hf) in Hx. by rewrite Nat.eqb_refl in Hx. }
    cbn zeta. split; [by destruct Hq|]. split; [|split; [done|split]].
    + intros v. destruct (Hi v) as [I1 I2 I3 I4 I5]. unfold queued in *. split; cbn [works que]; unfold upd;
        (destruct (decide (v = w)) as [->|Hne]; [cbn; naive_solver|]); naive_solver.
    + split; cbn; try done; [right; split_and!; done|]. intros v Hv Hpv. unfold upd. by case_decide.
    + intros v. cbn. unfold upd. by case_decide.
Qed.

Lemma cancel_segment h c t w de s lg : state_ok h c s lg ->
  let g := cancel_locked s w de in
  seg_ok h c t lg g /\ mild s (seg_sh g) (seg_sigs g) /\ caller_ok h (seg_sh g) (after (seg_next g)) /\
  (w ∉ queued (seg_sh g)).
Proof.
  intros (Hq & Hi & Ha). unfold cancel_locked. cbn zeta. fold (queued s).
  destruct (cancel_item_ok h s w Hq Hi) as (Hq1 & Hi1 & Hn1 & Hm1 & Hp1). cbn zeta in *.
  set (s1 := match find_idx _ _ with Some i => _ | None => _ end) in *.
  assert (state_ok h c s1 (lg ++ (pair t <$> (if pending (works s w) then [ECancelled w] else [])))) as Hs1.
  { split; [done|]. split; [done|]. intros v. eapply accounted_app; [apply Ha|]. rewrite Hp1.
    destruct (decide (v = w)) as [->|Hne]; destruct (pending (works s w)); tally. }
  unfold cancel_wait. destruct (in_progress (works s1 w)) eqn:Hip.
  - split; [exact Hs1|]. split; [done|]. split; [|done]. by apply Hi1.
  - split; [exact Hs1|]. split; [done|]. split; [|done]. by destruct de.
Qed.

(** What the callers run. *)
Definition caller_pc (l : pc) : Prop :=
  match l with WTop | WSleep _ _ | WRecheck _ _ | WCall _ _ _ | WFinish _ => False | _ => True end.

Lemma flag_segment h c s lg w g : state_ok h c s lg ->
  (forall it, pending (g it) = pending it /\ in_progress (g it) = in_progress it /\ wq (g it) = wq it) ->
  state_ok h c {| s with works := upd (works s) w g |} lg.
Proof.
  intros (Hq & Hi & Ha) Hg. split; [by destruct Hq|]. split.
  - intros v. destruct (Hi v) as [I1 I2 I3 I4 I5]. destruct (Hg (works s v)) as (G1 & G2 & G3).
    split; unfold queued, upd; cbn; try case_decide; rewrite ?G1, ?G2, ?G3; done.
  - intros v. specialize (Ha v). unfold accounted in *. cbn. unfold upd. case_decide; [|done]. by rewrite (proj1 (Hg _)).
Qed.

Lemma caller_segment h c t l s lg : caller_pc l -> caller_ok h s (TReady l) -> state_ok h c s lg ->
  let g := work_body l s in
  seg_ok h c t lg g /\ mild s (seg_sh g) (seg_sigs g) /\ caller_ok h (seg_sh g) (after (seg_next g)).
Proof.
  intros Hl Hc Hs. destruct l as [| | | | |w d|w de|w de|w was de|w| |]; try done; cbn [work_body].
  - destruct (submit_segment h c t w d s lg Hs) as (H1 & H2 & r & Hr). split; [done|]. split; [done|]. by rewrite Hr.
  - unfold ove_work_cancel. destruct (wq (works s w)); (split; [by apply same_seg|]; split; [apply mild_refl|]);
      [done|by destruct de].
  - by destruct (cancel_segment h c t w de s lg Hs) as (H1 & H2 & H3 & _).
  - by apply cancel_wait_segment.
  - split; [|split; [|done]].
    + unfold seg_ok. cbn. rewrite app_nil_r. by apply flag_segment.
    + split; cbn; try done; [by right|]. intros v Hv Hp. unfold upd. by case_decide.
  - split; [|split; [|done]].
    + unfold seg_ok. cbn. rewrite app_nil_r. destruct Hs as ([] & Hi & Ha). split; [done|]. split; [|done].
      intros v. by destruct (Hi v).
    + split; cbn; try done. by left.
  - unfold join. cbn in Hc. destruct (exited s) eqn:He; (split; [by apply same_seg|]; split; [apply mild_refl|]); done.
Qed.


(** ** Segments of the worker *)

Lemma caller_mono h h' s s' x : caller_ok h s x ->
  (running (que s) = false -> running (que s') = false) ->
  (waits_on exit_cond x = true -> exited s = false -> exited s' = false) ->
  (waits_on wcond x = true -> forall w, h = Some w -> h' = Some w) -> caller_ok h' s' x.
Proof.
  intros Hx Hr He Hh. destruct x as [|[]|[] [] []|]; cbn in *; try done; try (by apply Hr).
  - apply Hh; [by apply bool_decide_true|done].
  - destruct Hx as [Hx1 Hx2]. split; [by apply Hr|]. apply He; [by apply bool_decide_true|done].
Qed.

Lemma caller_wake h s x : caller_ok h s x -> caller_ok h s (wake x).
Proof. destruct x as [|[]|[] [] []|]; cbn; tauto. Qed.

Definition worker_seg_ok (l : pc) (s : sys) (lg : list (nat * ev)) : Prop :=
  let g := work_body l s in
  let T' := after (seg_next g) in
  seg_ok (held T') (fun w => called w T') 0 lg g /\ worker_ok T' (seg_sh g) /\
  (forall x, caller_ok (held (TReady l)) s x -> (forall c, Broadcast c ∈ seg_sigs g -> waits_on c x = false) ->
    caller_ok (held T') (seg_sh g) x).

(** Past the wait: the head leaves the queue and is marked in progress. *)
Lemma take_head_segment s lg : exited s = false -> qcount (que s) <> 0%nat -> queue_ok s ->
  (forall w, item_ok None s w) -> (forall w, accounted w false s lg) ->
  let w := aget 0%nat (queue (que s)) 0 in
  let s' := {| s with que := remove_at (que s) 0; works := upd (works s) w (fun it => {| it with in_progress := true |}) |} in
  state_ok (Some w) (fun _ => false) s' (lg ++ (pair 0%nat <$> [])) /\ exited s' = false /\
  (forall x, caller_ok None s x -> (forall c, Broadcast c ∈ ([] : list (sig cond)) -> waits_on c x = false) -> caller_ok (Some w) s' x).
Proof.
  intros He H0 Hq Hi Ha. pose proof (queued_head s Hq H0) as Hhd. set (w := aget 0%nat (queue (que s)) 0) in *.
  destruct (queued_remove s w 0 Hq Hhd (upd (works s) w (fun it => {| it with in_progress := true |}))) as [Hq' Hmem].
  assert (Hw : w ∈ queued s) by (by eapply list_elem_of_lookup_2).
  split; [|split; [done|]].
  - split; [exact Hq'|]. split.
    + intros v. destruct (Hi v) as [I1 I2 I3 I4 I5]. split; cbn [seg_sh works seg_next after held]; rewrite ?Hmem; unfold upd;
        (destruct (decide (v = w)) as [->|Hne]; [cbn; naive_solver|]); naive_solver.
    + intros v. eapply accounted_app; [apply Ha|]. cbn. unfold upd. case_decide; tally.
  - intros x Hx Hb. by eapply caller_mono.
Qed.

Lemma dequeue_segment s lg : exited s = false -> state_ok None (fun _ => false) s lg -> worker_seg_ok WTop s lg.
Proof.
  intros He Hs. pose proof Hs as (Hq & Hi & Ha). unfold worker_seg_ok. cbn [work_body]. unfold wq_dequeue.
  destruct (qcount (que s) =? 0)%nat eqn:H0; destruct (running (que s)) eqn:Hr; cbn [andb negb].
  - apply Nat.eqb_eq in H0. split; [by apply same_seg|]. by split.
  - apply Nat.eqb_eq in H0. split; [|split; [done|]].
    + unfold seg_ok. cbn. rewrite app_nil_r. destruct Hq. split; [done|]. split; [|done]. intros v. by destruct (Hi v).
    + intros x Hx Hb. eapply caller_mono; [done|done| |done].
      intros Hw. rewrite (Hb exit_cond) in Hw by (by left). done.
  - apply Nat.eqb_neq in H0. by apply take_head_segment.
  - apply Nat.eqb_neq in H0. by apply take_head_segment.
Qed.

Lemma recheck_segment s lg w ex : exited s = false -> state_ok (Some w) (fun _ => false) s lg ->
  worker_seg_ok (WRecheck w ex) s lg.
Proof.
  intros He (Hq & Hi & Ha). split; [|split].
  - split; [by destruct Hq|]. split.
    + intros v. destruct (Hi v) as [I1 I2 I3 I4 I5]. unfold queued in *. split; cbn; unfold upd;
        try (destruct (decide (v = w)) as [->|Hne]; [cbn; naive_solver|]); naive_solver.
    + intros v. eapply accounted_app; [apply Ha|]. cbn [work_body wq_recheck seg_sh seg_evs seg_next after works called].
      unfold upd. destruct (decide (v = w)) as [->|Hne]; destruct (pending (works s w)); tally.
  - cbn. split; [done|]. unfold upd. by rewrite decide_True.
  - intros x Hx _. by eapply caller_mono.
Qed.

Lemma call_segment s lg w ex sp : exited s = false -> pending (works s w) = false ->
  state_ok (Some w) (fun v => called v (TReady (WCall w ex sp))) s lg -> worker_seg_ok (WCall w ex sp) s lg.
Proof.
  intros He Hp (Hq & Hi & Ha). split; [|split; [done|]].
  - split; [done|]. split; [done|]. intros v. eapply accounted_app; [apply Ha|]. cbn.
    destruct ex, sp, (handler (works s w) =? 0); tally.
  - intros x Hx _. by eapply caller_mono.
Qed.

Lemma finish_segment s lg w : exited s = false -> pending (works s w) = false ->
  state_ok (Some w) (fun _ => false) s lg -> worker_seg_ok (WFinish w) s lg.
Proof.
  intros He Hp (Hq & Hi & Ha). split; [|split; [done|]].
  - split; [by destruct Hq|]. split.
    + intros v. destruct (Hi v) as [I1 I2 I3 I4 I5]. unfold queued in *. split; cbn; unfold upd;
        try (destruct (decide (v = w)) as [->|Hne]; [cbn; naive_solver|]); naive_solver.
    + intros v. eapply accounted_app; [apply Ha|]. cbn. unfold upd. case_decide; tally.
  - intros x Hx Hb. eapply caller_mono; [done..|].
    intros Hw. rewrite (Hb wcond) in Hw by (by left). done.
Qed.

Lemma worker_segment l s lg : worker_ok (TReady l) s ->
  state_ok (held (TReady l)) (fun w => called w (TReady l)) s lg -> worker_seg_ok l s lg.
Proof.
  intros Hw Hs. destruct l as [|w ex|w ex|w ex sp|w| | | | | | |]; try done.
  - by apply dequeue_segment.
  - split; [|split; [done|by intros x Hx _; eapply caller_mono]]. destruct Hs as (Hq & Hi & Ha).
    split; [done|]. split; [done|]. intros v. eapply accounted_app; [apply Ha|]. cbn. case_match; tally.
  - by apply recheck_segment.
  - destruct Hw. by apply call_segment.
  - destruct Hw. by apply finish_segment.
Qed.

(** ** Every step keeps the invariant *)

Lemma work_inv_intro (m : machine) T : threads m !! 0%nat = Some T -> worker_ok T (shared m) ->
  state_ok (held T) (fun w => called w T) (shared m) (log m) ->
  (forall t x, t <> 0%nat -> threads m !! t = Some x -> caller_ok (held T) (shared m) x) -> work_inv m.
Proof. intros H1 H2 (H3 & H4 & H5) H6. split; [done|]. by exists T. Qed.

Lemma held_wake T s : worker_ok T s -> held (wake T) = held T /\ (forall w, called w (wake T) = called w T).
Proof. destruct T as [|[]|[] [] []|]; by cbn. Qed.

(** A signal of a caller reaches the worker if it waits: then nobody else
    waits on that condition variable. *)
Lemma signal_worker (m : machine) T picks : threads m !! 0%nat = Some T -> worker_ok T (shared m) ->
  (forall t x, t <> 0%nat -> threads m !! t = Some x -> caller_ok (held T) (shared m) x) ->
  deliver [Signal wcond] picks (threads m) !! 0%nat = Some (wake T).
Proof.
  intros HT Hw Hc. destruct T as [|l|c l e|r]; [done|by apply deliver_running| |by apply deliver_running].
  assert (c = wcond) as -> by (by destruct c). apply signal_sole with e; [done|]. intros j l' e' Hj Hx.
  specialize (Hc j _ Hj Hx). destruct l'; try done. by destruct e'.
Qed.

Lemma deliver_worker (m : machine) T picks s' sigs : threads m !! 0%nat = Some T -> worker_ok T (shared m) ->
  (forall t x, t <> 0%nat -> threads m !! t = Some x -> caller_ok (held T) (shared m) x) ->
  (forall w, item_ok (held T) (shared m) w) ->
  mild (shared m) s' sigs ->
  exists T', deliver sigs picks (threads m) !! 0%nat = Some T' /\ worker_ok T' s' /\
    held T' = held T /\ (forall w, called w T' = called w T).
Proof.
  intros HT Hw Hc Hi Hm. pose proof (held_wake T _ Hw) as [Hh Hcl]. destruct Hm as [M1 M2 M3 M4 M5].
  assert (forall w, held T = Some w -> pending (works (shared m) w) = false -> pending (works s' w) = false) as Hp.
  { intros w Hhw. apply M5. apply (Hi w). by right. }
  destruct M4 as [->|(-> & M6 & M7)].
  - exists (wake T). split; [by apply signal_worker|]. split; [|done].
    destruct T as [|[]|[] [] []|]; cbn in *; try done; try congruence; rewrite M1; naive_solver.
  - exists T. split; [done|]. split; [|done].
    destruct T as [|[]|[] [] []|]; cbn in *; try done; try congruence; rewrite M1; naive_solver.
Qed.


(** Threads other than the one that ran, after its signals. *)
Lemma deliver_others (m : machine) T s' h' picks sigs :
  (forall t x, t <> 0%nat -> threads m !! t = Some x -> caller_ok (held T) (shared m) x) ->
  (forall x, caller_ok (held T) (shared m) x -> (forall c, Broadcast c ∈ sigs -> waits_on c x = false) ->
    caller_ok h' s' x) ->
  forall t x, t <> 0%nat -> deliver sigs picks (threads m) !! t = Some x -> caller_ok h' s' x.
Proof.
  intros Hc Hx t x Ht. apply (deliver_keeps (caller_ok (held T) (shared m))); [apply caller_wake|done|].
  intros y. by apply Hc.
Qed.

Lemma work_run_inv (m : machine) t picks : work_inv m -> work_inv (mstep work_body m (ARun t picks)).
Proof.
  intros [Hq (T & HT & Hw & Hi & Ha & Hc)]. cbn [mstep]. destruct (threads m !! t) as [[|l| |]|] eqn:Ht.
  2: { set (g := work_body l (shared m)).
    assert (Hlen : (t < length (deliver (seg_sigs g) picks (threads m)))%nat).
    { destruct (deliver_from (seg_sigs g) picks (threads m)) as [-> _]. by eapply lookup_lt_Some. }
    destruct (decide (t = 0%nat)) as [->|Hne].
    - assert (T = TReady l) as -> by congruence.
      destruct (worker_segment l (shared m) (log m) Hw) as (Hs & Hw' & Ho); [done|].
      eapply work_inv_intro; cbn [threads shared log]; [by apply list_lookup_insert_eq|done|done|].
      intros t x Hne. rewrite list_lookup_insert_ne by done. by eapply (deliver_others m (TReady l)).
    - assert (caller_pc l) as Hl by (specialize (Hc t _ Hne Ht); by destruct l).
      destruct (caller_segment (held T) (fun w => called w T) t l (shared m) (log m) Hl (Hc t _ Hne Ht)) as (Hs & Hm & Hn); [done|].
      fold g in Hs, Hm, Hn. destruct (deliver_worker m T picks _ _ HT Hw Hc Hi Hm) as (T' & HT' & Hw' & Hh' & Hcl').
      eapply (work_inv_intro _ T'); cbn [threads shared log]; [by rewrite list_lookup_insert_ne|done| |].
      + destruct Hs as (H1 & H2 & H3). rewrite Hh'. split; [done|]. split; [done|]. intros w. by rewrite Hcl'.
      + intros i x Hi0. rewrite Hh', list_lookup_insert_Some. intros [(<- & <- & _)|[_ Hx]]; [done|].
        eapply (deliver_others m T); [done| |done|exact Hx].
        intros y Hy _. destruct Hm as [M1 M2 M3 M4 M5]. eapply caller_mono; [done|done|by rewrite M1|done]. }
  all: split; [done|by exists T].
Qed.

(** A thread that goes on without running. *)
Lemma work_ready_inv (m : machine) t x l : work_inv m -> threads m !! t = Some x ->
  (t = 0%nat -> wake x = TReady l) -> (t <> 0%nat -> forall h, caller_ok h (shared m) x -> caller_ok h (shared m) (TReady l)) ->
  work_inv (mk_mon (shared m) (<[t := TReady l]> (threads m)) (log m)).
Proof.
  intros [Hq (T & HT & Hw & Hi & Ha & Hc)] Ht H0 Hne. assert (t < length (threads m))%nat by (by eapply lookup_lt_Some).
  destruct (decide (t = 0%nat)) as [->|Hn].
  - assert (T = x) as -> by congruence. destruct (held_wake x _ Hw) as [Hh Hcl]. rewrite H0 in Hh, Hcl by done.
    eapply work_inv_intro; cbn [threads shared log]; [by apply list_lookup_insert_eq| | |].
    + rewrite <-H0 by done. destruct x as [|[]|[] [] []|]; cbn in *; tauto.
    + rewrite Hh. split; [done|]. split; [done|]. intros w. by rewrite Hcl.
    + intros i y Hi0. rewrite Hh, list_lookup_insert_ne by done. by apply Hc.
  - eapply (work_inv_intro _ T); cbn [threads shared log]; [by rewrite list_lookup_insert_ne|done|done|].
    intros i y Hi0. rewrite list_lookup_insert_Some. intros [(<- & <- & _)|[_ Hy]]; [|by apply (Hc i)].
    apply Hne; [done|]. by eapply Hc.
Qed.

(** No wait of this file has a timeout. *)
Lemma waits_forever (m : machine) t c l e : work_inv m -> threads m !! t <> Some (TWaiting c l (Some e)).
Proof.
  intros [_ (T & HT & Hw & _ & _ & Hc)] Ht. destruct (decide (t = 0%nat)) as [->|Hne].
  - assert (T = TWaiting c l (Some e)) as -> by congruence. by destruct c, l.
  - specialize (Hc t _ Hne Ht). by destruct c, l.
Qed.

Lemma work_step_inv (m : machine) a : caller a -> work_inv m -> work_inv (mstep work_body m a).
Proof.
  intros Ha Hm. destruct a as [t l|t picks|t|t].
  - destruct Ha as [Hne He]. cbn [mstep].
    destruct (threads m !! t) as [[]|] eqn:Ht; try done; (eapply work_ready_inv; [done..|]);
      intros _ h _; by destruct l.
  - by apply work_run_inv.
  - cbn [mstep]. destruct (threads m !! t) as [[| |c l e|]|] eqn:Ht; try done.
    eapply work_ready_inv; [done..|]. intros _ h. apply caller_wake.
  - cbn [mstep]. destruct (threads m !! t) as [[| |c l [e|]|]|] eqn:Ht; try done. by destruct (waits_forever m t c l e Hm).
Qed.

Lemma work_runs_inv (m : machine) acts : Forall caller acts -> work_inv m -> work_inv (mrun work_body m acts).
Proof.
  intros Ha. revert m. induction Ha as [|a acts Ha _ IH]; intros m Hm; [done|]. cbn. by apply IH, work_step_inv.
Qed.

Lemma started_inv slots items n : length slots = OVE_WQ_MAX_PENDING -> fresh items -> work_inv (started slots items n).
Proof.
  intros Hl Hf. eapply (work_inv_intro _ (TReady WTop)); [done|done| |].
  - split; [split; cbn; [done|lia|apply NoDup_nil_2]|]. split.
    + intros w. destruct (Hf w) as (H1 & H2 & H3). split; cbn; rewrite ?H1, ?H2, ?H3; set_solver.
    + intros w. destruct (Hf w) as (H1 & _). unfold accounted. cbn. by rewrite H1.
  - intros [|t] x Hne Hx; [done|]. cbn in Hx. apply lookup_replicate in Hx as [-> _]. done.
Qed.


(** ** Cancellation *)

Definition no_submit (w : nat) (a : act pc) : Prop := match a with ACall _ (Submit v _) => v <> w | _ => True end.
Definition not_submitting (w : nat) (m : machine) : Prop := forall t d, threads m !! t <> Some (TReady (Submit w d)).

Lemma work_body_wq w l s : (forall d, l <> Submit w d) -> wq (works s w) = false ->
  wq (works (seg_sh (work_body l s)) w) = false.
Proof.
  intros Hl Hw. destruct l as [|v ex|v ex|v ex sp|v|v d|v de|v de|v was de|v| |];
    cbn [work_body]; unfold wq_dequeue, ove_work_submit_delayed, ove_work_cancel, cancel_locked, cancel_wait, join;
    cbn zeta; repeat case_match; cbn; try done; unfold upd; repeat case_decide; cbn; try done; subst; try done.
  by destruct (Hl d).
Qed.

Lemma work_body_queued w l s : queue_ok s -> (forall d, l <> Submit w d) -> (w ∉ queued s) ->
  w ∉ queued (seg_sh (work_body l s)).
Proof.
  intros Hq Hl Hw. destruct l as [|v ex|v ex|v ex sp|v|v d|v de|v de|v was de|v| |]; cbn [work_body]; try done.
  - unfold wq_dequeue. destruct (qcount (que s) =? 0)%nat eqn:H0, (running (que s)) eqn:Hr; cbn [andb negb]; try done;
      apply Nat.eqb_neq in H0; cbn [seg_sh]; (rewrite (proj2 (queued_remove s _ 0 Hq (queued_head s Hq H0) _)); tauto).
  - unfold ove_work_submit_delayed. repeat case_match; try done. cbn [seg_sh].
    match goal with H : (_ <=? _)%nat = false |- _ => apply Nat.leb_gt in H end.
    rewrite queued_append_eq by done. intros [|Hv]%elem_of_app; [done|]. apply list_elem_of_singleton in Hv as ->.
    by destruct (Hl d).
  - unfold ove_work_cancel. by case_match.
  - unfold cancel_locked, cancel_wait. cbn zeta. fold (queued s). destruct (find_idx _ (queued s)) as [i|] eqn:Hf.
    + apply find_idx_Some in Hf as [(x & Hx & _) _]. pose proof (proj2 (queued_remove s x i Hq Hx (upd (works s) v
        (fun it => {| it with pending := false; wq := false |}))) w) as Hm. case_match; cbn [seg_sh]; tauto.
    + by case_match.
  - unfold cancel_wait. by case_match.
  - unfold join. by case_match.
Qed.

Lemma work_body_runs w l s : (forall ex sp, l <> WCall w ex sp) -> hits w handled (seg_evs (work_body l s)) = 0%nat.
Proof.
  intros Hl. destruct l as [|v ex|v ex|v ex sp|v|v d|v de|v de|v was de|v| |];
    cbn [work_body]; unfold wq_dequeue, wq_sleep, wq_call, ove_work_submit_delayed, ove_work_cancel, cancel_locked, cancel_wait, join;
    cbn zeta; repeat case_match; tally. by destruct (Hl ex sp).
Qed.

(** No segment leads into a submission. *)
Lemma after_not_submit w d l s : after (seg_next (work_body l s)) <> TReady (Submit w d).
Proof.
  destruct l as [|v ex|v ex|v ex sp|v|v d'|v de|v de|v was de|v| |];
    cbn [work_body]; unfold wq_dequeue, wq_sleep, wq_call, ove_work_submit_delayed, ove_work_cancel, cancel_locked, cancel_wait, cancel_done, join;
    cbn zeta; repeat case_match; cbn; try done; by destruct de.
Qed.

Lemma waiting_pc (m : machine) t c l e : work_inv m -> threads m !! t = Some (TWaiting c l e) ->
  l = WTop \/ l = Join \/ exists w was de, l = CancelWait w was de.
Proof.
  intros [_ (T & HT & Hw & _ & _ & Hc)] Ht. destruct (decide (t = 0%nat)) as [->|Hne].
  - assert (T = TWaiting c l e) as -> by congruence. destruct c, l; cbn in Hw; auto; done.
  - specialize (Hc t _ Hne Ht). destruct c, l; cbn in Hc; try done; auto. right. right. by repeat eexists.
Qed.

Lemma not_submitting_step w (m : machine) a : no_submit w a -> work_inv m -> not_submitting w m ->
  not_submitting w (mstep work_body m a).
Proof.
  intros Ha Hm Hn t d. destruct a as [i l|i picks|i|i]; cbn [mstep].
  - destruct (threads m !! i) as [[]|]; try done; cbn [threads]; rewrite list_lookup_insert_Some;
      (intros [(_ & Hl & _)|[_ Ht]]; [|by apply (Hn t d)]); injection Hl as ->; by apply Ha.
  - destruct (threads m !! i) as [[|l| |]|]; try done. cbn [threads]. rewrite list_lookup_insert_Some.
    intros [(_ & Hl & _)|[_ Ht]]; [by apply after_not_submit in Hl|].
    destruct (deliver_from (seg_sigs (work_body l (shared m))) picks (threads m)) as [_ Hf].
    destruct (Hf t _ Ht) as (y & Hy & [<-|Hw]); [by apply (Hn t d)|]. destruct y as [| |c l' e|]; simplify_eq/=.
    + by apply (Hn t d).
    + by destruct (waiting_pc m t c _ e Hm Hy) as [?|[?|(? & ? & ? & ?)]].
  - destruct (threads m !! i) as [[| |c l e|]|] eqn:Hi; try done. cbn [threads]. rewrite list_lookup_insert_Some.
    intros [(_ & Hl & _)|[_ Ht]]; [|by apply (Hn t d)]. injection Hl as ->.
    by destruct (waiting_pc m i c _ e Hm Hi) as [?|[?|(? & ? & ? & ?)]].
  - destruct (threads m !! i) as [[| |c l [e|]|]|] eqn:Hi; try done. by destruct (waits_forever m i c l e Hm).
Qed.

(** An item nobody knows: it stays so, and its handler does not run. *)
Definition at_rest (w : nat) (m : machine) : Prop := wq (works (shared m) w) = false /\ not_submitting w m.

Lemma at_rest_step w (m : machine) a : no_submit w a -> work_inv m -> at_rest w m ->
  at_rest w (mstep work_body m a) /\ runs w (log (mstep work_body m a)) = runs w (log m).
Proof.
  intros Ha Hm [Hw Hn]. split; [split; [|by apply not_submitting_step]|].
  - destruct a as [t l|t picks|t|t]; cbn [mstep]; try (by repeat case_match).
    destruct (threads m !! t) as [[|l| |]|] eqn:Ht; try done. apply work_body_wq; [|done].
    intros d ->. by apply (Hn t d).
  - destruct a as [t l|t picks|t|t]; cbn [mstep]; try (by repeat case_match).
    destruct (threads m !! t) as [[|l| |]|] eqn:Ht; try done. unfold runs. cbn [log]. rewrite hits_log.
    rewrite work_body_runs; [lia|]. intros ex sp ->. destruct Hm as [_ (T & HT & _ & Hi & _ & Hc)].
    destruct (decide (t = 0%nat)) as [->|Hne]; [|by specialize (Hc t _ Hne Ht)].
    assert (T = TReady (WCall w ex sp)) as -> by congruence. destruct (Hi w) as [[_ H] _ _ _ _].
    rewrite Hw in H. by specialize (H (or_intror eq_refl)).
Qed.

Lemma at_rest_run w (m : machine) acts : Forall caller acts -> Forall (no_submit w) acts -> work_inv m -> at_rest w m ->
  at_rest w (mrun work_body m acts) /\ runs w (log (mrun work_body m acts)) = runs w (log m).
Proof.
  intros Hc. revert m. induction Hc as [|a acts Ha _ IH]; intros m Hn Hm Hr; [done|].
  apply Forall_cons in Hn as [Hna Hn]. destruct (at_rest_step w m a Hna Hm Hr) as [Hr' Hl].
  cbn [mrun foldl]. rewrite <-Hl. apply IH; [done|by apply work_step_inv|done].
Qed.

(** How far a cancellation of [w] by a thread in state [x] has come. *)
Definition cancelling (w : nat) (s : sys) (x : option thread) : Prop :=
  match x with
  | Some (TReady (Cancel v _)) | Some (TReady (CancelLocked v _)) => v = w
  | Some (TReady (CancelWait v _ _)) | Some (TWaiting _ (CancelWait v _ _) _) => v = w /\ (w ∉ queued s)
  | Some (TReady (ClearHandler v)) => v = w /\ wq (works s w) = false
  | Some (TReturned _) => wq (works s w) = false
  | _ => False
  end.

Definition no_call (t : nat) (a : act pc) : Prop := match a with ACall i _ => i <> t | _ => True end.

(** The cancelling thread itself. *)
Lemma cancelling_self w l (h : option nat) c s lg : state_ok h c s lg -> cancelling w s (Some (TReady l)) ->
  cancelling w (seg_sh (work_body l s)) (Some (after (seg_next (work_body l s)))).
Proof.
  intros Hs Hx. assert (Hwait : forall s was de evs, w ∉ queued s -> (forall v, item_ok h s v) ->
    cancelling w (seg_sh (cancel_wait s w was de evs)) (Some (after (seg_next (cancel_wait s w was de evs))))).
  { intros s1 was de evs Hnq Hi. unfold cancel_wait. destruct (in_progress (works s1 w)) eqn:Hip; [done|].
    destruct (Hi w) as [I1 I2 _ _ _]. assert (wq (works s1 w) = false) as Hw.
    { destruct (wq (works s1 w)); [|done]. exfalso. destruct I1 as [I1 _]. destruct (I1 eq_refl) as [|Hh]; [done|].
      apply I2 in Hh. congruence. }
    by destruct de. }
  destruct l as [| | | | | |v de|v de|v was de|v| |]; try done; cbn [work_body]; cbn in Hx.
  - subst v. unfold ove_work_cancel. destruct (wq (works s w)) eqn:Hw; [done|]. by destruct de.
  - subst v. unfold cancel_locked. cbn zeta. fold (queued s). destruct Hs as (Hq & Hi & _).
    destruct (cancel_item_ok h s w Hq Hi) as (_ & Hi1 & Hn1 & _). cbn zeta in *. by apply Hwait.
  - destruct Hx as [-> Hn]. destruct Hs as (_ & Hi & _). by apply Hwait.
  - destruct Hx as [-> Hw]. cbn. unfold upd. by rewrite decide_True.
Qed.

Lemma cancelling_wake w s x : cancelling w s (Some x) -> cancelling w s (Some (wake x)).
Proof. destruct x as [|[]|c []|]; cbn; tauto. Qed.

Lemma cancelling_frame w s s' x : cancelling w s x ->
  ((w ∉ queued s) -> w ∉ queued s') -> (wq (works s w) = false -> wq (works s' w) = false) -> cancelling w s' x.
Proof. destruct x as [[|[]|c []|]|]; cbn; tauto. Qed.

Lemma cancelling_step w t (m : machine) a : no_submit w a -> no_call t a -> work_inv m -> not_submitting w m -> t <> 0%nat ->
  cancelling w (shared m) (threads m !! t) ->
  cancelling w (shared (mstep work_body m a)) (threads (mstep work_body m a) !! t).
Proof.
  intros Ha Hna Hm Hn Ht Hx. destruct a as [i l|i picks|i|i]; cbn [mstep].
  - destruct (threads m !! i) as [[]|]; try done; cbn [threads shared]; by rewrite list_lookup_insert_ne.
  - destruct (threads m !! i) as [[|l| |]|] eqn:Hi; try done. cbn [threads shared].
    assert (forall d, l <> Submit w d) as Hl by (intros d ->; by apply (Hn i d)).
    pose proof Hm as [Hq (T & HT & Hw & Hit & Hac & Hc)].
    destruct (deliver_from (seg_sigs (work_body l (shared m))) picks (threads m)) as [Hlen Hf].
    destruct (decide (i = t)) as [->|Hne].
    + rewrite list_lookup_insert_eq by (rewrite Hlen; by eapply lookup_lt_Some). rewrite Hi in Hx.
      by eapply (cancelling_self w l (held T) (fun w => called w T) _ (log m)).
    + rewrite list_lookup_insert_ne by done. destruct (threads m !! t) as [y|] eqn:Hy; [|done].
      destruct (lookup_lt_is_Some_2 (deliver (seg_sigs (work_body l (shared m))) picks (threads m)) t) as [x' Hx'].
      { rewrite Hlen. by eapply lookup_lt_Some. }
      rewrite Hx'. destruct (Hf t x' Hx') as (y' & Hy' & Hxy). assert (y' = y) as -> by congruence.
      eapply (cancelling_frame w (shared m)); [|by apply work_body_queued|by apply work_body_wq].
      destruct Hxy as [->| ->]; [done|by apply cancelling_wake].
  - destruct (threads m !! i) as [[| |c l e|]|] eqn:Hi; try done. cbn [threads shared].
    destruct (decide (i = t)) as [->|Hne]; [|by rewrite list_lookup_insert_ne].
    rewrite list_lookup_insert_eq by (by eapply lookup_lt_Some). rewrite Hi in Hx. by apply cancelling_wake in Hx.
  - destruct (threads m !! i) as [[| |c l [e|]|]|] eqn:Hi; try done. by destruct (waits_forever m i c l e Hm).
Qed.

Lemma cancelling_run w t (m : machine) acts : Forall caller acts -> Forall (no_submit w) acts -> Forall (no_call t) acts ->
  work_inv m -> not_submitting w m -> t <> 0%nat -> cancelling w (shared m) (threads m !! t) ->
  let m' := mrun work_body m acts in
  work_inv m' /\ not_submitting w m' /\ cancelling w (shared m') (threads m' !! t).
Proof.
  intros Hc. revert m. induction Hc as [|a acts Ha _ IH]; intros m Hn Hnc Hm Hns Ht Hx; [done|].
  apply Forall_cons in Hn as [Hna Hn]. apply Forall_cons in Hnc as [Hnca Hnc]. cbn [mrun foldl]. apply IH; try done.
  - by apply work_step_inv.
  - by apply not_submitting_step.
  - by apply cancelling_step.
Qed.

(** ** Theorems *)


(** C15. Cancelling is synchronous: once [ove_work_cancel] (or
    [ove_work_deinit]) of an item has returned, whatever it raced with, the
    item is in no slot of the queue, the worker does not hold it, and its
    handler does not run again, as long as nobody submits it again.  Its
    storage may then be reused. *)
Theorem cancel_releases_item slots items n acts w t de acts2 r acts3 :
  length slots = OVE_WQ_MAX_PENDING -> fresh items ->
  Forall caller (acts ++ acts2 ++ acts3) -> Forall (no_submit w) (acts2 ++ acts3) -> Forall (no_call t) acts2 ->
  t <> 0%nat ->
  let m := mrun work_body (started slots items n) acts in
  not_submitting w m -> threads m !! t = Some TIdle ->
  let m2 := mrun work_body (mstep work_body m (ACall t (Cancel w de))) acts2 in
  threads m2 !! t = Some (TReturned r) ->
  let m3 := mrun work_body m2 acts3 in
  (w ∉ queued (shared m3)) /\ (exists T, threads m3 !! 0%nat = Some T /\ held T <> Some w) /\
  runs w (log m3) = runs w (log m2).
Proof.
  rewrite !Forall_app. intros Hl Hf (Ha & Ha2 & Ha3) (Hn2 & Hn3) Hc2 Ht m Hns Hidle m2 Hret m3.
  assert (work_inv m) as Hm by (by apply work_runs_inv; [|apply started_inv]).
  assert (caller (ACall t (Cancel w de))) as Hcall by done.
  pose proof (work_step_inv m _ Hcall Hm) as Hm1.
  assert (not_submitting w (mstep work_body m (ACall t (Cancel w de)))) as Hns1 by (by apply not_submitting_step).
  destruct (cancelling_run w t _ acts2 Ha2 Hn2 Hc2 Hm1 Hns1 Ht) as (Hm2 & Hns2 & Hx2).
  { cbn [mstep]. rewrite Hidle. cbn [threads]. by rewrite list_lookup_insert_eq by (by eapply lookup_lt_Some). }
  fold m2 in Hm2, Hns2, Hx2. rewrite Hret in Hx2.
  destruct (at_rest_run w m2 acts3 Ha3 Hn3 Hm2 (conj Hx2 Hns2)) as [[Hw _] Hruns].
  destruct (work_runs_inv m2 acts3 Ha3 Hm2) as [_ (T & HT & _ & Hi & _)]. fold m3 in HT, Hi, Hw, Hruns.
  destruct (Hi w) as [[_ Hwq] _ _ _ _]. rewrite Hw in Hwq. split; [|split; [|done]].
  - intros Hq. by specialize (Hwq (or_introl Hq)).
  - exists T. split; [done|]. intros Hh. by specialize (Hwq (or_intror Hh)).
Qed.

(** C30. The queue cannot get stuck: when no thread can run by itself, the
    worker waits on an empty queue or has ended, no item is pending, and no
    other thread is inside a call - no canceller waits for a handler and no
    teardown waits for the worker.  The single condition variable that the
    worker and the cancellers share, woken with [pthread_cond_signal], loses
    no wake-up. *)
Theorem workqueue_no_deadlock slots items n acts :
  length slots = OVE_WQ_MAX_PENDING -> fresh items -> Forall caller acts ->
  let m := mrun work_body (started slots items n) acts in
  quiescent m ->
  qcount (que (shared m)) = 0%nat /\ (forall w, pending (works (shared m) w) = false) /\
  (forall t x, t <> 0%nat -> threads m !! t = Some x -> x = TIdle \/ exists r, x = TReturned r).
Proof.
  intros Hl Hf Ha m Hq. destruct (work_runs_inv _ acts Ha (started_inv slots items n Hl Hf)) as [_ (T & HT & Hw & Hi & _ & Hc)].
  fold m in HT, Hw, Hi, Hc. assert (held T = None /\ qcount (que (shared m)) = 0%nat /\
    (running (que (shared m)) = false -> exited (shared m) = true)) as (Hh & H0 & He).
  { destruct T as [|l|c l e|r]; [done|by destruct (Hq 0%nat l)|destruct c, l, e; naive_solver|naive_solver]. }
  split; [done|]. split.
  - intros w. destruct (Hi w) as [[I1 _] _ _ _ I5]. destruct (pending (works (shared m) w)) eqn:Hp; [|done].
    destruct (I1 (I5 eq_refl)) as [Hin|Hin]; [|congruence]. unfold queued in Hin. rewrite H0 in Hin.
    by apply elem_of_nil in Hin.
  - intros t x Hne Hx. specialize (Hc t x Hne Hx). destruct x as [|l|c l e|r]; [by left|by destruct (Hq t l)| |right; by eexists].
    exfalso. destruct c, l, e; try done; cbn in Hc; [congruence|]. destruct Hc as [Hr Hx']. rewrite He in Hx'; done.
Qed.

End WorkQueue.

(** ** A run *)

Module WorkDemo.
Import WorkQueue.

Definition items (w : nat) : ove_work := mk_work 7 0 false false false.
Definition slots : list nat := replicate OVE_WQ_MAX_PENDING 0%nat.

(** Thread 1 submits items 3 and 5; the worker takes item 3 and is about to
    call its handler. *)
Definition acts : list (act pc) :=
  [ARun 0 []; ACall 1 (Submit 3 0); ARun 1 [0%nat]; ACall 1 (Submit 5 20); ARun 1 []; ARun 0 []; ARun 0 []; ARun 0 []].

(** Thread 2 cancels item 3: it waits for the handler to end. *)
Definition cancel_acts : list (act pc) := [ARun 2 []; ARun 2 []; ARun 0 []; ARun 0 []; ARun 2 []].

Example cancel_run :
  let m := mrun work_body (started slots items 2) (acts ++ ACall 2 (Cancel 3 false) :: cancel_acts) in
  threads m = [TReady WTop; TReturned OVE_OK; TReturned OVE_ERR_INVAL] /\ runs 3 (log m) = 1%nat /\
  queued (shared m) = [5%nat].
Proof. by vm_compute. Qed.

Lemma fresh_items : fresh items.
Proof. done. Qed.
Lemma demo_callers : Forall caller (acts ++ cancel_acts ++ [ARun 0 []]).
Proof. repeat constructor; discriminate. Qed.


Lemma cancel_releases_item_witness :
  let m2 := mrun work_body (mstep work_body (mrun work_body (started slots items 2) acts) (ACall 2 (Cancel 3 false))) cancel_acts in
  let m3 := mrun work_body m2 [ARun 0 []] in
  (3%nat ∉ queued (shared m3)) /\ (exists T, threads m3 !! 0%nat = Some T /\ held T <> Some 3%nat) /\
  runs 3 (log m3) = runs 3 (log m2).
Proof.
  apply (cancel_releases_item slots items 2 acts 3 2 false cancel_acts OVE_ERR_INVAL [ARun 0 []] eq_refl fresh_items demo_callers).
  - repeat constructor.
  - repeat constructor.
  - discriminate.
  - intros [|[|[|t]]] d; vm_compute; discriminate.
  - reflexivity.
  - reflexivity.
Defined.

(** The worker alone waits on the empty queue. *)
Lemma workqueue_no_deadlock_witness :
  qcount (que (shared (mrun work_body (started slots items 0) [ARun 0 []]))) = 0%nat.
Proof.
  eapply (workqueue_no_deadlock slots items 0 [ARun 0 []] eq_refl fresh_items).
  - repeat constructor.
  - intros [|t] l; vm_compute; discriminate.
Defined.

End WorkDemo.
