(* ===== verification/Timer.v ===== *)
(** * Software timers (backends/posix/posix_timer.c)

    Each timer owns a dispatcher thread that sleeps until the timer is armed,
    programs a deadline, waits for it and runs the callback without the
    mutex; the other threads arm, disarm, re-program and tear it down.  All
    are programs of the monitor model, the dispatcher being thread 0; a
    callback's own calls appear as calls of other threads while it runs. *)

From S2P Require Import Prelude Monitor Queue.

Module Timer.

(** ** Data *)

(** [exited] says whether the dispatcher thread has ended. *)
Record ove_timer := mk_timer {
  callback : Z; user_data : Z; period_ns : Z; one_shot : bool;
  armed : bool; reprogram : bool; stop : bool; exited : bool }.

Inductive cond := tcond | exit_cond.
Global Instance cond_eq_dec : EqDecision cond.
Proof. solve_decision. Defined.

Inductive ev := EArm | EProgram (delay : Z) | ECallback (cb ud : Z).

(** [DWait p]: waiting for a deadline programmed [p] ahead. *)
Inductive pc :=
  | DTop | DWait (p : Z) | DFired (p : Z) | DCallback (cb ud : Z)
  | Start | Stop | SetPeriod (p : Z) | Teardown | Join.

Abbreviation seg := (segment ove_timer pc cond Z ev).
Abbreviation thread := (tstate pc cond Z).
Abbreviation machine := (mstate ove_timer pc cond Z ev).

(** [timer_setup] *)
Definition ove_timer_init_ns (cb ud period : Z) (os : bool) : Z * option ove_timer :=
  if cb =? 0 then (OVE_ERR_INVALID_PARAM, None)
  else (OVE_OK, Some (mk_timer cb ud period os false false false false)).

(** The delay programmed, and the deadline it gives on the monotonic clock. *)
Definition delay (t : ove_timer) : Z := if period_ns t =? 0 then 1 else period_ns t.
Definition timespec_add_ns (ts : timespec) (ns : Z) : timespec := ns_to_abstime ns ts.

(** ** The dispatcher *)

(** From the top of the loop, with the mutex held. *)
Definition dispatch_top (t : ove_timer) : seg :=
  if negb (armed t) && negb (stop t) then mk_seg t [] [] (NBlock tcond DTop None) else
  if stop t then mk_seg {| t with exited := true |} [Broadcast exit_cond] [] (NReturn OVE_OK) else
  mk_seg {| t with reprogram := false |} [] [EProgram (delay t)]
    (NBlock tcond (DWait (delay t)) (Some (DFired (delay t)))).

(** Woken before the deadline. *)
Definition dispatch_woken (t : ove_timer) (p : Z) : seg :=
  if armed t && negb (stop t) && negb (reprogram t)
  then mk_seg t [] [] (NBlock tcond (DWait p) (Some (DFired p))) else dispatch_top t.

(** The deadline has passed. *)
Definition dispatch_fired (t : ove_timer) : seg :=
  if stop t then mk_seg {| t with exited := true |} [Broadcast exit_cond] [] (NReturn OVE_OK) else
  if reprogram t || negb (armed t) then dispatch_top t else
  mk_seg {| t with armed := if one_shot t then false else armed t |} [] [] (NUnlock (DCallback (callback t) (user_data t))).

Definition dispatch_callback (t : ove_timer) (cb ud : Z) : seg :=
  mk_seg t [] (if negb (cb =? 0) then [ECallback cb ud] else []) (NUnlock DTop).

(** ** The callers *)

Definition ove_timer_start (t : ove_timer) : seg :=
  mk_seg {| t with armed := true; reprogram := true |} [Signal tcond] [EArm] (NReturn OVE_OK).
Definition ove_timer_reset (t : ove_timer) : seg := ove_timer_start t.
Definition ove_timer_stop (t : ove_timer) : seg :=
  mk_seg {| t with armed := false |} [Signal tcond] [] (NReturn OVE_OK).
Definition ove_timer_set_period_ns (t : ove_timer) (p : Z) : seg :=
  mk_seg {| t with period_ns := p; armed := true; reprogram := true |} [Signal tcond] [EArm] (NReturn OVE_OK).
Definition timer_teardown (t : ove_timer) : seg :=
  mk_seg {| t with stop := true; armed := false |} [Signal tcond] [] (NUnlock Join).
(** [pthread_join] *)
Definition join (t : ove_timer) : seg :=
  if exited t then mk_seg t [] [] (NReturn OVE_OK) else mk_seg t [] [] (NBlock exit_cond Join None).

Definition timer_body (l : pc) (t : ove_timer) : seg :=
  match l with
  | DTop => dispatch_top t
  | DWait p => dispatch_woken t p
  | DFired _ => dispatch_fired t
  | DCallback cb ud => dispatch_callback t cb ud
  | Start => ove_timer_start t
  | Stop => ove_timer_stop t
  | SetPeriod p => ove_timer_set_period_ns t p
  | Teardown => timer_teardown t
  | Join => join t
  end.

Definition entry (l : pc) : Prop := match l with Start | Stop | SetPeriod _ | Teardown => True | _ => False end.
Definition caller (a : act pc) : Prop := match a with ACall t l => t <> 0%nat /\ entry l | _ => True end.

Definition started (t : ove_timer) (n : nat) : machine :=
  mstep timer_body (mstart t (S n)) (ACall 0 DTop).

(** ** The invariant *)

Definition dispatcher_ok (T : thread) (t : ove_timer) : Prop :=
  match T with
  | TReady (DTop | DFired _ | DCallback _ _) => exited t = false
  | TReady (DWait p) => exited t = false /\ (stop t = true \/ armed t = false \/ reprogram t = true \/ p = delay t)
  | TWaiting tcond DTop None => exited t = false /\ armed t = false /\ stop t = false
  | TWaiting tcond (DWait p) (Some (DFired p')) =>
      exited t = false /\ armed t = true /\ stop t = false /\ reprogram t = false /\ p = delay t /\ p' = p
  | TReturned _ => exited t = true /\ stop t = true
  | _ => False
  end.

Definition caller_ok (t : ove_timer) (x : thread) : Prop :=
  match x with
  | TIdle | TReturned _ | TReady (Start | Stop | SetPeriod _ | Teardown) => True
  | TReady Join => stop t = true
  | TWaiting exit_cond Join None => stop t = true /\ exited t = false
  | _ => False
  end.

Definition arms (lg : list (nat * ev)) : nat := count (fun x => match x.2 with EArm => true | _ => false end) lg.
Definition callbacks (lg : list (nat * ev)) : nat :=
  count (fun x => match x.2 with ECallback _ _ => true | _ => false end) lg.
Definition calling (T : thread) : bool := match T with TReady (DCallback _ _) => true | _ => false end.

(** A one-shot timer runs its callback at most once per arming. *)
Definition paid (T : thread) (t : ove_timer) (lg : list (nat * ev)) : Prop :=
  one_shot t = true -> (callbacks lg + Nat.b2n (calling T) + Nat.b2n (armed t) <= arms lg)%nat.

Definition timer_inv (m : machine) : Prop :=
  exists T, threads m !! 0%nat = Some T /\ dispatcher_ok T (shared m) /\ paid T (shared m) (log m) /\
    (forall i x, i <> 0%nat -> threads m !! i = Some x -> caller_ok (shared m) x).

(** ** Segments *)

Lemma arms_app lg t evs : arms (lg ++ (pair t <$> evs)) =
  (arms lg + count (fun e => match e with EArm => true | _ => false end) evs)%nat.
Proof. unfold arms, count. rewrite List.filter_app, length_app. f_equal. induction evs as [|[] evs IH]; cbn; by rewrite ?IH. Qed.
Lemma timer_callbacks_app lg t evs : callbacks (lg ++ (pair t <$> evs)) =
  (callbacks lg + count (fun e => match e with ECallback _ _ => true | _ => false end) evs)%nat.
Proof. unfold callbacks, count. rewrite List.filter_app, length_app. f_equal. induction evs as [|[] evs IH]; cbn; by rewrite ?IH. Qed.

Lemma paid_app T T' t t' lg i evs : paid T t lg -> one_shot t' = one_shot t ->
  (one_shot t = true -> count (fun e => match e with ECallback _ _ => true | _ => false end) evs + Nat.b2n (calling T') + Nat.b2n (armed t') <=
   count (fun e => match e with EArm => true | _ => false end) evs + Nat.b2n (calling T) + Nat.b2n (armed t))%nat ->
  paid T' t' (lg ++ (pair i <$> evs)).
Proof. unfold paid. rewrite arms_app, timer_callbacks_app. intros Hp -> Hc Ho. specialize (Hp Ho). specialize (Hc Ho). lia. Qed.

Definition dispatcher_seg_ok (T : thread) (t : ove_timer) (g : seg) : Prop :=
  let T' := after (seg_next g) in
  dispatcher_ok T' (seg_sh g) /\
  (forall lg, paid T t lg -> paid T' (seg_sh g) (lg ++ (pair 0%nat <$> seg_evs g))) /\
  (forall x, caller_ok t x -> (forall c, Broadcast c ∈ seg_sigs g -> waits_on c x = false) -> caller_ok (seg_sh g) x).

Lemma timer_caller_mono t t' x : caller_ok t x -> (stop t = true -> stop t' = true) ->
  (waits_on exit_cond x = true -> exited t = false -> exited t' = false) -> caller_ok t' x.
Proof.
  intros Hx Hs He. destruct x as [|[]|[] [] []|]; cbn in *; try done; try (by apply Hs).
  destruct Hx as [H1 H2]. split; [by apply Hs|]. apply He; [by apply bool_decide_true|done].
Qed.

Lemma exit_ok T t : stop t = true -> calling T = false ->
  dispatcher_seg_ok T t (mk_seg {| t with exited := true |} [Broadcast exit_cond] [] (NReturn OVE_OK)).
Proof.
  intros Hs Hc. split; [done|]. split.
  - intros lg Hp. eapply paid_app; [done|done|]. intros _. cbn. rewrite Hc. cbn. lia.
  - intros x Hx Hb. eapply timer_caller_mono; [done|done|]. intros Hw. by rewrite (Hb exit_cond) in Hw by (by left).
Qed.

(** Segments after which the dispatcher still runs. *)
Lemma dispatcher_seg_intro T t g : dispatcher_ok (after (seg_next g)) (seg_sh g) ->
  one_shot (seg_sh g) = one_shot t -> stop (seg_sh g) = stop t -> exited (seg_sh g) = exited t ->
  (one_shot t = true ->
   count (fun e => match e with ECallback _ _ => true | _ => false end) (seg_evs g) +
     Nat.b2n (calling (after (seg_next g))) + Nat.b2n (armed (seg_sh g)) <=
   count (fun e => match e with EArm => true | _ => false end) (seg_evs g) + Nat.b2n (calling T) + Nat.b2n (armed t))%nat ->
  dispatcher_seg_ok T t g.
Proof.
  intros Hd Ho Hs He Hc. split; [done|]. split.
  - intros lg Hp. by eapply paid_app.
  - intros x Hx _. eapply timer_caller_mono; [done|by rewrite Hs|by rewrite He].
Qed.

Lemma top_ok T t : exited t = false -> calling T = false -> dispatcher_seg_ok T t (dispatch_top t).
Proof.
  intros He Hc. destruct t as [cb ud p os [] r [] ex]; cbn in He; unfold dispatch_top; cbn [armed stop andb negb];
    try (by apply exit_ok); (apply dispatcher_seg_intro; [by split_and!|done..|]); intros _; cbn; rewrite Hc; cbn; lia.
Qed.

Lemma dispatcher_segment l t : dispatcher_ok (TReady l) t -> dispatcher_seg_ok (TReady l) t (timer_body l t).
Proof.
  intros Hd. destruct l as [|p|p|cb ud| | | | |]; try done; cbn in Hd; cbn [timer_body].
  - by apply top_ok.
  - destruct Hd as [He Hp]. unfold dispatch_woken. destruct (armed t && negb (stop t) && negb (reprogram t)) eqn:Hb; [|by apply top_ok].
    apply andb_true_iff in Hb as [[Ha Hs%negb_true_iff]%andb_true_iff Hr%negb_true_iff].
    apply dispatcher_seg_intro; [|done..|].
    + cbn. split_and!; try done. destruct Hp as [?|[?|[?|?]]]; congruence.
    + intros _. cbn. lia.
  - unfold dispatch_fired. destruct (stop t) eqn:Hs; [pose proof (exit_ok (TReady (DFired p)) t Hs eq_refl) as Hx; by rewrite Hs in Hx|].
    destruct (reprogram t || negb (armed t)) eqn:Hb; [by apply top_ok|].
    apply orb_false_iff in Hb as [_ Ha%negb_false_iff]. apply dispatcher_seg_intro; try done.
    intros Ho. cbn. rewrite Ho, Ha. cbn. lia.
  - apply dispatcher_seg_intro; try done. intros _. cbn. destruct (cb =? 0); cbn; lia.
Qed.

(** ** Callers *)

Definition caller_pc (l : pc) : Prop := match l with Start | Stop | SetPeriod _ | Teardown | Join => True | _ => False end.

Lemma calling_wake T t : dispatcher_ok T t -> calling (wake T) = calling T.
Proof. destruct T as [|[]|[] [] [[]|]|]; by cbn. Qed.

Lemma timer_caller_segment T t l i lg : caller_pc l -> caller_ok t (TReady l) -> dispatcher_ok T t -> paid T t lg ->
  let g := timer_body l t in
  (seg_sigs g = [Signal tcond] /\ dispatcher_ok (wake T) (seg_sh g) \/ seg_sigs g = [] /\ dispatcher_ok T (seg_sh g)) /\
  paid T (seg_sh g) (lg ++ (pair i <$> seg_evs g)) /\ caller_ok (seg_sh g) (after (seg_next g)) /\
  (forall x, caller_ok t x -> caller_ok (seg_sh g) x).
Proof.
  intros Hl Hc Hd Hp. destruct l; try done; cbn [timer_body].
  1-4: split; [left; split; [done|]; destruct T as [|[]|[] [] [[]|]|]; cbn in *; naive_solver|];
    split; [eapply paid_app; [done|done|]; intros _; cbn; destruct (armed t); cbn; lia|];
    split; [done|]; intros x Hx; by eapply timer_caller_mono.
  unfold join. cbn in Hc. destruct (exited t) eqn:He; (split; [by right|]); (split; [eapply paid_app; [done|done|]; intros _; cbn; lia|]); done.
Qed.


(** ** Every step keeps the invariant *)

Lemma timer_caller_wake t x : caller_ok t x -> caller_ok t (wake x).
Proof. destruct x as [|[]|[] [] []|]; cbn; tauto. Qed.

Lemma deliver_callers (m : machine) t' sigs picks :
  (forall i x, i <> 0%nat -> threads m !! i = Some x -> caller_ok (shared m) x) ->
  (forall x, caller_ok (shared m) x -> (forall c, Broadcast c ∈ sigs -> waits_on c x = false) -> caller_ok t' x) ->
  forall i x, i <> 0%nat -> deliver sigs picks (threads m) !! i = Some x -> caller_ok t' x.
Proof.
  intros Hc Hx i x Hi. apply (deliver_keeps (caller_ok (shared m))); [apply timer_caller_wake|done|].
  intros y. by apply Hc.
Qed.

Lemma signal_dispatcher (m : machine) T picks : threads m !! 0%nat = Some T -> dispatcher_ok T (shared m) ->
  (forall i x, i <> 0%nat -> threads m !! i = Some x -> caller_ok (shared m) x) ->
  deliver [Signal tcond] picks (threads m) !! 0%nat = Some (wake T).
Proof.
  intros HT Hd Hc. destruct T as [|l|c l e|r]; [done|by apply deliver_running| |by apply deliver_running].
  assert (c = tcond) as -> by (by destruct c). apply signal_sole with e; [done|]. intros j l' e' Hj Hx.
  specialize (Hc j _ Hj Hx). by destruct l'.
Qed.

Lemma timer_run_inv (m : machine) i picks : timer_inv m -> timer_inv (mstep timer_body m (ARun i picks)).
Proof.
  intros (T & HT & Hd & Hp & Hc). cbn [mstep]. destruct (threads m !! i) as [[|l| |]|] eqn:Hi; try by exists T.
  set (g := timer_body l (shared m)).
  assert (Hlen : (i < length (deliver (seg_sigs g) picks (threads m)))%nat).
  { destruct (deliver_from (seg_sigs g) picks (threads m)) as [-> _]. by eapply lookup_lt_Some. }
  destruct (decide (i = 0%nat)) as [->|Hne].
  - assert (T = TReady l) as -> by congruence. destruct (dispatcher_segment l (shared m) Hd) as (Hd' & Hp' & Ho).
    exists (after (seg_next g)). cbn [threads shared log]. split; [by apply list_lookup_insert_eq|]. split; [done|].
    split; [by apply Hp'|]. intros j x Hj. rewrite list_lookup_insert_ne by done. by eapply deliver_callers.
  - assert (caller_pc l) as Hl by (specialize (Hc i _ Hne Hi); by destruct l).
    destruct (timer_caller_segment T (shared m) l i (log m) Hl (Hc i _ Hne Hi) Hd Hp) as (HT' & Hp' & Hn & Ho). fold g in HT', Hp', Hn, Ho.
    assert (exists T', deliver (seg_sigs g) picks (threads m) !! 0%nat = Some T' /\ dispatcher_ok T' (seg_sh g) /\ calling T' = calling T)
      as (T' & HT1 & HT2 & HT3).
    { destruct HT' as [[-> Hw]|[-> Hw]].
      - exists (wake T). split; [by apply signal_dispatcher|]. split; [done|]. by apply (calling_wake T (shared m)).
      - by exists T. }
    exists T'. cbn [threads shared log]. split; [by rewrite list_lookup_insert_ne|]. split; [done|].
    split; [unfold paid in *; by rewrite HT3|]. intros j x Hj. rewrite list_lookup_insert_Some.
    intros [(<- & <- & _)|[_ Hx]]; [done|]. eapply deliver_callers; [exact Hc| |exact Hj|exact Hx]. intros y Hy _. by apply Ho.
Qed.

(** A thread that goes on without running. *)
Lemma timer_ready_inv (m : machine) i x l : timer_inv m -> threads m !! i = Some x ->
  (i = 0%nat -> dispatcher_ok x (shared m) -> dispatcher_ok (TReady l) (shared m) /\ calling (TReady l) = calling x) ->
  (i <> 0%nat -> caller_ok (shared m) x -> caller_ok (shared m) (TReady l)) ->
  timer_inv (mk_mon (shared m) (<[i := TReady l]> (threads m)) (log m)).
Proof.
  intros (T & HT & Hd & Hp & Hc) Hi H0 Hne. assert (i < length (threads m))%nat by (by eapply lookup_lt_Some).
  destruct (decide (i = 0%nat)) as [->|Hn].
  - assert (T = x) as -> by congruence. destruct (H0 eq_refl Hd) as [Hd' Hcl]. exists (TReady l). cbn [threads shared log].
    split; [by apply list_lookup_insert_eq|]. split; [done|]. split; [unfold paid in *; by rewrite Hcl|].
    intros j y Hj. rewrite list_lookup_insert_ne by done. by apply Hc.
  - exists T. cbn [threads shared log]. split; [by rewrite list_lookup_insert_ne|]. split; [done|]. split; [done|].
    intros j y Hj. rewrite list_lookup_insert_Some. intros [(<- & <- & _)|[_ Hy]]; [|by apply (Hc j)].
    apply Hne; [done|]. by eapply Hc.
Qed.

Lemma timer_step_inv (m : machine) a : caller a -> timer_inv m -> timer_inv (mstep timer_body m a).
Proof.
  intros Ha Hm. destruct a as [i l|i picks|i|i].
  - destruct Ha as [Hne He]. cbn [mstep].
    destruct (threads m !! i) as [[]|] eqn:Hi; try done; (eapply timer_ready_inv; [done|done|done|]); intros _ _; by destruct l.
  - by apply timer_run_inv.
  - cbn [mstep]. destruct (threads m !! i) as [[| |c l e|]|] eqn:Hi; try done. eapply timer_ready_inv; [done|done| |].
    + intros _ Hd. destruct c, l, e as [[]|]; cbn in *; naive_solver.
    + intros _. apply timer_caller_wake.
  - cbn [mstep]. destruct (threads m !! i) as [[| |c l [e|]|]|] eqn:Hi; try done. eapply timer_ready_inv; [done|done| |].
    + intros _ Hd. destruct c, l, e; cbn in *; naive_solver.
    + intros _ Hx. by destruct c, l.
Qed.

Lemma timer_runs_inv (m : machine) acts : Forall caller acts -> timer_inv m -> timer_inv (mrun timer_body m acts).
Proof.
  intros Ha. revert m. induction Ha as [|a acts Ha _ IH]; intros m Hm; [done|]. cbn. by apply IH, timer_step_inv.
Qed.

Lemma timer_started_inv cb ud p os t n : ove_timer_init_ns cb ud p os = (OVE_OK, Some t) -> timer_inv (started t n).
Proof.
  unfold ove_timer_init_ns. destruct (cb =? 0); [done|]. intros [= <-]. exists (TReady DTop). split; [done|]. split; [done|].
  split; [intros _; cbn; lia|]. intros [|i] x Hne Hx; [done|]. cbn in Hx. apply lookup_replicate in Hx as [-> _]. done.
Qed.

(** ** Theorems *)

(** The dispatcher is never asleep with something to do: at every moment,
    if it waits without a deadline the timer is disarmed, and if it waits for
    a deadline the timer is armed and that deadline was programmed with the
    current period; so starting, resetting and re-programming always take
    effect.  A one-shot timer runs its callback at most once per arming.
    When no thread can run by itself, no thread is left waiting in a
    teardown. *)
Theorem timer_responsive cb ud p os t n acts :
  ove_timer_init_ns cb ud p os = (OVE_OK, Some t) -> Forall caller acts ->
  let m := mrun timer_body (started t n) acts in
  (forall l e, threads m !! 0%nat = Some (TWaiting tcond l e) ->
    stop (shared m) = false /\
    (l = DTop /\ e = None /\ armed (shared m) = false \/
     l = DWait (delay (shared m)) /\ e = Some (DFired (delay (shared m))) /\ armed (shared m) = true)) /\
  (one_shot (shared m) = true -> callbacks (log m) <= arms (log m))%nat /\
  (quiescent m -> forall i x, i <> 0%nat -> threads m !! i = Some x -> x = TIdle \/ exists r, x = TReturned r).
Proof.
  intros Hi Ha m. destruct (timer_runs_inv _ acts Ha (timer_started_inv _ _ _ _ _ n Hi)) as (T & HT & Hd & Hp & Hc).
  fold m in HT, Hd, Hp, Hc. split; [|split].
  - intros l e Hw. assert (T = TWaiting tcond l e) as -> by congruence.
    destruct l, e as [[]|]; cbn in Hd; try done; naive_solver.
  - intros Ho. specialize (Hp Ho). lia.
  - intros Hq i x Hne Hx. specialize (Hc i x Hne Hx).
    destruct x as [|l|c l e|r]; [by left|by destruct (Hq i l)| |right; by eexists]. exfalso.
    destruct c, l, e; try done. destruct Hc as [Hs He]. destruct T as [|l|c l e|r]; [done|by destruct (Hq 0%nat l)| |].
    + destruct c, l, e as [[]|]; cbn in Hd; try done; intuition congruence.
    + cbn in Hd. intuition congruence.
Qed.

(** The dispatcher has ended: nothing runs any more. *)
Lemma exited_step (m : machine) a : caller a -> timer_inv m -> exited (shared m) = true ->
  exited (shared (mstep timer_body m a)) = true /\ callbacks (log (mstep timer_body m a)) = callbacks (log m).
Proof.
  intros Ha (T & HT & Hd & _ & Hc) He. destruct a as [i l|i picks|i|i]; cbn [mstep]; try (by repeat case_match).
  destruct (threads m !! i) as [[|l| |]|] eqn:Hi; try done. cbn [shared log]. rewrite timer_callbacks_app.
  destruct (decide (i = 0%nat)) as [->|Hne].
  - assert (T = TReady l) as -> by congruence. destruct l; cbn in Hd; try done; intuition congruence.
  - specialize (Hc i _ Hne Hi). destruct l; try done; cbn [timer_body]; unfold join; try (split; [done|]; cbn; lia).
    rewrite He. split; [done|]. cbn. lia.
Qed.

Lemma exited_run (m : machine) acts : Forall caller acts -> timer_inv m -> exited (shared m) = true ->
  callbacks (log (mrun timer_body m acts)) = callbacks (log m).
Proof.
  intros Ha. revert m. induction Ha as [|a acts Ha _ IH]; intros m Hm He; [done|]. cbn [mrun foldl].
  destruct (exited_step m a Ha Hm He) as [He' <-]. apply IH; [by apply timer_step_inv|done].
Qed.


End Timer.

(** ** A run *)

Module TimerDemo.
Import Timer.

Definition once : ove_timer := mk_timer 9 4 50 true false false false false.

(** Thread 1 arms the timer, the deadline passes, thread 2 tears it down
    while the callback is due. *)
Definition acts : list (act pc) :=
  [ARun 0 []; ACall 1 Start; ARun 1 [0%nat]; ARun 0 []; AExpire 0; ARun 0 []; ACall 2 Teardown; ARun 2 []; ARun 2 [];
   ARun 0 []; ARun 0 []].

Example teardown_run : let m := mrun timer_body (started once 2) acts in
  threads m = [TReturned OVE_OK; TReturned OVE_OK; TReady Join] /\ callbacks (log m) = 1%nat.
Proof. by vm_compute. Qed.

Lemma timer_callers : Forall caller (acts ++ [ACall 1 Start; ARun 1 []; ARun 0 []]).
Proof. repeat constructor; discriminate. Qed.


(** Armed, the dispatcher waits for the deadline it programmed. *)
Lemma timer_responsive_witness :
  let m := mrun timer_body (started once 2) (take 4 acts) in
  threads m !! 0%nat = Some (TWaiting tcond (DWait 50) (Some (DFired 50))) /\ stop (shared m) = false.
Proof.
  split; [reflexivity|].
  refine (proj1 (proj1 (timer_responsive 9 4 50 true once 2 (take 4 acts) eq_refl _) (DWait 50) (Some (DFired 50)) eq_refl)).
  repeat constructor; discriminate.
Defined.

End TimerDemo.
