(* ===== verification/Media.v ===== *)
(** * Removable-media ownership (src/ove_media.c)

    One word of atomic state arbitrates between the file system, raw readers
    and one raw writer.  The code is modelled at the granularity of its
    atomic operations: each thread's next load, store, fetch or
    compare-exchange is one step, and the steps of all threads interleave.
    A thread here owns one lease object and possibly the file-system slot;
    code with several leases is several threads. *)

From stdpp Require Import relations.
From S2P Require Import Prelude Monitor.

Module Media.

(** ** Data *)

Definition MEDIA_FS : Z := 1.
Definition MEDIA_WRITER : Z := 2.
Definition MEDIA_READER_ONE : Z := 4.
Definition OVE_MEDIA_RAW_WRITE : Z := 1.
Definition UINT32_MAX : Z := 2 ^ 32 - 1.

Record ove_media_lease := mk_lease { generation : Z; access : Z; active : bool }.
Definition no_lease : ove_media_lease := mk_lease 0 0 false.

(** Where a thread stands between two atomic operations; [Idle r] is outside
    every call, [r] being what the last one returned.  [acq] marks the
    re-validation made inside [ove_media_raw_acquire], [rc] what the call
    around a release will return. *)
Inductive pc :=
  | Idle (r : Z)
  | FsLoad | FsTry (state : Z) | FsRelease
  | AcqPresent (flags gen : Z) | AcqGeneration (flags gen : Z) | AcqLoad (flags gen : Z) | AcqTry (flags gen state : Z)
  | ValidPresent (flags : Z) (acq : bool) | ValidGeneration (flags : Z) (acq : bool)
  | RelWriter (rc : Z) | RelLoad (rc : Z) | RelTry (state rc : Z)
  | ObserveGeneration (gen : Z) (present : bool) | ObservePresent (present : bool) | Removed.

Record thread := mk_thread { lease : ove_media_lease; has_fs : bool; tpc : pc }.

Record media := mk_media {
  g_media_owners : Z; g_media_generation : Z; g_media_present : bool; threads : list thread }.

(** ** Calls: the checks before the first atomic operation *)

Definition writes (flags : Z) : bool := negb (Z.land flags OVE_MEDIA_RAW_WRITE =? 0).
Definition flags_ok (flags : Z) : bool := Z.ldiff flags OVE_MEDIA_RAW_WRITE =? 0.

Definition ove_media_fs_acquire : pc := FsLoad.
Definition ove_media_fs_release : pc := FsRelease.
Definition ove_media_observe (gen : Z) (present : bool) : pc := ObserveGeneration (if gen =? 0 then 1 else gen) present.
Definition ove_media_removed : pc := Removed.

Definition ove_media_raw_acquire (l : ove_media_lease) (flags gen : Z) : pc :=
  if active l || negb (flags_ok flags) || (gen =? 0) then Idle OVE_ERR_INVALID_PARAM else AcqPresent flags gen.

Definition raw_release (l : ove_media_lease) (rc : Z) : pc :=
  if negb (active l) then Idle rc else if writes (access l) then RelWriter rc else RelLoad rc.
Definition ove_media_raw_release (l : ove_media_lease) : pc := raw_release l 0.

Definition raw_valid (l : ove_media_lease) (flags : Z) (acq : bool) (no : pc) : pc :=
  if negb (active l) || negb (flags_ok flags) ||
     (Z.land (access l) OVE_MEDIA_RAW_WRITE <? Z.land flags OVE_MEDIA_RAW_WRITE)
  then no else ValidPresent flags acq.
Definition ove_media_raw_valid (l : ove_media_lease) (flags : Z) : pc := raw_valid l flags false (Idle 0).

(** ** Atomic steps *)

(** [__atomic_compare_exchange_n] on the owner word: the thread goes on with
    [yes], or with [no] and the value found. *)
Definition cas (s : media) (expected desired : Z) : bool * media :=
  if g_media_owners s =? expected then (true, {| s with g_media_owners := desired |}) else (false, s).

(** What [raw_acquire] wants the word to become, or [None] for busy. *)
Definition acquire_desired (flags state : Z) : option Z :=
  if writes flags then if negb (state =? 0) then None else Some MEDIA_WRITER
  else if negb (Z.land state MEDIA_WRITER =? 0) || (UINT32_MAX - MEDIA_READER_ONE <? state) then None
  else Some (u32 (state + MEDIA_READER_ONE)).

(** A validation that failed inside [raw_acquire] gives the lease back. *)
Definition invalid (th : thread) (acq : bool) : pc :=
  if acq then raw_release (lease th) OVE_ERR_NOT_REGISTERED else Idle 0.

(** The next atomic operation of a thread, with the thread-local code around
    it. *)
Definition advance (s : media) (th : thread) : media * thread :=
  match tpc th with
  | Idle r => (s, th)
  | FsLoad => (s, {| th with tpc := FsTry (g_media_owners s) |})
  | FsTry state =>
      if negb (Z.land state (Z.lor MEDIA_FS MEDIA_WRITER) =? 0) then (s, {| th with tpc := Idle OVE_ERR_BUSY |}) else
      let '(ok, s') := cas s state (Z.lor state MEDIA_FS) in
      if ok then (s', {| th with has_fs := true; tpc := Idle OVE_OK |})
      else (s', {| th with tpc := FsTry (g_media_owners s) |})
  | FsRelease =>
      ({| s with g_media_owners := Z.ldiff (g_media_owners s) MEDIA_FS |}, {| th with has_fs := false; tpc := Idle 0 |})
  | AcqPresent flags gen =>
      (s, {| th with tpc := if g_media_present s then AcqGeneration flags gen else Idle OVE_ERR_NOT_REGISTERED |})
  | AcqGeneration flags gen =>
      (s, {| th with tpc := if g_media_generation s =? gen then AcqLoad flags gen else Idle OVE_ERR_NOT_REGISTERED |})
  | AcqLoad flags gen => (s, {| th with tpc := AcqTry flags gen (g_media_owners s) |})
  | AcqTry flags gen state =>
      match acquire_desired flags state with
      | None => (s, {| th with tpc := Idle OVE_ERR_BUSY |})
      | Some desired =>
          let '(ok, s') := cas s state desired in
          if ok then let l := mk_lease gen (u8 flags) true in
            (s', {| th with lease := l; tpc := raw_valid l flags true (raw_release l OVE_ERR_NOT_REGISTERED) |})
          else (s', {| th with tpc := AcqTry flags gen (g_media_owners s) |})
      end
  | ValidPresent flags acq =>
      (s, {| th with tpc := if g_media_present s then ValidGeneration flags acq else invalid th acq |})
  | ValidGeneration flags acq =>
      (s, {| th with tpc := if g_media_generation s =? generation (lease th)
                            then Idle (if acq then OVE_OK else 1) else invalid th acq |})
  | RelWriter rc =>
      ({| s with g_media_owners := Z.ldiff (g_media_owners s) MEDIA_WRITER |}, {| th with lease := no_lease; tpc := Idle rc |})
  | RelLoad rc => (s, {| th with tpc := RelTry (g_media_owners s) rc |})
  | RelTry state rc =>
      if state <? MEDIA_READER_ONE then (s, {| th with lease := no_lease; tpc := Idle rc |}) else
      let '(ok, s') := cas s state (state - MEDIA_READER_ONE) in
      if ok then (s', {| th with lease := no_lease; tpc := Idle rc |})
      else (s', {| th with tpc := RelTry (g_media_owners s) rc |})
  | ObserveGeneration gen present =>
      ({| s with g_media_generation := gen |}, {| th with tpc := ObservePresent present |})
  | ObservePresent present => ({| s with g_media_present := present |}, {| th with tpc := Idle 0 |})
  | Removed => ({| s with g_media_present := false |}, {| th with tpc := Idle 0 |})
  end.

(** What a thread outside every call may start.  Only the holder of the
    file-system slot releases it. *)
Inductive call (th : thread) : pc -> Prop :=
  | call_fs_acquire : has_fs th = false -> call th ove_media_fs_acquire
  | call_fs_release : has_fs th = true -> call th ove_media_fs_release
  | call_raw_acquire flags gen : 0 <= flags < 2 ^ 32 -> call th (ove_media_raw_acquire (lease th) flags gen)
  | call_raw_release : call th (ove_media_raw_release (lease th))
  | call_raw_valid flags : call th (ove_media_raw_valid (lease th) flags)
  | call_observe gen present : call th (ove_media_observe gen present)
  | call_removed : call th ove_media_removed.

Definition put (s : media) (i : nat) (th : thread) : media := {| s with threads := <[i := th]> (threads s) |}.

Inductive step : media -> media -> Prop :=
  | step_call s i th r l : threads s !! i = Some th -> tpc th = Idle r -> call th l ->
      step s (put s i {| th with tpc := l |})
  | step_advance s i th : threads s !! i = Some th -> step s (put (fst (advance s th)) i (snd (advance s th))).

Definition start (n : nat) : media := mk_media 0 0 false (replicate n (mk_thread no_lease false (Idle 0))).

(** ** The owner word counts the holders *)

Definition fs_holder (th : thread) : bool := has_fs th.
Definition writer (th : thread) : bool := active (lease th) && writes (access (lease th)).
Definition reader (th : thread) : bool := active (lease th) && negb (writes (access (lease th))).

Definition fs_holders (s : media) : nat := count fs_holder (threads s).
Definition writers (s : media) : nat := count writer (threads s).
Definition readers (s : media) : nat := count reader (threads s).

(** What a thread's position says about what it holds. *)
Definition pc_ok (th : thread) : Prop :=
  match tpc th with
  | FsLoad | FsTry _ => has_fs th = false
  | FsRelease => has_fs th = true
  | AcqPresent flags _ | AcqGeneration flags _ | AcqLoad flags _ | AcqTry flags _ _ =>
      active (lease th) = false /\ flags_ok flags = true /\ 0 <= flags < 2 ^ 32
  | RelWriter _ => writer th = true
  | RelLoad _ => reader th = true
  | RelTry state _ => reader th = true /\ MEDIA_READER_ONE <= state
  | _ => True
  end.

Record media_inv (s : media) : Prop := {
  mi_word : g_media_owners s = Z.of_nat (fs_holders s + 2 * writers s + 4 * readers s);
  mi_width : is_word 32 (g_media_owners s);
  mi_fs : (fs_holders s <= 1)%nat;
  mi_writer : (writers s <= 1)%nat;
  mi_excl : (writers s <> 0 -> fs_holders s = 0 /\ readers s = 0)%nat;
  mi_pc : Forall pc_ok (threads s);
}.

(** ** Bits *)

Lemma land_low o m : Z.land m 3 = m -> Z.land o m = Z.land (o mod 4) m.
Proof.
  intros Hm. rewrite <-Hm at 1. rewrite (Z.land_comm m), Z.land_assoc. f_equal. apply (Z.land_ones o 2). lia.
Qed.

Lemma ldiff_add b m : Z.land b m = 0 -> Z.ldiff (b + m) m = b.
Proof.
  intros H. rewrite Z.add_nocarry_lor by done. apply Z.bits_inj'. intros n Hn.
  assert (Z.testbit (Z.land b m) n = false) as Hb by (rewrite H; apply Z.bits_0).
  rewrite Z.land_spec in Hb. rewrite Z.ldiff_spec, Z.lor_spec. by destruct (Z.testbit b n), (Z.testbit m n).
Qed.

Lemma flags_ok_cases flags : flags_ok flags = true -> 0 <= flags < 2 ^ 32 -> flags = 0 \/ flags = 1.
Proof.
  unfold flags_ok, OVE_MEDIA_RAW_WRITE. rewrite Z.eqb_eq. intros H Hr.
  assert (flags / 2 = 0) as H2; [|dlia]. rewrite <-Z.div2_div, Z.div2_spec. apply Z.bits_inj'. intros n Hn.
  rewrite Z.shiftr_spec, Z.bits_0 by done. assert (Z.testbit (Z.ldiff flags 1) (n + 1) = false) as Hb by (rewrite H; apply Z.bits_0).
  assert (Z.testbit 1 (n + 1) = false) as H1 by (apply Z.bits_above_log2; [lia|cbn; lia]).
  rewrite Z.ldiff_spec, H1 in Hb. by destruct (Z.testbit flags (n + 1)).
Qed.

(** ** Updates *)

Lemma put_counts (s : media) i th th' : threads s !! i = Some th ->
  (fs_holders (put s i th') + Nat.b2n (has_fs th) = fs_holders s + Nat.b2n (has_fs th') /\
   writers (put s i th') + Nat.b2n (writer th) = writers s + Nat.b2n (writer th') /\
   readers (put s i th') + Nat.b2n (reader th) = readers s + Nat.b2n (reader th'))%nat.
Proof. intros Hi. split_and!; by apply count_insert. Qed.

(** A step that changes no holding. *)
Lemma inv_quiet (s s' : media) i th th' : media_inv s -> threads s !! i = Some th -> pc_ok th' ->
  threads s' = threads s -> g_media_owners s' = g_media_owners s ->
  has_fs th' = has_fs th -> lease th' = lease th -> media_inv (put s' i th').
Proof.
  intros [H1 H2 H3 H4 H5 H6] Hi Hp Ht Ho Hf Hl. rewrite <-Ht in Hi. destruct (put_counts s' i th th' Hi) as (C1 & C2 & C3).
  unfold writer, reader in C2, C3. rewrite Hl in C2, C3. rewrite Hf in C1.
  assert (fs_holders s' = fs_holders s /\ writers s' = writers s /\ readers s' = readers s) as (E1 & E2 & E3)
    by (unfold fs_holders, writers, readers; by rewrite Ht).
  split; cbn [put g_media_owners threads]; rewrite ?Ho; try lia; try done.
  apply Forall_insert; [by rewrite Ht|done].
Qed.

(** A step that changes what thread [i] holds, and the word with it. *)
Lemma inv_hold (s : media) i th th' o : media_inv s -> threads s !! i = Some th -> pc_ok th' ->
  o = Z.of_nat (fs_holders (put s i th') + 2 * writers (put s i th') + 4 * readers (put s i th')) -> is_word 32 o ->
  (fs_holders (put s i th') <= 1)%nat -> (writers (put s i th') <= 1)%nat ->
  (writers (put s i th') <> 0 -> fs_holders (put s i th') = 0 /\ readers (put s i th') = 0)%nat ->
  media_inv (put {| s with g_media_owners := o |} i th').
Proof. intros Hs Hi Hp Ho Hw H1 H2 H3. split; try done. cbn. apply Forall_insert; [by destruct Hs|done]. Qed.

Lemma count_pos {A} (p : A -> bool) l i x : l !! i = Some x -> p x = true -> (count p l <> 0)%nat.
Proof. intros Hi Hp H0. apply (proj1 (count_zero p l) H0 i) in Hi. congruence. Qed.


(** The word, by its fields. *)
Lemma word_fields s : media_inv s ->
  g_media_owners s mod 4 = Z.of_nat (fs_holders s + 2 * writers s) /\ 0 <= g_media_owners s < 2 ^ 32.
Proof.
  intros [H1 H2 H3 H4 H5 H6]. unfold is_word in H2. split; [|done]. rewrite H1.
  assert (fs_holders s + 2 * writers s < 4)%nat by lia.
  replace (Z.of_nat (fs_holders s + 2 * writers s + 4 * readers s))
    with (Z.of_nat (fs_holders s + 2 * writers s) + Z.of_nat (readers s) * 4) by lia.
  rewrite Z.mod_add by lia. apply Z.mod_small. lia.
Qed.

Lemma owners_writer s : media_inv s -> (Z.land (g_media_owners s) MEDIA_WRITER =? 0) = true -> writers s = 0%nat.
Proof.
  intros Hs. destruct (word_fields s Hs) as [Hm _]. rewrite Z.eqb_eq, land_low, Hm by done. destruct Hs as [_ _ H3 H4 _ _].
  destruct (fs_holders s) as [|[]], (writers s) as [|[]]; try lia; cbn; try done.
Qed.

Lemma fs_try_inv s i th : media_inv s -> threads s !! i = Some th -> has_fs th = false ->
  (Z.land (g_media_owners s) (Z.lor MEDIA_FS MEDIA_WRITER) =? 0) = true ->
  media_inv (put {| s with g_media_owners := Z.lor (g_media_owners s) MEDIA_FS |} i {| th with has_fs := true; tpc := Idle OVE_OK |}).
Proof.
  intros Hs Hi Hf Hl. destruct (word_fields s Hs) as [Hm Hr]. apply Z.eqb_eq in Hl.
  change (Z.lor MEDIA_FS MEDIA_WRITER) with (Z.ones 2) in Hl. rewrite Z.land_ones in Hl by lia. change (2 ^ 2) with 4 in Hl.
  destruct (put_counts s i th {| th with has_fs := true; tpc := Idle OVE_OK |} Hi) as (C1 & C2 & C3).
  cbn [has_fs writer reader lease] in C1, C2, C3. rewrite Hf in C1. unfold writer, reader in C2, C3. cbn [lease Nat.b2n] in *.
  assert (Z.lor (g_media_owners s) MEDIA_FS = g_media_owners s + 1) as ->.
  { symmetry. apply Z.add_nocarry_lor. by rewrite land_low, Hl. }
  pose proof (mi_word s Hs). apply inv_hold with th; try done; unfold is_word; try lia.
Qed.

Lemma fs_release_inv s i th : media_inv s -> threads s !! i = Some th -> has_fs th = true ->
  media_inv (put {| s with g_media_owners := Z.ldiff (g_media_owners s) MEDIA_FS |} i {| th with has_fs := false; tpc := Idle 0 |}).
Proof.
  intros Hs Hi Hf. destruct (word_fields s Hs) as [Hm Hr].
  destruct (put_counts s i th {| th with has_fs := false; tpc := Idle 0 |} Hi) as (C1 & C2 & C3).
  cbn [has_fs] in C1. rewrite Hf in C1. unfold writer, reader in C2, C3. cbn [lease Nat.b2n] in *.
  pose proof (count_pos fs_holder _ _ _ Hi Hf) as Hpos. fold (fs_holders s) in Hpos. pose proof Hs as [H1 H2 H3 H4 H5 H6].
  assert (writers s = 0%nat) as Hw0 by (destruct (writers s); [done|]; destruct H5; lia).
  assert (Z.ldiff (g_media_owners s) MEDIA_FS = g_media_owners s - 1) as ->.
  { replace (g_media_owners s) with (g_media_owners s - 1 + 1) at 1 by lia. apply ldiff_add. rewrite land_low by done.
    replace ((g_media_owners s - 1) mod 4) with 0 by dlia. done. }
  apply inv_hold with th; try done; unfold is_word; lia.
Qed.

Lemma acquire_inv s i th flags gen d l : media_inv s -> threads s !! i = Some th -> active (lease th) = false ->
  flags_ok flags = true -> 0 <= flags < 2 ^ 32 -> acquire_desired flags (g_media_owners s) = Some d ->
  pc_ok (mk_thread (mk_lease gen (u8 flags) true) (has_fs th) l) ->
  media_inv (put {| s with g_media_owners := d |} i (mk_thread (mk_lease gen (u8 flags) true) (has_fs th) l)).
Proof.
  intros Hs Hi Ha Hf Hr Hd Hp. destruct (word_fields s Hs) as [Hm Hro].
  destruct (put_counts s i th (mk_thread (mk_lease gen (u8 flags) true) (has_fs th) l) Hi) as (C1 & C2 & C3).
  unfold writer, reader in C2, C3. cbn [lease active access has_fs andb] in *. rewrite Ha in C2, C3. cbn [andb Nat.b2n] in *.
  pose proof Hs as [H1 H2 H3 H4 H5 H6]. unfold acquire_desired in Hd.
  destruct (flags_ok_cases flags Hf Hr) as [-> | ->]; cbn [writes] in Hd.
  - change (writes 0) with false in Hd. change (writes (u8 0)) with false in C2, C3. cbn [negb Nat.b2n] in *.
    destruct (Z.land (g_media_owners s) MEDIA_WRITER =? 0) eqn:Hw; [|done]. apply owners_writer in Hw; [|done].
    destruct (_ <? _) eqn:Hlt; [done|]. injection Hd as <-. apply Z.ltb_ge in Hlt.
    unfold UINT32_MAX, MEDIA_READER_ONE in *. rewrite wrap_small by (unfold is_word; lia).
    apply inv_hold with th; try done; unfold is_word; lia.
  - change (writes 1) with true in Hd. change (writes (u8 1)) with true in C2, C3. cbn [negb Nat.b2n] in *.
    destruct (g_media_owners s =? 0) eqn:H0; [|done]. injection Hd as <-. apply Z.eqb_eq in H0.
    unfold MEDIA_WRITER. apply inv_hold with th; try done; unfold is_word; lia.
Qed.

Lemma writer_release_inv s i th rc : media_inv s -> threads s !! i = Some th -> writer th = true ->
  media_inv (put {| s with g_media_owners := Z.ldiff (g_media_owners s) MEDIA_WRITER |} i {| th with lease := no_lease; tpc := Idle rc |}).
Proof.
  intros Hs Hi Hw. destruct (put_counts s i th {| th with lease := no_lease; tpc := Idle rc |} Hi) as (C1 & C2 & C3).
  rewrite Hw in C2. assert (reader th = false) as Hr by (unfold writer, reader in *; by destruct (active _), (writes _)).
  rewrite Hr in C3. change (writer {| th with lease := no_lease; tpc := Idle rc |}) with false in C2.
  change (reader {| th with lease := no_lease; tpc := Idle rc |}) with false in C3. cbn [has_fs Nat.b2n] in C1, C2, C3. pose proof (count_pos writer _ _ _ Hi Hw) as Hpos. fold (writers s) in Hpos.
  pose proof Hs as [H1 H2 H3 H4 H5 H6]. destruct (H5 Hpos) as [H7 H8].
  assert (g_media_owners s = 2) as -> by lia. change (Z.ldiff 2 MEDIA_WRITER) with 0.
  apply inv_hold with th; try done; unfold is_word; lia.
Qed.

Lemma reader_release_inv s i th rc : media_inv s -> threads s !! i = Some th -> reader th = true ->
  media_inv (put {| s with g_media_owners := g_media_owners s - MEDIA_READER_ONE |} i {| th with lease := no_lease; tpc := Idle rc |}).
Proof.
  intros Hs Hi Hr. destruct (put_counts s i th {| th with lease := no_lease; tpc := Idle rc |} Hi) as (C1 & C2 & C3).
  rewrite Hr in C3. assert (writer th = false) as Hw by (unfold writer, reader in *; by destruct (active _), (writes _)).
  rewrite Hw in C2. change (writer {| th with lease := no_lease; tpc := Idle rc |}) with false in C2.
  change (reader {| th with lease := no_lease; tpc := Idle rc |}) with false in C3. cbn [has_fs Nat.b2n] in C1, C2, C3. pose proof (count_pos reader _ _ _ Hi Hr) as Hpos. fold (readers s) in Hpos.
  pose proof Hs as [H1 H2 H3 H4 H5 H6]. unfold is_word in H2. unfold MEDIA_READER_ONE.
  apply inv_hold with th; try done; unfold is_word; lia.
Qed.


(** ** Every step keeps the invariant *)

Lemma raw_release_ok th rc : pc_ok {| th with tpc := raw_release (lease th) rc |}.
Proof.
  unfold raw_release, pc_ok. cbn [tpc]. unfold writer, reader. destruct (active (lease th)) eqn:Ha; cbn [negb]; [|done].
  destruct (writes (access (lease th))) eqn:Hw; cbn; by rewrite Ha, Hw.
Qed.

Lemma call_ok th l : call th l -> pc_ok {| th with tpc := l |}.
Proof.
  intros Hc. destruct Hc; try done.
  - unfold ove_media_raw_acquire, pc_ok. destruct (active (lease th)) eqn:Ha, (flags_ok flags) eqn:Hf, (gen =? 0); cbn; auto.
  - apply raw_release_ok.
  - unfold ove_media_raw_valid, raw_valid. by destruct (_ || _).
Qed.

Lemma invalid_ok th acq : pc_ok {| th with tpc := invalid th acq |}.
Proof. unfold invalid. destruct acq; [apply raw_release_ok|done]. Qed.

Lemma reader_word s i th : media_inv s -> threads s !! i = Some th -> reader th = true ->
  MEDIA_READER_ONE <= g_media_owners s.
Proof.
  intros Hs Hi Hr. pose proof (count_pos reader _ _ _ Hi Hr) as Hpos. fold (readers s) in Hpos.
  rewrite (mi_word s Hs). unfold MEDIA_READER_ONE. lia.
Qed.

Lemma advance_inv s i th : media_inv s -> threads s !! i = Some th ->
  media_inv (put (fst (advance s th)) i (snd (advance s th))).
Proof.
  intros Hs Hi. pose proof (Forall_lookup_1 _ _ _ _ (mi_pc s Hs) Hi) as Hp.
  unfold advance, pc_ok, cas in *. destruct (tpc th) as
    [r| |state| |flags gen|flags gen|flags gen|flags gen state|flags acq|flags acq|rc|rc|state rc|gen present|present|] eqn:Hpc.
  - apply (inv_quiet s _ i th); try done. cbn [snd]. unfold pc_ok. by rewrite Hpc.
  - by apply (inv_quiet s _ i th).
  - destruct (Z.land state _ =? 0) eqn:Hl; cbn [negb]; [|by apply (inv_quiet s _ i th)].
    destruct (g_media_owners s =? state) eqn:Ho; [|by apply (inv_quiet s _ i th)]. apply Z.eqb_eq in Ho as <-. by apply fs_try_inv.
  - by apply fs_release_inv.
  - apply (inv_quiet s _ i th); try done. by destruct (g_media_present s).
  - apply (inv_quiet s _ i th); try done. by destruct (_ =? gen).
  - by apply (inv_quiet s _ i th).
  - destruct Hp as (Ha & Hf & Hr). destruct (acquire_desired flags state) as [d|] eqn:Hd; [|by apply (inv_quiet s _ i th)].
    destruct (g_media_owners s =? state) eqn:Ho; [|by apply (inv_quiet s _ i th)]. apply Z.eqb_eq in Ho as <-.
    cbn [fst snd]. eapply acquire_inv; try done. unfold raw_valid. case_match; [|done].
    apply (raw_release_ok (mk_thread (mk_lease gen (u8 flags) true) (has_fs th) (Idle 0))).
  - apply (inv_quiet s _ i th); try done. cbn [snd]. destruct (g_media_present s); [done|apply invalid_ok].
  - apply (inv_quiet s _ i th); try done. cbn [snd]. destruct (_ =? _); [done|apply invalid_ok].
  - by apply writer_release_inv.
  - apply (inv_quiet s _ i th); try done. split; [done|by eapply reader_word].
  - destruct Hp as [Hr Hge]. destruct (state <? MEDIA_READER_ONE) eqn:Hlt; [apply Z.ltb_lt in Hlt; lia|].
    destruct (g_media_owners s =? state) eqn:Ho; [apply Z.eqb_eq in Ho as <-; by apply reader_release_inv|].
    apply (inv_quiet s _ i th); try done. split; [done|by eapply reader_word].
  - by apply (inv_quiet s _ i th).
  - by apply (inv_quiet s _ i th).
  - by apply (inv_quiet s _ i th).
Qed.

Lemma media_step_inv s s' : step s s' -> media_inv s -> media_inv s'.
Proof.
  intros Hst Hs. destruct Hst as [s i th r l Hi Hr Hc|s i th Hi].
  - apply (inv_quiet s _ i th); try done. by apply call_ok.
  - by apply advance_inv.
Qed.

Lemma media_start_inv n : media_inv (start n).
Proof.
  assert (forall p : thread -> bool, p (mk_thread no_lease false (Idle 0)) = false ->
    count p (replicate n (mk_thread no_lease false (Idle 0))) = 0%nat) as H0.
  { intros p Hp. apply count_zero. by intros i x [-> _]%lookup_replicate. }
  split; unfold fs_holders, writers, readers; cbn [start threads g_media_owners]; rewrite ?(H0 fs_holder), ?(H0 writer), ?(H0 reader) by done; try done; try lia.
  by apply Forall_replicate.
Qed.

(** C13. The owner word is well formed in every reachable state of any number
    of threads, whatever the interleaving of their atomic operations and
    whatever becomes of the card: it fits 32 bits, its low bits say whether
    the file system and the writer are in and the rest counts the active
    raw-read leases exactly; so at most one thread has the file-system slot,
    at most one lease is a writer, a writer excludes both the file system and
    readers, and the word is 0 again when everything has been released. *)
Theorem media_owners_exact n s : rtc step (start n) s ->
  g_media_owners s = Z.of_nat (fs_holders s + 2 * writers s + 4 * readers s) /\ is_word 32 (g_media_owners s) /\
  (fs_holders s <= 1)%nat /\ (writers s <= 1)%nat /\ (writers s <> 0 -> fs_holders s = 0 /\ readers s = 0)%nat.
Proof.
  intros Hr. assert (media_inv s) as []; [|done]. revert Hr. apply (rtc_ind_r (fun s => media_inv s)).
  - apply media_start_inv.
  - intros y z _ Hst Hy. by eapply media_step_inv.
Qed.



(** ** Running alone

    A call whose atomic operations nobody interleaves with; the longest takes
    five steps. *)

Fixpoint solo (fuel : nat) (s : media) (th : thread) : media * thread :=
  match fuel, tpc th with
  | S fuel, Idle r => (s, th)
  | S fuel, _ => let '(s', th') := advance s th in solo fuel s' th'
  | O, _ => (s, th)
  end.

Lemma solo_step fuel s th : (forall r, tpc th <> Idle r) ->
  solo (S fuel) s th = solo fuel (fst (advance s th)) (snd (advance s th)).
Proof. intros Hn. cbn [solo]. destruct (tpc th) eqn:Hp; try (by destruct (advance s th)). by destruct (Hn r). Qed.

Lemma solo_idle fuel s th r : tpc th = Idle r -> solo fuel s th = (s, th).
Proof. intros Hp. destruct fuel; cbn [solo]; [done|by rewrite Hp]. Qed.

(** One atomic operation of a concrete thread. *)
Ltac solo1 := rewrite solo_step by (intros ?; discriminate); unfold advance at 1 2; cbn [tpc fst snd lease has_fs].
Ltac finish := erewrite solo_idle by reflexivity; reflexivity.

Definition returned (th : thread) : Z := match tpc th with Idle r => r | _ => 0 end.

(** A call on lease [l]: the new state, the lease and the result. *)
Definition media_call (s : media) (l : ove_media_lease) (entry : pc) : media * ove_media_lease * Z :=
  let '(s', th) := solo 8 s (mk_thread l false entry) in (s', lease th, returned th).

(** What the code means by a valid lease. *)
Definition current (s : media) (l : ove_media_lease) : bool :=
  g_media_present s && (g_media_generation s =? generation l).

Lemma raw_valid_alone s l flags : flags_ok flags = true ->
  media_call s l (ove_media_raw_valid l flags) =
  (s, l, Z.b2z (active l && negb (Z.land (access l) OVE_MEDIA_RAW_WRITE <? Z.land flags OVE_MEDIA_RAW_WRITE) && current s l)).
Proof.
  intros Hf. unfold media_call, ove_media_raw_valid, raw_valid, current. rewrite Hf.
  destruct (active l) eqn:Ha; [|done].
  destruct (Z.land (access l) OVE_MEDIA_RAW_WRITE <? Z.land flags OVE_MEDIA_RAW_WRITE) eqn:Hc; [done|].
  cbn [negb orb andb]. solo1. destruct (g_media_present s) eqn:Hp; [|finish].
  solo1. destruct (g_media_generation s =? generation l); finish.
Qed.

Lemma raw_release_alone s l : active l = true ->
  media_call s l (ove_media_raw_release l) =
  ({| s with g_media_owners :=
       if writes (access l) then Z.ldiff (g_media_owners s) MEDIA_WRITER
       else if g_media_owners s <? MEDIA_READER_ONE then g_media_owners s else g_media_owners s - MEDIA_READER_ONE |}, no_lease, 0).
Proof.
  intros Ha. unfold media_call, ove_media_raw_release, raw_release. rewrite Ha. cbn [negb].
  destruct (writes (access l)); [solo1; finish|]. solo1. solo1.
  destruct (g_media_owners s <? MEDIA_READER_ONE); [by destruct s|]. unfold cas. rewrite Z.eqb_refl. finish.
Qed.

Lemma raw_release_inactive s l : active l = false -> media_call s l (ove_media_raw_release l) = (s, l, 0).
Proof. intros Ha. unfold media_call, ove_media_raw_release, raw_release. by rewrite Ha. Qed.

(** Every branch of an acquisition. *)
Lemma raw_acquire_alone s l flags gen : active l = false -> flags_ok flags = true -> 0 <= flags < 2 ^ 32 -> gen <> 0 ->
  media_call s l (ove_media_raw_acquire l flags gen) =
  if negb (g_media_present s && (g_media_generation s =? gen)) then (s, l, OVE_ERR_NOT_REGISTERED) else
  match acquire_desired flags (g_media_owners s) with
  | None => (s, l, OVE_ERR_BUSY)
  | Some d => ({| s with g_media_owners := d |}, mk_lease gen flags true, OVE_OK)
  end.
Proof.
  intros Ha Hf Hr Hg. unfold media_call, ove_media_raw_acquire. rewrite Ha, Hf. apply Z.eqb_neq in Hg. rewrite Hg.
  cbn [negb orb]. solo1. destruct (g_media_present s) eqn:Hp; [|finish]. solo1.
  destruct (g_media_generation s =? gen) eqn:Hge; [|finish]. solo1. cbn [andb negb]. solo1.
  destruct (acquire_desired flags (g_media_owners s)) as [d|] eqn:Hd; [|finish]. unfold cas. rewrite Z.eqb_refl. cbn [fst snd].
  assert (u8 flags = flags) as -> by (destruct (flags_ok_cases flags Hf Hr) as [-> | ->]; done).
  unfold raw_valid. cbn [active access negb orb]. rewrite Hf. cbn [negb orb]. rewrite Z.ltb_irrefl.
  solo1. cbn [g_media_present]. rewrite Hp. solo1. cbn [g_media_generation generation]. rewrite Hge. finish.
Qed.

Lemma observe_alone s l gen present :
  media_call s l (ove_media_observe gen present) =
  ({| s with g_media_generation := if gen =? 0 then 1 else gen; g_media_present := present |}, l, 0).
Proof. done. Qed.

Lemma removed_alone s l : media_call s l ove_media_removed = ({| s with g_media_present := false |}, l, 0).
Proof. done. Qed.

End Media.

(** ** Block handles (src/ove_block.c)

    The raw block calls over the lease and the engine's backend, which is a
    parameter: its query of the medium, its transfers and its flush act on a
    state of its own. *)

Module Block.
Import Media.

Record ove_block_info := mk_info {
  block_count : Z; logical_block_size : Z; erase_block_size : Z; iflags : Z; igeneration : Z }.
Record ove_block := mk_block { blease : ove_media_lease; bflags : Z }.

Definition OVE_BLOCK_F_READ_ONLY : Z := 2.
Definition OVE_BLOCK_F_MEDIA_PRESENT : Z := 4.
Definition OVE_BLOCK_OPEN_WRITE : Z := 1.

Section block.
Context {B : Type}.
Context (ove_block_backend_get_info : B -> Z * ove_block_info * B).
Context (ove_block_backend_read : B -> Z -> Z -> Z * list Z * B).
Context (ove_block_backend_write : B -> Z -> Z -> list Z -> Z * B).
Context (ove_block_backend_sync : B -> Z * B).

(** The ownership state, the backend, and the calls made to the backend. *)
Inductive bcall := BRead | BWrite | BSync.
Record dev := mk_dev { med : media; back : B; calls : list bcall }.

Definition ove_block_get_info (d : dev) : Z * ove_block_info * dev :=
  let '(rc, info, b) := ove_block_backend_get_info (back d) in
  let d := {| d with back := b |} in
  if rc =? OVE_OK then
    let '(m, _, _) := media_call (med d) no_lease
      (ove_media_observe (igeneration info) (negb (Z.land (iflags info) OVE_BLOCK_F_MEDIA_PRESENT =? 0))) in
    (rc, info, {| d with med := m |})
  else if rc =? OVE_ERR_NOT_REGISTERED then
    let '(m, _, _) := media_call (med d) no_lease ove_media_removed in (rc, info, {| d with med := m |})
  else (rc, info, d).

Definition refresh_presence_after_error (d : dev) : dev := snd (ove_block_get_info d).

Definition ove_block_open (d : dev) (b : ove_block) (flags : Z) : Z * ove_block * dev :=
  if active (blease b) || negb (Z.ldiff flags OVE_BLOCK_OPEN_WRITE =? 0) then (OVE_ERR_INVALID_PARAM, b, d) else
  let '(rc, info, d) := ove_block_get_info d in
  if negb (rc =? OVE_OK) then (rc, b, d) else
  if negb (Z.land flags OVE_BLOCK_OPEN_WRITE =? 0) && negb (Z.land (iflags info) OVE_BLOCK_F_READ_ONLY =? 0)
  then (OVE_ERR_READ_ONLY, b, d) else
  let '(m, l, rc) := media_call (med d) (blease b) (ove_media_raw_acquire (blease b)
    (if negb (Z.land flags OVE_BLOCK_OPEN_WRITE =? 0) then OVE_MEDIA_RAW_WRITE else 0) (igeneration info)) in
  (rc, mk_block l (if rc =? OVE_OK then u8 flags else bflags b), {| d with med := m |}).

Definition backend_sync (d : dev) : Z * dev :=
  let '(rc, b) := ove_block_backend_sync (back d) in (rc, {| d with back := b; calls := calls d ++ [BSync] |}).

(** [ove_media_raw_valid] on the handle's lease. *)
Definition valid (d : dev) (b : ove_block) (flags : Z) : bool :=
  let '(_, _, r) := media_call (med d) (blease b) (ove_media_raw_valid (blease b) flags) in negb (r =? 0).

Definition ove_block_close (d : dev) (b : ove_block) : ove_block * dev :=
  let d := if negb (Z.land (bflags b) OVE_BLOCK_OPEN_WRITE =? 0) && valid d b OVE_MEDIA_RAW_WRITE
           then snd (backend_sync d) else d in
  let '(m, l, _) := media_call (med d) (blease b) (ove_media_raw_release (blease b)) in
  (mk_block l 0, {| d with med := m |}).

Definition ove_block_read (d : dev) (b : ove_block) (first n : Z) : Z * list Z * dev :=
  if negb (valid d b 0) then (OVE_ERR_NOT_REGISTERED, [], d) else
  let '(rc, data, bk) := ove_block_backend_read (back d) first n in
  let d := {| d with back := bk; calls := calls d ++ [BRead] |} in
  (rc, data, if negb (rc =? OVE_OK) then refresh_presence_after_error d else d).

Definition ove_block_write (d : dev) (b : ove_block) (first n : Z) (data : list Z) : Z * dev :=
  if negb (valid d b 0) then (OVE_ERR_NOT_REGISTERED, d) else
  if negb (valid d b OVE_MEDIA_RAW_WRITE) then (OVE_ERR_PERMISSION, d) else
  let '(rc, bk) := ove_block_backend_write (back d) first n data in
  let d := {| d with back := bk; calls := calls d ++ [BWrite] |} in
  (rc, if negb (rc =? OVE_OK) then refresh_presence_after_error d else d).

Definition ove_block_sync (d : dev) (b : ove_block) : Z * dev :=
  if negb (valid d b 0) then (OVE_ERR_NOT_REGISTERED, d) else
  let '(rc, d) := backend_sync d in
  (rc, if negb (rc =? OVE_OK) then refresh_presence_after_error d else d).

(** ** Handles *)

(** A handle as [ove_block_open] leaves it. *)
Definition handle_ok (b : ove_block) : Prop :=
  bflags b = access (blease b) /\ (access (blease b) = 0 \/ access (blease b) = 1).

Lemma valid_spec d b flags : handle_ok b -> flags = 0 \/ flags = 1 ->
  valid d b flags = active (blease b) && (flags <=? access (blease b)) && current (med d) (blease b).
Proof.
  intros [_ Hh] Hf. unfold valid. rewrite raw_valid_alone by (by destruct Hf as [-> | ->]).
  destruct Hf as [-> | ->], Hh as [-> | ->]; cbn; destruct (active (blease b)), (current _ _); done.
Qed.

(** The medium has been removed or replaced since the handle was opened. *)
Definition stale (d : dev) (b : ove_block) : Prop :=
  g_media_present (med d) = false \/ g_media_generation (med d) <> generation (blease b).

Lemma stale_invalid d b flags : handle_ok b -> flags = 0 \/ flags = 1 -> stale d b -> valid d b flags = false.
Proof.
  intros Hb Hf Hs. rewrite valid_spec by done. unfold current.
  destruct Hs as [-> |Hg%Z.eqb_neq]; [|rewrite Hg]; by rewrite ?andb_false_r.
Qed.

(** The query keeps the record of transfers and the owners. *)
Lemma get_info_frame d : calls (ove_block_get_info d).2 = calls d /\
  g_media_owners (med (ove_block_get_info d).2) = g_media_owners (med d).
Proof.
  unfold ove_block_get_info. destruct (ove_block_backend_get_info (back d)) as [[rc info] b].
  destruct (rc =? OVE_OK); [by rewrite observe_alone|]. destruct (rc =? OVE_ERR_NOT_REGISTERED); [|done].
  by rewrite removed_alone.
Qed.

(** C37. Raw block handles fail closed: once the medium a handle was opened on
    has been removed or replaced, every transfer through the handle returns
    [OVE_ERR_NOT_REGISTERED] without reaching the backend, closing does not
    flush, and the lease is given back all the same.  A read handle never
    reaches the backend's write, whatever the state of the medium. *)
Theorem block_fails_closed d b first n data :
  handle_ok b ->
  (stale d b ->
    ove_block_read d b first n = (OVE_ERR_NOT_REGISTERED, [], d) /\
    ove_block_write d b first n data = (OVE_ERR_NOT_REGISTERED, d) /\
    ove_block_sync d b = (OVE_ERR_NOT_REGISTERED, d) /\
    calls (ove_block_close d b).2 = calls d /\ active (blease (ove_block_close d b).1) = false) /\
  (access (blease b) = 0 -> (ove_block_write d b first n data).2 = d /\ (ove_block_write d b first n data).1 < 0).
Proof.
  intros Hb. split.
  - intros Hs. unfold ove_block_read, ove_block_write, ove_block_sync, ove_block_close.
    rewrite (stale_invalid d b 0), (stale_invalid d b OVE_MEDIA_RAW_WRITE) by (try done; unfold OVE_MEDIA_RAW_WRITE; lia).
    rewrite andb_false_r. destruct (active (blease b)) eqn:Ha; [by rewrite raw_release_alone|].
    by rewrite raw_release_inactive.
  - intros H0. unfold ove_block_write. rewrite !valid_spec by (try done; unfold OVE_MEDIA_RAW_WRITE; lia). rewrite H0.
    change (OVE_MEDIA_RAW_WRITE <=? 0) with false. rewrite andb_false_r. cbn [negb andb]. by case_match.
Qed.

(** A successful open, step by step. *)
Lemma open_ok d b flags b' d' :
  active (blease b) = false -> 0 <= flags < 2 ^ 32 -> ove_block_open d b flags = (OVE_OK, b', d') ->
  (flags = 0 \/ flags = 1) /\ exists gen o, gen <> 0 /\ acquire_desired flags (g_media_owners (med d)) = Some o /\
    b' = mk_block (mk_lease gen flags true) flags /\ g_media_owners (med d') = o /\
    g_media_present (med d') = true /\ g_media_generation (med d') = gen.
Proof.
  intros Ha Hr. unfold ove_block_open. rewrite Ha. cbn [orb].
  change (Z.ldiff flags OVE_BLOCK_OPEN_WRITE =? 0) with (flags_ok flags).
  destruct (flags_ok flags) eqn:Hf; [|done]. assert (flags = 0 \/ flags = 1) as Hfl by (by apply flags_ok_cases). cbn [negb].
  pose proof (get_info_frame d) as [_ Ho]. destruct (ove_block_get_info d) as [[rc info] d1]. cbn [snd] in Ho.
  destruct (rc =? OVE_OK) eqn:Hrc; cbn [negb]; [|intros [= -> _ _]; done].
  destruct (_ && _); [done|]. set (fl := if negb (Z.land flags OVE_BLOCK_OPEN_WRITE =? 0) then OVE_MEDIA_RAW_WRITE else 0).
  assert (fl = flags) as -> by (by destruct Hfl as [-> | ->]).
  destruct (decide (igeneration info = 0)) as [H0|Hg].
  { unfold media_call, ove_media_raw_acquire. rewrite Ha, Hf, H0. done. }
  rewrite raw_acquire_alone by done. rewrite Ho.
  destruct (g_media_present (med d1)) eqn:Hp; [|done]. destruct (_ =? igeneration info) eqn:Hge; [|done]. cbn [andb negb].
  destruct (acquire_desired flags _) as [o|] eqn:Hd; [|done]. intros [= <- <-]. apply Z.eqb_eq in Hge.
  split; [done|]. exists (igeneration info), o. split_and!; try done. f_equal. by destruct Hfl as [-> | ->].
Qed.

(** Opening and closing a handle: an open that succeeds has found the
    medium present, holds the lease it asked for (the whole medium for
    writing, one reader otherwise) for the generation observed, and closing
    it with nobody else at the medium in between restores the owner word and
    clears the handle, after flushing exactly if the handle was for
    writing. *)
Theorem block_open_close d b flags b' d' :
  active (blease b) = false -> is_word 32 (g_media_owners (med d)) -> 0 <= flags < 2 ^ 32 ->
  ove_block_open d b flags = (OVE_OK, b', d') ->
  handle_ok b' /\ ~ stale d' b' /\ acquire_desired flags (g_media_owners (med d)) = Some (g_media_owners (med d')) /\
  let r := ove_block_close d' b' in
  g_media_owners (med r.2) = g_media_owners (med d) /\ r.1 = mk_block no_lease 0 /\
  calls r.2 = calls d' ++ (if flags =? 1 then [BSync] else []).
Proof.
  intros Ha Hw Hr Hopen. destruct (open_ok d b flags b' d' Ha Hr Hopen) as (Hfl & gen & o & Hg & Hd & -> & Ho & Hp & Hge).
  assert (handle_ok (mk_block (mk_lease gen flags true) flags)) as Hh by (by split).
  split; [done|]. split; [|split; [by rewrite Ho|]].
  - intros [Hs|Hs]; [congruence|]. by cbn in Hs.
  - cbn zeta. unfold ove_block_close. rewrite valid_spec by (try done; unfold OVE_MEDIA_RAW_WRITE; lia).
    cbn [blease bflags access active andb]. unfold current. rewrite Hp, Hge. cbn [generation andb]. rewrite Z.eqb_refl, andb_true_r.
    unfold acquire_desired in Hd. unfold is_word in Hw. destruct Hfl as [-> | ->].
    + change (writes 0) with false in Hd. cbn [negb] in Hd. destruct (negb _ || _) eqn:Hb; [done|]. injection Hd as Hd.
      apply orb_false_iff in Hb as [_ Hlt%Z.ltb_ge]. unfold UINT32_MAX, MEDIA_READER_ONE in *.
      rewrite wrap_small in Hd by (unfold is_word; lia).
      change (negb (Z.land 0 OVE_BLOCK_OPEN_WRITE =? 0)) with false. cbn [andb]. rewrite raw_release_alone by done.
      cbn [access]. change (writes 0) with false. cbn [fst snd med calls g_media_owners]. unfold MEDIA_READER_ONE.
      replace (g_media_owners (med d') <? 4) with false by (symmetry; apply Z.ltb_ge; lia).
      split; [lia|]. split; [done|]. by rewrite app_nil_r.
    + change (writes 1) with true in Hd. cbn [negb] in Hd. destruct (g_media_owners (med d) =? 0) eqn:H0; [|done].
      injection Hd as Hd. apply Z.eqb_eq in H0. change (negb (Z.land 1 OVE_BLOCK_OPEN_WRITE =? 0)) with true.
      change (OVE_MEDIA_RAW_WRITE <=? 1) with true. cbn [andb]. unfold backend_sync.
      destruct (ove_block_backend_sync (back d')) as [rcs bk]. rewrite raw_release_alone by done.
      cbn [access med snd fst calls g_media_owners]. change (writes 1) with true. rewrite Ho, <-Hd, H0. done.
Qed.

End block.
End Block.

(** ** Runs *)

Module MediaDemo.
Import Media Block.

(** Thread [i] takes its next atomic step; thread [i] starts a call. *)
Definition go (i : nat) (s : media) : media :=
  match threads s !! i with Some th => put (fst (advance s th)) i (snd (advance s th)) | None => s end.
Definition begin (i : nat) (l : pc) (s : media) : media :=
  match threads s !! i with Some th => put s i {| th with tpc := l |} | None => s end.

Lemma go_reach n i s : rtc step (start n) s -> rtc step (start n) (go i s).
Proof. intros Hs. unfold go. destruct (threads s !! i) eqn:Hi; [|done]. eapply rtc_r; [done|]. by apply step_advance. Qed.

Lemma begin_reach n i th r l s : rtc step (start n) s -> threads s !! i = Some th -> tpc th = Idle r -> call th l ->
  rtc step (start n) (begin i l s).
Proof. intros Hs Hi Hr Hc. unfold begin. rewrite Hi. eapply rtc_r; [done|]. by eapply step_call. Qed.

(** Thread 0 reports card 10; thread 1 starts a raw write and thread 2 the
    file system's acquisition, both having read the free word; thread 1 wins
    and thread 2 finds the medium busy. *)
Definition reported : media := go 0 (go 0 (begin 0 (ove_media_observe 10 true) (start 3))).
Definition racing : media :=
  go 1 (go 2 (go 1 (go 1 (go 1 (begin 1 (ove_media_raw_acquire no_lease 1 10) (begin 2 ove_media_fs_acquire reported)))))).
Definition decided : media := go 2 (go 2 (go 1 (go 1 racing))).

Example race_outcome :
  g_media_owners decided = MEDIA_WRITER /\ tpc <$> threads decided = [Idle 0; Idle OVE_OK; Idle OVE_ERR_BUSY].
Proof. by vm_compute. Qed.

Lemma decided_reachable : rtc step (start 3) decided.
Proof.
  unfold decided, racing, reported. do 9 apply go_reach.
  eapply begin_reach; [|reflexivity|reflexivity|].
  - eapply begin_reach; [|reflexivity|reflexivity|by apply call_fs_acquire].
    do 2 apply go_reach. eapply begin_reach; [apply rtc_refl|reflexivity|reflexivity|apply call_observe].
  - apply (call_raw_acquire (mk_thread no_lease false (Idle 0))). lia.
Qed.

Lemma media_owners_exact_witness :
  g_media_owners decided = Z.of_nat (fs_holders decided + 2 * writers decided + 4 * readers decided) /\
  writers decided = 1%nat /\ (fs_holders decided = 0 /\ readers decided = 0)%nat.
Proof.
  split; [exact (proj1 (media_owners_exact 3 decided decided_reachable))|]. split; [reflexivity|].
  apply (media_owners_exact 3 decided decided_reachable). discriminate.
Defined.

(** [ove_media_observe] publishes the generation before the presence: a
    raw acquisition of generation 11 between the two stores is granted
    although that card is reported absent. *)
Definition swapped : media :=
  go 0 (go 1 (go 1 (go 1 (go 1 (go 1 (go 1 (begin 1 (ove_media_raw_acquire no_lease 0 11)
    (go 0 (begin 0 (ove_media_observe 11 false) reported))))))))).

Example granted_while_absent :
  tpc <$> threads swapped !! 1%nat = Some (Idle OVE_OK) /\ g_media_present swapped = false.
Proof. by vm_compute. Qed.

(** A card that is always there, and its handle. *)
Definition card_info (_ : unit) : Z * ove_block_info * unit := (OVE_OK, mk_info 64 512 512 4 7, tt).
Definition card_read (_ : unit) (_ n : Z) : Z * list Z * unit := (OVE_OK, replicate (Z.to_nat (n * 512)) 0, tt).
Definition card_write (_ : unit) (_ _ : Z) (_ : list Z) : Z * unit := (OVE_OK, tt).
Definition card_sync (_ : unit) : Z * unit := (OVE_OK, tt).

Definition idle : dev := mk_dev (start 0) tt [].
Definition closed : ove_block := mk_block no_lease 0.
Definition opened := ove_block_open card_info idle closed 1.

Lemma block_open_close_witness :
  opened = (OVE_OK, opened.1.2, opened.2) /\
  g_media_owners (med (ove_block_close card_sync opened.2 opened.1.2).2) = 0.
Proof.
  split; [reflexivity|].
  refine (proj1 (proj2 (proj2 (proj2 (block_open_close card_info card_sync idle closed 1 opened.1.2 opened.2 eq_refl _ _ eq_refl))))).
  - split; [discriminate|reflexivity].
  - split; [discriminate|reflexivity].
Defined.

(** The same handle after the card is pulled out. *)
Definition pulled : dev := mk_dev (mk_media 2 7 false []) tt [].

Lemma block_fails_closed_witness :
  ove_block_write card_info card_write pulled opened.1.2 0 1 [] = (OVE_ERR_NOT_REGISTERED, pulled).
Proof.
  refine (proj1 (proj2 (proj1 (block_fails_closed card_info card_read card_write card_sync pulled opened.1.2 0 1 [] _) _))).
  - split; [reflexivity|]. right. reflexivity.
  - left. reflexivity.
Defined.

End MediaDemo.
