(* ===== verification/AudioNodes.v ===== *)
(** * Built-in audio nodes (backends/common/ove_audio_nodes.c)

    The sample converter, the channel mapper, the gain and the tap.  Floats
    are the IEEE 754 numbers of the Standard Library's specification
    ([spec_float], binary32 and binary64, every operation rounded to nearest
    even on its own); a conversion of a float to an integer type that cannot
    hold it is undefined in C and a failure ([None]) here, as is an access
    outside a buffer.  Samples are stored least significant byte first. *)

From Stdlib Require Import SpecFloat.
From S2P Require Import Prelude Bits Audio.

(** ** Floats *)

Definition f32_mul := SFmul 24 128.
Definition f32_div := SFdiv 24 128.
Definition f32_add := SFadd 24 128.
Definition f32_sub := SFsub 24 128.
Definition f64_mul := SFmul 53 1024.
Definition f32_of_int (z : Z) : spec_float := binary_normalize 24 128 z 0 false.
Definition f64_of_int (z : Z) : spec_float := binary_normalize 53 1024 z 0 false.
Definition f64_of_f32 (x : spec_float) : spec_float :=
  match x with S754_finite s m e => binary_round 53 1024 s m e | x => x end.

(** [x > y] and [x < y]: false if either is NaN. *)
Definition f_gt (x y : spec_float) : bool := SFltb y x.
Definition f_lt (x y : spec_float) : bool := SFltb x y.

(** Truncation toward zero; undefined for NaN and the infinities. *)
Definition magnitude (m : positive) (e : Z) : Z := if 0 <=? e then Zpos m * 2 ^ e else Zpos m / 2 ^ (- e).
Definition trunc (x : spec_float) : option Z :=
  match x with
  | S754_zero _ => Some 0
  | S754_finite s m e => Some (if s then - magnitude m e else magnitude m e)
  | _ => None
  end.

(** [(intN_t)x] *)
Definition to_int (w : Z) (x : spec_float) : option Z :=
  z ← trunc x; if (- 2 ^ (w - 1) <=? z) && (z <? 2 ^ (w - 1)) then Some z else None.

(** The two comparisons before each such conversion. *)
Definition clamp (hi lo v : spec_float) : spec_float :=
  let v := if f_gt v hi then hi else v in if f_lt v lo then lo else v.

(** Bit patterns of binary32. *)
Definition f32_of_bits (b : Z) : spec_float :=
  let s := Z.testbit b 31 in let e := (b / 2 ^ 23) mod 256 in let m := b mod 2 ^ 23 in
  if e =? 255 then (if m =? 0 then S754_infinity s else S754_nan) else
  if e =? 0 then match m with Zpos m => S754_finite s m (-149) | _ => S754_zero s end
  else match m + 2 ^ 23 with Zpos m => S754_finite s m (e - 150) | _ => S754_nan end.
Definition bits_of_f32 (x : spec_float) : Z :=
  let sgn (s : bool) := if s then 2 ^ 31 else 0 in
  match x with
  | S754_zero s => sgn s
  | S754_infinity s => sgn s + 255 * 2 ^ 23
  | S754_nan => 255 * 2 ^ 23 + 2 ^ 22
  | S754_finite s m e => sgn s + (if Zpos m <? 2 ^ 23 then Zpos m else (e + 150) * 2 ^ 23 + (Zpos m - 2 ^ 23))
  end.

(** ** Samples *)

Definition load_s16 (bs : list Z) : Z := swrap 16 (le_dec bs).
Definition load_s32 (bs : list Z) : Z := swrap 32 (le_dec bs).
Definition load_f32 (bs : list Z) : spec_float := f32_of_bits (le_dec bs).
Definition store_s16 (v : Z) : list Z := le_enc 2 v.
Definition store_s32 (v : Z) : list Z := le_enc 4 v.
Definition store_f32 (x : spec_float) : list Z := le_enc 4 (bits_of_f32 x).

(** The first [total] samples of [n] bytes each. *)
Fixpoint chunk (total n : nat) (bs : list Z) : list (list Z) :=
  match total with O => [] | S t => take n bs :: chunk t n (drop n bs) end.

(** A loop over the samples: each is read, converted and written. *)
Definition each (total in_sz out_sz : nat) (f : list Z -> option (list Z)) (inb outb : list Z) : option (list Z) :=
  if decide (total * in_sz <= length inb /\ total * out_sz <= length outb)%nat then
    r ← mapM f (chunk total in_sz inb); Some (overwrite outb 0 (concat r))
  else None.

(** [memcpy] of [n] bytes to the start of [out]. *)
Definition copy (n : Z) (inb outb : list Z) : option (list Z) :=
  let n := Z.to_nat n in
  if decide (n <= length inb /\ n <= length outb)%nat then Some (overwrite outb 0 (take n inb)) else None.

(** ** Converter *)

Definition s16_to_f32 (s : Z) : spec_float := f32_div (f32_of_int s) (f32_of_int 32768).
Definition f32_to_s16 (x : spec_float) : option Z :=
  to_int 16 (clamp (f32_of_int 32767) (f32_of_int (-32768)) (f32_mul x (f32_of_int 32768))).
Definition s16_to_s32 (s : Z) : Z := swrap 32 (Z.shiftl s 16).
Definition s32_to_s16 (s : Z) : Z := swrap 16 (Z.shiftr s 16).
Definition s32_to_f32 (s : Z) : spec_float := f32_div (f32_of_int s) (f32_of_int 2147483648).
(** The literals [2147483647.0f] and [2147483648.0f] are the same float. *)
Definition f32_to_s32 (x : spec_float) : option Z :=
  to_int 32 (clamp (f32_of_int 2147483647) (f32_of_int (-2147483648)) (f32_mul x (f32_of_int 2147483648))).

Definition total_samples (v : buf_view) : nat := Z.to_nat (u32 (v_frames v * channels (v_fmt v))).

Definition converter_configure (target : Z) (inf : ove_audio_fmt) : Z * ove_audio_fmt :=
  (OVE_OK, mk_fmt (sample_rate inf) (channels inf) target).

(** The result and the bytes left in [out]. *)
Definition converter_process (inb outb : buf_view) : option (Z * list Z) :=
  let total := total_samples inb in
  let src := sample_fmt (v_fmt inb) in let dst := sample_fmt (v_fmt outb) in
  let run in_sz out_sz f := r ← each total in_sz out_sz f (v_bytes inb) (v_bytes outb); Some (OVE_OK, r) in
  if src =? dst then
    r ← copy (u32 (Z.of_nat total * ove_audio_sample_size src)) (v_bytes inb) (v_bytes outb); Some (OVE_OK, r)
  else if (src =? OVE_AUDIO_FMT_S16) && (dst =? OVE_AUDIO_FMT_F32) then
    run 2%nat 4%nat (fun b => Some (store_f32 (s16_to_f32 (load_s16 b))))
  else if (src =? OVE_AUDIO_FMT_F32) && (dst =? OVE_AUDIO_FMT_S16) then
    run 4%nat 2%nat (fun b => store_s16 <$> f32_to_s16 (load_f32 b))
  else if (src =? OVE_AUDIO_FMT_S16) && (dst =? OVE_AUDIO_FMT_S32) then
    run 2%nat 4%nat (fun b => Some (store_s32 (s16_to_s32 (load_s16 b))))
  else if (src =? OVE_AUDIO_FMT_S32) && (dst =? OVE_AUDIO_FMT_S16) then
    run 4%nat 2%nat (fun b => Some (store_s16 (s32_to_s16 (load_s32 b))))
  else if (src =? OVE_AUDIO_FMT_S32) && (dst =? OVE_AUDIO_FMT_F32) then
    run 4%nat 4%nat (fun b => Some (store_f32 (s32_to_f32 (load_s32 b))))
  else if (src =? OVE_AUDIO_FMT_F32) && (dst =? OVE_AUDIO_FMT_S32) then
    run 4%nat 4%nat (fun b => store_s32 <$> f32_to_s32 (load_f32 b))
  else Some (OVE_ERR_NOT_SUPPORTED, v_bytes outb).

(** ** Channel mapper *)

Definition OVE_AUDIO_MAX_CHANNELS : Z := 8.

Record ove_audio_channel_map := mk_map { out_channels : Z; chmap : list Z }.
Record channel_map_ctx := mk_cm { cm_map : ove_audio_channel_map; in_channels : Z }.

Definition channel_map_check (map : option ove_audio_channel_map) : bool :=
  match map with
  | Some m => negb ((out_channels m =? 0) || (OVE_AUDIO_MAX_CHANNELS <? out_channels m))
  | None => false
  end.

Definition channel_map_configure (cm : channel_map_ctx) (inf : ove_audio_fmt) : Z * ove_audio_fmt * channel_map_ctx :=
  (OVE_OK, mk_fmt (sample_rate inf) (out_channels (cm_map cm)) (sample_fmt inf), {| cm with in_channels := channels inf |}).

(** One output sample: frame [f], channel [c]. *)
Definition map_sample (cm : channel_map_ctx) (sz : Z) (inb outb : list Z) (f c : Z) : option (list Z) :=
  src_ch ← chmap (cm_map cm) !! Z.to_nat c;
  let dst := Z.to_nat (u32 (u32 (f * out_channels (cm_map cm) + c) * sz)) in
  bs ← (if (0 <=? src_ch) && (src_ch <? in_channels cm) then
          let src := Z.to_nat (u32 (u32 (f * in_channels cm + src_ch) * sz)) in
          if decide (src + Z.to_nat sz <= length inb)%nat then Some (take (Z.to_nat sz) (drop src inb)) else None
        else Some (replicate (Z.to_nat sz) 0));
  if decide (dst + Z.to_nat sz <= length outb)%nat then Some (overwrite outb dst bs) else None.

(** [for (x = 0; x < n; x++)] *)
Fixpoint loop_from (x : Z) (n : nat) (body : Z -> list Z -> option (list Z)) (out : list Z) : option (list Z) :=
  match n with O => Some out | S n => out ← body x out; loop_from (x + 1) n body out end.

Definition channel_map_process (cm : channel_map_ctx) (inb outb : buf_view) : option (Z * list Z) :=
  let sz := ove_audio_sample_size (sample_fmt (v_fmt inb)) in
  r ← loop_from 0 (Z.to_nat (v_frames inb)) (fun f out =>
        loop_from 0 (Z.to_nat (out_channels (cm_map cm))) (fun c out => map_sample cm sz (v_bytes inb) out f c) out)
        (v_bytes outb);
  Some (OVE_OK, r).

(** ** Gain *)

(** [gain_db * 0.11512925464970229f], then the Pade quotient. *)
Definition LN10_20 : spec_float := S754_finite false 15452387 (-27).
Definition linear_gain (gain_db : spec_float) : spec_float :=
  let x := f32_mul gain_db LN10_20 in
  let x2 := f32_mul x x in
  let x3 := f32_mul x2 x in
  let k z := f32_of_int z in
  let num := f32_add (f32_add (f32_add (k 120) (f32_mul (k 60) x)) (f32_mul (k 12) x2)) x3 in
  let den := f32_sub (f32_add (f32_sub (k 120) (f32_mul (k 60) x)) (f32_mul (k 12) x2)) x3 in
  let r := f32_div num den in
  if f_lt r (f32_of_int 0) then f32_of_int 0 else r.

Definition gain_s16 (g : spec_float) (s : Z) : option Z :=
  to_int 16 (clamp (f32_of_int 32767) (f32_of_int (-32768)) (f32_mul (f32_of_int s) g)).
Definition gain_s32 (g : spec_float) (s : Z) : option Z :=
  to_int 32 (clamp (f64_of_int 2147483647) (f64_of_int (-2147483648)) (f64_mul (f64_of_int s) (f64_of_f32 g))).

Definition gain_configure (inf : ove_audio_fmt) : Z * ove_audio_fmt := (OVE_OK, inf).

Definition gain_process (g : spec_float) (inb outb : buf_view) : option (Z * list Z) :=
  let run sz f := r ← each (total_samples inb) sz sz f (v_bytes inb) (v_bytes outb); Some (OVE_OK, r) in
  let sf := sample_fmt (v_fmt inb) in
  if sf =? OVE_AUDIO_FMT_S16 then run 2%nat (fun b => store_s16 <$> gain_s16 g (load_s16 b))
  else if sf =? OVE_AUDIO_FMT_S32 then run 4%nat (fun b => store_s32 <$> gain_s32 g (load_s32 b))
  else if sf =? OVE_AUDIO_FMT_F32 then run 4%nat (fun b => Some (store_f32 (f32_mul (load_f32 b) g)))
  else Some (OVE_ERR_NOT_SUPPORTED, v_bytes outb).

(** ** Tap: the bytes go through, then the observer sees the input. *)

Definition tap_process (fn : bool) (inb outb : buf_view) : option (Z * list Z * list buf_view) :=
  let bytes := u32 (u32 (v_frames inb * channels (v_fmt inb)) * ove_audio_sample_size (sample_fmt (v_fmt inb))) in
  r ← copy bytes (v_bytes inb) (v_bytes outb); Some (OVE_OK, r, if fn then [inb] else []).

(** ** Node contexts and vtables

    A context is one allocation, which the vtables read through the address
    the graph keeps.  [undef_fmt] and [undef_out] stand for whatever a call
    leaves when the C code is undefined: a missing buffer or format, an
    access out of bounds, a conversion out of range. *)

Inductive node_ctx :=
  | CConverter (target_fmt : Z)
  | CMap (cm : channel_map_ctx)
  | CGain (g : spec_float)
  | CTap (fn user_data : Z).

Class NodeEnv (W : Type) := {
  ctx_malloc : W -> option Z * W;
  ctx_free : Z -> W -> W;
  ctx_load : Z -> W -> option node_ctx;
  ctx_store : Z -> node_ctx -> W -> W;
  tap_fn : Z -> buf_view -> Z -> W -> W;
  undef_fmt : Z * ove_audio_fmt;
  undef_out : option buf_view -> Z * list Z }.

(** A NULL buffer holds no bytes and a format is a pair of unsigned ints,
    also after undefined behaviour; and a stored context has C's types. *)
Class NodeEnvLaws (W : Type) `{NodeEnv W} := {
  undef_fmt_word : fmt_word undef_fmt.2;
  undef_out_len : forall v, length (undef_out (Some v)).2 = length (v_bytes v);
  ctx_load_map : forall c (w : W) cm, ctx_load c w = Some (CMap cm) -> is_word 32 (out_channels (cm_map cm)) }.

Section vtables.
Context {W : Type} {N : NodeEnv W}.

Definition destroy_ctx (c : Z) (w : W) : unit * W := (tt, ctx_free c w).

(** A [process] that only transforms bytes. *)
Definition pure_process (f : node_ctx -> buf_view -> buf_view -> option (Z * list Z))
    (c : Z) (i o : option buf_view) (w : W) : Z * list Z * W :=
  (match ctx_load c w, i, o with Some x, Some i, Some o => default (undef_out (Some o)) (f x i o) | _, _, _ => undef_out o end, w).

Definition pure_configure (f : node_ctx -> ove_audio_fmt -> option (Z * ove_audio_fmt))
    (c : Z) (i o : option ove_audio_fmt) (w : W) : Z * ove_audio_fmt * W :=
  (match ctx_load c w, i, o with Some x, Some i, Some _ => default undef_fmt (f x i) | _, _, _ => undef_fmt end, w).

Definition converter_ops : ove_audio_node_ops W := mk_ops
  (pure_configure (fun x i => match x with CConverter t => Some (converter_configure t i) | _ => None end)) None None
  (pure_process (fun _ => converter_process)) (Some destroy_ctx).

(** [channel_map_configure] also writes to its context. *)
Definition channel_map_ops : ove_audio_node_ops W := mk_ops
  (fun c i o w => match ctx_load c w, i, o with
                  | Some (CMap cm), Some i, Some _ => let '(r, f, cm) := channel_map_configure cm i in (r, f, ctx_store c (CMap cm) w)
                  | _, _, _ => (undef_fmt, w)
                  end) None None
  (pure_process (fun x i o => match x with CMap cm => channel_map_process cm i o | _ => None end)) (Some destroy_ctx).

Definition gain_ops : ove_audio_node_ops W := mk_ops
  (pure_configure (fun _ i => Some (gain_configure i))) None None
  (pure_process (fun x i o => match x with CGain g => gain_process g i o | _ => None end)) (Some destroy_ctx).

Definition tap_configure (inf : ove_audio_fmt) : Z * ove_audio_fmt := (OVE_OK, inf).

Definition tap_ops : ove_audio_node_ops W := mk_ops
  (pure_configure (fun _ i => Some (tap_configure i))) None None
  (fun c i o w => match ctx_load c w, i, o with
                  | Some (CTap fn ud), Some i, Some o =>
                      match tap_process (negb (fn =? 0)) i o with
                      | Some (r, bs, seen) => (r, bs, foldl (fun w v => tap_fn fn v ud w) w seen)
                      | None => (undef_out (Some o), w)
                      end
                  | _, _, _ => (undef_out o, w)
                  end) (Some destroy_ctx).

(** ** Building nodes: the context is allocated, filled and handed to the
    graph. *)

Context {E : AudioEnv W}.
Abbreviation GM := (MO (ast W)).

Definition world {A} (f : W -> A * W) : GM A :=
  fun s => let '(a, w) := f (aw s) in Some (a, mk_ast w (atr s) (ag s)).

Definition register_node (o : ove_audio_node_ops W) (c : Z) (nm : option (list Z)) (ty : ove_audio_node_type) : GM Z :=
  idx ← ove_audio_graph_add_node (Some o) c nm ty;
  (if idx <? 0 then world (destroy_ctx c) else mret tt);;
  mret idx.

Definition with_ctx (x : node_ctx) (o : ove_audio_node_ops W) (nm : option (list Z)) : GM Z :=
  p ← world ctx_malloc;
  match p with
  | None => mret OVE_ERR_NO_MEMORY
  | Some c => world (fun w => (tt, ctx_store c x w));; register_node o c nm OVE_AUDIO_NODE_PROCESSOR
  end.

Definition ove_audio_node_converter (target : Z) (nm : option (list Z)) : GM Z :=
  with_ctx (CConverter target) converter_ops nm.
Definition ove_audio_node_channel_map (map : option ove_audio_channel_map) (nm : option (list Z)) : GM Z :=
  match map with
  | Some m => if channel_map_check (Some m) then with_ctx (CMap (mk_cm m 0)) channel_map_ops nm else mret OVE_ERR_INVALID_PARAM
  | None => mret OVE_ERR_INVALID_PARAM
  end.
Definition ove_audio_node_gain (gain_db : spec_float) (nm : option (list Z)) : GM Z :=
  with_ctx (CGain (linear_gain gain_db)) gain_ops nm.
Definition ove_audio_node_tap (fn user_data : Z) (nm : option (list Z)) : GM Z :=
  with_ctx (CTap fn user_data) tap_ops nm.

End vtables.

Example gain_0db : linear_gain (f32_of_int 0) = f32_of_int 1.
Proof. by vm_compute. Qed.

(** At 40 dB the quotient is far from the factor 100 it stands for, and one
    decibel further it is negative and becomes silence. *)
Example gain_40db : f_gt (linear_gain (f32_of_int 40)) (f32_of_int 1000) = true.
Proof. by vm_compute. Qed.
Example gain_41db : linear_gain (f32_of_int 41) = S754_zero false.
Proof. by vm_compute. Qed.

(** Full scale, 1.0f, is not clamped and does not fit 32 bits. *)
Example full_scale_overflows : f32_to_s32 (f32_of_int 1) = None /\ f32_to_s16 (f32_of_int 1) = Some 32767.
Proof. by vm_compute. Qed.

(** ** Rounded mantissas fit the precision *)

Lemma digits2_bounds p : 2 ^ (Zpos (digits2_pos p) - 1) <= Zpos p < 2 ^ Zpos (digits2_pos p).
Proof.
  induction p as [p IH|p IH|]; cbn [digits2_pos]; [| |cbn; lia].
  all: rewrite Pos2Z.inj_succ, Z.pow_succ_r by lia; replace (Z.succ (Z.pos (digits2_pos p)) - 1) with (Z.succ (Z.pos (digits2_pos p) - 1)) by lia;
    rewrite Z.pow_succ_r by lia; lia.
Qed.

Lemma shr_1_half mrs : 0 <= shr_m mrs -> shr_m (shr_1 mrs) = shr_m mrs / 2.
Proof.
  destruct mrs as [[|[p|p|]|p] r s]; cbn; intros H; try done.
  - rewrite (Pos2Z.inj_xI p). dlia.
  - rewrite (Pos2Z.inj_xO p). dlia.
Qed.

Lemma iter_shr p : forall mrs, 0 <= shr_m mrs -> shr_m (SpecFloat.iter_pos shr_1 p mrs) = shr_m mrs / 2 ^ Zpos p.
Proof.
  assert (Hnn : forall p mrs, 0 <= shr_m mrs -> 0 <= shr_m (SpecFloat.iter_pos shr_1 p mrs)).
  { assert (forall mrs, 0 <= shr_m mrs -> 0 <= shr_m (shr_1 mrs)) as H1 by (intros mrs H; rewrite shr_1_half by done; apply Z.div_pos; lia).
    intros q. induction q as [q IH|q IH|]; intros mrs H; cbn; auto. }
  induction p as [p IH|p IH|]; intros mrs H; cbn [SpecFloat.iter_pos].
  - assert (0 <= shr_m (shr_1 mrs)) by (rewrite shr_1_half by done; apply Z.div_pos; lia).
    rewrite !IH by auto. rewrite shr_1_half by done. rewrite !Z.div_div by (try apply Z.pow_pos_nonneg; lia).
    f_equal. rewrite Pos2Z.inj_xI, Z.pow_add_r, Z.pow_mul_r by lia. change (2 ^ 1) with 2. rewrite Z.pow_2_r in *. rewrite <-Z.pow_mul_l. lia.
  - rewrite !IH by auto. rewrite Z.div_div by (try apply Z.pow_pos_nonneg; lia).
    f_equal. rewrite Pos2Z.inj_xO. rewrite <-Z.pow_add_r by lia. f_equal. lia.
  - by apply shr_1_half.
Qed.

Lemma digits_lt m : 0 <= m -> m < 2 ^ Zdigits2 m /\ 0 <= Zdigits2 m.
Proof. destruct m as [|p|p]; cbn [Zdigits2]; [cbn; lia| |lia]. pose proof (digits2_bounds p). lia. Qed.

Definition fits (prec : Z) (x : spec_float) : Prop :=
  match x with S754_finite _ m _ => Zpos m < 2 ^ prec | _ => True end.

Section rounding.
Context (prec emax : Z).
Hypothesis Hprec : 0 < prec.

Lemma shr_fexp_fits m e l : 0 <= m -> 0 <= shr_m (shr_fexp prec emax m e l).1 < 2 ^ prec.
Proof.
  intros Hm. destruct (digits_lt m Hm) as [Hd Hd0]. unfold shr_fexp, shr.
  assert (shr_m (shr_record_of_loc m l) = m) as Hl by (by destruct l as [|[]]).
  assert (Zdigits2 m - prec <= fexp prec emax (Zdigits2 m + e) - e) as Hn by (unfold fexp; lia).
  assert (m < 2 ^ prec \/ 0 < fexp prec emax (Zdigits2 m + e) - e) as Hor.
  { destruct (decide (Zdigits2 m <= prec)); [left|right; lia].
    apply Z.lt_le_trans with (2 ^ Zdigits2 m); [done|]. apply Z.pow_le_mono_r; lia. }
  destruct (fexp prec emax (Zdigits2 m + e) - e) as [|p|p] eqn:He; cbn [fst]; try (rewrite Hl; lia).
  rewrite iter_shr, Hl by lia. split; [apply Z.div_pos; lia|]. apply Z.div_lt_upper_bound; [lia|].
  apply Z.lt_le_trans with (2 ^ Zdigits2 m); [done|]. rewrite <-Z.pow_add_r by lia. apply Z.pow_le_mono_r; lia.
Qed.

Lemma round_fits sx mx ex lx : 0 <= mx -> fits prec (binary_round_aux prec emax sx mx ex lx).
Proof.
  intros Hm. unfold binary_round_aux. pose proof (shr_fexp_fits mx ex lx Hm) as [H1 _].
  destruct (shr_fexp prec emax mx ex lx) as [mrs e1]. cbn [fst] in H1.
  set (r := round_nearest_even _ _). assert (0 <= r) as Hr.
  { unfold r, round_nearest_even. repeat case_match; lia. }
  pose proof (shr_fexp_fits r e1 loc_Exact Hr) as H2. destruct (shr_fexp prec emax r e1 loc_Exact) as [mrs2 e2].
  cbn [fst] in H2. destruct (shr_m mrs2) as [|p|p]; cbn; try done. case_match; cbn; lia.
Qed.

Lemma mul_fits x y : fits prec (SFmul prec emax x y).
Proof. destruct x, y; cbn; try done. apply round_fits. lia. Qed.
End rounding.

(** ** Clamped conversions are defined *)

Lemma magnitude_mono prec m e mh eh : Zpos m < 2 ^ prec -> 2 ^ (prec - 1) <= Zpos mh -> 0 < prec -> e < eh -> eh < 0 ->
  magnitude m e <= magnitude mh eh.
Proof.
  intros Hm Hh Hp He Heh. unfold magnitude. replace (0 <=? e) with false by (symmetry; apply Z.leb_gt; lia).
  replace (0 <=? eh) with false by (symmetry; apply Z.leb_gt; lia).
  assert (Zpos m <= 2 * Zpos mh) as H2.
  { replace prec with (Z.succ (prec - 1)) in Hm by lia. rewrite Z.pow_succ_r in Hm by lia. lia. }
  apply Z.le_trans with (2 * Zpos mh / 2 ^ (- e)); [apply Z.div_le_mono; [apply Z.pow_pos_nonneg; lia|done]|].
  apply Z.le_trans with (2 * Zpos mh / 2 ^ (1 - eh)).
  - apply Z.div_le_compat_l; [lia|]. split; [apply Z.pow_pos_nonneg; lia|]. apply Z.pow_le_mono_r; lia.
  - replace (1 - eh) with (Z.succ (- eh)) by lia. rewrite Z.pow_succ_r, Z.div_mul_cancel_l; [lia| |lia|lia].
    pose proof (Z.pow_pos_nonneg 2 (- eh)). lia.
Qed.

Lemma magnitude_mono_m m mh e : (m <= mh)%positive -> magnitude m e <= magnitude mh e.
Proof.
  intros H. unfold magnitude. destruct (0 <=? e) eqn:He; [apply Z.mul_le_mono_nonneg_r; [|lia]; apply Z.pow_nonneg; lia|].
  apply Z.leb_gt in He. apply Z.div_le_mono; [apply Z.pow_pos_nonneg; lia|lia].
Qed.

Lemma magnitude_nonneg m e : 0 <= magnitude m e.
Proof.
  unfold magnitude. destruct (0 <=? e) eqn:He; [apply Z.mul_nonneg_nonneg; [lia|]; apply Z.pow_nonneg; lia|].
  apply Z.leb_gt in He. apply Z.div_pos; [lia|]. apply Z.pow_pos_nonneg; lia.
Qed.

Lemma compare_cont_Eq m n : Pos.compare_cont Eq m n = Pos.compare m n.
Proof. done. Qed.

Lemma clamp_defined prec w mh eh ml el v :
  0 < prec -> 0 < w -> eh < 0 -> el < 0 -> 2 ^ (prec - 1) <= Zpos mh -> 2 ^ (prec - 1) <= Zpos ml ->
  magnitude mh eh < 2 ^ (w - 1) -> magnitude ml el <= 2 ^ (w - 1) -> fits prec v -> v <> S754_nan ->
  exists z, to_int w (clamp (S754_finite false mh eh) (S754_finite true ml el) v) = Some z /\
    - magnitude ml el <= z <= magnitude mh eh.
Proof.
  intros Hp Hw Heh Hel Hmh Hml Hhi Hlo Hv Hn.
  pose proof (magnitude_nonneg mh eh) as N1. pose proof (magnitude_nonneg ml el) as N2.
  assert (0 < 2 ^ (w - 1)) as Hpow by (apply Z.pow_pos_nonneg; lia).
  assert (forall z, - magnitude ml el <= z <= magnitude mh eh ->
    (- 2 ^ (w - 1) <=? z) && (z <? 2 ^ (w - 1)) = true) as Hr.
  { intros z Hz. apply andb_true_iff. split; [apply Z.leb_le|apply Z.ltb_lt]; lia. }
  assert (forall z x, trunc x = Some z -> - magnitude ml el <= z <= magnitude mh eh ->
    exists z, to_int w x = Some z /\ - magnitude ml el <= z <= magnitude mh eh) as Hok.
  { intros z x Ht Hz. exists z. split; [|done]. unfold to_int. rewrite Ht. cbn. by rewrite Hr. }
  destruct v as [s|[]| |[] m e]; try done.
  - apply (Hok 0); [done|lia].
  - apply (Hok (- magnitude ml el)); [done|lia].
  - apply (Hok (magnitude mh eh)); [done|lia].
  - unfold clamp, f_gt, f_lt, SFltb. cbn [SFcompare fits] in *. pose proof (magnitude_nonneg m e).
    destruct (Z.compare_spec e el) as [->|Hlt|Hgt].
    + rewrite (compare_cont_Eq m ml). destruct (Pos.compare_spec m ml) as [->|Hlt|Hgt]; cbn [CompOpp].
      * apply (Hok (- magnitude ml el)); [done|lia].
      * apply (Hok (- magnitude m el)); [done|]. pose proof (magnitude_mono_m m ml el). lia.
      * apply (Hok (- magnitude ml el)); [done|lia].
    + apply (Hok (- magnitude m e)); [done|]. pose proof (magnitude_mono prec m e ml el). lia.
    + apply (Hok (- magnitude ml el)); [done|lia].
  - unfold clamp, f_gt, f_lt, SFltb. cbn [SFcompare fits] in *. pose proof (magnitude_nonneg m e).
    destruct (Z.compare_spec eh e) as [->|Hlt|Hgt].
    + rewrite (compare_cont_Eq mh m). destruct (Pos.compare_spec mh m) as [->|Hlt|Hgt]; cbn [SFcompare].
      * apply (Hok (magnitude m e)); [done|lia].
      * apply (Hok (magnitude mh e)); [done|lia].
      * apply (Hok (magnitude m e)); [done|]. pose proof (magnitude_mono_m m mh e). lia.
    + cbn [SFcompare]. apply (Hok (magnitude mh eh)); [done|lia].
    + cbn [SFcompare]. apply (Hok (magnitude m e)); [done|]. pose proof (magnitude_mono prec m e mh eh). lia.
Qed.

Definition finite (x : spec_float) : Prop := match x with S754_zero _ | S754_finite _ _ _ => True | _ => False end.

Lemma round_not_nan prec emax sx mx ex lx : 0 < prec -> 0 <= mx -> binary_round_aux prec emax sx mx ex lx <> S754_nan.
Proof.
  intros Hp Hm. unfold binary_round_aux. pose proof (shr_fexp_fits prec emax Hp mx ex lx Hm) as [H1 _].
  destruct (shr_fexp prec emax mx ex lx) as [mrs e1]. cbn [fst] in H1. set (r := round_nearest_even _ _).
  assert (0 <= r) as Hr by (unfold r, round_nearest_even; repeat case_match; lia).
  pose proof (shr_fexp_fits prec emax Hp r e1 loc_Exact Hr) as [H2 _]. destruct (shr_fexp prec emax r e1 loc_Exact) as [mrs2 e2].
  cbn [fst] in H2. destruct (shr_m mrs2); [done|by case_match|lia].
Qed.

Lemma mul_not_nan prec emax x y : 0 < prec -> finite x -> finite y -> SFmul prec emax x y <> S754_nan.
Proof. intros Hp Hx Hy. destruct x, y; cbn in *; try done. by apply round_not_nan. Qed.

Lemma clamp16_defined v : fits 24 v -> v <> S754_nan ->
  exists z, to_int 16 (clamp (f32_of_int 32767) (f32_of_int (-32768)) v) = Some z /\ -32768 <= z <= 32767.
Proof.
  intros Hf Hn. change (f32_of_int 32767) with (S754_finite false 16776704 (-9)).
  change (f32_of_int (-32768)) with (S754_finite true 8388608 (-8)).
  by destruct (clamp_defined 24 16 16776704 (-9) 8388608 (-8) v) as (z & Hz & Hr); [..|exists z].
Qed.

Lemma clamp32_defined v : fits 53 v -> v <> S754_nan ->
  exists z, to_int 32 (clamp (f64_of_int 2147483647) (f64_of_int (-2147483648)) v) = Some z /\ -2147483648 <= z <= 2147483647.
Proof.
  intros Hf Hn. change (f64_of_int 2147483647) with (S754_finite false 9007199250546688 (-22)).
  change (f64_of_int (-2147483648)) with (S754_finite true 4503599627370496 (-21)).
  by destruct (clamp_defined 53 32 9007199250546688 (-22) 4503599627370496 (-21) v) as (z & Hz & Hr); [..|exists z].
Qed.

(** ** Exact operations *)

Lemma digits2_shiftz p k mz : 0 <= k -> Zpos mz = Zpos p * 2 ^ k -> Zpos (digits2_pos mz) = Zpos (digits2_pos p) + k.
Proof.
  intros Hk Hm. assert (0 < 2 ^ k) by (apply Z.pow_pos_nonneg; lia). pose proof (digits2_bounds p) as [P1 P2].
  pose proof (digits2_bounds mz) as [M1 M2]. rewrite Hm in M1, M2.
  assert (2 ^ (Zpos (digits2_pos p) - 1 + k) <= Zpos p * 2 ^ k < 2 ^ (Zpos (digits2_pos p) + k)) as [Q1 Q2]
    by (rewrite !Z.pow_add_r by lia; nia).
  assert (2 ^ (Zpos (digits2_pos p) - 1 + k) < 2 ^ Zpos (digits2_pos mz)) as L1 by lia.
  assert (2 ^ (Zpos (digits2_pos mz) - 1) < 2 ^ (Zpos (digits2_pos p) + k)) as L2 by lia.
  apply Z.pow_lt_mono_r_iff in L1, L2; lia.
Qed.

Lemma iter_shr_exact n : forall m, 0 <= m ->
  SpecFloat.iter_pos shr_1 n (Build_shr_record (m * 2 ^ Zpos n) false false) = Build_shr_record m false false.
Proof.
  assert (H1 : forall m, 0 <= m -> shr_1 (Build_shr_record (m * 2) false false) = Build_shr_record m false false).
  { intros [|p|p] Hm; [done| |lia]. rewrite Z.mul_comm. done. }
  induction n as [n IH|n IH|]; intros m Hm; cbn [SpecFloat.iter_pos].
  - assert (0 < 2 ^ Zpos n) by (apply Z.pow_pos_nonneg; lia).
    replace (m * 2 ^ Zpos n~1) with (m * 2 ^ Zpos n * 2 ^ Zpos n * 2)
      by (rewrite (Pos2Z.inj_xI n), <-(Z.add_diag (Zpos n)), !Z.pow_add_r by lia; change (2 ^ 1) with 2; ring).
    rewrite H1 by nia. rewrite IH by nia. by apply IH.
  - assert (0 < 2 ^ Zpos n) by (apply Z.pow_pos_nonneg; lia).
    replace (m * 2 ^ Zpos n~0) with (m * 2 ^ Zpos n * 2 ^ Zpos n)
      by (rewrite (Pos2Z.inj_xO n), <-(Z.add_diag (Zpos n)), Z.pow_add_r by lia; ring).
    rewrite IH by nia. by apply IH.
  - by apply H1.
Qed.

(** Rounding a mantissa of full length followed by [k] zero bits. *)
Lemma round_aux_exact prec emax sx mz k e : 0 < prec -> Zpos (digits2_pos mz) = prec -> 0 <= k ->
  emin prec emax <= e + k -> e + k <= emax - prec ->
  binary_round_aux prec emax sx (Zpos mz * 2 ^ k) e loc_Exact = S754_finite sx mz (e + k).
Proof.
  intros Hp Hd Hk Hlo Hhi. assert (0 < 2 ^ k) by (apply Z.pow_pos_nonneg; lia).
  assert (forall j e, 0 <= j -> emin prec emax <= e + j -> shr_fexp prec emax (Zpos mz * 2 ^ j) e loc_Exact =
    (Build_shr_record (Zpos mz) false false, e + j)) as Hs.
  { intros j e0 Hj Hlo0. assert (0 < 2 ^ j) by (apply Z.pow_pos_nonneg; lia). unfold shr_fexp.
    assert (exists q, Zpos mz * 2 ^ j = Zpos q) as [q Hq] by (destruct (Zpos mz * 2 ^ j) eqn:E; [lia|by eexists|lia]).
    assert (Zdigits2 (Zpos mz * 2 ^ j) = prec + j) as Hdj by (rewrite Hq; cbn [Zdigits2]; rewrite (digits2_shiftz mz j q); lia).
    rewrite Hdj. assert (fexp prec emax (prec + j + e0) - e0 = j) as -> by (unfold fexp; lia).
    unfold shr. cbn [shr_record_of_loc]. destruct j as [|n|n]; [|by rewrite iter_shr_exact|lia]. by rewrite Z.mul_1_r, Z.add_0_r. }
  unfold binary_round_aux. rewrite Hs by done. cbn [loc_of_shr_record round_nearest_even shr_m].
  rewrite <-(Z.mul_1_r (Zpos mz)) at 1. change 1 with (2 ^ 0) at 1. rewrite Hs by lia. cbn [shr_m].
  rewrite Z.add_0_r. replace (_ <=? emax - prec) with true by (symmetry; apply Z.leb_le; lia). done.
Qed.

(** Numbers with at most [prec] bits. *)
Lemma round_exact prec emax sx p e : 0 < prec -> Zpos (digits2_pos p) <= prec ->
  emin prec emax <= Zpos (digits2_pos p) + e - prec -> Zpos (digits2_pos p) + e <= emax ->
  exists mz, binary_round prec emax sx p e = S754_finite sx mz (Zpos (digits2_pos p) + e - prec) /\
    Zpos (digits2_pos mz) = prec /\ Zpos mz = Zpos p * 2 ^ (prec - Zpos (digits2_pos p)).
Proof.
  intros Hp Hd Hlo Hhi. set (d := Zpos (digits2_pos p)) in *. unfold binary_round. fold d.
  assert (fexp prec emax (d + e) = d + e - prec) as Hf by (unfold fexp; lia). rewrite Hf.
  assert (exists mz, shl_align p e (d + e - prec) = (mz, d + e - prec) /\ Zpos mz = Zpos p * 2 ^ (prec - d)) as (mz & -> & Hmz).
  { unfold shl_align. replace (d + e - prec - e) with (d - prec) by lia. destruct (d - prec) as [|k|k] eqn:Hk; [|lia|].
    - exists p. split; [f_equal; lia|]. replace (prec - d) with 0 by lia. lia.
    - eexists. split; [done|]. replace (prec - d) with (Zpos k) by lia. rewrite <-(Pos2Z.inj_pow 2 k), <-Pos2Z.inj_mul. f_equal.
      clear. induction k as [|k IH] using Pos.peano_ind; [cbn; lia|]. rewrite Pos.iter_succ, IH, Pos.pow_succ_r. lia. }
  assert (Zpos (digits2_pos mz) = prec) as Hdm by (rewrite (digits2_shiftz p (prec - d) mz) by (try done; lia); unfold d in *; lia).
  exists mz. split; [|done]. rewrite <-(Z.mul_1_r (Zpos mz)). change 1 with (2 ^ 0). rewrite round_aux_exact by lia. by rewrite Z.add_0_r.
Qed.

Lemma round_finite prec emax sx p e : 0 < prec -> Zpos (digits2_pos p) <= prec ->
  emin prec emax <= Zpos (digits2_pos p) + e - prec -> Zpos (digits2_pos p) + e <= emax ->
  finite (binary_round prec emax sx p e).
Proof. intros H1 H2 H3 H4. by destruct (round_exact prec emax sx p e H1 H2 H3 H4) as (mz & -> & _). Qed.

Lemma normalize_finite prec emax z : 0 < prec -> prec <= emax -> 2 <= emax -> Z.abs z < 2 ^ prec ->
  finite (binary_normalize prec emax z 0 false).
Proof.
  intros Hp He He2 Hz. assert (forall sx p, Zpos p < 2 ^ prec -> finite (binary_round prec emax sx p 0)) as H.
  { intros sx p Hpz. pose proof (digits2_bounds p) as [Hlo _]. assert (Zpos (digits2_pos p) <= prec) as Hd.
    { destruct (Z.le_gt_cases (Zpos (digits2_pos p)) prec); [done|]. exfalso.
      assert (2 ^ prec <= 2 ^ (Zpos (digits2_pos p) - 1)) by (apply Z.pow_le_mono_r; lia). lia. }
    apply round_finite; unfold emin; lia. }
  destruct z as [|p|p]; cbn [binary_normalize]; [done|apply H; lia|apply H; lia].
Qed.

(** A finite binary32 number is one in binary64. *)
Lemma widen_finite g : finite g -> valid_binary 24 128 g = true -> finite (f64_of_f32 g).
Proof.
  destruct g as [| | |sg m e]; try done. intros _ Hv. cbn [f64_of_f32 valid_binary] in *. unfold bounded, canonical_mantissa in Hv.
  apply andb_true_iff in Hv as [Hc%Z.eqb_eq He%Z.leb_le]. unfold fexp, emin in Hc.
  apply round_finite; unfold emin; lia.
Qed.

(** ** Saturation *)

(** Samples saturate: scaling a float sample to 16 bits, and applying a
    gain to a 16 or 32 bit sample, never overflows.  For every float that is
    a number (infinities included) and for every finite gain, the clamped
    value is in the range of the integer type, so the conversion is
    defined. *)
Theorem samples_saturate x g s :
  x <> S754_nan -> finite g -> valid_binary 24 128 g = true -> -2147483648 <= s <= 2147483647 ->
  (exists z, f32_to_s16 x = Some z /\ -32768 <= z <= 32767) /\
  (exists z, gain_s16 g (swrap 16 s) = Some z /\ -32768 <= z <= 32767) /\
  (exists z, gain_s32 g s = Some z /\ -2147483648 <= z <= 2147483647).
Proof.
  intros Hx Hg Hgv Hs. split; [|split].
  - apply clamp16_defined; [by apply mul_fits|]. destruct x as [| | |sx mx ex]; try done. by apply round_not_nan.
  - apply clamp16_defined; [by apply mul_fits|]. apply mul_not_nan; [done| |done].
    apply normalize_finite; try done. unfold swrap. pose proof (Z.mod_pos_bound (s + 2 ^ (16 - 1)) (2 ^ 16)). lia.
  - apply clamp32_defined; [by apply mul_fits|]. apply mul_not_nan; [done| |].
    + apply normalize_finite; try done. lia.
    + by apply widen_finite.
Qed.


(** ** Round trips *)

(** Scaling by [32768.0f]. *)
Lemma mul_32768 sx mz e : Zpos (digits2_pos mz) = 24 -> -149 <= e + 15 <= 104 ->
  f32_mul (S754_finite sx mz e) (f32_of_int 32768) = S754_finite sx mz (e + 15).
Proof.
  intros Hd He. change (f32_of_int 32768) with (S754_finite false 8388608 (-8)). unfold f32_mul. cbn [SFmul].
  rewrite xorb_false_r, Pos2Z.inj_mul. change (Zpos 8388608) with (2 ^ 23).
  rewrite round_aux_exact by (try done; unfold emin; lia). f_equal. lia.
Qed.

Lemma div_32768 sx mz e : Zpos (digits2_pos mz) = 24 -> -149 <= e - 16 -> e <= 104 ->
  f32_div (S754_finite sx mz e) (f32_of_int 32768) = S754_finite sx mz (e - 15).
Proof.
  intros Hd He1 He2. change (f32_of_int 32768) with (S754_finite false 8388608 (-8)). unfold f32_div. cbn [SFdiv].
  unfold SFdiv_core_binary. cbn [Zdigits2]. rewrite Hd. change (Zpos (digits2_pos 8388608)) with 24.
  assert (fexp 24 128 (24 + e - (24 + -8)) = e - 16) as -> by (unfold fexp, emin; lia).
  rewrite (Z.min_l (e - 16)) by lia. replace (e - -8 - (e - 16)) with 24 by lia. rewrite Z.shiftl_mul_pow2 by lia.
  assert (Z.div_eucl (Zpos mz * 2 ^ 24) 8388608 = (Zpos mz * 2 ^ 1, 0)) as ->.
  { pose proof (Z.div_mod (Zpos mz * 2 ^ 24) 8388608 ltac:(lia)) as Hdm. pose proof (Z.mod_pos_bound (Zpos mz * 2 ^ 24) 8388608 ltac:(lia)).
    unfold Z.div, Z.modulo in *. destruct (Z.div_eucl (Zpos mz * 2 ^ 24) 8388608) as [q r]. f_equal; lia. }
  change (new_location 8388608 0) with loc_Exact. rewrite xorb_false_r.
  rewrite round_aux_exact by (try done; unfold emin; lia). f_equal. lia.
Qed.

Lemma digits24 mz : Zpos (digits2_pos mz) = 24 -> 8388608 <= Zpos mz < 16777216.
Proof. intros Hd. pose proof (digits2_bounds mz) as H. rewrite Hd in H. exact H. Qed.

(** Normal numbers survive their bit pattern. *)
Lemma f32_bits_roundtrip s mz e : Zpos (digits2_pos mz) = 24 -> -149 <= e <= 104 ->
  load_f32 (store_f32 (S754_finite s mz e)) = S754_finite s mz e.
Proof.
  intros Hd He. apply digits24 in Hd. unfold load_f32, store_f32, bits_of_f32.
  replace (Zpos mz <? 2 ^ 23) with false by (symmetry; apply Z.ltb_ge; lia).
  set (b := (e + 150) * 2 ^ 23 + (Zpos mz - 2 ^ 23)). assert (0 <= b < 255 * 2 ^ 23) as Hb by (unfold b; lia).
  assert (b / 2 ^ 23 = e + 150 /\ b mod 2 ^ 23 = Zpos mz - 2 ^ 23) as [Hq Hr].
  { unfold b. rewrite Z.add_comm. rewrite Z.div_add, Z.mod_add by lia. rewrite Z.div_small, Z.mod_small by lia. lia. }
  rewrite le_enc_dec by (destruct s; lia). unfold f32_of_bits.
  assert (((if s then 2 ^ 31 else 0) + b) mod 2 ^ 23 = Zpos mz - 2 ^ 23) as ->.
  { destruct s; [|done]. change (2 ^ 31) with (256 * 2 ^ 23). rewrite Z.add_comm, Z.mod_add by lia. done. }
  assert (((if s then 2 ^ 31 else 0) + b) / 2 ^ 23 mod 256 = e + 150) as ->.
  { destruct s; [|rewrite Z.add_0_l, Hq; apply Z.mod_small; lia]. change (2 ^ 31) with (256 * 2 ^ 23).
    rewrite Z.add_comm, Z.div_add, Hq by lia. replace (e + 150 + 256) with (e + 150 + 1 * 256) by lia.
    rewrite Z.mod_add by lia. apply Z.mod_small. lia. }
  assert (Z.testbit ((if s then 2 ^ 31 else 0) + b) 31 = s) as ->.
  { rewrite Z.testbit_eqb by lia. destruct s.
    - replace ((2 ^ 31 + b) / 2 ^ 31) with 1; [done|]. symmetry. rewrite Z.add_comm. change (2 ^ 31) with (1 * 2 ^ 31) at 1.
      rewrite Z.div_add, Z.div_small by lia. done.
    - rewrite Z.add_0_l, Z.div_small by lia. done. }
  replace (e + 150 =? 255) with false by (symmetry; apply Z.eqb_neq; lia).
  replace (e + 150 =? 0) with false by (symmetry; apply Z.eqb_neq; lia).
  replace (Zpos mz - 2 ^ 23 + 2 ^ 23) with (Zpos mz) by lia. f_equal. lia.
Qed.

(** Sixteen-bit integers as floats. *)
Lemma int16_float s : -32768 <= s <= 32767 -> s <> 0 ->
  exists mz d, f32_of_int s = S754_finite (s <? 0) mz (d - 24) /\ Zpos (digits2_pos mz) = 24 /\ 1 <= d <= 16 /\
    Zpos mz = Z.abs s * 2 ^ (24 - d).
Proof.
  intros Hs H0. assert (forall p sx, Zpos p <= 32768 -> exists mz d, binary_round 24 128 sx p 0 = S754_finite sx mz (d - 24) /\
    Zpos (digits2_pos mz) = 24 /\ 1 <= d <= 16 /\ Zpos mz = Zpos p * 2 ^ (24 - d)) as H.
  { intros p sx Hp. pose proof (digits2_bounds p) as [Hlo _].
    assert (Zpos (digits2_pos p) <= 16) as Hd.
    { destruct (Z.le_gt_cases (Zpos (digits2_pos p)) 16); [done|]. exfalso.
      assert (2 ^ 16 <= 2 ^ (Zpos (digits2_pos p) - 1)) by (apply Z.pow_le_mono_r; lia). lia. }
    destruct (round_exact 24 128 sx p 0) as (mz & Hr & Hm & Hz); [done|lia|unfold emin; lia|lia|].
    exists mz, (Zpos (digits2_pos p)). split; [by rewrite Hr, Z.add_0_r|]. split_and!; try done; lia. }
  unfold f32_of_int, binary_normalize. destruct s as [|p|p]; [done|apply H; lia|apply H; lia].
Qed.

(** A float that stands for a 16-bit integer passes the clamp unchanged. *)
Lemma clamp16_exact s mz d : -32768 <= s <= 32767 -> s <> 0 -> Zpos (digits2_pos mz) = 24 -> 1 <= d <= 16 ->
  Zpos mz = Z.abs s * 2 ^ (24 - d) ->
  to_int 16 (clamp (f32_of_int 32767) (f32_of_int (-32768)) (S754_finite (s <? 0) mz (d - 24))) = Some s.
Proof.
  intros Hs H0 Hd Hdd Hm. apply digits24 in Hd. change (f32_of_int 32767) with (S754_finite false 16776704 (-9)).
  change (f32_of_int (-32768)) with (S754_finite true 8388608 (-8)).
  assert (magnitude mz (d - 24) = Z.abs s) as Hmag.
  { unfold magnitude. replace (0 <=? d - 24) with false by (symmetry; apply Z.leb_gt; lia).
    rewrite Hm. replace (- (d - 24)) with (24 - d) by lia. apply Z.div_mul. apply Z.pow_nonzero; lia. }
  assert (clamp (S754_finite false 16776704 (-9)) (S754_finite true 8388608 (-8)) (S754_finite (s <? 0) mz (d - 24)) =
    S754_finite (s <? 0) mz (d - 24)) as ->.
  { unfold clamp, f_gt, f_lt, SFltb. destruct (s <? 0) eqn:Hsg; [apply Z.ltb_lt in Hsg|apply Z.ltb_ge in Hsg]; cbn [SFcompare].
    - destruct (Z.compare_spec (d - 24) (-8)) as [He|He|He]; [|done|lia]. replace (24 - d) with 8 in Hm by lia.
      rewrite (compare_cont_Eq mz 8388608). destruct (Pos.compare_spec mz 8388608); [done..|lia].
    - destruct (Z.compare_spec (-9) (d - 24)) as [He|He|He]; [|exfalso|done].
      + replace (24 - d) with 9 in Hm by lia. rewrite (compare_cont_Eq 16776704 mz).
        destruct (Pos.compare_spec 16776704 mz); [done|lia|done].
      + replace d with 16 in Hm by lia. lia. }
  unfold to_int. cbn [trunc mbind option_bind]. rewrite Hmag.
  assert ((if s <? 0 then - Z.abs s else Z.abs s) = s) as -> by (destruct (s <? 0) eqn:Hsg; [apply Z.ltb_lt in Hsg|apply Z.ltb_ge in Hsg]; lia).
  replace ((- 2 ^ (16 - 1) <=? s) && (s <? 2 ^ (16 - 1))) with true; [done|]. symmetry. apply andb_true_iff.
  split; [apply Z.leb_le|apply Z.ltb_lt]; lia.
Qed.

Lemma s16_f32_exact s : -32768 <= s <= 32767 -> f32_to_s16 (load_f32 (store_f32 (s16_to_f32 s))) = Some s.
Proof.
  intros Hs. destruct (decide (s = 0)) as [->|H0]; [by vm_compute|].
  destruct (int16_float s Hs H0) as (mz & d & Hf & Hm & Hd & Hz). unfold s16_to_f32, f32_to_s16.
  rewrite Hf, div_32768 by lia. rewrite f32_bits_roundtrip by lia. rewrite mul_32768 by lia.
  replace (d - 24 - 15 + 15) with (d - 24) by lia. by apply clamp16_exact.
Qed.

(** ** Buffers *)

Lemma overwrite_0 (o r : list Z) : overwrite o 0 r = r ++ drop (length r) o.
Proof. done. Qed.

Lemma concat_chunk total n : forall bs, (total * n <= length bs)%nat -> concat (chunk total n bs) = take (total * n) bs.
Proof.
  induction total as [|t IH]; intros bs Hb; [done|]. cbn [chunk concat]. rewrite IH by (rewrite length_drop; lia).
  cbn [Nat.mul]. apply take_take_drop.
Qed.

Lemma chunk_concat n rs tl : Forall (fun r => length r = n) rs -> chunk (length rs) n (concat rs ++ tl) = rs.
Proof.
  induction 1 as [|r rs Hr _ IH]; [done|]. cbn [length concat chunk]. rewrite <-app_assoc, <-Hr, take_app_length, drop_app_length. by f_equal; rewrite Hr.
Qed.

Lemma chunk_sizes total n : forall bs, (total * n <= length bs)%nat -> Forall (fun r => length r = n) (chunk total n bs).
Proof.
  induction total as [|t IH]; intros bs Hb; [done|]. cbn [chunk]. constructor; [rewrite length_take; lia|].
  apply IH. rewrite length_drop. lia.
Qed.

Lemma chunk_Forall (P : Z -> Prop) total n : forall bs, Forall P bs -> Forall (Forall P) (chunk total n bs).
Proof.
  induction total as [|t IH]; intros bs Hb; [done|]. cbn [chunk]. constructor; [by apply Forall_take|]. by apply IH, Forall_drop.
Qed.

Lemma length_chunk total n bs : length (chunk total n bs) = total.
Proof. revert bs. induction total as [|t IH]; intros bs; cbn; [done|]. by rewrite IH. Qed.

(** Converting there and back. *)
Lemma each_roundtrip total n1 n2 f g b o1 o2 :
  (total * n1 <= length b)%nat -> (total * n2 <= length o1)%nat -> (total * n1 <= length o2)%nat ->
  Forall (is_word 8) b ->
  (forall c, length c = n1 -> Forall (is_word 8) c -> exists r, f c = Some r /\ length r = n2 /\ g r = Some c) ->
  exists mid, each total n1 n2 f b o1 = Some mid /\ each total n2 n1 g mid o2 = Some (overwrite o2 0 (take (total * n1) b)).
Proof.
  intros Hb H1 H2 Hw Hf. pose proof (chunk_sizes total n1 b Hb) as Hs. pose proof (chunk_Forall _ total n1 b Hw) as Hc.
  assert (exists rs, mapM f (chunk total n1 b) = Some rs /\ Forall (fun r => length r = n2) rs /\
    mapM g rs = Some (chunk total n1 b) /\ length rs = length (chunk total n1 b)) as (rs & Hm & Hr & Hg & Hl).
  { induction (chunk total n1 b) as [|c cs IH]; [by exists []|].
    apply Forall_cons in Hs as [Hs1 Hs]. apply Forall_cons in Hc as [Hc1 Hc]. destruct (IH Hs Hc) as (rs & Hm & Hr & Hg & Hl).
    destruct (Hf c Hs1 Hc1) as (r & Hfc & Hlr & Hgr). exists (r :: rs). cbn. rewrite Hfc, Hgr. cbn. rewrite Hm, Hg. cbn.
    split_and!; try done; [by constructor|by rewrite Hl]. }
  rewrite length_chunk in Hl.
  exists (overwrite o1 0 (concat rs)). unfold each. rewrite decide_True by done. rewrite Hm. cbn [mbind option_bind]. split; [done|].
  rewrite overwrite_0. assert (length (concat rs) = (total * n2)%nat) as Hlc.
  { rewrite <-Hl. clear -Hr. induction Hr as [|r rs Hr _ IH]; [done|]. cbn. rewrite length_app, IH, Hr. done. }
  rewrite decide_True by (rewrite length_app, length_drop; lia). rewrite <-Hl at 1. rewrite chunk_concat by done.
  rewrite Hg. cbn [mbind option_bind]. by rewrite concat_chunk.
Qed.

Lemma load_s16_range c : -32768 <= load_s16 c <= 32767.
Proof. unfold load_s16, swrap. pose proof (Z.mod_pos_bound (le_dec c + 2 ^ (16 - 1)) (2 ^ 16)). lia. Qed.

Lemma store_load_s16 c : length c = 2%nat -> Forall (is_word 8) c -> store_s16 (load_s16 c) = c.
Proof.
  destruct c as [|a [|b [|]]]; try done. intros _ [Ha [Hb _]%Forall_cons]%Forall_cons. unfold is_word in *.
  unfold store_s16, load_s16, swrap. cbn [le_enc le_dec]. assert (exists k, (a + 256 * (b + 256 * 0) + 2 ^ (16 - 1)) mod 2 ^ 16 - 2 ^ (16 - 1) = a + 256 * b + 65536 * k) as [k ->].
  { exists (- ((a + 256 * b + 32768) / 65536)). pose proof (Z.div_mod (a + 256 * b + 32768) 65536). change (2 ^ (16 - 1)) with 32768. change (2 ^ 16) with 65536.
    replace (a + 256 * (b + 256 * 0)) with (a + 256 * b) by lia. lia. }
  repeat f_equal; dlia.
Qed.

Lemma s16_s32_exact s : -32768 <= s <= 32767 -> s32_to_s16 (load_s32 (store_s32 (s16_to_s32 s))) = s.
Proof.
  intros Hs. assert (s16_to_s32 s = s * 65536) as ->.
  { unfold s16_to_s32, swrap. rewrite Z.shiftl_mul_pow2 by lia. change (2 ^ 16) with 65536. rewrite Z.mod_small; lia. }
  unfold store_s32, load_s32, s32_to_s16. assert (swrap 32 (le_dec (le_enc 4 (s * 65536))) = s * 65536) as ->.
  { assert (forall v, le_dec (le_enc 4 v) = v mod 2 ^ 32) as -> by (intros v; cbn [le_enc le_dec]; dlia).
    unfold swrap. rewrite Zplus_mod_idemp_l, Z.mod_small; lia. }
  rewrite Z.shiftr_div_pow2 by lia. change (2 ^ 16) with 65536. rewrite Z.div_mul by lia. unfold swrap. rewrite Z.mod_small; lia.
Qed.

(** Converting 16-bit samples to float (or to 32 bits) and back is the
    identity: for every buffer of 16-bit samples, running the converter to
    [OVE_AUDIO_FMT_F32] or [OVE_AUDIO_FMT_S32] and the converter back
    reproduces the samples byte for byte, stays inside both buffers and
    leaves the rest of the output alone. *)
Theorem converter_roundtrip b frames n rate target o1 o2 :
  let fmt := mk_fmt rate n OVE_AUDIO_FMT_S16 in
  let fmt' := (converter_configure target fmt).2 in
  let total := total_samples (mk_view b frames fmt) in
  target = OVE_AUDIO_FMT_F32 \/ target = OVE_AUDIO_FMT_S32 ->
  Forall (is_word 8) b -> (total * 2 <= length b)%nat -> (total * 4 <= length o1)%nat -> (total * 2 <= length o2)%nat ->
  exists mid,
    converter_process (mk_view b frames fmt) (mk_view o1 frames fmt') = Some (OVE_OK, mid) /\
    converter_process (mk_view mid frames fmt') (mk_view o2 frames fmt) = Some (OVE_OK, overwrite o2 0 (take (total * 2) b)).
Proof.
  intros fmt fmt' total Ht Hw Hb H1 H2.
  assert (exists f g, (forall o, converter_process (mk_view b frames fmt) (mk_view o frames fmt') =
      (r ← each total 2 4 f b o; Some (OVE_OK, r))) /\
    (forall m o, converter_process (mk_view m frames fmt') (mk_view o frames fmt) =
      (r ← each total 4 2 g m o; Some (OVE_OK, r))) /\
    (forall c, length c = 2%nat -> Forall (is_word 8) c -> exists r, f c = Some r /\ length r = 4%nat /\ g r = Some c))
    as (f & g & Hf & Hg & Hfg).
  { destruct Ht as [->| ->].
    - exists (fun b => Some (store_f32 (s16_to_f32 (load_s16 b)))), (fun b => store_s16 <$> f32_to_s16 (load_f32 b)).
      split; [done|]. split; [done|]. intros c Hc Hcw. eexists. split; [done|]. split; [done|].
      rewrite s16_f32_exact by apply load_s16_range. change (Some (store_s16 (load_s16 c)) = Some c). by rewrite store_load_s16.
    - exists (fun b => Some (store_s32 (s16_to_s32 (load_s16 b)))), (fun b => Some (store_s16 (s32_to_s16 (load_s32 b)))).
      split; [done|]. split; [done|]. intros c Hc Hcw. eexists. split; [done|]. split; [done|].
      rewrite s16_s32_exact by apply load_s16_range. by rewrite store_load_s16. }
  destruct (each_roundtrip total 2 4 f g b o1 o2) as (mid & Hm1 & Hm2); try done.
  exists mid. rewrite Hf, Hg, Hm1, Hm2. done.
Qed.

(** ** The channel map *)

Lemma loop_from_inv (Q : Z -> list Z -> Prop) body n : forall x out,
  (forall y o, x <= y < x + Z.of_nat n -> Q y o -> exists o', body y o = Some o' /\ Q (y + 1) o') ->
  Q x out -> exists out', loop_from x n body out = Some out' /\ Q (x + Z.of_nat n) out'.
Proof.
  induction n as [|n IH]; intros x out Hb Hq; cbn [loop_from].
  - exists out. split; [done|]. by replace (x + Z.of_nat 0) with x by lia.
  - destruct (Hb x out) as (o' & Ho & Hq'); [lia|done|]. rewrite Ho. cbn [mbind option_bind].
    destruct (IH (x + 1) o') as (out' & Hl & Hq''); [intros y o Hy; apply Hb; lia|done|].
    exists out'. split; [done|]. by replace (x + Z.of_nat (S n)) with (x + 1 + Z.of_nat n) by lia.
Qed.

(** Sample [i] of a buffer of [sz]-byte samples. *)
Definition sample (sz : Z) (bs : list Z) (i : Z) : list Z := take (Z.to_nat sz) (drop (Z.to_nat (i * sz)) bs).

(** What the map puts at frame [f], channel [c]. *)
Definition mapped (cm : channel_map_ctx) (sz : Z) (inb : list Z) (f c : Z) : list Z :=
  let src := default (-1) (chmap (cm_map cm) !! Z.to_nat c) in
  if (0 <=? src) && (src <? in_channels cm) then sample sz inb (f * in_channels cm + src)
  else replicate (Z.to_nat sz) 0.

Section channel_map.
Context (cm : channel_map_ctx) (sz frames : Z) (inb : list Z) (osz : nat).
Let oc := out_channels (cm_map cm).
Hypothesis Hoc : 1 <= oc <= OVE_AUDIO_MAX_CHANNELS.
Hypothesis Hmap : length (chmap (cm_map cm)) = Z.to_nat OVE_AUDIO_MAX_CHANNELS.
Hypothesis Hsz : 0 < sz.
Hypothesis Hic : 0 <= in_channels cm.
Hypothesis Hin : frames * in_channels cm * sz <= Z.of_nat (length inb) < 2 ^ 32.
Hypothesis Hout : frames * oc * sz <= Z.of_nat osz < 2 ^ 32.

(** The first [k] samples are in place. *)
Definition written (k : Z) (out : list Z) : Prop :=
  length out = osz /\ forall f c, 0 <= f -> 0 <= c < oc -> f * oc + c < k -> sample sz out (f * oc + c) = mapped cm sz inb f c.

Lemma map_sample_step f c out : 0 <= f < frames -> 0 <= c < oc -> written (f * oc + c) out ->
  exists out', map_sample cm sz inb out f c = Some out' /\ written (f * oc + c + 1) out'.
Proof.
  intros Hf Hc [Hl Hw]. assert (f * oc + c + 1 <= frames * oc) as Hk by nia. unfold map_sample. fold oc.
  destruct (lookup_lt_is_Some_2 (chmap (cm_map cm)) (Z.to_nat c)) as [src Hsrc]; [lia|]. rewrite Hsrc. cbn [mbind option_bind].
  assert (0 <= (f * oc + c) * sz /\ (f * oc + c) * sz + sz <= Z.of_nat osz) as [Hd0 Hd1] by nia.
  assert (u32 (u32 (f * oc + c) * sz) = (f * oc + c) * sz) as ->.
  { rewrite (wrap_small 32 (f * oc + c)) by (unfold is_word; nia). apply wrap_small. unfold is_word. lia. }
  set (dst := Z.to_nat ((f * oc + c) * sz)).
  assert (exists bs, (if (0 <=? src) && (src <? in_channels cm) then
      if decide (Z.to_nat (u32 (u32 (f * in_channels cm + src) * sz)) + Z.to_nat sz <= length inb)%nat
      then Some (take (Z.to_nat sz) (drop (Z.to_nat (u32 (u32 (f * in_channels cm + src) * sz))) inb)) else None
    else Some (replicate (Z.to_nat sz) 0)) = Some bs /\ bs = mapped cm sz inb f c /\ length bs = Z.to_nat sz) as (bs & -> & Hbs & Hlb).
  { unfold mapped. rewrite Hsrc. change (default (-1) (Some src)) with src. destruct ((0 <=? src) && (src <? in_channels cm)) eqn:Hr.
    - apply andb_true_iff in Hr as [Hr1%Z.leb_le Hr2%Z.ltb_lt].
      assert (0 <= (f * in_channels cm + src) * sz /\ (f * in_channels cm + src) * sz + sz <= Z.of_nat (length inb)) as [Hs0 Hs1].
      { assert (f * in_channels cm + src + 1 <= frames * in_channels cm) by nia. nia. }
      assert (u32 (u32 (f * in_channels cm + src) * sz) = (f * in_channels cm + src) * sz) as ->.
      { rewrite (wrap_small 32 (f * in_channels cm + src)) by (unfold is_word; nia). apply wrap_small. unfold is_word. lia. }
      rewrite decide_True by lia. eexists. split; [done|]. split; [done|]. rewrite length_take, length_drop. lia.
    - eexists. split; [done|]. split; [done|]. apply length_replicate. }
  cbn [mbind option_bind]. rewrite decide_True by lia. eexists. split; [done|]. split; [rewrite overwrite_length; lia|].
  intros f' c' Hf' Hc' Hlt. unfold sample. destruct (decide (f' * oc + c' = f * oc + c)) as [He|Hne].
  - assert (f' = f) as -> by nia. assert (c' = c) as -> by lia. rewrite <-Hbs, <-Hlb. apply overwrite_same. lia.
  - rewrite overwrite_before; [by apply Hw; lia| |lia]. assert ((f' * oc + c') * sz + sz <= (f * oc + c) * sz) by nia. lia.
Qed.

Lemma channel_map_loops out : length out = osz -> 0 <= frames ->
  exists out', loop_from 0 (Z.to_nat frames) (fun f out =>
    loop_from 0 (Z.to_nat oc) (fun c out => map_sample cm sz inb out f c) out) out = Some out' /\ written (frames * oc) out'.
Proof.
  intros Hl Hf. destruct (loop_from_inv (fun f o => written (f * oc) o) (fun f out =>
    loop_from 0 (Z.to_nat oc) (fun c out => map_sample cm sz inb out f c) out) (Z.to_nat frames) 0 out) as (out' & Ho & Hw).
  - intros f o Hy Hw. destruct (loop_from_inv (fun c o => written (f * oc + c) o) (fun c out => map_sample cm sz inb out f c)
      (Z.to_nat oc) 0 o) as (o' & Ho & Hw').
    + intros c o1 Hc. rewrite Z.add_assoc. apply map_sample_step; lia.
    + by rewrite Z.add_0_r.
    + exists o'. split; [done|]. by replace ((f + 1) * oc) with (f * oc + (0 + Z.of_nat (Z.to_nat oc))) by lia.
  - split; [done|]. intros f c H1 H2 H3. nia.
  - exists out'. split; [done|]. by replace (0 + Z.of_nat (Z.to_nat frames)) with frames in Hw by lia.
Qed.
End channel_map.

(** The channel mapper is exact: for a map accepted by
    [ove_audio_node_channel_map], every output sample is the input sample of
    the same frame that the map names, or silence when the map names no input
    channel (a negative entry or one beyond the input's channels), and no
    access leaves the buffers the graph laid out for the two formats. *)
Theorem channel_map_exact cm inb outb :
  channel_map_check (Some (cm_map cm)) = true -> 0 <= out_channels (cm_map cm) ->
  length (chmap (cm_map cm)) = Z.to_nat OVE_AUDIO_MAX_CHANNELS -> 0 <= v_frames inb -> 0 <= in_channels cm ->
  let sz := ove_audio_sample_size (sample_fmt (v_fmt inb)) in
  0 < sz ->
  v_frames inb * in_channels cm * sz <= Z.of_nat (length (v_bytes inb)) < 2 ^ 32 ->
  v_frames inb * out_channels (cm_map cm) * sz <= Z.of_nat (length (v_bytes outb)) < 2 ^ 32 ->
  exists out', channel_map_process cm inb outb = Some (OVE_OK, out') /\ length out' = length (v_bytes outb) /\
    forall f c, 0 <= f < v_frames inb -> 0 <= c < out_channels (cm_map cm) ->
      sample sz out' (f * out_channels (cm_map cm) + c) = mapped cm sz (v_bytes inb) f c.
Proof.
  intros Hck Hoc0 Hmap Hf Hic sz Hsz Hin Hout. unfold channel_map_check in Hck.
  destruct (out_channels (cm_map cm) =? 0) eqn:H0; [done|]. destruct (OVE_AUDIO_MAX_CHANNELS <? _) eqn:Hmx; [done|].
  apply Z.eqb_neq in H0. apply Z.ltb_ge in Hmx.
  destruct (channel_map_loops cm sz (v_frames inb) (v_bytes inb) (length (v_bytes outb))) with (out := v_bytes outb)
    as (out' & Ho & Hl & Hw); try done; [lia|].
  exists out'. unfold channel_map_process. fold sz. rewrite Ho. split; [done|]. split; [done|].
  intros f c Hfr Hc. apply Hw; [lia|done|nia].
Qed.

(** ** Built-in nodes in a graph *)

Section composition.
Context {W : Type} {N : NodeEnv W} {L : NodeEnvLaws W} {E : AudioEnv W}.

Lemma concat_length_eq n (xs : list (list Z)) : Forall (fun x => length x = n) xs -> length (concat xs) = (length xs * n)%nat.
Proof. induction 1 as [|x xs Hx _ IH]; [done|]. cbn. rewrite length_app, IH, Hx. done. Qed.

Lemma each_length total i o f inb outb r : each total i o f inb outb = Some r ->
  (forall b x, f b = Some x -> length x = o) -> length r = length outb.
Proof.
  unfold each. case_decide as Hd; [|done]. intros H Hf. apply bind_Some in H as (xs & Hxs & [= <-]).
  assert (Forall (fun x => length x = o) xs) as Hl.
  { apply mapM_Some in Hxs. apply Forall_lookup_2. intros k x Hx.
    destruct (Forall2_lookup_r _ _ _ _ _ Hxs Hx) as (b & _ & Hb). by eapply Hf. }
  apply length_mapM in Hxs. rewrite length_chunk in Hxs.
  apply overwrite_length. rewrite (concat_length_eq o) by done. nia.
Qed.

Lemma copy_length n inb outb r : copy n inb outb = Some r -> length r = length outb.
Proof. unfold copy. cbv zeta. case_decide; [|done]. intros [= <-]. apply overwrite_length. rewrite length_take. lia. Qed.

Lemma run_length {A} (c : A) total i o f inb outb r : (x ← each total i o f inb outb; Some (c, x)) = Some r ->
  (forall b x, f b = Some x -> length x = o) -> length r.2 = length outb.
Proof. intros H Hf. apply bind_Some in H as (x & Hx & [= <-]). by eapply each_length. Qed.

Ltac stored := intros ? ?; repeat (rewrite fmap_Some; intros (? & _ & ->)); try intros [= <-]; apply le_enc_length.

Lemma converter_length i o r : converter_process i o = Some r -> length r.2 = length (v_bytes o).
Proof.
  unfold converter_process. cbv zeta. destruct (_ =? _).
  { intros H. apply bind_Some in H as (x & Hx & [= <-]). by eapply copy_length. }
  repeat match goal with |- (if ?b then _ else _) = _ -> _ => destruct b; [intros H; apply (run_length _ _ _ _ _ _ _ _ H); stored|] end.
  by intros [= <-].
Qed.

Lemma gain_length g i o r : gain_process g i o = Some r -> length r.2 = length (v_bytes o).
Proof.
  unfold gain_process. cbv zeta.
  repeat match goal with |- (if ?b then _ else _) = _ -> _ => destruct b; [intros H; apply (run_length _ _ _ _ _ _ _ _ H); stored|] end.
  by intros [= <-].
Qed.

Lemma loop_from_length body n : forall x out r,
  (forall y a b, body y a = Some b -> length b = length a) -> loop_from x n body out = Some r -> length r = length out.
Proof.
  induction n as [|n IH]; intros x out r Hb; cbn [loop_from]; [by intros [= <-]|].
  intros H. apply bind_Some in H as (o & Ho & H). rewrite (IH _ _ _ Hb H). by eapply Hb.
Qed.

Lemma map_sample_length cm sz inb outb f c r : map_sample cm sz inb outb f c = Some r -> length r = length outb.
Proof.
  unfold map_sample. cbv zeta. intros H. apply bind_Some in H as (src & _ & H). apply bind_Some in H as (bs & Hbs & H).
  case_decide as Hd; [|done]. injection H as <-. apply overwrite_length.
  enough (length bs = Z.to_nat sz) by lia. destruct (_ && _); [case_decide; [|done]|]; injection Hbs as <-.
  - rewrite length_take, length_drop. lia.
  - apply length_replicate.
Qed.

Lemma channel_map_length cm i o r : channel_map_process cm i o = Some r -> length r.2 = length (v_bytes o).
Proof.
  unfold channel_map_process. cbv zeta. intros H. apply bind_Some in H as (x & Hx & [= <-]).
  eapply loop_from_length; [|exact Hx]. intros f a b Hab. cbv beta in Hab.
  eapply loop_from_length; [|exact Hab]. intros c a' b'. apply map_sample_length.
Qed.

Lemma pure_process_length (f : node_ctx -> buf_view -> buf_view -> option (Z * list Z)) c i v (w : W) :
  (forall x i r, f x i v = Some r -> length r.2 = length (v_bytes v)) ->
  length (pure_process f c i (Some v) w).1.2 = length (v_bytes v).
Proof.
  intros Hf. unfold pure_process. cbn [fst]. destruct (ctx_load c w) as [x|]; [|apply undef_out_len].
  destruct i as [i|]; [|apply undef_out_len]. destruct (f x i v) as [r|] eqn:Hr; [by eapply Hf|apply undef_out_len].
Qed.

Lemma pure_configure_word (f : node_ctx -> ove_audio_fmt -> option (Z * ove_audio_fmt)) c i o (w : W) :
  (forall x i r, f x i = Some r -> fmt_word i -> fmt_word r.2) -> (forall x, i = Some x -> fmt_word x) ->
  fmt_word (pure_configure f c i o w).1.2.
Proof.
  intros Hf Hi. unfold pure_configure. cbn [fst]. pose proof undef_fmt_word as Hu.
  destruct (ctx_load c w) as [x|]; [|done]. destruct i as [i|]; [|done]. destruct o; [|done].
  destruct (f x i) as [r|] eqn:Hr; [|done]. by eapply Hf, Hi.
Qed.

(** The four vtables keep the contract the graph relies on, so its theorems
    hold of graphs made of them. *)
Lemma builtin_ops_ok :
  ops_ok (converter_ops (W := W)) /\ ops_ok (channel_map_ops (W := W)) /\
  ops_ok (gain_ops (W := W)) /\ ops_ok (tap_ops (W := W)).
Proof.
  split_and!; split.
  - intros c i f w Hi. apply pure_configure_word; [|done]. by intros [] j r [= <-].
  - intros c i v w _. apply pure_process_length. intros x j r. apply converter_length.
  - intros c i f w Hi. cbn [configure channel_map_ops]. pose proof undef_fmt_word as Hu.
    destruct (ctx_load c w) as [[| cm| |]|] eqn:Hc; try done. destruct i as [i|]; [|done]. destruct f; [|done]. cbn.
    split; [apply (Hi i eq_refl)|by apply (ctx_load_map c w)].
  - intros c i v w _. apply pure_process_length. intros [] j r; try done. apply channel_map_length.
  - intros c i f w Hi. apply pure_configure_word; [|done]. by intros x j r [= <-].
  - intros c i v w _. apply pure_process_length. intros [] j r; try done. apply gain_length.
  - intros c i f w Hi. apply pure_configure_word; [|done]. by intros x j r [= <-].
  - intros c i v w _. cbn [process tap_ops].
    destruct (ctx_load c w) as [[| | |fn ud]|], i as [i|]; try apply undef_out_len.
    destruct (tap_process _ i v) as [[[r bs] seen]|] eqn:Ht; [|apply undef_out_len].
    apply bind_Some in Ht as (x & Hx & [= <- <- <-]). by eapply copy_length.
Qed.

(** [ove_audio_graph_add_node], whichever way it returns. *)
Lemma add_node_outcome o c nm ty (s : ast W) : ast_wf s -> ops_ok o ->
  wp (ove_audio_graph_add_node (Some o) c nm ty) (fun r s' =>
    ast_wf s' /\ aw s' = aw s /\
    (r < 0 /\ s' = s \/
     r = Z.of_nat (node_count (ag s)) /\
     exists nm', nm = Some nm' /\ nodes (ag s') !! node_count (ag s) = Some (mk_node nm' ty (Some o) c zero_fmt))) s.
Proof.
  intros Hs Ho. pose proof (add_safe (Some o) c nm ty s Hs) as Hsafe.
  specialize (Hsafe ltac:(by intros ? [= <-])). unfold wp in *.
  destruct (ove_audio_graph_add_node (Some o) c nm ty s) as [[r s']|] eqn:Hr; [|done]. split; [done|].
  destruct nm as [nm|]; [|by injection Hr as <- <-; split; [|left]].
  unfold ove_audio_graph_add_node in Hr. apply bind_Some in Hr as ([g s0] & [= <- <-] & Hr).
  case_decide; [by injection Hr as <- <-; split; [|left]|].
  destruct (_ <=? _)%nat; [by injection Hr as <- <-; split; [|left]|].
  apply bind_Some in Hr as ([l s2] & Hl & Hr). unfold olift in Hl. destruct (ostore _ _ _) as [l'|] eqn:Hst; [|done].
  injection Hl as <- <-. injection Hr as <- <-. split; [done|]. right. split; [done|]. exists nm. split; [done|].
  cbn [ag set_nodes nodes]. unfold ostore in Hst. case_decide; [|done]. injection Hst as <-.
  by apply list_lookup_insert_eq.
Qed.

(** A builder leaves the graph sound whichever way it returns: without
    memory nothing changes; when the graph refuses the node, its context has
    been freed; otherwise the node is the next one, with the context that was
    filled. *)
Theorem builder_outcome x o nm (s : ast W) : ast_wf s -> ops_ok o ->
  wp (with_ctx x o nm) (fun r s' => ast_wf s' /\
    match ctx_malloc (aw s) with
    | (None, w) => r = OVE_ERR_NO_MEMORY /\ ag s' = ag s /\ aw s' = w
    | (Some c, w) =>
        r < 0 /\ ag s' = ag s /\ aw s' = ctx_free c (ctx_store c x w) \/
        r = Z.of_nat (node_count (ag s)) /\ aw s' = ctx_store c x w /\
        exists nm', nodes (ag s') !! node_count (ag s) = Some (mk_node nm' OVE_AUDIO_NODE_PROCESSOR (Some o) c zero_fmt)
    end) s.
Proof.
  intros Hs Ho. unfold with_ctx. apply wp_bind. unfold wp at 1, world at 1.
  destruct (ctx_malloc (aw s)) as [[c|] w]; [|apply wp_ret; split; [exact Hs|done]].
  apply wp_bind. unfold wp at 1, world at 1. cbn [aw atr ag]. apply wp_bind.
  eapply wp_mono; [apply (add_node_outcome o c nm); [exact Hs|done]|].
  intros r s' (Hs' & Hw & H). cbn [aw ag] in *. apply wp_bind.
  destruct H as [[Hr ->]|[-> (nm' & -> & Hn)]].
  - rewrite (proj2 (Z.ltb_lt r 0) Hr). unfold wp at 1, world. cbn [aw destroy_ctx]. apply wp_ret.
    split; [exact Hs|]. left. done.
  - rewrite (proj2 (Z.ltb_ge _ 0)) by lia. apply wp_ret, wp_ret. split; [done|]. right. split; [done|]. split; [done|].
    by exists nm'.
Qed.

End composition.

(** ** Instances *)

Module NodesDemo.

Lemma samples_saturate_witness :
  exists z, f32_to_s16 (S754_infinity true) = Some z /\ -32768 <= z <= 32767.
Proof.
  refine (proj1 (samples_saturate (S754_infinity true) (f32_of_int 3) 5 _ I eq_refl _)).
  - discriminate.
  - lia.
Defined.

(** Two frames of stereo: silence, full scale, one and minus one. *)
Definition stereo : list Z := [0; 0; 0; 128; 1; 0; 255; 255].

Lemma converter_roundtrip_witness :
  exists mid,
    converter_process (mk_view stereo 2 (mk_fmt 48000 2 OVE_AUDIO_FMT_S16))
      (mk_view (replicate 16 0) 2 (mk_fmt 48000 2 OVE_AUDIO_FMT_F32)) = Some (OVE_OK, mid) /\
    converter_process (mk_view mid 2 (mk_fmt 48000 2 OVE_AUDIO_FMT_F32))
      (mk_view (replicate 8 9) 2 (mk_fmt 48000 2 OVE_AUDIO_FMT_S16)) = Some (OVE_OK, stereo).
Proof.
  apply (converter_roundtrip stereo 2 2 48000 OVE_AUDIO_FMT_F32 (replicate 16 0) (replicate 8 9)).
  - left. reflexivity.
  - repeat constructor; discriminate.
  - apply Nat.leb_le. reflexivity.
  - apply Nat.leb_le. reflexivity.
  - apply Nat.leb_le. reflexivity.
Defined.

(** Swapped channels and a third one that names no input. *)
Definition swap : channel_map_ctx := mk_cm (mk_map 3 [1; 0; -1; 0; 0; 0; 0; 0]) 2.

Example swap_run : channel_map_process swap (mk_view stereo 2 (mk_fmt 48000 2 OVE_AUDIO_FMT_S16))
    (mk_view (replicate 12 9) 2 (mk_fmt 48000 3 OVE_AUDIO_FMT_S16)) =
  Some (OVE_OK, [0; 128; 0; 0; 0; 0; 255; 255; 1; 0; 0; 0]).
Proof. by vm_compute. Qed.

Lemma channel_map_exact_witness :
  exists out', channel_map_process swap (mk_view stereo 2 (mk_fmt 48000 2 OVE_AUDIO_FMT_S16))
    (mk_view (replicate 12 9) 2 (mk_fmt 48000 3 OVE_AUDIO_FMT_S16)) = Some (OVE_OK, out').
Proof.
  destruct (channel_map_exact swap (mk_view stereo 2 (mk_fmt 48000 2 OVE_AUDIO_FMT_S16))
    (mk_view (replicate 12 9) 2 (mk_fmt 48000 3 OVE_AUDIO_FMT_S16))) as (out' & H & _); try reflexivity.
  - vm_compute. discriminate.
  - vm_compute. discriminate.
  - vm_compute. discriminate.
  - split; [vm_compute; discriminate|reflexivity].
  - split; [vm_compute; discriminate|reflexivity].
  - exists out'. exact H.
Defined.

(** A heap of contexts: the next address and the live ones. *)
Definition typed (x : node_ctx) : node_ctx :=
  match x with
  | CMap cm => CMap (mk_cm (mk_map (u32 (out_channels (cm_map cm))) (chmap (cm_map cm))) (in_channels cm))
  | _ => x
  end.
Definition heap : Type := Z * gmap Z node_ctx.
Global Instance heap_env : NodeEnv heap := {
  ctx_malloc w := (Some (w.1 + 1), (w.1 + 1, w.2));
  ctx_free c w := (w.1, delete c w.2);
  ctx_load c w := typed <$> w.2 !! c;
  ctx_store c x w := (w.1, <[c := x]> w.2);
  tap_fn _ _ _ w := w;
  undef_fmt := (0, zero_fmt);
  undef_out v := match v with Some v => (0, v_bytes v) | None => (0, []) end }.
Global Instance heap_laws : NodeEnvLaws heap.
Proof.
  split.
  - unfold fmt_word, is_word. cbn. lia.
  - done.
  - intros c w cm H. cbn in H. apply fmap_Some in H as (x & _ & H). destruct x; try discriminate.
    injection H as ->. by apply wrap_range.
Qed.
Global Instance heap_audio : AudioEnv heap := {
  SIZE_MAX := 1000; calloc _ w := (true, w); time_us w := (0, w) }.

(** A gain node in an empty graph. *)
Definition empty : ast heap := mk_ast (6, ∅) [] (zero_graph 4).
Example gain_node_run :
  (fun r => (r.1, ctx <$> nodes (ag r.2) !! 0%nat, ctx_load 7 (aw r.2))) <$>
    ove_audio_node_gain (f32_of_int 0) (Some (str "gain")) empty =
  Some (0, Some 7, Some (CGain (f32_of_int 1))).
Proof. by vm_compute. Qed.

End NodesDemo.
