(* ===== verification/Loader.v ===== *)
(** * The module loader (loader/ove_loader.c, include/ove/loader.h)

    A relocatable ELF object is laid out in a region, its undefined symbols
    are resolved against an import table and its relocations are applied.
    The image is the byte array of the caller, the region a byte array at
    the address [reg_at]; an access outside either is [None].  Pointers are
    addresses, and [uintptr_t] and [size_t] have [PTR] bits. *)

From S2P Require Import Prelude Bits.

Module Loader.

(** [n] bytes at [off], and [data] written there. *)
Definition bytes_at (bs : list Z) (off n : Z) : option (list Z) :=
  if (0 <=? off) && (0 <=? n) && (off + n <=? Z.of_nat (length bs))
  then Some (take (Z.to_nat n) (drop (Z.to_nat off) bs)) else None.
Definition put_at (bs : list Z) (off : Z) (data : list Z) : option (list Z) :=
  if (0 <=? off) && (off + Z.of_nat (length data) <=? Z.of_nat (length bs))
  then Some (overwrite bs (Z.to_nat off) data) else None.

(** The little-endian field of [n] bytes at [off] of a structure. *)
Definition fld (off n : nat) (bs : list Z) : Z := le_dec (take n (drop off bs)).

(** ** ELF *)

Definition EI_CLASS : nat := 4.
Definition EI_DATA : nat := 5.
Definition ELFCLASS32 : Z := 1.
Definition ELFCLASS64 : Z := 2.
Definition ELFDATA2LSB : Z := 1.
Definition ET_REL : Z := 1.
Definition EM_X86_64 : Z := 62.
Definition EM_ARM : Z := 40.
Definition SHT_PROGBITS : Z := 1.
Definition SHT_SYMTAB : Z := 2.
Definition SHT_REL : Z := 9.
Definition SHT_RELA : Z := 4.
Definition SHT_NOBITS : Z := 8.
Definition SHF_ALLOC : Z := 2.
Definition SHN_UNDEF : Z := 0.
Definition SHN_ABS : Z := 65521.
Definition STB_GLOBAL : Z := 1.
Definition STB_WEAK : Z := 2.
Definition R_X86_64_NONE : Z := 0.
Definition R_X86_64_64 : Z := 1.
Definition R_X86_64_PC32 : Z := 2.
Definition R_X86_64_PLT32 : Z := 4.
Definition R_X86_64_32 : Z := 10.
Definition R_X86_64_32S : Z := 11.
Definition R_ARM_NONE : Z := 0.
Definition R_ARM_ABS32 : Z := 2.
Definition R_ARM_REL32 : Z := 3.
Definition R_ARM_THM_CALL : Z := 10.
Definition R_ARM_THM_JUMP24 : Z := 30.
Definition R_ARM_TARGET1 : Z := 38.
Definition R_ARM_PREL31 : Z := 42.

(** The fields the loader reads. *)
Record Ehdr := mk_ehdr { e_type : Z; e_machine : Z; e_shoff : Z; e_shentsize : Z; e_shnum : Z }.
Record Shdr := mk_shdr {
  sh_type : Z; sh_flags : Z; sh_offset : Z; sh_size : Z; sh_link : Z; sh_info : Z; sh_addralign : Z; sh_entsize : Z }.
Record Sym := mk_sym { st_name : Z; st_info : Z; st_shndx : Z; st_value : Z }.
Record Elf64_Rela := mk_rela { ra_offset : Z; ra_info : Z; ra_addend : Z }.
Record Elf32_Rel := mk_rel { r_offset : Z; r_info : Z }.

Definition Elf64_Ehdr (b : list Z) : Ehdr := mk_ehdr (fld 16 2 b) (fld 18 2 b) (fld 40 8 b) (fld 58 2 b) (fld 60 2 b).
Definition Elf64_Shdr (b : list Z) : Shdr :=
  mk_shdr (fld 4 4 b) (fld 8 8 b) (fld 24 8 b) (fld 32 8 b) (fld 40 4 b) (fld 44 4 b) (fld 48 8 b) (fld 56 8 b).
Definition Elf64_Sym (b : list Z) : Sym := mk_sym (fld 0 4 b) (fld 4 1 b) (fld 6 2 b) (fld 8 8 b).
Definition rd_rela (b : list Z) : Elf64_Rela := mk_rela (fld 0 8 b) (fld 8 8 b) (swrap 64 (fld 16 8 b)).
Definition Elf32_Ehdr (b : list Z) : Ehdr := mk_ehdr (fld 16 2 b) (fld 18 2 b) (fld 32 4 b) (fld 46 2 b) (fld 48 2 b).
Definition Elf32_Shdr (b : list Z) : Shdr :=
  mk_shdr (fld 4 4 b) (fld 8 4 b) (fld 16 4 b) (fld 20 4 b) (fld 24 4 b) (fld 28 4 b) (fld 32 4 b) (fld 36 4 b).
Definition Elf32_Sym (b : list Z) : Sym := mk_sym (fld 0 4 b) (fld 12 1 b) (fld 14 2 b) (fld 4 4 b).
Definition rd_rel (b : list Z) : Elf32_Rel := mk_rel (fld 0 4 b) (fld 4 4 b).

(** What differs between the two classes: the structures and their sizes. *)
Record elf_class := mk_class {
  machine : Z; ehdr_size : Z; rd_ehdr : list Z -> Ehdr; shdr_size : Z; rd_shdr_bytes : list Z -> Shdr;
  sym_size : Z; rd_sym : list Z -> Sym; rel_type : Z; rel_size : Z }.
Definition elf64 : elf_class := mk_class EM_X86_64 64 Elf64_Ehdr 64 Elf64_Shdr 24 Elf64_Sym SHT_RELA 24.
Definition elf32 : elf_class := mk_class EM_ARM 52 Elf32_Ehdr 40 Elf32_Shdr 16 Elf32_Sym SHT_REL 8.

(** ** State *)

Definition OVE_LOADER_MAX_SECTIONS : nat := 32.

(** [image], [image_size], [region] and [region_size] are the parameters
    below; a NULL [symtab] or [strtab] is [None], else it is an offset in the
    image; a NULL [sec_addr] is 0. *)
Record ove_module := mk_mod {
  region_used : Z; n_sections : Z; sec_addr : list Z; symtab : option Z; sym_count : Z;
  strtab : option Z; strtab_size : Z; is_elf64 : bool }.

Record ld := mk_ld { md : ove_module; reg : list Z }.

Definition zero_module : ove_module := mk_mod 0 0 (replicate OVE_LOADER_MAX_SECTIONS 0) None 0 None 0 false.

(** An import: its name (no NUL inside) and its address. *)
Record ove_loader_import := mk_import { name : option (list Z); addr : Z }.

(** The address space. *)
Class Machine := { PTR : Z; reg_at : Z }.

(** [for (i ...)] with an early return of an error. *)
Fixpoint loop {St I X} (f : I -> X -> MO St (Z + X)) (l : list I) (x : X) : MO St (Z + X) :=
  match l with
  | [] => mret (inr x)
  | i :: l => r ← f i x; match r with inl e => mret (inl e) | inr x => loop f l x end
  end.

Section loader.
Context {MA : Machine}.
Abbreviation uptr := (wrap PTR).
Context (img : list Z) (imports : list ove_loader_import).
Abbreviation L := (MO ld).

Definition image_size : Z := Z.of_nat (length img).
Definition region_size : L Z := ogets (fun s => Z.of_nat (length (reg s))).
Definition modm (f : ove_module -> ove_module) : L unit := omodify (fun s => {| s with md := f (md s) |}).

(** Reads of the image, and accesses to the region through a pointer. *)
Definition rd_img (off n : Z) : L (list Z) := olift (bytes_at img off n).
Definition rd_mem (p n : Z) : L (list Z) := s ← ogets reg; olift (bytes_at s (p - reg_at) n).
Definition wr_mem (p : Z) (data : list Z) : L unit :=
  s ← ogets reg; s' ← olift (put_at s (p - reg_at) data); omodify (fun s => {| s with reg := s' |}).

(** ** Symbols *)

Definition sym_name (m : ove_module) (st_name : Z) : option Z :=
  if strtab_size m <=? st_name then None else (fun p => p + st_name) <$> strtab m.

(** [strcmp(s, img + p) == 0] *)
Fixpoint strcmp_eq (s : list Z) (p : Z) : option bool :=
  b ← img !! Z.to_nat p;
  match s with
  | [] => Some (b =? 0)
  | c :: s => if b =? c then strcmp_eq s (p + 1) else Some false
  end.

Fixpoint find_import (l : list ove_loader_import) (p : Z) : option (option Z) :=
  match l with
  | [] => Some None
  | i :: l =>
      match name i with
      | None => find_import l p
      | Some nm => eq ← strcmp_eq nm p; if (eq : bool) then Some (Some (addr i)) else find_import l p
      end
  end.

(** An error, or the address. *)
Definition resolve (shndx value st_name : Z) : L (Z + Z) :=
  m ← ogets md;
  if shndx =? SHN_UNDEF then
    match sym_name m st_name with
    | None => mret (inl OVE_ERR_INVALID_PARAM)
    | Some p => r ← olift (find_import imports p);
                mret (match r with Some a => inr a | None => inl OVE_ERR_NOT_FOUND end)
    end
  else if shndx =? SHN_ABS then mret (inr (uptr value))
  else if shndx <? n_sections m then
    a ← olift (sec_addr m !! Z.to_nat shndx);
    mret (if negb (a =? 0) then inr (uptr (a + value)) else inl OVE_ERR_NOT_SUPPORTED)
  else mret (inl OVE_ERR_NOT_SUPPORTED).

(** [memcpy(&sym, symtab + symidx * sizeof, sizeof)] *)
Definition rd_symbol (c : elf_class) (symidx : Z) : L Sym :=
  m ← ogets md; p ← olift (symtab m); b ← rd_img (p + symidx * sym_size c) (sym_size c); mret (rd_sym c b).

(** ** x86-64 relocations *)

Definition apply_rela64 (tgt : Z) (rela : Elf64_Rela) : L Z :=
  m ← ogets md;
  let symidx := Z.shiftr (ra_info rela) 32 in
  let type := Z.land (ra_info rela) 4294967295 in
  if sym_count m <=? symidx then mret OVE_ERR_INVALID_PARAM else
  sym ← rd_symbol elf64 symidx;
  r ← resolve (st_shndx sym) (st_value sym) (st_name sym);
  match r with
  | inl rc => mret rc
  | inr sv =>
      base ← olift (sec_addr m !! Z.to_nat tgt);
      let loc := uptr (base + ra_offset rela) in
      let A := ra_addend rela in
      let P := loc in
      if type =? R_X86_64_NONE then mret OVE_OK
      else if type =? R_X86_64_64 then wr_mem loc (le_enc 8 (u64 (sv + A)));; mret OVE_OK
      else if (type =? R_X86_64_PC32) || (type =? R_X86_64_PLT32) then
        wr_mem loc (le_enc 4 (u32 (sv + A - P)));; mret OVE_OK
      else if (type =? R_X86_64_32) || (type =? R_X86_64_32S) then wr_mem loc (le_enc 4 (u32 (sv + A)));; mret OVE_OK
      else mret OVE_ERR_NOT_SUPPORTED
  end.

(** ** ARM relocations *)

(** An 8-byte veneer behind the loaded sections, or 0. *)
Definition arm_veneer (target : Z) : L Z :=
  m ← ogets md; size ← region_size;
  let off := Z.ldiff (uptr (region_used m + 3)) 3 in
  if size <? uptr (off + 8) then mret 0 else
  let v := reg_at + off in
  wr_mem v (le_enc 2 63711);; wr_mem (v + 2) (le_enc 2 61440);; wr_mem (v + 4) (le_enc 4 (u32 target));;
  modm (fun m => {| m with region_used := off + 8 |});;
  mret v.

(** The displacement of a Thumb-2 BL or B.W, and the instruction with
    another one. *)
Definition thumb_addend (hw1 hw2 : Z) : Z :=
  let bs := Z.land (Z.shiftr hw1 10) 1 in
  let j1 := Z.land (Z.shiftr hw2 13) 1 in
  let j2 := Z.land (Z.shiftr hw2 11) 1 in
  let i1 := Z.land (Z.lnot (Z.lxor j1 bs)) 1 in
  let i2 := Z.land (Z.lnot (Z.lxor j2 bs)) 1 in
  let raw := Z.lor (Z.lor (Z.lor (Z.lor (Z.shiftl bs 24) (Z.shiftl i1 23)) (Z.shiftl i2 22))
               (Z.shiftl (Z.land hw1 1023) 12)) (Z.shiftl (Z.land hw2 2047) 1) in
  if negb (Z.land raw 16777216 =? 0) then swrap 32 (Z.lor raw 4261412864) else swrap 32 raw.

Definition thumb_patch (hw1 hw2 want : Z) : Z * Z :=
  let u := u32 want in
  let ns := Z.land (Z.shiftr u 24) 1 in
  let ni1 := Z.land (Z.shiftr u 23) 1 in
  let ni2 := Z.land (Z.shiftr u 22) 1 in
  let nj1 := Z.land (Z.lxor (Z.lxor ni1 1) ns) 1 in
  let nj2 := Z.land (Z.lxor (Z.lxor ni2 1) ns) 1 in
  (u16 (Z.lor (Z.lor (Z.ldiff hw1 2047) (Z.shiftl ns 10)) (Z.land (Z.shiftr u 12) 1023)),
   u16 (Z.lor (Z.lor (Z.lor (Z.ldiff hw2 12287) (Z.shiftl nj1 13)) (Z.shiftl nj2 11)) (Z.land (Z.shiftr u 1) 2047))).

Definition in_reach (want : Z) : bool := negb ((want <? -16777216) || (16777214 <? want)).

(** [R_ARM_THM_CALL] and [R_ARM_THM_JUMP24] *)
Definition apply_thumb (sv loc : Z) : L Z :=
  b1 ← rd_mem loc 2; b2 ← rd_mem (loc + 2) 2;
  let hw1 := le_dec b1 in let hw2 := le_dec b2 in
  let addend := thumb_addend hw1 hw2 in
  let want := swrap 32 (swrap 32 (uptr (Z.ldiff sv 1 - loc)) + addend) in
  let patch want := let '(h1, h2) := thumb_patch hw1 hw2 want in
                    wr_mem loc (le_enc 2 h1);; wr_mem (loc + 2) (le_enc 2 h2);; mret OVE_OK in
  if in_reach want then patch want else
  v ← arm_veneer sv;
  if v =? 0 then mret OVE_ERR_NO_MEMORY else patch (swrap 32 (swrap 32 (uptr (v - loc)) + addend)).

Definition apply_rel_arm (tgt : Z) (rel : Elf32_Rel) : L Z :=
  m ← ogets md;
  let symidx := Z.shiftr (r_info rel) 8 in
  let type := Z.land (r_info rel) 255 in
  if sym_count m <=? symidx then mret OVE_ERR_INVALID_PARAM else
  sym ← rd_symbol elf32 symidx;
  r ← resolve (st_shndx sym) (st_value sym) (st_name sym);
  match r with
  | inl rc => mret rc
  | inr sv =>
      base ← olift (sec_addr m !! Z.to_nat tgt);
      let loc := uptr (base + r_offset rel) in
      b ← rd_mem loc 4;
      let A := le_dec b in
      let P := u32 loc in
      if type =? R_ARM_NONE then mret OVE_OK
      else if (type =? R_ARM_ABS32) || (type =? R_ARM_TARGET1) then wr_mem loc (le_enc 4 (u32 (sv + A)));; mret OVE_OK
      else if type =? R_ARM_REL32 then wr_mem loc (le_enc 4 (u32 (sv + A - P)));; mret OVE_OK
      else if type =? R_ARM_PREL31 then
        wr_mem loc (le_enc 4 (Z.lor (Z.land (u32 (sv + A - P)) 2147483647) (Z.land A 2147483648)));; mret OVE_OK
      else if (type =? R_ARM_THM_CALL) || (type =? R_ARM_THM_JUMP24) then apply_thumb sv loc
      else mret OVE_ERR_NOT_SUPPORTED
  end.

(** ** Loading *)

Definition ld_oob (off size limit : Z) : bool := (limit <? size) || (limit - size <? off).

Definition rd_shdr (c : elf_class) (eh : Ehdr) (i : Z) : L Shdr :=
  b ← rd_img (e_shoff eh + i * e_shentsize eh) (shdr_size c); mret (rd_shdr_bytes c b).

Definition is_alloc (sh : Shdr) : bool :=
  ((sh_type sh =? SHT_PROGBITS) || (sh_type sh =? SHT_NOBITS)) && negb (Z.land (sh_flags sh) SHF_ALLOC =? 0) && (0 <? sh_size sh).

Definition align_up (off addralign : Z) : Z :=
  let align := if addralign =? 0 then 1 else uptr addralign in
  Z.ldiff (uptr (off + align - 1)) (uptr (align - 1)).

(** One iteration of the first pass; [off] is the end of what is laid out. *)
Definition lay_section (c : elf_class) (eh : Ehdr) (i off : Z) : L (Z + Z) :=
  sh ← rd_shdr c eh i; size ← region_size;
  if is_alloc sh then
    let off := align_up off (sh_addralign sh) in
    if ld_oob off (sh_size sh) size then mret (inl OVE_ERR_NO_MEMORY) else
    let dst := reg_at + off in
    let placed := s ← ogets (fun s => sec_addr (md s)); l ← olift (ostore s (Z.to_nat i) dst);
                  modm (fun m => {| m with sec_addr := l |});; mret (inr (uptr (off + sh_size sh))) in
    if sh_type sh =? SHT_NOBITS then wr_mem dst (replicate (Z.to_nat (sh_size sh)) 0);; placed else
    if ld_oob (sh_offset sh) (sh_size sh) image_size then mret (inl OVE_ERR_INVALID_PARAM) else
    b ← rd_img (sh_offset sh) (sh_size sh); wr_mem dst b;; placed
  else if sh_type sh =? SHT_SYMTAB then
    if negb (sh_entsize sh =? sym_size c) then mret (inl OVE_ERR_NOT_SUPPORTED) else
    if ld_oob (sh_offset sh) (sh_size sh) image_size then mret (inl OVE_ERR_INVALID_PARAM) else
    modm (fun m => {| m with symtab := Some (sh_offset sh); sym_count := u32 (sh_size sh / sym_size c) |});;
    if sh_link sh <? e_shnum eh then
      st ← rd_shdr c eh (sh_link sh);
      if ld_oob (sh_offset st) (sh_size st) image_size then mret (inl OVE_ERR_INVALID_PARAM) else
      modm (fun m => {| m with strtab := Some (sh_offset st); strtab_size := u32 (sh_size st) |});; mret (inr off)
    else mret (inr off)
  else mret (inr off).

(** One iteration of the second pass. *)
Definition reloc_section (c : elf_class) (apply : Z -> list Z -> L Z) (eh : Ehdr) (i : Z) (_ : unit) : L (Z + unit) :=
  sh ← rd_shdr c eh i;
  if negb (sh_type sh =? rel_type c) then mret (inr tt) else
  let tgt := sh_info sh in
  if e_shnum eh <=? tgt then mret (inr tt) else
  l ← ogets (fun s => sec_addr (md s)); base ← olift (l !! Z.to_nat tgt);
  if base =? 0 then mret (inr tt) else
  if negb (sh_entsize sh =? rel_size c) then mret (inl OVE_ERR_NOT_SUPPORTED) else
  if ld_oob (sh_offset sh) (sh_size sh) image_size then mret (inl OVE_ERR_INVALID_PARAM) else
  loop (fun r _ =>
    b ← rd_img (sh_offset sh + r * rel_size c) (rel_size c);
    rc ← apply tgt b;
    mret (if negb (rc =? OVE_OK) then inl rc else inr tt)) (seqZ 0 (sh_size sh / rel_size c)) tt.

Definition load (c : elf_class) (is64 : bool) (apply : Z -> list Z -> L Z) : L Z :=
  b ← rd_img 0 (ehdr_size c);
  let eh := rd_ehdr c b in
  if negb (e_type eh =? ET_REL) || negb (e_machine eh =? machine c) then mret OVE_ERR_NOT_SUPPORTED else
  if negb (e_shentsize eh =? shdr_size c) || (e_shnum eh =? 0) then mret OVE_ERR_INVALID_PARAM else
  if Z.of_nat OVE_LOADER_MAX_SECTIONS <? e_shnum eh then mret OVE_ERR_NO_MEMORY else
  if ld_oob (e_shoff eh) (e_shnum eh * e_shentsize eh) image_size then mret OVE_ERR_INVALID_PARAM else
  modm (fun m => {| m with is_elf64 := is64; n_sections := e_shnum eh |});;
  r ← loop (lay_section c eh) (seqZ 0 (e_shnum eh)) 0;
  match r with
  | inl rc => mret rc
  | inr off =>
      modm (fun m => {| m with region_used := off |});;
      m ← ogets md;
      if bool_decide (symtab m = None) || bool_decide (strtab m = None) then mret OVE_ERR_INVALID_PARAM else
      r ← loop (reloc_section c apply eh) (seqZ 0 (e_shnum eh)) tt;
      mret (match r with inl rc => rc | inr _ => OVE_OK end)
  end.

Definition load64 : L Z := load elf64 true (fun tgt b => apply_rela64 tgt (rd_rela b)).
Definition load32_arm : L Z := load elf32 false (fun tgt b => apply_rel_arm tgt (rd_rel b)).

Definition ove_loader_load : L Z :=
  if image_size <? ehdr_size elf32 then mret OVE_ERR_INVALID_PARAM else
  if negb (bool_decide (take 4 img = [127; 69; 76; 70])) then mret OVE_ERR_INVALID_PARAM else
  data ← olift (img !! EI_DATA);
  if negb (data =? ELFDATA2LSB) then mret OVE_ERR_NOT_SUPPORTED else
  modm (fun _ => zero_module);;
  class ← olift (img !! EI_CLASS);
  if class =? ELFCLASS64 then
    if image_size <? ehdr_size elf64 then mret OVE_ERR_INVALID_PARAM else load64
  else if class =? ELFCLASS32 then load32_arm
  else mret OVE_ERR_NOT_SUPPORTED.

(** ** Lookup *)

Definition mod_class (m : ove_module) : elf_class := if is_elf64 m then elf64 else elf32.

(** One symbol of the table: its address when it is exported under [nm]. *)
Definition try_sym (m : ove_module) (nm : list Z) (p i : Z) : option (option Z) :=
  let c := mod_class m in
  b ← bytes_at img (p + i * sym_size c) (sym_size c);
  let s := rd_sym c b in
  if (st_shndx s =? SHN_UNDEF) || (n_sections m <=? st_shndx s) then Some None else
  a ← sec_addr m !! Z.to_nat (st_shndx s);
  if a =? 0 then Some None else
  let bind := Z.shiftr (st_info s) 4 in
  if negb (bind =? STB_GLOBAL) && negb (bind =? STB_WEAK) then Some None else
  match sym_name m (st_name s) with
  | None => Some None
  | Some q => eq ← strcmp_eq nm q; Some (if (eq : bool) then Some (uptr (a + st_value s)) else None)
  end.

Fixpoint find_sym (m : ove_module) (nm : list Z) (p : Z) (l : list Z) : option (option Z) :=
  match l with
  | [] => Some None
  | i :: l => r ← try_sym m nm p i; match r with Some a => Some (Some a) | None => find_sym m nm p l end
  end.

(** [Some None] is NULL. *)
Definition ove_loader_sym (m : ove_module) (nm : list Z) : option (option Z) :=
  match symtab m, strtab m with
  | Some p, Some _ => find_sym m nm p (seqZ 0 (sym_count m))
  | _, _ => Some None
  end.

Definition ove_loader_image_size (m : ove_module) : Z := region_used m.

End loader.
(** ** Correctness *)

Lemma bytes_at_Some bs off n : 0 <= off -> 0 <= n -> off + n <= Z.of_nat (length bs) ->
  bytes_at bs off n = Some (take (Z.to_nat n) (drop (Z.to_nat off) bs)).
Proof. intros. unfold bytes_at. by rewrite !(proj2 (Z.leb_le _ _)) by lia. Qed.

Lemma put_at_Some bs off data : 0 <= off -> off + Z.of_nat (length data) <= Z.of_nat (length bs) ->
  put_at bs off data = Some (overwrite bs (Z.to_nat off) data).
Proof. intros. unfold put_at. by rewrite !(proj2 (Z.leb_le _ _)) by lia. Qed.

Lemma fld_range off n bs : Forall (is_word 8) bs -> 0 <= fld off n bs < 256 ^ Z.of_nat n.
Proof.
  intros H. unfold fld. pose proof (le_dec_range (take n (drop off bs)) ltac:(by apply Forall_take, Forall_drop)) as Hr.
  assert (256 ^ Z.of_nat (length (take n (drop off bs))) <= 256 ^ Z.of_nat n); [|lia].
  apply Z.pow_le_mono_r; [lia|]. rewrite length_take. lia.
Qed.

(** A loop keeps an invariant, or ends early with an error in [E]. *)
Definition or_else {St X} (E : Z -> St -> Prop) (I : X -> St -> Prop) (r : Z + X) (s : St) : Prop :=
  match r with inl e => E e s | inr x => I x s end.

Lemma wp_loop {St X} (f : Z -> X -> MO St (Z + X)) (E : Z -> St -> Prop) (I : Z -> X -> St -> Prop) n x s : 0 <= n ->
  (forall i x s, 0 <= i < n -> I i x s -> wp (f i x) (or_else E (I (i + 1))) s) ->
  I 0 x s -> wp (loop f (seqZ 0 n) x) (or_else E (I n)) s.
Proof.
  intros Hn Hf.
  assert (forall (m : nat) k x s, 0 <= k -> k + Z.of_nat m <= n -> I k x s ->
    wp (loop f (seqZ k (Z.of_nat m)) x) (or_else E (I (k + Z.of_nat m))) s) as H.
  { induction m as [|m IH]; intros k y t Hk Hm Ht; [by rewrite Z.add_0_r|].
    rewrite seqZ_cons by lia. cbn [loop]. apply wp_bind. eapply wp_mono; [apply Hf; [lia|exact Ht]|].
    intros [e|y'] t' H'; [done|]. replace (Z.pred (Z.of_nat (S m))) with (Z.of_nat m) by lia.
    replace (k + Z.of_nat (S m)) with (Z.succ k + Z.of_nat m) by lia. apply IH; [lia..|exact H']. }
  intros HI. specialize (H (Z.to_nat n) 0 x s). rewrite Z2Nat.id in H by done. apply H; [lia..|done].
Qed.

Section safety.
Context {MA : Machine} (img : list Z) (imports : list ove_loader_import).
Abbreviation uptr := (wrap PTR).
Abbreviation L := (MO ld).

Lemma wp_rd_img off n (Q : list Z -> ld -> Prop) s : 0 <= off -> 0 <= n -> off + n <= image_size img ->
  Q (take (Z.to_nat n) (drop (Z.to_nat off) img)) s -> wp (rd_img img off n) Q s.
Proof. intros ? ? ? HQ. eapply wp_lift; [by apply bytes_at_Some|done]. Qed.

Lemma wp_wr_mem p data (Q : unit -> ld -> Prop) s :
  0 <= p - reg_at -> p - reg_at + Z.of_nat (length data) <= Z.of_nat (length (reg s)) ->
  Q tt {| s with reg := overwrite (reg s) (Z.to_nat (p - reg_at)) data |} -> wp (wr_mem p data) Q s.
Proof.
  intros ? ? HQ. unfold wr_mem. apply wp_bind, wp_gets, wp_bind. eapply wp_lift; [by apply put_at_Some|].
  by apply wp_modify.
Qed.

Lemma wp_rd_mem p n (Q : list Z -> ld -> Prop) s :
  0 <= p - reg_at -> 0 <= n -> p - reg_at + n <= Z.of_nat (length (reg s)) ->
  Q (take (Z.to_nat n) (drop (Z.to_nat (p - reg_at)) (reg s))) s -> wp (rd_mem p n) Q s.
Proof. intros ? ? ? HQ. unfold rd_mem. apply wp_bind, wp_gets. eapply wp_lift; [by apply bytes_at_Some|done]. Qed.

Lemma wp_modm f (Q : unit -> ld -> Prop) s : Q tt {| s with md := f (md s) |} -> wp (modm f) Q s.
Proof. done. Qed.

(** ** The first pass *)

Definition known (c : elf_class) : Prop := c = elf64 \/ c = elf32.

Definition hdr (c : elf_class) (eh : Ehdr) (i : Z) : Shdr :=
  rd_shdr_bytes c (take (Z.to_nat (shdr_size c)) (drop (Z.to_nat (e_shoff eh + i * e_shentsize eh)) img)).

(** What [load] has checked of the ELF header. *)
Record headers_ok (c : elf_class) (eh : Ehdr) : Prop := {
  ho_entsize : e_shentsize eh = shdr_size c;
  ho_num : 0 <= e_shnum eh <= Z.of_nat OVE_LOADER_MAX_SECTIONS;
  ho_off : 0 <= e_shoff eh;
  ho_in : e_shoff eh + e_shnum eh * e_shentsize eh <= image_size img }.

(** The region is an object of the address space, not at address 0. *)
Definition region_ok (R : Z) : Prop := (PTR = 32 \/ PTR = 64) /\ 0 < reg_at /\ 0 <= R <= 2 ^ (PTR - 1) /\ reg_at + R <= 2 ^ PTR.

Record shdr_nonneg (sh : Shdr) : Prop := {
  sn_type : 0 <= sh_type sh; sn_off : 0 <= sh_offset sh; sn_size : 0 <= sh_size sh; sn_link : 0 <= sh_link sh;
  sn_info : 0 <= sh_info sh; sn_align : 0 <= sh_addralign sh }.

Context (Himg : Forall (is_word 8) img).

Lemma hdr_nonneg c eh i : known c -> shdr_nonneg (hdr c eh i).
Proof.
  intros Hc. unfold hdr.
  assert (Forall (is_word 8) (take (Z.to_nat (shdr_size c)) (drop (Z.to_nat (e_shoff eh + i * e_shentsize eh)) img))) as Hb
    by (by apply Forall_take, Forall_drop).
  destruct Hc as [-> | ->]; split; cbn -[fld]; apply fld_range; exact Hb.
Qed.

Lemma wp_rd_shdr c eh i (Q : Shdr -> ld -> Prop) s : known c -> headers_ok c eh -> 0 <= i < e_shnum eh ->
  Q (hdr c eh i) s -> wp (rd_shdr img c eh i) Q s.
Proof.
  intros Hc [He Hn Ho Hi] Hr HQ. unfold rd_shdr.
  assert (0 <= shdr_size c) by (destruct Hc as [-> | ->]; cbn; lia).
  apply wp_bind, wp_rd_img; [nia|done|rewrite He in *; nia|]. by apply wp_ret.
Qed.

Lemma ld_oob_false off size limit : ld_oob off size limit = false -> off + size <= limit.
Proof. unfold ld_oob. intros H. apply orb_false_iff in H as [H1%Z.ltb_ge H2%Z.ltb_ge]. lia. Qed.

(** *** Alignment *)

Lemma align_up_nonneg off a : 0 <= PTR -> 0 <= align_up off a.
Proof.
  intros Hp. unfold align_up. apply Z.ldiff_nonneg. left. apply wrap_range. done.
Qed.

Definition is_pow2 (a : Z) : Prop := a = 0 \/ exists k, 0 <= k < PTR /\ a = 2 ^ k.
Definition alignment (a : Z) : Z := if a =? 0 then 1 else a.

(** For a power of two, the first multiple from [off] on. *)
Lemma align_up_pow2 off a R : region_ok R -> 0 <= off <= R -> is_pow2 a ->
  off <= align_up off a < off + alignment a /\ align_up off a mod alignment a = 0.
Proof.
  intros (Hp & _ & HR & _) Ho Ha.
  assert (2 ^ PTR = 2 * 2 ^ (PTR - 1)) as H2 by (rewrite <- Z.pow_succ_r by lia; f_equal; lia).
  assert (exists k, 0 <= k < PTR /\ alignment a = 2 ^ k /\ (if a =? 0 then 1 else uptr a) = 2 ^ k) as (k & Hk & Hal & Hu).
  { unfold alignment. destruct Ha as [-> | (k & Hk & ->)]; [by exists 0; split; [lia|]|].
    exists k. assert (0 < 2 ^ k < 2 ^ PTR) by (split; [apply Z.pow_pos_nonneg|apply Z.pow_lt_mono_r]; lia).
    rewrite (proj2 (Z.eqb_neq (2 ^ k) 0)) by lia. rewrite wrap_small by (unfold is_word; lia). done. }
  unfold align_up. rewrite Hu, Hal. cbv zeta. clear Hu Hal Ha a.
  assert (0 < 2 ^ k) by (apply Z.pow_pos_nonneg; lia).
  assert (2 ^ k <= 2 ^ (PTR - 1)) by (apply Z.pow_le_mono_r; lia).
  rewrite !wrap_small by (unfold is_word; lia).
  replace (2 ^ k - 1) with (Z.ones k) by (by rewrite Z.ones_equiv). rewrite ldiff_ones by lia.
  rewrite Z_mod_mult. split; [|done]. dlia.
Qed.
End safety.

Section layout.
Context {MA : Machine} (img : list Z) (imports : list ove_loader_import) (Himg : Forall (is_word 8) img).
Abbreviation uptr := (wrap PTR).
Abbreviation L := (MO ld).
Abbreviation hdr := (hdr img).
Context (c : elf_class) (eh : Ehdr) (Hc : known c) (Heh : headers_ok img c eh).
Context (R : nat) (HR : region_ok (Z.of_nat R)).

(** The bytes of a loaded section. *)
Definition content (sh : Shdr) : list Z :=
  if sh_type sh =? SHT_NOBITS then replicate (Z.to_nat (sh_size sh)) 0
  else take (Z.to_nat (sh_size sh)) (drop (Z.to_nat (sh_offset sh)) img).

(** Section [j] is laid out at offset [o]. *)
Definition placed (s : ld) (j o : Z) : Prop :=
  sec_addr (md s) !! Z.to_nat j = Some (reg_at + o) /\ 0 <= o /\ o + sh_size (hdr c eh j) <= Z.of_nat R.

Definition alloc (j : Z) : Prop := 0 <= j < e_shnum eh /\ is_alloc (hdr c eh j) = true.

(** The alignments are powers of two, as ELF requires. *)
Definition aligned : Prop := forall j, alloc j -> is_pow2 (sh_addralign (hdr c eh j)).

Definition is_symtab (sh : Shdr) : Prop := exists j, 0 <= j < e_shnum eh /\ sh = hdr c eh j /\ sh_type sh = SHT_SYMTAB.
Definition is_strtab (st : Shdr) : Prop :=
  exists sh, is_symtab sh /\ sh_link sh < e_shnum eh /\ st = hdr c eh (sh_link sh).

(** After the first [i] sections, which end at [off]. *)
Record laid (i off : Z) (s : ld) : Prop := {
  la_len : length (reg s) = R;
  la_off : 0 <= off <= Z.of_nat R;
  la_secs : length (sec_addr (md s)) = OVE_LOADER_MAX_SECTIONS;
  la_n : n_sections (md s) = e_shnum eh;
  la_class : is_elf64 (md s) = (ehdr_size c =? 64);
  la_sym : forall p, symtab (md s) = Some p -> exists sh, is_symtab sh /\ p = sh_offset sh /\
    sym_count (md s) = u32 (sh_size sh / sym_size c) /\ p + sh_size sh <= image_size img;
  la_str : forall p, strtab (md s) = Some p -> exists st, is_strtab st /\ p = sh_offset st /\
    strtab_size (md s) = u32 (sh_size st) /\ p + sh_size st <= image_size img;
  la_null : forall j, 0 <= j < e_shnum eh -> (j < i -> ~ alloc j) -> sec_addr (md s) !! Z.to_nat j = Some 0;
  la_placed : forall j, alloc j -> j < i -> exists o, placed s j o /\
    (aligned -> o + sh_size (hdr c eh j) <= off /\ o mod alignment (sh_addralign (hdr c eh j)) = 0 /\
                take (Z.to_nat (sh_size (hdr c eh j))) (drop (Z.to_nat o) (reg s)) = content (hdr c eh j) /\
                forall k o', alloc k -> k < j -> placed s k o' -> o' + sh_size (hdr c eh k) <= o) }.

Lemma content_length sh : shdr_nonneg sh -> sh_type sh = SHT_NOBITS \/ sh_offset sh + sh_size sh <= image_size img ->
  length (content sh) = Z.to_nat (sh_size sh).
Proof.
  intros [] H. unfold content. destruct (Z.eqb_spec (sh_type sh) SHT_NOBITS); [apply length_replicate|].
  destruct H as [|H]; [done|]. unfold image_size in H. rewrite length_take, length_drop. lia.
Qed.

Lemma placed_fun s j o o' : placed s j o -> placed s j o' -> o = o'.
Proof. intros [H1 _] [H2 _]. rewrite H1 in H2. injection H2. lia. Qed.

(** The state after section [i] has been put at [o]. *)
Definition put_section (i o : Z) (s : ld) : ld :=
  let m := md s in
  mk_ld {| m with sec_addr := aset (sec_addr m) (Z.to_nat i) (reg_at + o) |}
        (overwrite (reg s) (Z.to_nat o) (content (hdr c eh i))).

Lemma placed_put i o s j o' : i <> j -> 0 <= i -> 0 <= j -> placed (put_section i o s) j o' <-> placed s j o'.
Proof. intros Hne Hi Hj. unfold placed, put_section. cbn. unfold aset. rewrite list_lookup_insert_ne by lia. done. Qed.

Lemma laid_place i off o s : laid i off s -> alloc i -> let sh := hdr c eh i in
  0 <= o -> o + sh_size sh <= Z.of_nat R ->
  (aligned -> off <= o /\ o mod alignment (sh_addralign sh) = 0) ->
  length (content sh) = Z.to_nat (sh_size sh) ->
  laid (i + 1) (o + sh_size sh) (put_section i o s).
Proof.
  intros [Hlen Hoff Hsec Hn Hcl Hsym Hstr Hnull Hpl] Hi sh Ho Hin Hal Hcon. pose proof Hi as [Hir _].
  pose proof (sn_size _ (hdr_nonneg img Himg c eh i Hc)) as Hsz. fold sh in Hsz.
  pose proof (ho_num _ _ _ Heh) as Hnum.
  assert (placed (put_section i o s) i o) as Hpi.
  { split; [|done]. cbn. unfold aset. apply list_lookup_insert_eq. rewrite Hsec. lia. }
  split; cbn [put_section md reg symtab sym_count strtab strtab_size n_sections is_elf64 sec_addr]; try done.
  - rewrite overwrite_length; [done|]. fold sh. rewrite Hcon. lia.
  - lia.
  - by rewrite length_aset.
  - intros j Hj Hnot. destruct (decide (j = i)) as [->|Hne]; [by destruct (Hnot ltac:(lia))|].
    unfold aset. rewrite list_lookup_insert_ne by lia. apply Hnull; [done|]. intros ?. apply Hnot. lia.
  - intros j Hj Hji. destruct (decide (j = i)) as [->|Hne].
    + exists o. split; [done|]. intros A. destruct (Hal A) as [Hle Hmod]. fold sh. split; [lia|]. split; [done|]. split.
      * rewrite <- Hcon. apply overwrite_same. rewrite Hcon. lia.
      * intros k o' Hk Hki Hp. destruct (Hpl k Hk Hki) as (o2 & Hp2 & H2). destruct (H2 A) as (H2o & _).
        destruct Hk as [Hk _]. apply placed_put in Hp; [|lia..]. rewrite (placed_fun _ _ _ _ Hp Hp2). lia.
    + destruct (Hpl j Hj ltac:(lia)) as (oj & Hpj & H). pose proof Hj as [Hjr _]. exists oj.
      split; [apply placed_put; [lia..|done]|]. intros A. destruct (Hal A) as [Hle _].
      destruct (H A) as (Hend & Hm & Hcj & Hord). split; [lia|]. split; [done|]. split.
      * rewrite <- Hcj. destruct Hpj as (_ & ? & ?). pose proof (sn_size _ (hdr_nonneg img Himg c eh j Hc)).
        apply overwrite_before; [lia|]. fold sh. rewrite Hcon. lia.
      * intros k o' Hk Hkj Hp. pose proof Hk as [Hkr _]. apply placed_put in Hp; [|lia..]. by apply Hord.
Qed.

Lemma laid_skip i off s s' : laid i off s -> 0 <= i -> ~ alloc i -> reg s' = reg s -> sec_addr (md s') = sec_addr (md s) ->
  n_sections (md s') = n_sections (md s) -> is_elf64 (md s') = is_elf64 (md s) ->
  (forall p, symtab (md s') = Some p -> exists sh, is_symtab sh /\ p = sh_offset sh /\
    sym_count (md s') = u32 (sh_size sh / sym_size c) /\ p + sh_size sh <= image_size img) ->
  (forall p, strtab (md s') = Some p -> exists st, is_strtab st /\ p = sh_offset st /\
    strtab_size (md s') = u32 (sh_size st) /\ p + sh_size st <= image_size img) ->
  laid (i + 1) off s'.
Proof.
  intros [Hlen Hoff Hsec Hn Hcl Hsym Hstr Hnull Hpl] Hi Hna Hr Hs Hn' Hc' Hsy Hst.
  assert (forall j, alloc j -> j < i + 1 -> j < i) as Hlt.
  { intros j Hj Hji. destruct (decide (j = i)) as [->|]; [done|lia]. }
  assert (forall j o, placed s' j o <-> placed s j o) as Hpp by (intros j o; unfold placed; by rewrite Hs).
  split; rewrite ?Hr, ?Hs, ?Hn', ?Hc'; try done.
  - intros j Hj Hnot. apply Hnull; [done|]. intros ?. apply Hnot. lia.
  - intros j Hj Hji. destruct (Hpl j Hj (Hlt j Hj Hji)) as (o & Hp & H). exists o. split; [by apply Hpp|].
    intros A. destruct (H A) as (? & ? & ? & Hord). split_and!; try done.
    intros k o' Hk Hkj Hp'. apply Hpp in Hp'. by apply Hord.
Qed.

Lemma lay_section_spec i off s : 0 <= i < e_shnum eh -> laid i off s ->
  wp (lay_section img c eh i off) (or_else (fun rc s' => rc <> OVE_OK /\ length (reg s') = R) (laid (i + 1))) s.
Proof.
  intros Hi Hl. pose proof Hl as [Hlen Hoff Hsec Hn Hcl Hsym Hstr Hnull Hpl]. pose proof HR as (Hptr & Hat & HRr & Hend).
  pose proof (hdr_nonneg img Himg c eh i Hc) as Hsn. pose proof (ho_num _ _ _ Heh) as Hnum.
  unfold lay_section. apply wp_bind, wp_rd_shdr; [done..|]. set (sh := hdr c eh i) in *. unfold region_size.
  apply wp_bind, wp_gets. rewrite Hlen. destruct (is_alloc sh) eqn:Hal.
  - set (o := align_up off (sh_addralign sh)). cbv zeta.
    destruct (ld_oob o (sh_size sh) (Z.of_nat R)) eqn:Hoob; [by apply wp_ret|]. apply ld_oob_false in Hoob.
    assert (0 <= o) as Ho by (apply align_up_nonneg; lia). assert (alloc i) as Hai by done.
    assert (aligned -> off <= o /\ o mod alignment (sh_addralign sh) = 0) as Halign.
    { intros A. destruct (align_up_pow2 off (sh_addralign sh) (Z.of_nat R)) as [[? _] ?]; [done|done|by apply A|done]. }
    assert (length (content sh) = Z.to_nat (sh_size sh) -> wp (wr_mem (reg_at + o) (content sh);; s0 ← ogets (fun s => sec_addr (md s)); l ← olift (ostore s0 (Z.to_nat i) (reg_at + o));
                  modm (fun m => {| m with sec_addr := l |});; mret (inr (uptr (o + sh_size sh))))
              (or_else (fun rc s' => rc <> OVE_OK /\ length (reg s') = R) (laid (i + 1))) s) as Hput.
    { intros Hcl'. apply wp_bind, wp_wr_mem; replace (reg_at + o - reg_at) with o by lia; [lia|rewrite Hcl'; destruct Hsn; lia|].
      apply wp_bind, wp_gets. apply wp_bind. eapply wp_lift; [unfold ostore; rewrite decide_True; [done|cbn; rewrite Hsec; lia]|].
      apply wp_bind, wp_modm, wp_ret. cbn [or_else].
      rewrite wrap_small. 2: unfold is_word; destruct Hsn; lia.
      apply (laid_place i off o s); try done. }
    destruct (Z.eqb_spec (sh_type sh) SHT_NOBITS) as [Hnb|Hnb].
    + replace (replicate (Z.to_nat (sh_size sh)) 0) with (content sh) by (unfold content; by rewrite Hnb).
      apply Hput, content_length; [done|by left].
    + destruct (ld_oob (sh_offset sh) _ _) eqn:Hoob2; [by apply wp_ret|]. apply ld_oob_false in Hoob2.
      apply wp_bind, wp_rd_img; [destruct Hsn; lia..|].
      replace (take _ (drop _ img)) with (content sh) by (unfold content; by rewrite (proj2 (Z.eqb_neq _ _) Hnb)).
      apply Hput, content_length; [done|by right].
  - assert (~ alloc i) as Hna by (intros [_ Ha]; fold sh in Ha; congruence).
    destruct (Z.eqb_spec (sh_type sh) SHT_SYMTAB) as [Hty|]; [|apply wp_ret; eapply laid_skip; try done; lia].
    destruct (negb _); [by apply wp_ret|]. destruct (ld_oob (sh_offset sh) _ _) eqn:Hoob; [by apply wp_ret|].
    apply ld_oob_false in Hoob. apply wp_bind, wp_modm. assert (is_symtab sh) as Hs by (by exists i).
    destruct (Z.ltb_spec (sh_link sh) (e_shnum eh)).
    + apply wp_bind, wp_rd_shdr; [done|done|destruct Hsn; lia|]. set (st := hdr c eh (sh_link sh)).
      destruct (ld_oob (sh_offset st) _ _) eqn:Hoob2; [by apply wp_ret|]. apply ld_oob_false in Hoob2.
      apply wp_bind, wp_modm, wp_ret. eapply laid_skip; try done; [lia|..].
      * intros p [= <-]. by exists sh.
      * intros p [= <-]. exists st. split; [by exists sh|]. done.
    + apply wp_ret. eapply laid_skip; try done; [lia|]. intros p [= <-]. by exists sh.
Qed.

Lemma lay_spec s : laid 0 0 s ->
  wp (loop (lay_section img c eh) (seqZ 0 (e_shnum eh)) 0)
    (or_else (fun rc s' => rc <> OVE_OK /\ length (reg s') = R) (laid (e_shnum eh))) s.
Proof.
  intros H. apply (wp_loop (lay_section img c eh) _ (fun i off s => laid i off s)); [apply Heh| |done].
  intros i off s' Hi Hs'. by apply lay_section_spec.
Qed.
End layout.

(** ** Veneers *)

Section veneers.
Context {MA : Machine}.
Abbreviation uptr := (wrap PTR).

(** The value of [n] bytes at an offset of the region. *)
Definition val_at (s : ld) (o : Z) (n : nat) : Z := le_dec (take n (drop (Z.to_nat o) (reg s))).

(** [ldr.w pc, [pc, #0]] and the target. *)
Definition veneer_at (s : ld) (o target : Z) : Prop :=
  val_at s o 2 = 63711 /\ val_at s (o + 2) 2 = 61440 /\ val_at s (o + 4) 4 = u32 target.

Lemma val_at_same (s : ld) p data : 0 <= p -> p + Z.of_nat (length data) <= Z.of_nat (length (reg s)) ->
  val_at {| s with reg := overwrite (reg s) (Z.to_nat p) data |} p (length data) = le_dec data.
Proof. intros. unfold val_at. cbn [reg]. rewrite overwrite_same; [done|lia]. Qed.

Lemma val_at_other (s : ld) p data o n : 0 <= p -> p + Z.of_nat (length data) <= Z.of_nat (length (reg s)) -> 0 <= o ->
  o + Z.of_nat n <= p \/ p + Z.of_nat (length data) <= o ->
  val_at {| s with reg := overwrite (reg s) (Z.to_nat p) data |} o n = val_at s o n.
Proof.
  intros Hp Hd Ho [H|H]; unfold val_at; cbn [reg]; f_equal; [apply overwrite_before|apply overwrite_after]; lia.
Qed.

(** A byte and its value. *)
Lemma lookup_val_at (s : ld) x : 0 <= x < Z.of_nat (length (reg s)) -> reg s !! Z.to_nat x = Some (val_at s x 1).
Proof.
  intros Hx. destruct (lookup_lt_is_Some_2 (reg s) (Z.to_nat x)) as [b Hb]; [lia|].
  unfold val_at. rewrite (drop_S _ _ _ Hb), Hb. cbn. by rewrite take_0, Z.add_0_r.
Qed.

Context (R : nat) (HR : region_ok (Z.of_nat R)).

Lemma wp_arm_veneer target s (Q : Z -> ld -> Prop) : 0 <= region_used (md s) <= Z.of_nat R -> length (reg s) = R ->
  Q 0 s ->
  (forall s' off, region_used (md s) <= off -> off mod 4 = 0 -> off + 8 <= Z.of_nat R ->
     md s' = (let m := md s in {| m with region_used := off + 8 |}) ->
     length (reg s') = R -> veneer_at s' off target ->
     (forall x n, 0 <= x -> x + Z.of_nat n <= off -> val_at s' x n = val_at s x n) -> Q (reg_at + off) s') ->
  wp (arm_veneer target) Q s.
Proof.
  intros Hu Hlen H0 HQ. destruct HR as (Hp & Hat & HRr & Hend). unfold arm_veneer. apply wp_bind, wp_gets.
  unfold region_size. apply wp_bind, wp_gets. rewrite Hlen. cbv zeta.
  assert (2 ^ PTR = 2 * 2 ^ (PTR - 1)) as H2 by (rewrite <- Z.pow_succ_r by lia; f_equal; lia).
  assert (16 <= 2 ^ (PTR - 1)) by (destruct Hp as [-> | ->]; by vm_compute).
  set (off := Z.ldiff (uptr (region_used (md s) + 3)) 3).
  assert (region_used (md s) <= off <= region_used (md s) + 3 /\ off mod 4 = 0) as [Hoff Hmod].
  { unfold off. rewrite wrap_small by (unfold is_word; lia). change (Z.ldiff ?x 3) with (Z.ldiff x (Z.ones 2)).
    rewrite ldiff_ones by lia. change (2 ^ 2) with 4. split; [dlia|apply Z_mod_mult]. }
  clearbody off. rewrite wrap_small by (unfold is_word; lia).
  destruct (Z.ltb_spec (Z.of_nat R) (off + 8)); [by apply wp_ret|].
  set (v1 := le_enc 2 63711). set (v2 := le_enc 2 61440). set (v3 := le_enc 4 (u32 target)).
  assert (length v1 = 2%nat /\ length v2 = 2%nat /\ length v3 = 4%nat) as (L1 & L2 & L3) by (split_and!; apply le_enc_length).
  set (s1 := {| s with reg := overwrite (reg s) (Z.to_nat off) v1 |}).
  set (s2 := {| s1 with reg := overwrite (reg s1) (Z.to_nat (off + 2)) v2 |}).
  set (s3 := {| s2 with reg := overwrite (reg s2) (Z.to_nat (off + 4)) v3 |}).
  assert (length (reg s1) = R) as Hl1 by (cbn [reg s1]; rewrite overwrite_length; lia).
  assert (length (reg s2) = R) as Hl2 by (cbn [reg s2]; rewrite overwrite_length; lia).
  assert (length (reg s3) = R) as Hl3 by (cbn [reg s3]; rewrite overwrite_length; lia).
  apply wp_bind, wp_wr_mem; [lia|lia|]. replace (reg_at + off - reg_at) with off by lia. fold s1.
  apply wp_bind, wp_wr_mem; [lia|rewrite Hl1; lia|]. replace (reg_at + off + 2 - reg_at) with (off + 2) by lia. fold s2.
  apply wp_bind, wp_wr_mem; [lia|rewrite Hl2; lia|]. replace (reg_at + off + 4 - reg_at) with (off + 4) by lia. fold s3.
  apply wp_bind, wp_modm, wp_ret. set (s4 := mk_ld _ _).
  assert (forall x n, val_at s4 x n = val_at s3 x n) as H4 by done.
  apply HQ; try done; try lia.
  - unfold veneer_at. rewrite !H4. split_and!.
    + unfold s3. rewrite val_at_other by lia. unfold s2. rewrite val_at_other by lia. unfold s1. rewrite <- L1. rewrite val_at_same by lia. done.
    + unfold s3. rewrite val_at_other by lia. unfold s2. rewrite <- L2. rewrite val_at_same by lia. done.
    + unfold s3. rewrite <- L3. rewrite val_at_same by lia. apply le_enc_dec. by apply (wrap_range 32).
  - intros x n Hx Hxo. rewrite H4. unfold s3. rewrite val_at_other by lia. unfold s2. rewrite val_at_other by lia.
    unfold s1. by rewrite val_at_other by lia.
Qed.
End veneers.

Section relocation.
Context {MA : Machine} (img : list Z) (imports : list ove_loader_import) (Himg : Forall (is_word 8) img).
Abbreviation uptr := (wrap PTR).
Abbreviation L := (MO ld).
Abbreviation hdr := (hdr img).
Context (c : elf_class) (eh : Ehdr) (Hc : known c) (Heh : headers_ok img c eh).
Context (R : nat) (HR : region_ok (Z.of_nat R)).
Abbreviation laid := (laid img c eh R).
Abbreviation placed := (placed img c eh R).
Abbreviation alloc := (alloc img c eh).

(** What the second pass needs of the first. *)
Record tables (m : ove_module) : Prop := {
  ta_secs : length (sec_addr m) = OVE_LOADER_MAX_SECTIONS;
  ta_n : n_sections m = e_shnum eh;
  ta_sym : exists sh, is_symtab img c eh sh /\ symtab m = Some (sh_offset sh) /\
    sym_count m = u32 (sh_size sh / sym_size c) /\ sh_offset sh + sh_size sh <= image_size img;
  ta_str : exists st, is_strtab img c eh st /\ strtab m = Some (sh_offset st) /\
    strtab_size m = u32 (sh_size st) /\ sh_offset st + sh_size st <= image_size img }.

Lemma laid_tables i off s : laid i off s -> symtab (md s) <> None -> strtab (md s) <> None -> tables (md s).
Proof.
  intros [_ _ Hsec Hn _ Hsym Hstr _ _] Hs Ht. split; [done|done|..].
  - destruct (symtab (md s)) as [p|]; [|done]. destruct (Hsym p eq_refl) as (sh & H & -> & ? & ?). by exists sh.
  - destruct (strtab (md s)) as [p|]; [|done]. destruct (Hstr p eq_refl) as (sh & H & -> & ? & ?). by exists sh.
Qed.

(** Import names are C strings, and string tables end with a NUL. *)
Definition imports_ok : Prop := forall i nm, i ∈ imports -> name i = Some nm -> Forall (fun b => b <> 0) nm.
Definition terminated : Prop := forall st, is_strtab img c eh st -> 0 < u32 (sh_size st) ->
  img !! Z.to_nat (sh_offset st + u32 (sh_size st) - 1) = Some 0.
Context (Himp : imports_ok) (Hterm : terminated).

Lemma strcmp_total nm p e : Forall (fun b => b <> 0) nm -> 0 <= p <= e -> img !! Z.to_nat e = Some 0 ->
  is_Some (strcmp_eq img nm p).
Proof.
  intros Hnm. revert p. induction Hnm as [|b nm Hb _ IH]; intros p Hp He.
  - destruct (lookup_lt_is_Some_2 img (Z.to_nat p)) as [x Hx]; [apply lookup_lt_Some in He; lia|].
    cbn. rewrite Hx. cbn. eauto.
  - destruct (lookup_lt_is_Some_2 img (Z.to_nat p)) as [x Hx]; [apply lookup_lt_Some in He; lia|].
    cbn. rewrite Hx. cbn. destruct (Z.eqb_spec x b) as [->|]; [|eauto].
    apply IH; [|done]. destruct (decide (p = e)) as [->|]; [|lia]. rewrite Hx in He. by injection He as ->.
Qed.

Lemma find_import_total l p e : (forall i, i ∈ l -> i ∈ imports) -> 0 <= p <= e -> img !! Z.to_nat e = Some 0 ->
  is_Some (find_import img l p).
Proof.
  intros Hl Hp He. induction l as [|i l IH]; cbn; [eauto|].
  assert (is_Some (find_import img l p)) as Hr by (apply IH; intros j Hj; apply Hl; by right).
  destruct (name i) as [nm|] eqn:Hn; [|done].
  destruct (strcmp_total nm p e) as [b Hb]; [eapply Himp; [|exact Hn]; apply Hl; left|done|done|].
  rewrite Hb. cbn. destruct b; [eauto|done].
Qed.

Lemma resolve_total s shndx value st_nm : tables (md s) -> 0 <= shndx -> 0 <= st_nm ->
  wp (resolve img imports shndx value st_nm) (fun _ s' => s' = s) s.
Proof.
  intros [Hsec Hn _ (st & Hist & Hp & Hsz & Hin)] Hsh Hnm. unfold resolve. apply wp_bind, wp_gets.
  destruct (shndx =? SHN_UNDEF).
  - unfold sym_name. destruct (Z.leb_spec (strtab_size (md s)) st_nm) as [|Hlt]; [by apply wp_ret|].
    rewrite Hp. cbn. rewrite Hsz in Hlt.
    destruct (find_import_total imports (sh_offset st + st_nm) (sh_offset st + u32 (sh_size st) - 1)) as [r Hr];
      [done| |apply Hterm; [done|lia]|].
    { destruct Hist as (sh & _ & _ & ->). destruct (hdr_nonneg img Himg c eh (sh_link sh) Hc). lia. }
    apply wp_bind. eapply wp_lift; [exact Hr|]. by apply wp_ret.
  - destruct (shndx =? SHN_ABS); [by apply wp_ret|]. destruct (Z.ltb_spec shndx (n_sections (md s))) as [Hlt|]; [|by apply wp_ret].
    rewrite Hn in Hlt. pose proof (ho_num _ _ _ Heh).
    destruct (lookup_lt_is_Some_2 (sec_addr (md s)) (Z.to_nat shndx)) as [a Ha]; [rewrite Hsec; lia|].
    apply wp_bind. eapply wp_lift; [exact Ha|]. by apply wp_ret.
Qed.

Lemma sym_nonneg bs : Forall (is_word 8) bs -> 0 <= st_shndx (rd_sym c bs) /\ 0 <= st_name (rd_sym c bs).
Proof. intros Hb. destruct Hc as [-> | ->]; split; cbn -[fld]; apply fld_range; exact Hb. Qed.

(** Symbol [idx] of the symbol table. *)
Lemma rd_symbol_total s idx (Q : Sym -> ld -> Prop) : tables (md s) -> 0 <= idx < sym_count (md s) ->
  (forall sym, 0 <= st_shndx sym -> 0 <= st_name sym -> Q sym s) -> wp (rd_symbol img c idx) Q s.
Proof.
  intros [_ _ (sh & (j & Hj & -> & _) & Hp & Hcnt & Hin) _] Hi HQ. unfold rd_symbol. apply wp_bind, wp_gets, wp_bind.
  eapply wp_lift; [exact Hp|]. destruct (hdr_nonneg img Himg c eh j Hc) as [_ Ho Hs _ _ _].
  assert (0 < sym_size c) by (destruct Hc as [-> | ->]; cbn; lia).
  assert (sym_count (md s) <= sh_size (hdr c eh j) / sym_size c).
  { rewrite Hcnt. apply Z.mod_le; [|done]. apply Z.div_pos; lia. }
  assert (sh_size (hdr c eh j) / sym_size c * sym_size c <= sh_size (hdr c eh j)) by (rewrite Z.mul_comm; apply Z.mul_div_le; lia).
  apply wp_bind, wp_rd_img; [nia|lia|nia|]. apply wp_ret. apply HQ; apply sym_nonneg; by apply Forall_take, Forall_drop.
Qed.

(** *** The effect of a relocation on the field of [w] bytes at offset [o] *)

Record patched (o w : Z) (s s' : ld) : Prop := {
  pt_md : exists u, region_used (md s) <= u <= Z.of_nat R /\ md s' = (let m := md s in {| m with region_used := u |});
  pt_len : length (reg s') = length (reg s);
  pt_mem : forall x, 0 <= x < region_used (md s) -> ~ (o <= x < o + w) -> reg s' !! Z.to_nat x = reg s !! Z.to_nat x }.

Lemma patched_refl o w s : region_used (md s) <= Z.of_nat R -> patched o w s s.
Proof. intros H. split; try done. exists (region_used (md s)). split; [lia|]. by destruct (md s). Qed.

Lemma overwrite_lookup {A} (l : list A) o d x : (o + length d <= length l)%nat -> (x < o \/ o + length d <= x)%nat ->
  overwrite l o d !! x = l !! x.
Proof.
  intros Hl [Hx|Hx]; unfold overwrite.
  - rewrite lookup_app_l by (rewrite length_take; lia). by rewrite lookup_take_lt.
  - rewrite !lookup_app_r by (rewrite ?length_take; lia). rewrite lookup_drop, length_take. f_equal. lia.
Qed.

(** Writing inside the field. *)
Lemma patched_write o w p data s s' : patched o w s s' -> 0 <= o -> o <= p -> p + Z.of_nat (length data) <= o + w ->
  o + w <= Z.of_nat (length (reg s)) ->
  patched o w s {| s' with reg := overwrite (reg s') (Z.to_nat p) data |}.
Proof.
  intros [Hm Hl Hx] Ho Hp Hd Hw. split; [done|..]; cbn [reg].
  - rewrite overwrite_length; [done|]. rewrite Hl. lia.
  - intros x Hxr Hxo. rewrite <- Hx by done. apply overwrite_lookup; [rewrite Hl; lia|lia].
Qed.

Lemma wp_patch p data o w s s' (Q : unit -> ld -> Prop) : patched o w s s' -> 0 <= o -> o + w <= Z.of_nat (length (reg s)) ->
  o <= p - reg_at -> p - reg_at + Z.of_nat (length data) <= o + w ->
  (forall s'', patched o w s s'' -> Q tt s'') -> wp (wr_mem p data) Q s'.
Proof.
  intros Hp Ho Hw Hpo Hd HQ. apply wp_wr_mem; [lia|rewrite (pt_len _ _ _ _ Hp); lia|].
  apply HQ. by eapply patched_write.
Qed.

(** *** x86-64 *)

Definition width64 (type : Z) : Z :=
  if type =? R_X86_64_64 then 8
  else if (type =? R_X86_64_PC32) || (type =? R_X86_64_PLT32) || (type =? R_X86_64_32) || (type =? R_X86_64_32S) then 4 else 0.

Definition rela_type (r : Elf64_Rela) : Z := Z.land (ra_info r) 4294967295.

Lemma loc_offset o off w : 0 <= o -> 0 <= off -> 0 < w -> o + off + w <= Z.of_nat R -> uptr (reg_at + o + off) - reg_at = o + off.
Proof.
  intros. destruct HR as (Hp & ? & ? & ?). rewrite wrap_small; [lia|]. unfold is_word. lia.
Qed.

Lemma apply_rela64_spec tgt rela o s : c = elf64 -> tables (md s) -> region_used (md s) <= Z.of_nat R -> length (reg s) = R ->
  placed s tgt o -> 0 <= ra_offset rela -> 0 <= ra_info rela ->
  ra_offset rela + width64 (rela_type rela) <= sh_size (hdr c eh tgt) ->
  wp (apply_rela64 img imports tgt rela) (fun _ s' => patched (o + ra_offset rela) (width64 (rela_type rela)) s s') s.
Proof.
  intros Hce Ht Hu Hlen (Hsec & Ho & Hin) Hoff Hinfo Hw. unfold apply_rela64. apply wp_bind, wp_gets.
  fold (rela_type rela). set (ty := rela_type rela) in *.
  pose proof (patched_refl (o + ra_offset rela) (width64 ty) s Hu) as Hrefl.
  destruct (Z.leb_spec (sym_count (md s)) (Z.shiftr (ra_info rela) 32)); [by apply wp_ret|].
  apply wp_bind. rewrite <- Hce. apply rd_symbol_total; [done|split; [by apply Z.shiftr_nonneg|done]|]. intros sym Hsh Hnm.
  apply wp_bind. eapply wp_mono; [by apply resolve_total|]. intros [rc|sv] s' ->; [by apply wp_ret|].
  apply wp_bind. eapply wp_lift; [exact Hsec|].
  assert (forall data rc, 0 < width64 ty -> Z.of_nat (length data) = width64 ty ->
    wp (wr_mem (uptr (reg_at + o + ra_offset rela)) data;; mret rc)
      (fun (_ : Z) s' => patched (o + ra_offset rela) (width64 ty) s s') s) as Hwr.
  { intros data rc Hw0 Hd. apply wp_bind. eapply wp_patch; [exact Hrefl|lia|rewrite Hlen; lia|..];
      rewrite ?(loc_offset o _ (width64 ty)); try lia. intros s'' Hs''. by apply wp_ret. }
  cbv zeta.
  destruct (Z.eqb_spec ty R_X86_64_NONE); [by apply wp_ret|].
  destruct (Z.eqb_spec ty R_X86_64_64) as [He|]; [apply Hwr; rewrite ?le_enc_length; unfold width64; match goal with H : ty = _ |- _ => by rewrite H end|].
  destruct (Z.eqb_spec ty R_X86_64_PC32), (Z.eqb_spec ty R_X86_64_PLT32); cbn [orb] in *; try (apply Hwr; rewrite ?le_enc_length; unfold width64; match goal with H : ty = _ |- _ => by rewrite H end).
  destruct (Z.eqb_spec ty R_X86_64_32), (Z.eqb_spec ty R_X86_64_32S); cbn [orb] in *; try (apply Hwr; rewrite ?le_enc_length; unfold width64; match goal with H : ty = _ |- _ => by rewrite H end).
  by apply wp_ret.
Qed.

(** *** ARM *)

Lemma arm_veneer_spec target o w s : 0 <= region_used (md s) <= Z.of_nat R -> length (reg s) = R ->
  wp (arm_veneer target) (fun _ s' => patched o w s s') s.
Proof.
  intros Hu Hlen. apply (wp_arm_veneer R); [done|done|done|apply patched_refl; lia|].
  intros s' off Hoff _ Hin Hm Hl' _ Hsame. split; [exists (off + 8); split; [lia|done]|congruence|].
  intros x Hx _. rewrite !lookup_val_at by lia. f_equal. apply Hsame; lia.
Qed.

Lemma apply_thumb_spec sv loc o s : 0 <= region_used (md s) <= Z.of_nat R -> length (reg s) = R ->
  0 <= o -> o + 4 <= Z.of_nat R -> loc - reg_at = o ->
  wp (apply_thumb sv loc) (fun _ s' => patched o 4 s s') s.
Proof.
  intros Hu Hlen Ho Hin Hloc. unfold apply_thumb.
  apply wp_bind, wp_rd_mem; [lia|lia|rewrite Hlen; lia|]. apply wp_bind, wp_rd_mem; [lia|lia|rewrite Hlen; lia|]. cbv zeta.
  set (hw1 := le_dec _). set (hw2 := le_dec _).
  assert (forall want s', patched o 4 s s' ->
    wp (let '(h1, h2) := thumb_patch hw1 hw2 want in wr_mem loc (le_enc 2 h1);; wr_mem (loc + 2) (le_enc 2 h2);; mret OVE_OK)
      (fun _ s' => patched o 4 s s') s') as Hpatch.
  { intros want s' Hs'. destruct (thumb_patch hw1 hw2 want) as [h1 h2].
    apply wp_bind. eapply wp_patch; [exact Hs'|lia|rewrite Hlen; lia|lia|rewrite le_enc_length; lia|]. intros s1 H1.
    apply wp_bind. eapply wp_patch; [exact H1|lia|rewrite Hlen; lia|lia|rewrite le_enc_length; lia|]. intros s2 H2. by apply wp_ret. }
  destruct (in_reach _); [apply Hpatch, patched_refl; lia|].
  apply wp_bind. eapply wp_mono; [by apply (arm_veneer_spec sv o 4)|]. intros v s' Hs'. cbv beta in Hs'.
  destruct (v =? 0); [by apply wp_ret|]. by apply Hpatch.
Qed.

Lemma apply_rel_arm_spec tgt rel o s : c = elf32 -> tables (md s) -> 0 <= region_used (md s) <= Z.of_nat R -> length (reg s) = R ->
  placed s tgt o -> 0 <= r_offset rel -> 0 <= r_info rel -> r_offset rel + 4 <= sh_size (hdr c eh tgt) ->
  wp (apply_rel_arm img imports tgt rel) (fun _ s' => patched (o + r_offset rel) 4 s s') s.
Proof.
  intros Hce Ht Hu Hlen (Hsec & Ho & Hin) Hoff Hinfo Hw. unfold apply_rel_arm. apply wp_bind, wp_gets. cbv zeta.
  set (ty := Z.land _ 255). pose proof (patched_refl (o + r_offset rel) 4 s ltac:(lia)) as Hrefl.
  destruct (Z.leb_spec (sym_count (md s)) (Z.shiftr (r_info rel) 8)); [by apply wp_ret|].
  apply wp_bind. rewrite <- Hce. apply rd_symbol_total; [done|split; [by apply Z.shiftr_nonneg|done]|]. intros sym Hsh Hnm.
  apply wp_bind. eapply wp_mono; [by apply resolve_total|]. intros [rc|sv] s' ->; [by apply wp_ret|].
  apply wp_bind. eapply wp_lift; [exact Hsec|]. pose proof (loc_offset o (r_offset rel) 4 ltac:(lia) ltac:(lia) ltac:(lia) ltac:(lia)) as Hloc.
  apply wp_bind, wp_rd_mem; rewrite ?Hloc; [lia|lia|rewrite Hlen; lia|]. set (A := le_dec _).
  assert (forall v, wp (wr_mem (uptr (reg_at + o + r_offset rel)) (le_enc 4 v);; mret OVE_OK)
      (fun _ s' => patched (o + r_offset rel) 4 s s') s) as Hwr.
  { intros v. apply wp_bind. eapply wp_patch; [exact Hrefl|lia|rewrite Hlen; lia|..]; rewrite ?Hloc, ?le_enc_length; try lia.
    intros s'' Hs''. by apply wp_ret. }
  destruct (ty =? R_ARM_NONE); [by apply wp_ret|]. destruct (_ || _); [apply Hwr|].
  destruct (_ =? _); [apply Hwr|]. destruct (_ =? _); [apply Hwr|]. destruct (_ || _); [|by apply wp_ret].
  by apply apply_thumb_spec; try lia.
Qed.
End relocation.

Section whole.
Context {MA : Machine} (img : list Z) (imports : list ove_loader_import) (Himg : Forall (is_word 8) img).
Abbreviation L := (MO ld).
Abbreviation hdr := (hdr img).

Section pass2.
Context (c : elf_class) (eh : Ehdr) (Hc : known c) (Heh : headers_ok img c eh).
Context (R : nat) (HR : region_ok (Z.of_nat R)).
Abbreviation laid := (laid img c eh R).
Abbreviation placed := (placed img c eh R).
Abbreviation alloc := (alloc img c eh).

(** Offset and width of the field that a relocation record patches. *)
Definition field (b : list Z) : Z * Z :=
  if ehdr_size c =? 64 then (ra_offset (rd_rela b), width64 (rela_type (rd_rela b))) else (r_offset (rd_rel b), 4).

Definition rel_bytes (i r : Z) : list Z :=
  take (Z.to_nat (rel_size c)) (drop (Z.to_nat (sh_offset (hdr c eh i) + r * rel_size c)) img).

(** Record [r] of section [i] patches section [tgt]. *)
Definition relocates (i r tgt : Z) : Prop :=
  0 <= i < e_shnum eh /\ sh_type (hdr c eh i) = rel_type c /\ tgt = sh_info (hdr c eh i) /\ alloc tgt /\
  0 <= r < sh_size (hdr c eh i) / rel_size c.

(** The fields lie inside their sections. *)
Definition relocs_ok : Prop := forall i r tgt, relocates i r tgt ->
  (field (rel_bytes i r)).1 + (field (rel_bytes i r)).2 <= sh_size (hdr c eh tgt).

Definition touched (s : ld) (x : Z) : Prop := exists i r tgt o, relocates i r tgt /\ placed s tgt o /\
  o + (field (rel_bytes i r)).1 <= x < o + (field (rel_bytes i r)).1 + (field (rel_bytes i r)).2.

Context (apply : Z -> list Z -> L Z) (Hrel : relocs_ok).

(** What a relocation function owes. *)
Definition apply_ok : Prop := forall tgt b o s, Forall (is_word 8) b -> tables img c eh (md s) ->
  0 <= region_used (md s) <= Z.of_nat R -> length (reg s) = R -> placed s tgt o ->
  (field b).1 + (field b).2 <= sh_size (hdr c eh tgt) ->
  wp (apply tgt b) (fun _ s' => patched R (o + (field b).1) (field b).2 s s') s.
Context (Happly : apply_ok).

(** The state [s] after some relocations from [s0]. *)
Record moved (s0 s : ld) : Prop := {
  mv_md : exists u, region_used (md s0) <= u <= Z.of_nat R /\ md s = (let m := md s0 in {| m with region_used := u |});
  mv_len : length (reg s) = R;
  mv_mem : forall x, 0 <= x < region_used (md s0) -> ~ touched s0 x -> reg s !! Z.to_nat x = reg s0 !! Z.to_nat x }.

Lemma moved_patched s0 s s' o w : moved s0 s -> patched R o w s s' ->
  (forall x, o <= x < o + w -> touched s0 x) -> moved s0 s'.
Proof.
  intros [(u & Hu & Hm) Hl Hx] [(u' & Hu' & Hm') Hl' Hx'] Ht. rewrite Hm in Hu', Hm', Hx'. cbn [region_used] in Hu', Hx'. split.
  - exists u'. split; [lia|]. by rewrite Hm'.
  - congruence.
  - intros x Hxr Hnt. rewrite Hx'; [by apply Hx|lia|]. intros Hin. by apply Hnt, Ht.
Qed.

Lemma rel_sizes : 0 < rel_size c /\ 0 < sym_size c.
Proof. destruct Hc as [-> | ->]; by split. Qed.

Lemma reloc_section_spec off s0 i s : laid (e_shnum eh) off s0 -> tables img c eh (md s0) -> 0 <= region_used (md s0) ->
  moved s0 s -> 0 <= i < e_shnum eh ->
  wp (reloc_section img c apply eh i tt) (or_else (fun rc s => rc <> OVE_OK /\ moved s0 s) (fun _ => moved s0)) s.
Proof.
  intros Hl Ht Hu Hmv Hi. unfold reloc_section. apply wp_bind, wp_rd_shdr; [done..|].
  pose proof (hdr_nonneg img Himg c eh i Hc) as [_ Hso Hss _ Hsi _]. destruct rel_sizes as [Hrs _].
  destruct (Z.eqb_spec (sh_type (hdr c eh i)) (rel_type c)) as [Hty|]; cbn [negb]; [|by apply wp_ret].
  cbv zeta. set (tgt := sh_info (hdr c eh i)) in *. destruct (Z.leb_spec (e_shnum eh) tgt); [by apply wp_ret|].
  apply wp_bind, wp_gets, wp_bind. pose proof (mv_md _ _ Hmv) as (u & Hur & Hm).
  assert (sec_addr (md s) = sec_addr (md s0)) as Hsec by (by rewrite Hm).
  assert (exists base, sec_addr (md s) !! Z.to_nat tgt = Some base /\ (base <> 0 -> alloc tgt /\ exists o, placed s0 tgt o)) as (base & Hb & Hal).
  { rewrite Hsec. destruct (is_alloc (hdr c eh tgt)) eqn:Ha.
    - destruct (la_placed _ _ _ _ _ _ _ Hl tgt ltac:(done) ltac:(lia)) as (o & Hp & _). exists (reg_at + o).
      split; [apply Hp|]. intros _. split; [done|]. by exists o.
    - exists 0. split; [|done]. apply (la_null _ _ _ _ _ _ _ Hl); [lia|]. intros _ [_ ?]. congruence. }
  eapply wp_lift; [exact Hb|]. destruct (Z.eqb_spec base 0) as [|Hne]; [by apply wp_ret|].
  destruct (Hal Hne) as [Halt [o Hp]]. destruct (negb _); [by apply wp_ret|].
  destruct (ld_oob _ _ _) eqn:Hoob; [by apply wp_ret|]. apply ld_oob_false in Hoob.
  assert (sh_size (hdr c eh i) / rel_size c * rel_size c <= sh_size (hdr c eh i)) by (rewrite Z.mul_comm; apply Z.mul_div_le; lia).
  apply (wp_loop _ _ (fun _ _ s => moved s0 s)); [by apply Z.div_pos|clear s Hmv u Hur Hm Hsec Hb|done].
  intros r [] s Hr Hmv. apply wp_bind, wp_rd_img; [nia|lia|nia|]. fold (rel_bytes i r). apply wp_bind.
  assert (relocates i r tgt) as Hrl by done. pose proof (mv_md _ _ Hmv) as (u & Hur & Hm).
  assert (Forall (is_word 8) (rel_bytes i r)) as Hby by (by apply Forall_take, Forall_drop).
  eapply wp_mono; [apply (Happly tgt (rel_bytes i r) o)|].
  - done.
  - rewrite Hm. by destruct Ht; split.
  - rewrite Hm. cbn. lia.
  - apply Hmv.
  - by destruct Hp as (? & ? & ?); split; [rewrite Hm|].
  - by apply Hrel.
  - intros rc s' Hpt. cbv beta in Hpt. assert (moved s0 s') as Hmv'.
    { eapply moved_patched; [exact Hmv|exact Hpt|]. intros x Hx. by exists i, r, tgt, o. }
    apply wp_ret. by destruct (Z.eqb_spec rc OVE_OK).
Qed.
End pass2.

(** ** The theorems *)

Definition image_ok : Prop := forall c, known c ->
  let eh := rd_ehdr c (take (Z.to_nat (ehdr_size c)) (drop (Z.to_nat 0) img)) in
  headers_ok img c eh -> terminated img c eh /\ relocs_ok c eh.

(** A loaded module: section [j] is at an offset [o] of the region.  If the
    alignments are powers of two, [o] is aligned, the sections follow each
    other without overlap inside the used part of the region, and each byte
    that no relocation patches is the byte of the image (or zero). *)
Record loaded (c : elf_class) (eh : Ehdr) (s : ld) : Prop := {
  ld_class : is_elf64 (md s) = (ehdr_size c =? 64);
  ld_tables : tables img c eh (md s);
  ld_used : 0 <= region_used (md s) <= Z.of_nat (length (reg s));
  ld_null : forall j, 0 <= j < e_shnum eh -> ~ alloc img c eh j -> sec_addr (md s) !! Z.to_nat j = Some 0;
  ld_placed : forall j, alloc img c eh j -> exists o, placed img c eh (length (reg s)) s j o /\
    (aligned img c eh ->
       o mod alignment (sh_addralign (hdr c eh j)) = 0 /\ o + sh_size (hdr c eh j) <= region_used (md s) /\
       (forall k o', alloc img c eh k -> k < j -> placed img c eh (length (reg s)) s k o' -> o' + sh_size (hdr c eh k) <= o) /\
       forall x, 0 <= x < sh_size (hdr c eh j) -> ~ touched c eh (length (reg s)) s (o + x) ->
         reg s !! Z.to_nat (o + x) = content img (hdr c eh j) !! Z.to_nat x) }.

Lemma laid_loaded c eh R off s0 s : laid img c eh R (e_shnum eh) off s0 -> tables img c eh (md s0) ->
  region_used (md s0) = off -> moved c eh R s0 s -> loaded c eh s.
Proof.
  intros Hl Ht Hu [(u & Hur & Hm) Hlen Hx]. destruct Hl as [_ Ho _ _ Hcl _ _ Hnull Hpl].
  assert (forall j o, placed img c eh R s j o <-> placed img c eh R s0 j o) as Hpp by (intros j o; unfold placed; by rewrite Hm).
  split; rewrite ?Hlen.
  - by rewrite Hm.
  - rewrite Hm. by destruct Ht; split.
  - rewrite Hm. cbn. lia.
  - intros j Hj Hna. rewrite Hm. by apply Hnull.
  - intros j Hj. destruct (Hpl j Hj (proj2 (proj1 Hj))) as (o & Hp & H). exists o. split; [by apply Hpp|].
    intros A. destruct (H A) as (Hend & Hmod & Hc & Hord). split; [done|]. split; [rewrite Hm; cbn; lia|]. split.
    + intros k o' Hk Hkj Hp'. apply Hpp in Hp'. by apply Hord.
    + intros x Hxr Hnt. destruct Hp as (_ & Ho0 & _). rewrite Hx; [|lia|].
      * rewrite <- Hc, lookup_take_lt, lookup_drop by lia. f_equal. lia.
      * intros (i & r & tgt & o2 & Hrl & Hp2 & Hin). apply Hnt. exists i, r, tgt, o2. split; [done|]. split; [by apply Hpp|done].
Qed.

Lemma zero_laid c eh R reg0 : known c -> headers_ok img c eh -> length reg0 = R ->
  laid img c eh R 0 0 (mk_ld (mk_mod 0 (e_shnum eh) (replicate OVE_LOADER_MAX_SECTIONS 0) None 0 None 0 (ehdr_size c =? 64)) reg0).
Proof.
  intros Hc Heh HR. split; cbn -[replicate]; try done; try lia.
  - intros j Hj _. pose proof (ho_num _ _ _ Heh). apply lookup_replicate. lia.
  - intros j [? _] ?. lia.
Qed.

Lemma load_spec c is64 apply reg0 : known c -> is64 = (ehdr_size c =? 64) -> ehdr_size c <= image_size img ->
  region_ok (Z.of_nat (length reg0)) -> image_ok ->
  (forall eh, headers_ok img c eh -> terminated img c eh -> apply_ok c eh (length reg0) apply) ->
  wp (load img c is64 apply) (fun rc s' => length (reg s') = length reg0 /\ (rc = OVE_OK -> exists eh, headers_ok img c eh /\ loaded c eh s'))
    (mk_ld zero_module reg0).
Proof.
  intros Hc -> Hsz HR Hok Happ. unfold load. apply wp_bind, wp_rd_img; [lia|destruct Hc as [-> | ->]; cbn; lia|lia|].
  cbv zeta. set (eh := rd_ehdr c _).
  assert (Forall (is_word 8) (take (Z.to_nat (ehdr_size c)) (drop (Z.to_nat 0) img))) as Hb by (by apply Forall_take, Forall_drop).
  assert (0 <= e_shoff eh /\ 0 <= e_shnum eh) as [Hoff Hnum].
  { destruct Hc as [-> | ->]; split; cbn -[fld]; apply fld_range; exact Hb. }
  destruct (_ || _); [by apply wp_ret|]. destruct (_ || _) eqn:Hent; [by apply wp_ret|].
  apply orb_false_iff in Hent as [Hent%negb_false_iff%Z.eqb_eq Hn0%Z.eqb_neq].
  destruct (Z.ltb_spec (Z.of_nat OVE_LOADER_MAX_SECTIONS) (e_shnum eh)); [by apply wp_ret|].
  destruct (ld_oob _ _ _) eqn:Hoob; [by apply wp_ret|]. apply ld_oob_false in Hoob.
  assert (headers_ok img c eh) as Heh by done. destruct (Hok c Hc Heh) as [Hterm Hrel].
  apply wp_bind, wp_modm, wp_bind. eapply wp_mono; [apply lay_spec; try done; by apply zero_laid|].
  intros [rc|off] s1 H1; cbn in H1; [apply wp_ret; tauto|].
  apply wp_bind, wp_modm, wp_bind, wp_gets.
  destruct (bool_decide _ || bool_decide _) eqn:Hnull; [apply wp_ret; split; [apply H1|done]|].
  apply orb_false_iff in Hnull as [Hsn%bool_decide_eq_false Htn%bool_decide_eq_false].
  set (s2 := mk_ld _ _). assert (laid img c eh (length reg0) (e_shnum eh) off s2) as Hl2 by (by destruct H1; split).
  assert (tables img c eh (md s2)) as Ht2 by (by eapply laid_tables). pose proof (la_off _ _ _ _ _ _ _ Hl2) as Hoff2.
  apply wp_bind. eapply wp_mono; [apply (wp_loop _ (fun rc s => rc <> OVE_OK /\ moved c eh (length reg0) s2 s) (fun _ _ s => moved c eh (length reg0) s2 s))|].
  - lia.
  - intros i [] s Hi Hs. eapply reloc_section_spec; try done; [by apply Happ|cbn; lia].
  - split; [exists off; cbn; split; [lia|done]|apply Hl2|done].
  - intros [rc|[]] s Hs; apply wp_ret; cbn in Hs.
    + destruct Hs as [? Hs]. split; [apply Hs|done].
    + split; [apply Hs|]. intros _. exists eh. split; [done|]. by eapply (laid_loaded c eh (length reg0) off s2).
Qed.

Lemma apply_ok64 eh R : headers_ok img elf64 eh -> terminated img elf64 eh -> region_ok (Z.of_nat R) -> imports_ok imports ->
  apply_ok elf64 eh R (fun tgt b => apply_rela64 img imports tgt (rd_rela b)).
Proof.
  intros Heh Ht HR Hi tgt b o s Hb Htab Hu Hl Hp Hf. cbn -[rd_rela width64] in *.
  apply (apply_rela64_spec img imports Himg elf64 eh); try done; [by left|lia|..]; cbn -[fld]; by apply fld_range.
Qed.

Lemma apply_ok32 eh R : headers_ok img elf32 eh -> terminated img elf32 eh -> region_ok (Z.of_nat R) -> imports_ok imports ->
  apply_ok elf32 eh R (fun tgt b => apply_rel_arm img imports tgt (rd_rel b)).
Proof.
  intros Heh Ht HR Hi tgt b o s Hb Htab Hu Hl Hp Hf. cbn -[rd_rel] in *.
  apply (apply_rel_arm_spec img imports Himg elf32 eh); try done; [by right|..]; cbn -[fld]; by apply fld_range.
Qed.

(** C24. The first pass is safe for every image, however it was crafted: once
    [load] has accepted the ELF header, laying out the sections reads only
    the image and writes only the region, and ends with an error code or with
    every loadable section inside the region and the symbol and string tables
    inside the image; with alignments that are powers of two, the sections
    are aligned, in order and disjoint and hold their bytes of the image, or
    zeros. *)
Theorem loader_layout_safe c eh reg0 : known c -> headers_ok img c eh -> region_ok (Z.of_nat (length reg0)) ->
  wp (loop (lay_section img c eh) (seqZ 0 (e_shnum eh)) 0)
    (or_else (fun rc s' => rc <> OVE_OK /\ length (reg s') = length reg0) (laid img c eh (length reg0) (e_shnum eh)))
    (mk_ld (mk_mod 0 (e_shnum eh) (replicate OVE_LOADER_MAX_SECTIONS 0) None 0 None 0 (ehdr_size c =? 64)) reg0).
Proof. intros Hc Heh HR. apply lay_spec; try done. by apply zero_laid. Qed.

(** C6. Loading is memory safe and puts the module where it says: on an image
    whose string tables are terminated and whose relocations stay inside
    their sections (32- or 64-bit, any other content), [ove_loader_load]
    returns without an access outside the image or the region; on success
    every loadable section lies in the region, aligned, after the previous
    one and inside the used part, every byte of it that no relocation patches
    is the byte of the image (or zero), and the module's tables are those of
    the image. *)
Theorem loader_load_correct m0 reg0 : region_ok (Z.of_nat (length reg0)) -> imports_ok imports -> image_ok ->
  wp (ove_loader_load img imports) (fun rc s' => length (reg s') = length reg0 /\
    (rc = OVE_OK -> exists c eh, known c /\ headers_ok img c eh /\ loaded c eh s')) (mk_ld m0 reg0).
Proof.
  intros HR Hi Hok. unfold ove_loader_load.
  destruct (Z.ltb_spec (image_size img) (ehdr_size elf32)) as [|Hsz]; [by apply wp_ret|]. unfold image_size in Hsz. cbn in Hsz.
  destruct (negb _); [by apply wp_ret|].
  destruct (lookup_lt_is_Some_2 img EI_DATA) as [d Hd]; [unfold EI_DATA; lia|]. apply wp_bind. eapply wp_lift; [exact Hd|].
  destruct (negb _); [by apply wp_ret|]. apply wp_bind, wp_modm.
  destruct (lookup_lt_is_Some_2 img EI_CLASS) as [k Hk]; [unfold EI_CLASS; lia|]. apply wp_bind. eapply wp_lift; [exact Hk|].
  assert (forall (m : L Z) c, known c -> wp m (fun rc s' => length (reg s') = length reg0 /\
      (rc = OVE_OK -> exists eh, headers_ok img c eh /\ loaded c eh s')) (mk_ld zero_module reg0) ->
    wp m (fun rc s' => length (reg s') = length reg0 /\
      (rc = OVE_OK -> exists c eh, known c /\ headers_ok img c eh /\ loaded c eh s')) (mk_ld zero_module reg0)) as Hw.
  { intros m c Hc Hm. eapply wp_mono; [exact Hm|]. intros rc s' [? H]. split; [done|]. intros Hrc. destruct (H Hrc) as (eh & ? & ?).
    by exists c, eh. }
  destruct (k =? ELFCLASS64).
  - destruct (Z.ltb_spec (image_size img) (ehdr_size elf64)); [by apply wp_ret|].
    apply (Hw _ elf64); [by left|]. apply load_spec; try done; [by left|]. intros eh Heh Ht. by apply apply_ok64.
  - destruct (k =? ELFCLASS32); [|by apply wp_ret].
    apply (Hw _ elf32); [by right|]. apply load_spec; try done; [by right|]. intros eh Heh Ht. by apply apply_ok32.
Qed.
End whole.

Section lookup.
Context {MA : Machine} (img : list Z) (Himg : Forall (is_word 8) img).
Abbreviation uptr := (wrap PTR).
Abbreviation hdr := (hdr img).

(** The string [nm] is at offset [p] of the image. *)
Definition string_at (p : Z) (nm : list Z) : Prop := take (S (length nm)) (drop (Z.to_nat p) img) = nm ++ [0].

Lemma strcmp_eq_spec nm p b : 0 <= p -> Forall (fun x => x <> 0) nm -> strcmp_eq img nm p = Some b -> (b = true <-> string_at p nm).
Proof.
  intros Hp Hnm. revert p Hp b. induction Hnm as [|c nm Hc _ IH]; intros p Hp b H; cbn in H;
    apply bind_Some in H as (x & Hx & H); unfold string_at; rewrite (drop_S _ _ _ Hx); cbn [length take app].
  - injection H as <-. rewrite Z.eqb_eq. destruct (drop _ img); cbn; split; [by intros ->|by intros [= ->]|by intros ->|by intros [= ->]].
  - destruct (Z.eqb_spec x c) as [->|Hne].
    + rewrite (IH (p + 1) ltac:(lia) b H). unfold string_at. replace (Z.to_nat (p + 1)) with (S (Z.to_nat p)) by lia.
      split; [by intros ->|by intros [= ?]].
    + injection H as <-. split; [done|]. by intros [= ? _].
Qed.

(** Symbol [i] of the table exports [nm] at address [a]. *)
Definition exports (m : ove_module) (i : Z) (nm : list Z) (a : Z) : Prop :=
  exists p st base, symtab m = Some p /\ strtab m = Some st /\
  let c := mod_class m in
  let sym := rd_sym c (take (Z.to_nat (sym_size c)) (drop (Z.to_nat (p + i * sym_size c)) img)) in
  st_shndx sym <> SHN_UNDEF /\ st_shndx sym < n_sections m /\
  sec_addr m !! Z.to_nat (st_shndx sym) = Some base /\ base <> 0 /\
  (Z.shiftr (st_info sym) 4 = STB_GLOBAL \/ Z.shiftr (st_info sym) 4 = STB_WEAK) /\
  st_name sym < strtab_size m /\ string_at (st + st_name sym) nm /\ a = uptr (base + st_value sym).

Section module.
Context (c : elf_class) (eh : Ehdr) (Hc : known c) (Heh : headers_ok img c eh) (Hterm : terminated img c eh).
Context (m : ove_module) (Hm : tables img c eh m) (Hcl : is_elf64 m = (ehdr_size c =? 64)).
Context (nm : list Z) (Hnm : Forall (fun x => x <> 0) nm).

Lemma mod_class_known : mod_class m = c.
Proof. unfold mod_class. rewrite Hcl. by destruct Hc as [-> | ->]. Qed.

Lemma try_sym_spec p i : symtab m = Some p -> 0 <= i < sym_count m ->
  exists r, try_sym img m nm p i = Some r /\ forall a, r = Some a <-> exports m i nm a.
Proof.
  intros Hp Hi. unfold try_sym. rewrite mod_class_known. destruct Hm as [Hsec Hn (sh & (j & Hj & -> & _) & Hp' & Hcnt & Hin) (st & Hist & Hst & Hsz & Hsin)].
  rewrite Hp in Hp'. injection Hp' as ->. destruct (hdr_nonneg img Himg c eh j Hc) as [_ Ho Hs _ _ _].
  assert (0 < sym_size c) by (destruct Hc as [-> | ->]; cbn; lia).
  assert (sym_count m <= sh_size (hdr c eh j) / sym_size c) by (rewrite Hcnt; apply Z.mod_le; [apply Z.div_pos|]; lia).
  assert (sh_size (hdr c eh j) / sym_size c * sym_size c <= sh_size (hdr c eh j)) by (rewrite Z.mul_comm; apply Z.mul_div_le; lia).
  rewrite bytes_at_Some by (unfold image_size in Hin; nia). cbn [mbind option_bind].
  set (b := take _ (drop _ img)). assert (Forall (is_word 8) b) as Hb by (by apply Forall_take, Forall_drop).
  destruct (sym_nonneg img c eh Hc Heh b Hb) as [Hsh0 Hnm0]. set (sym := rd_sym c b) in *.
  assert (forall a, exports m i nm a <-> exists base,
    st_shndx sym <> SHN_UNDEF /\ st_shndx sym < n_sections m /\ sec_addr m !! Z.to_nat (st_shndx sym) = Some base /\ base <> 0 /\
    (Z.shiftr (st_info sym) 4 = STB_GLOBAL \/ Z.shiftr (st_info sym) 4 = STB_WEAK) /\
    st_name sym < strtab_size m /\ string_at (sh_offset st + st_name sym) nm /\ a = uptr (base + st_value sym)) as Hex.
  { intros a. unfold exports. rewrite Hp, Hst, mod_class_known. split.
    - intros (p0 & st0 & base & [= <-] & [= <-] & H'). by exists base.
    - intros (base & H'). by exists (sh_offset (hdr c eh j)), (sh_offset st), base. }
  clearbody sym. clear b Hb.
  destruct (Z.eqb_spec (st_shndx sym) SHN_UNDEF) as [He|He]; cbn [orb].
  { exists None. split; [done|]. intros a. rewrite Hex. split; [done|]. by intros (base & ? & _). }
  destruct (Z.leb_spec (n_sections m) (st_shndx sym)) as [Hle|Hle].
  { exists None. split; [done|]. intros a. rewrite Hex. split; [done|]. intros (base & _ & ? & _). lia. }
  destruct (lookup_lt_is_Some_2 (sec_addr m) (Z.to_nat (st_shndx sym))) as [base Hbase].
  { rewrite Hsec. pose proof (ho_num _ _ _ Heh). rewrite Hn in Hle. lia. }
  rewrite Hbase. cbn [mbind option_bind].
  destruct (Z.eqb_spec base 0) as [Hb0|Hb0].
  { exists None. split; [done|]. intros a. rewrite Hex. split; [done|]. intros (b2 & _ & _ & Hb2 & Hne & _). rewrite Hbase in Hb2. by injection Hb2 as <-. }
  destruct (negb _ && negb _) eqn:Hbind.
  { exists None. split; [done|]. intros a. rewrite Hex. split; [done|]. intros (b2 & _ & _ & _ & _ & Hg & _).
    apply andb_true_iff in Hbind as [Hb1%negb_true_iff%Z.eqb_neq Hb2%negb_true_iff%Z.eqb_neq]. tauto. }
  assert (Z.shiftr (st_info sym) 4 = STB_GLOBAL \/ Z.shiftr (st_info sym) 4 = STB_WEAK) as Hg.
  { apply andb_false_iff in Hbind as [Hb1%negb_false_iff%Z.eqb_eq|Hb1%negb_false_iff%Z.eqb_eq]; tauto. }
  unfold sym_name. destruct (Z.leb_spec (strtab_size m) (st_name sym)) as [Hsn|Hsn].
  { exists None. split; [done|]. intros a. rewrite Hex. split; [done|]. intros (b2 & _ & _ & _ & _ & _ & ? & _). lia. }
  rewrite Hst. cbn [fmap option_fmap option_map].
  assert (0 <= sh_offset st) as Hst0 by (destruct Hist as (sh & _ & _ & ->); apply (hdr_nonneg img Himg c eh (sh_link sh) Hc)).
  pose proof Hsn as Hsn'. rewrite Hsz in Hsn'.
  destruct (strcmp_total img nm (sh_offset st + st_name sym) (sh_offset st + u32 (sh_size st) - 1)) as [eq Heq];
    [done|lia|apply Hterm; [done|lia]|].
  rewrite Heq. cbn [mbind option_bind]. pose proof (strcmp_eq_spec nm (sh_offset st + st_name sym) eq ltac:(lia) Hnm Heq) as Hstr.
  exists (if eq then Some (uptr (base + st_value sym)) else None). split; [done|]. intros a. rewrite Hex. split.
  - intros H'. destruct eq; [|done]. injection H' as <-. exists base. by split_and!; try done; apply Hstr.
  - intros (b2 & _ & _ & Hb2 & _ & _ & _ & Hat & ->). rewrite Hbase in Hb2. injection Hb2 as <-. apply Hstr in Hat as ->. done.
Qed.

(** Lookup is exact: [ove_loader_sym] returns the address of the first
    symbol of the table that is defined in a loaded section, global or weak
    and has the name, and NULL exactly when there is none; it reads only the
    image. *)
Theorem loader_sym_first : exists r, ove_loader_sym img m nm = Some r /\
  match r with
  | Some a => exists i, 0 <= i < sym_count m /\ exports m i nm a /\ forall k a', 0 <= k < i -> ~ exports m k nm a'
  | None => forall i a, 0 <= i < sym_count m -> ~ exports m i nm a
  end.
Proof.
  destruct (ta_sym _ _ _ _ Hm) as (sh & _ & Hp & _). destruct (ta_str _ _ _ _ Hm) as (st & _ & Hst & _).
  unfold ove_loader_sym. rewrite Hp, Hst.
  assert (forall (n : nat) k, 0 <= k -> k + Z.of_nat n = sym_count m -> (forall i a, 0 <= i < k -> ~ exports m i nm a) ->
    exists r, find_sym img m nm (sh_offset sh) (seqZ k (Z.of_nat n)) = Some r /\
    match r with
    | Some a => exists i, 0 <= i < sym_count m /\ exports m i nm a /\ forall k a', 0 <= k < i -> ~ exports m k nm a'
    | None => forall i a, 0 <= i < sym_count m -> ~ exports m i nm a
    end) as H.
  { induction n as [|n IH]; intros k Hk Hn Hno; [exists None; split; [done|]; intros i a Hi; apply Hno; lia|].
    rewrite seqZ_cons by lia. cbn [find_sym]. destruct (try_sym_spec (sh_offset sh) k Hp ltac:(lia)) as (r & -> & Hr).
    cbn [mbind option_bind]. destruct r as [a|].
    - exists (Some a). split; [done|]. exists k. split; [lia|]. split; [by apply Hr|]. intros j a' Hj. by apply Hno.
    - replace (Z.pred (Z.of_nat (S n))) with (Z.of_nat n) by lia. apply IH; [lia|lia|]. intros i a Hi Hex.
      destruct (decide (i = k)) as [->|]; [by apply Hr in Hex|]. apply (Hno i a); [lia|done]. }
  destruct (decide (0 <= sym_count m)).
  - specialize (H (Z.to_nat (sym_count m)) 0). rewrite Z2Nat.id in H by lia. apply H; [lia|lia|intros; lia].
  - exists None. rewrite seqZ_nil by lia. split; [done|]. intros; lia.
Qed.
End module.
End lookup.

End Loader.

(** ** Instances *)

Module LoaderDemo.
Import Loader.

Global Instance host : Machine := {| PTR := 64; reg_at := 4096 |}.

Definition shdr64 (type flags off size link info align entsize : Z) : list Z :=
  le_enc 4 0 ++ le_enc 4 type ++ le_enc 8 flags ++ le_enc 8 0 ++ le_enc 8 off ++ le_enc 8 size ++
  le_enc 4 link ++ le_enc 4 info ++ le_enc 8 align ++ le_enc 8 entsize.
Definition sym64 (name info shndx value : Z) : list Z :=
  le_enc 4 name ++ [info; 0] ++ le_enc 2 shndx ++ le_enc 8 value ++ le_enc 8 0.
Definition rela64 (off sym type addend : Z) : list Z := le_enc 8 off ++ le_enc 8 (sym * 2 ^ 32 + type) ++ le_enc 8 addend.

(** A text section that calls the import [puts] from offset [off] and exports
    [run] at offset 4; [align] is its alignment and [str] the string
    table. *)
Definition object (off align : Z) (str : list Z) : list Z :=
  [127; 69; 76; 70; 2; 1; 1; 0; 0; 0; 0; 0; 0; 0; 0; 0] ++ le_enc 2 1 ++ le_enc 2 62 ++ le_enc 4 1 ++ le_enc 8 0 ++ le_enc 8 0 ++
  le_enc 8 182 ++ le_enc 4 0 ++ le_enc 2 64 ++ le_enc 2 0 ++ le_enc 2 0 ++ le_enc 2 64 ++ le_enc 2 5 ++ le_enc 2 0 ++
  [1; 2; 3; 4; 5; 6; 7; 8; 9; 10; 11; 12] ++
  sym64 0 0 0 0 ++ sym64 1 16 0 0 ++ sym64 6 16 1 4 ++ str ++ rela64 off 1 2 (-4) ++
  shdr64 0 0 0 0 0 0 0 0 ++ shdr64 1 2 64 12 0 0 align 0 ++ shdr64 2 0 76 72 3 0 8 24 ++ shdr64 3 0 148 10 0 0 1 0 ++
  shdr64 4 0 158 24 2 1 8 24.

(** NUL, puts, NUL, run, NUL. *)
Definition strings : list Z := [0; 112; 117; 116; 115; 0; 114; 117; 110; 0].
Definition good : list Z := object 2 4 strings.
Definition puts : list ove_loader_import := [mk_import (Some [112; 117; 116; 115]) 8192].
Definition run : list Z := [114; 117; 110].

Definition start (n : nat) : ld := mk_ld zero_module (replicate n 0).
Definition final : ld := match ove_loader_load good puts (start 16) with Some (_, s) => s | None => start 0 end.

(** The call is patched with 8192 - 4 - 4098 = 4090, and [run] is found. *)
Example good_run :
  fst <$> ove_loader_load good puts (start 16) = Some OVE_OK /\
  reg final = [1; 2; 250; 15; 0; 0; 7; 8; 9; 10; 11; 12; 0; 0; 0; 0] /\
  ove_loader_sym good (md final) run = Some (Some 4100).
Proof. by vm_compute. Qed.

(** A missing import and a small region are refused. *)
Example refusals :
  fst <$> ove_loader_load good [] (start 16) = Some OVE_ERR_NOT_FOUND /\
  fst <$> ove_loader_load good puts (start 11) = Some OVE_ERR_NO_MEMORY.
Proof. by vm_compute. Qed.

(** The offset of a relocation is not checked: the patch lands outside the
    region. *)
Example wild_relocation : ove_loader_load (object 4000 4 strings) puts (start 16) = None.
Proof. by vm_compute. Qed.

(** An alignment that is not a power of two moves the end of the layout
    backwards. *)
Example bad_alignment : align_up 12 (2 ^ 64 - 1) = 0.
Proof. by vm_compute. Qed.

Lemma good_header : headers_ok good elf64 (Elf64_Ehdr (take 64 good)).
Proof. split; vm_compute; try split; try discriminate; reflexivity. Defined.

Lemma good_bytes : Forall (is_word 8) good.
Proof.
  apply (Forall_impl (fun b => ((0 <=? b) && (b <? 256) : bool))).
  - apply forallb_True. by vm_compute.
  - intros b Hb%Is_true_true. apply andb_true_iff in Hb as [H0%Z.leb_le H1%Z.ltb_lt]. split; [exact H0|exact H1].
Defined.

Lemma good_ok : image_ok good.
Proof.
  intros c [-> | ->] eh Heh.
  - assert (e_shnum eh = 5) as Hn by (by vm_compute). split.
    + intros st (sh & (j & Hj & -> & Hty) & _ & ->) _. rewrite Hn in Hj.
      assert (j = 0 \/ j = 1 \/ j = 2 \/ j = 3 \/ j = 4) as Hc by lia.
      destruct Hc as [-> | [-> | [-> | [-> | ->]]]]; vm_compute in Hty; try discriminate. by vm_compute.
    + intros i r tgt (Hi & Hty & -> & _ & Hr). rewrite Hn in Hi.
      assert (i = 0 \/ i = 1 \/ i = 2 \/ i = 3 \/ i = 4) as Hc by lia.
      destruct Hc as [-> | [-> | [-> | [-> | ->]]]]; vm_compute in Hty; try discriminate.
      assert (r = 0) as -> by (vm_compute in Hr; destruct Hr, r; [done|by destruct p|done]). vm_compute. discriminate.
  - destruct Heh as [Hent _ _ _]. vm_compute in Hent. discriminate.
Defined.

Lemma good_imports : imports_ok puts.
Proof.
  intros i nm Hi Hn. apply list_elem_of_singleton in Hi as ->. injection Hn as <-. repeat constructor; discriminate.
Defined.

Lemma loader_load_correct_witness :
  wp (ove_loader_load good puts) (fun rc s' => length (reg s') = 16%nat /\
    (rc = OVE_OK -> exists c eh, known c /\ headers_ok good c eh /\ loaded good c eh s')) (start 16).
Proof.
  apply (loader_load_correct good puts good_bytes zero_module (replicate 16 0)).
  - split; [right; reflexivity|]. split; [reflexivity|]. split; [split; vm_compute; discriminate|vm_compute; discriminate].
  - exact good_imports.
  - exact good_ok.
Defined.

Lemma loader_layout_safe_witness :
  wp (loop (lay_section good elf64 (Elf64_Ehdr (take 64 good))) (seqZ 0 5) 0)
    (or_else (fun rc s' => rc <> OVE_OK /\ length (reg s') = 16%nat) (laid good elf64 (Elf64_Ehdr (take 64 good)) 16 5))
    (mk_ld (mk_mod 0 5 (replicate 32 0) None 0 None 0 true) (replicate 16 0)).
Proof.
  apply (loader_layout_safe good good_bytes elf64 (Elf64_Ehdr (take 64 good)) (replicate 16 0)).
  - left. reflexivity.
  - exact good_header.
  - split; [right; reflexivity|]. split; [reflexivity|]. split; [split; vm_compute; discriminate|vm_compute; discriminate].
Defined.

Lemma final_tables : tables good elf64 (Elf64_Ehdr (take 64 good)) (md final).
Proof.
  split; [by vm_compute|by vm_compute|exists (hdr good elf64 (Elf64_Ehdr (take 64 good)) 2)|exists (hdr good elf64 (Elf64_Ehdr (take 64 good)) 3)].
  - split; [exists 2; split; [split; vm_compute; [discriminate|reflexivity]|by vm_compute]|]. split; [by vm_compute|]. split; [by vm_compute|].
    vm_compute. discriminate.
  - split; [exists (hdr good elf64 (Elf64_Ehdr (take 64 good)) 2)|].
    + split; [exists 2; split; [split; vm_compute; [discriminate|reflexivity]|by vm_compute]|]. split; by vm_compute.
    + split; [by vm_compute|]. split; [by vm_compute|]. vm_compute. discriminate.
Defined.

Lemma loader_sym_first_witness : exists r, ove_loader_sym good (md final) run = Some r.
Proof.
  destruct (loader_sym_first good good_bytes elf64 (Elf64_Ehdr (take 64 good)) (or_introl eq_refl) good_header
    (proj1 (good_ok elf64 (or_introl eq_refl) good_header)) (md final) final_tables eq_refl run) as (r & Hr & _).
  - repeat constructor; discriminate.
  - exists r. exact Hr.
Defined.

End LoaderDemo.
