(* ===== verification/LoaderReloc.v ===== *)
(** * What relocations compute (loader/ove_loader.c)

    The Thumb-2 branch encoding, the veneers, and the value every data
    relocation stores. *)

From S2P Require Import Prelude Bits Loader.

Module LoaderReloc.
Import Loader.

(** ** Thumb-2 branches *)

(** The halfwords of a branch with displacement [want], bit by bit. *)
Lemma thumb_patch_bits hw1 hw2 want i : 0 <= i ->
  Z.testbit (thumb_patch hw1 hw2 want).1 i =
    (i <? 16) && (Z.testbit hw1 i && negb (i <? 11) || (i =? 10) && Z.testbit want 24 || (i <? 10) && Z.testbit want (i + 12)) /\
  Z.testbit (thumb_patch hw1 hw2 want).2 i =
    (i <? 16) && (Z.testbit hw2 i && negb ((i <? 12) || (i =? 13)) ||
      (i =? 13) && xorb (negb (Z.testbit want 23)) (Z.testbit want 24) ||
      (i =? 11) && xorb (negb (Z.testbit want 22)) (Z.testbit want 24) || (i <? 11) && Z.testbit want (i + 1)).
Proof.
  intros Hi. unfold thumb_patch. cbv zeta. cbn [fst snd]. rewrite !bit_of by lia.
  assert (forall a b, Z.land (Z.lxor (Z.lxor (Z.b2z a) 1) (Z.b2z b)) 1 = Z.b2z (xorb (negb a) b)) as Hj by (by intros [] []).
  rewrite !Hj.
  change 2047 with (Z.ones 11). change 1023 with (Z.ones 10).
  change 12287 with (Z.lor (Z.ones 12) (Z.shiftl (Z.b2z true) 13)).
  rewrite !wrap_testbit, !Z.lor_spec, !Z.ldiff_spec, !Z.lor_spec, !b2z_shiftl_testbit, !land_ones_testbit, !Z.shiftr_spec,
    !Z.testbit_ones_nonneg, !wrap_testbit by lia. cbn [andb].
  destruct (Z.ltb_spec i 16); [|done]. cbn [andb].
  rewrite !(proj2 (Z.ltb_lt _ 32)) by lia. by rewrite !andb_true_l, ?andb_true_r.
Qed.

(** The 25 bits of the displacement that a pair of halfwords encodes. *)
Definition branch_bits (hw1 hw2 : Z) (i : Z) : bool :=
  (i =? 24) && Z.testbit hw1 10 ||
  (i =? 23) && negb (xorb (Z.testbit hw2 13) (Z.testbit hw1 10)) ||
  (i =? 22) && negb (xorb (Z.testbit hw2 11) (Z.testbit hw1 10)) ||
  (12 <=? i) && (i <? 22) && Z.testbit hw1 (i - 12) || (1 <=? i) && (i <? 12) && Z.testbit hw2 (i - 1).

Lemma thumb_addend_bits hw1 hw2 i : 0 <= i ->
  Z.testbit (thumb_addend hw1 hw2) i = branch_bits hw1 hw2 (Z.min i 24).
Proof.
  intros Hi. unfold thumb_addend. cbv zeta. rewrite !bit_of, !lxor_b2z, !lnot_b2z_1 by lia.
  change 2047 with (Z.ones 11). change 1023 with (Z.ones 10).
  set (raw := Z.lor _ _).
  assert (forall k, 0 <= k -> Z.testbit raw k = (k <? 25) && branch_bits hw1 hw2 k) as Hraw.
  { intros k Hk. unfold raw, branch_bits. rewrite !Z.lor_spec, !b2z_shiftl_testbit by done.
    rewrite !(Z.shiftl_spec (Z.land _ _)), !land_ones_testbit by lia.
    zcmp; rewrite ?(Z.testbit_neg_r hw1), ?(Z.testbit_neg_r hw2) by lia; by rewrite ?orb_false_r, ?andb_false_r. }
  assert (forall z, Z.testbit (swrap 32 z) i = Z.testbit z (Z.min i 31)) as Hs by (intros z; apply (swrap_testbit 32); lia).
  assert (Z.land raw 16777216 = 0 <-> Z.testbit raw 24 = false) as Hsign.
  { change 16777216 with (2 ^ 24). destruct (Z.testbit raw 24) eqn:Hb; split; try done.
    - intros H. assert (Z.testbit (Z.land raw (2 ^ 24)) 24 = true) by (by rewrite Z.land_spec, Hb, Z.pow2_bits_true).
      by rewrite H, Z.testbit_0_l in H0.
    - intros _. apply Z.bits_inj'. intros j Hj. rewrite Z.land_spec, Z.testbit_0_l.
      destruct (decide (j = 24)) as [->|]; [by rewrite Hb|]. by rewrite Z.pow2_bits_false, andb_false_r by done. }
  rewrite Hraw in Hsign by lia. destruct (Z.eqb_spec (Z.land raw 16777216) 0) as [Hz|Hz]; cbn [negb].
  - rewrite Hs, Hraw by lia. apply Hsign in Hz. cbn [Z.ltb Z.compare Pos.compare Pos.compare_cont andb] in Hz.
    destruct (Z.le_gt_cases i 24).
    + rewrite !Z.min_l by lia. by rewrite (proj2 (Z.ltb_lt _ _)) by lia.
    + rewrite (Z.min_r i 24), Hz by lia. by rewrite (proj2 (Z.ltb_ge _ _)) by lia.
  - assert (branch_bits hw1 hw2 24 = true) as Hb by (destruct (branch_bits hw1 hw2 24) eqn:?; [done|by destruct Hz; apply Hsign]).
    change 4261412864 with (Z.shiftl (Z.ones 7) 25).
    rewrite Hs, Z.lor_spec, Hraw, Z.shiftl_spec, Z.testbit_ones by lia.
    destruct (Z.le_gt_cases i 24).
    + rewrite !Z.min_l by lia. rewrite (proj2 (Z.ltb_lt _ 25)) by lia. rewrite (proj2 (Z.leb_gt 0 _)) by lia.
      by rewrite orb_false_r.
    + rewrite (Z.min_r i 24), Hb by lia. rewrite (proj2 (Z.leb_le 0 _)), (proj2 (Z.ltb_lt _ 7)) by lia. apply orb_true_r.
Qed.

(** Patching then decoding gives the displacement back, and the opcode bits
    (0xf800 and 0xd000) are those of the instruction. *)
Lemma thumb_roundtrip hw1 hw2 want : Z.testbit want 0 = false -> -16777216 <= want < 16777216 ->
  thumb_addend (thumb_patch hw1 hw2 want).1 (thumb_patch hw1 hw2 want).2 = want.
Proof.
  intros Hodd Hr. apply Z.bits_inj'. intros i Hi. rewrite thumb_addend_bits by done.
  assert (Z.testbit want i = Z.testbit want (Z.min i 24)) as ->.
  { destruct (Z.le_gt_cases i 24); [by rewrite Z.min_l|]. rewrite Z.min_r by lia.
    rewrite !(sign_testbit 24) by lia. done. }
  set (j := Z.min i 24). assert (0 <= j <= 24) as Hj by lia. clearbody j. clear i Hi.
  pose proof (fun k Hk => proj1 (thumb_patch_bits hw1 hw2 want k Hk)) as H1.
  pose proof (fun k Hk => proj2 (thumb_patch_bits hw1 hw2 want k Hk)) as H2.
  unfold branch_bits. rewrite (H1 10), (H2 13), (H2 11) by lia.
  change (10 <? 16) with true. change (13 <? 16) with true. change (11 <? 16) with true.
  destruct (decide (22 <= j)).
  { assert (j = 24 \/ j = 23 \/ j = 22) as [-> | [-> | ->]] by lia; cbn -[Z.testbit];
      repeat match goal with |- context [Z.testbit ?x ?k] => destruct (Z.testbit x k) end; done. }
  rewrite !(proj2 (Z.eqb_neq _ _)) by lia. cbn [andb orb].
  destruct (decide (12 <= j)).
  - rewrite (H1 (j - 12)) by lia. zcmp. rewrite ?andb_false_r, ?andb_true_r, orb_false_r. cbn [orb]. f_equal. lia.
  - destruct (decide (j = 0)) as [->|]; [done|]. rewrite (H2 (j - 1)) by lia. zcmp.
    rewrite ?andb_false_r, ?andb_true_r. cbn [orb]. f_equal. lia.
Qed.

Lemma thumb_opcode hw1 hw2 want :
  Z.land (thumb_patch hw1 hw2 want).1 63488 = Z.land hw1 63488 /\
  Z.land (thumb_patch hw1 hw2 want).2 53248 = Z.land hw2 53248.
Proof.
  change 63488 with (Z.shiftl (Z.ones 5) 11).
  change 53248 with (Z.lor (Z.shiftl (Z.ones 2) 14) (Z.shiftl (Z.b2z true) 12)).
  split; apply Z.bits_inj'; intros i Hi; rewrite !Z.land_spec, ?Z.lor_spec, ?b2z_shiftl_testbit by done;
    rewrite !Z.shiftl_spec, Z.testbit_ones by lia.
  - rewrite (proj1 (thumb_patch_bits hw1 hw2 want i Hi)). zcmp; rewrite ?andb_false_r, ?andb_true_r, ?orb_false_r; done.
  - rewrite (proj2 (thumb_patch_bits hw1 hw2 want i Hi)). zcmp; rewrite ?andb_false_r, ?andb_true_r, ?orb_false_r; done.
Qed.

Section branches.
Context {MA : Machine}.
Abbreviation uptr := (wrap PTR).

(** The displacement of the branch at an offset. *)
Definition branch_at (s : ld) (o : Z) : Z := thumb_addend (val_at s o 2) (val_at s (o + 2) 2).

Lemma thumb_patch_word hw1 hw2 want : is_word 16 (thumb_patch hw1 hw2 want).1 /\ is_word 16 (thumb_patch hw1 hw2 want).2.
Proof. split; apply wrap_range; lia. Qed.

(** Writing the patched halfwords changes the displacement and nothing of
    the opcode, and no other byte. *)
Lemma wp_thumb_patch loc o hw1 hw2 want s (Q : Z -> ld -> Prop) :
  loc - reg_at = o -> 0 <= o -> o + 4 <= Z.of_nat (length (reg s)) -> Z.testbit want 0 = false -> in_reach want = true ->
  (forall s', md s' = md s -> length (reg s') = length (reg s) -> branch_at s' o = want ->
     Z.land (val_at s' o 2) 63488 = Z.land hw1 63488 -> Z.land (val_at s' (o + 2) 2) 53248 = Z.land hw2 53248 ->
     (forall x n, 0 <= x -> x + Z.of_nat n <= o \/ o + 4 <= x -> val_at s' x n = val_at s x n) -> Q OVE_OK s') ->
  wp (let '(h1, h2) := thumb_patch hw1 hw2 want in wr_mem loc (le_enc 2 h1);; wr_mem (loc + 2) (le_enc 2 h2);; mret OVE_OK) Q s.
Proof.
  intros Hloc Ho Hin Hodd Hreach HQ. destruct (thumb_patch_word hw1 hw2 want) as [Hw1 Hw2].
  pose proof (thumb_roundtrip hw1 hw2 want Hodd) as Hrt. pose proof (thumb_opcode hw1 hw2 want) as [Hop1 Hop2].
  unfold in_reach in Hreach. apply negb_true_iff, orb_false_iff in Hreach as [H1%Z.ltb_ge H2%Z.ltb_ge].
  specialize (Hrt ltac:(lia)). destruct (thumb_patch hw1 hw2 want) as [h1 h2]. cbn [fst snd] in *.
  apply wp_bind, wp_wr_mem; [lia|rewrite le_enc_length; lia|]. replace (loc - reg_at) with o by lia.
  apply wp_bind, wp_wr_mem; [lia|cbn [reg]; rewrite le_enc_length, overwrite_length; rewrite ?le_enc_length; lia|].
  replace (loc + 2 - reg_at) with (o + 2) by lia. apply wp_ret.
  set (s1 := {| s with reg := overwrite (reg s) (Z.to_nat o) (le_enc 2 h1) |}).
  set (s2 := {| s1 with reg := overwrite (reg s1) (Z.to_nat (o + 2)) (le_enc 2 h2) |}). change (Q OVE_OK s2).
  assert (length (reg s1) = length (reg s)) as Hl1 by (cbn [reg s1]; apply overwrite_length; rewrite le_enc_length; lia).
  assert (val_at s2 (o + 2) 2 = h2) as Hv2.
  { pose proof (val_at_same s1 (o + 2) (le_enc 2 h2)) as H. rewrite le_enc_length in H. rewrite le_enc_dec in H by exact Hw2.
    apply H; [lia|rewrite Hl1; lia]. }
  assert (val_at s2 o 2 = h1) as Hv1.
  { change s2 with {| s1 with reg := overwrite (reg s1) (Z.to_nat (o + 2)) (le_enc 2 h2) |}.
    rewrite val_at_other by (rewrite ?le_enc_length, ?Hl1; lia).
    pose proof (val_at_same s o (le_enc 2 h1)) as H. rewrite le_enc_length in H. rewrite le_enc_dec in H by exact Hw1.
    apply H; lia. }
  apply HQ; rewrite ?Hv1, ?Hv2; try done.
  - cbn [reg s2]. rewrite overwrite_length; [done|]. rewrite le_enc_length, Hl1. lia.
  - unfold branch_at. by rewrite Hv1, Hv2.
  - intros x n Hx Hd. change s2 with {| s1 with reg := overwrite (reg s1) (Z.to_nat (o + 2)) (le_enc 2 h2) |}.
    rewrite val_at_other by (rewrite ?le_enc_length, ?Hl1; lia).
    change s1 with {| s with reg := overwrite (reg s) (Z.to_nat o) (le_enc 2 h1) |}.
    rewrite val_at_other by (rewrite ?le_enc_length; lia). done.
Qed.

Lemma branch_even hw1 hw2 : Z.testbit (thumb_addend hw1 hw2) 0 = false.
Proof. by rewrite thumb_addend_bits. Qed.

Context (HP : PTR = 32 \/ PTR = 64).

(** The displacement the loader computes for a branch at [loc] to [t]. *)
Definition reach (t loc d : Z) : Z := swrap 32 (swrap 32 (uptr (t - loc)) + d).

Lemma reach_wrap t loc d : wrap 32 (loc + reach t loc d) = wrap 32 (t + d).
Proof.
  unfold reach. rewrite <- wrap_add_r, swrap_wrap by lia. rewrite <- (wrap_add_l _ _ d), swrap_wrap by lia.
  rewrite wrap_narrow by lia. rewrite wrap_add_l, wrap_add_r. f_equal. lia.
Qed.

Lemma reach_even t loc d : Z.testbit t 0 = false -> Z.testbit loc 0 = false -> Z.testbit d 0 = false ->
  Z.testbit (reach t loc d) 0 = false.
Proof.
  intros Ht Hl Hd. unfold reach. rewrite swrap_odd by lia. rewrite Z.bit0_odd in *. rewrite Z.odd_add, Hd, <- Z.bit0_odd, swrap_odd by lia.
  rewrite wrap_testbit by lia. rewrite Z.bit0_odd, Z.odd_sub, Ht, Hl. by rewrite andb_false_r.
Qed.

Lemma reach_near t loc d : - 2 ^ 23 <= t - loc <= 2 ^ 23 - 8 -> - 2 ^ 23 <= d <= 2 ^ 23 -> in_reach (reach t loc d) = true.
Proof.
  intros H1 H2. unfold reach. rewrite (swrap_unique 32 (uptr (t - loc)) (t - loc)) by (try apply wrap_narrow; lia).
  rewrite (swrap_small 32 (t - loc)) by lia. rewrite swrap_small by lia. unfold in_reach.
  by rewrite !(proj2 (Z.ltb_ge _ _)) by lia.
Qed.

Context (R : nat) (HR : region_ok (Z.of_nat R)).


End branches.

(** ** Data relocations *)

Section values.
Context {MA : Machine} (img : list Z) (imports : list ove_loader_import).
Abbreviation uptr := (wrap PTR).

(** What each relocation computes: symbol [sv], addend [A], place [P]. *)
Definition value64 (type sv A P : Z) : Z :=
  if (type =? R_X86_64_PC32) || (type =? R_X86_64_PLT32) then sv + A - P else sv + A.

Lemma wr_val p data s s' (rc : Z) k : (wr_mem p data;; mret k) s = Some (rc, s') ->
  rc = k /\ md s' = md s /\ length (reg s') = length (reg s) /\ val_at s' (p - reg_at) (length data) = le_dec data /\
  forall x n, 0 <= x -> x + Z.of_nat n <= p - reg_at \/ p - reg_at + Z.of_nat (length data) <= x -> val_at s' x n = val_at s x n.
Proof.
  intros H. apply bind_Some in H as ([[] s1] & H & [= <- <-]). unfold wr_mem in H.
  apply bind_Some in H as ([r s2] & [= <- <-] & H). apply bind_Some in H as ([l s3] & Hl & [= <-]).
  unfold olift in Hl. apply bind_Some in Hl as (l' & Hput & [= <- <-]). unfold put_at in Hput.
  destruct (_ && _) eqn:Hb; [|done]. injection Hput as <-. apply andb_true_iff in Hb as [H0%Z.leb_le H1%Z.leb_le].
  split; [done|]. split; [done|]. split; [cbn [reg]; apply overwrite_length; lia|]. split; [by apply val_at_same|].
  intros x n Hx Hd. by apply val_at_other.
Qed.

Lemma olift_state {S A} (o : option A) (s s' : S) a : olift o s = Some (a, s') -> o = Some a /\ s' = s.
Proof. unfold olift. destruct o; [|done]. by intros [= <- <-]. Qed.

Lemma rd_symbol_state c idx s sym s' : rd_symbol img c idx s = Some (sym, s') -> s' = s.
Proof.
  intros H. apply bind_Some in H as ([m s1] & [= <- <-] & H). apply bind_Some in H as ([p s2] & [_ ->]%olift_state & H).
  apply bind_Some in H as ([b s3] & [_ ->]%olift_state & H). by injection H as _ <-.
Qed.

Lemma resolve_state shndx value nm s r s' : resolve img imports shndx value nm s = Some (r, s') -> s' = s /\ r <> inl OVE_OK.
Proof.
  unfold resolve. intros H. apply bind_Some in H as ([m s1] & [= <- <-] & H).
  destruct (_ =? _); [destruct (sym_name _ _) as [p|]|destruct (_ =? _); [|destruct (_ <? _)]].
  - apply bind_Some in H as ([a s2] & [_ ->]%olift_state & H). injection H as <- <-. by destruct a.
  - by injection H as <- <-.
  - by injection H as <- <-.
  - apply bind_Some in H as ([a s2] & [_ ->]%olift_state & H). injection H as <- <-. by destruct (negb _).
  - by injection H as <- <-.
Qed.

(** The symbol that index [idx] denotes is at [sv]. *)
Definition denotes (c : elf_class) (s : ld) (idx sv : Z) : Prop := exists sym, rd_symbol img c idx s = Some (sym, s) /\
  resolve img imports (st_shndx sym) (st_value sym) (st_name sym) s = Some (inr sv, s).

(** Only the field of [n] bytes at [o] has changed, and it holds [v]. *)
Definition holds_only (s s' : ld) (o : Z) (n : nat) (v : Z) : Prop :=
  md s' = md s /\ length (reg s') = length (reg s) /\ val_at s' o n = v /\
  forall x k, 0 <= x -> x + Z.of_nat k <= o \/ o + Z.of_nat n <= x -> val_at s' x k = val_at s x k.

Lemma wr_holds p n v s s' : (wr_mem p (le_enc n v);; mret OVE_OK) s = Some (OVE_OK, s') -> 0 <= v < 256 ^ Z.of_nat n ->
  holds_only s s' (p - reg_at) n v.
Proof.
  intros H Hv. apply wr_val in H as (_ & Hm & Hl & Hval & Hx). rewrite le_enc_length in *. rewrite le_enc_dec in Hval by done. done.
Qed.

(** The common head of the two relocation functions. *)
Lemma relocation_head c idx tgt s (k : Z -> Z -> MO ld Z) s' :
  (sym ← rd_symbol img c idx; r ← resolve img imports (st_shndx sym) (st_value sym) (st_name sym);
   match r with inl rc => mret rc | inr sv => base ← olift (sec_addr (md s) !! Z.to_nat tgt); k sv base end) s = Some (OVE_OK, s') ->
  exists sv base, denotes c s idx sv /\ sec_addr (md s) !! Z.to_nat tgt = Some base /\ k sv base s = Some (OVE_OK, s').
Proof.
  intros H. apply bind_Some in H as ([sym s1] & Hsym & H). pose proof (rd_symbol_state _ _ _ _ _ Hsym) as ->.
  apply bind_Some in H as ([r s2] & Hr & H). destruct (resolve_state _ _ _ _ _ _ Hr) as [-> Hne].
  destruct r as [rc|sv]; [injection H as -> <-; done|].
  apply bind_Some in H as ([base s3] & [Hb ->]%olift_state & H). exists sv, base. split; [by exists sym|done].
Qed.

Lemma rela64_value tgt rela s s' : apply_rela64 img imports tgt rela s = Some (OVE_OK, s') ->
  exists sv base, denotes elf64 s (Z.shiftr (ra_info rela) 32) sv /\ sec_addr (md s) !! Z.to_nat tgt = Some base /\
  let P := uptr (base + ra_offset rela) in let w := width64 (rela_type rela) in
  holds_only s s' (P - reg_at) (Z.to_nat w) (wrap (8 * w) (value64 (rela_type rela) sv (ra_addend rela) P)).
Proof.
  unfold apply_rela64. intros H. apply bind_Some in H as ([m s1] & [= <- <-] & H). cbv zeta in H. fold (rela_type rela) in H.
  destruct (_ <=? _); [done|]. apply relocation_head in H as (sv & base & Hd & Hb & H).
  exists sv, base. split; [done|]. split; [done|]. cbv zeta. set (P := uptr _) in *. set (ty := rela_type rela) in *. clearbody ty P.
  unfold width64, value64. destruct (Z.eqb_spec ty R_X86_64_NONE) as [He|Hn0].
  { rewrite He. injection H as <-. unfold holds_only. split_and!; try done. symmetry. apply Z.mod_1_r. }
  destruct (Z.eqb_spec ty R_X86_64_64) as [He|]; [rewrite He in *; apply (wr_holds P 8); [exact H|by apply wrap_range]|].
  destruct (Z.eqb_spec ty R_X86_64_PC32), (Z.eqb_spec ty R_X86_64_PLT32), (Z.eqb_spec ty R_X86_64_32), (Z.eqb_spec ty R_X86_64_32S);
    cbn [orb] in *; try (apply (wr_holds P 4); [exact H|by apply wrap_range]); done.
Qed.

Definition value_arm (type sv A P : Z) : Z :=
  if type =? R_ARM_REL32 then u32 (sv + A - P)
  else if type =? R_ARM_PREL31 then wrap 31 (sv + A - P) + Z.land A (2 ^ 31) else u32 (sv + A).
Definition data_arm (type : Z) : bool :=
  (type =? R_ARM_ABS32) || (type =? R_ARM_TARGET1) || (type =? R_ARM_REL32) || (type =? R_ARM_PREL31).

Lemma prel31_value x A : 
  Z.lor (Z.land (u32 x) 2147483647) (Z.land A 2147483648) = wrap 31 x + Z.land A (2 ^ 31).
Proof.
  change 2147483647 with (Z.ones 31). change 2147483648 with (2 ^ 31). rewrite Z.land_ones by lia.
  change (u32 x mod 2 ^ 31) with (wrap 31 (u32 x)). rewrite wrap_narrow by lia.
  symmetry. rewrite Z.add_nocarry_lxor; [apply Z.lxor_lor|]; apply Z.bits_inj'; intros i Hi;
    rewrite !Z.land_spec, Z.testbit_0_l, wrap_testbit, Z.pow2_bits_eqb by lia; zcmp; rewrite ?andb_false_r; done.
Qed.

Lemma rel_arm_value tgt rel s s' : apply_rel_arm img imports tgt rel s = Some (OVE_OK, s') ->
  let type := Z.land (r_info rel) 255 in data_arm type = true ->
  exists sv base, denotes elf32 s (Z.shiftr (r_info rel) 8) sv /\ sec_addr (md s) !! Z.to_nat tgt = Some base /\
  let P := uptr (base + r_offset rel) in let A := val_at s (P - reg_at) 4 in
  holds_only s s' (P - reg_at) 4 (value_arm type sv A (u32 P)).
Proof.
  intros H type Hty. unfold apply_rel_arm in H. apply bind_Some in H as ([m s1] & [= <- <-] & H). cbv zeta in H.
  destruct (_ <=? _); [done|]. apply relocation_head in H as (sv & base & Hd & Hb & H).
  exists sv, base. split; [done|]. split; [done|]. cbv zeta. set (P := uptr _) in *. fold type in H.
  apply bind_Some in H as ([b s1] & Hb1 & H). unfold rd_mem in Hb1. apply bind_Some in Hb1 as ([l s2] & [= <- <-] & Hb1).
  apply olift_state in Hb1 as [Hb1 ->]. unfold bytes_at in Hb1. destruct (_ && _); [|done]. injection Hb1 as <-.
  change (Z.to_nat 4) with 4%nat in H. fold (val_at s (P - reg_at) 4) in H. set (A := val_at _ _ _) in *.
  clearbody A P type. rewrite prel31_value in H. unfold value_arm, data_arm in *.
  assert (0 <= wrap 31 (sv + A - u32 P) + Z.land A (2 ^ 31) < 256 ^ Z.of_nat 4) as Hprel.
  { pose proof (wrap_range 31 (sv + A - u32 P) ltac:(lia)) as Hr. unfold is_word in Hr.
    assert (Z.land A (2 ^ 31) = 0 \/ Z.land A (2 ^ 31) = 2 ^ 31) as [-> | ->]; [|lia..].
    destruct (Z.testbit A 31) eqn:Ht; [right|left]; apply Z.bits_inj'; intros i Hi;
      rewrite Z.land_spec, ?Z.testbit_0_l, Z.pow2_bits_eqb by lia; zcmp; subst; rewrite ?Ht, ?andb_false_r, ?andb_true_r; done. }
  destruct (Z.eqb_spec type R_ARM_NONE) as [He|]; [by rewrite He in Hty|].
  destruct (Z.eqb_spec type R_ARM_ABS32) as [He1|], (Z.eqb_spec type R_ARM_TARGET1) as [He2|]; cbn [orb] in *;
    rewrite ?He1, ?He2 in *; try (apply (wr_holds P 4); [exact H|by apply wrap_range]).
  destruct (Z.eqb_spec type R_ARM_REL32) as [He|]; [rewrite ?He in *; apply (wr_holds P 4); [exact H|by apply wrap_range]|].
  destruct (Z.eqb_spec type R_ARM_PREL31) as [He|]; [by apply (wr_holds P 4)|done].
Qed.

(** Data relocations store the value the ABI prescribes, and nothing else:
    a successful x86-64 relocation leaves [S + A] or [S + A - P] in a field of
    8 or 4 bytes, a successful ARM data relocation [S + A], [S + A - P] or its
    low 31 bits beside the top bit of the place, [S] being what the symbol
    resolves to, [A] the addend (for ARM, the word that was there) and [P] the
    address of the field; every other byte and the module are unchanged. *)
Theorem data_relocations tgt s s' :
  (forall rela, apply_rela64 img imports tgt rela s = Some (OVE_OK, s') ->
    exists sv base, denotes elf64 s (Z.shiftr (ra_info rela) 32) sv /\ sec_addr (md s) !! Z.to_nat tgt = Some base /\
    let P := uptr (base + ra_offset rela) in let w := width64 (rela_type rela) in
    holds_only s s' (P - reg_at) (Z.to_nat w) (wrap (8 * w) (value64 (rela_type rela) sv (ra_addend rela) P))) /\
  (forall rel, apply_rel_arm img imports tgt rel s = Some (OVE_OK, s') ->
    let type := Z.land (r_info rel) 255 in data_arm type = true ->
    exists sv base, denotes elf32 s (Z.shiftr (r_info rel) 8) sv /\ sec_addr (md s) !! Z.to_nat tgt = Some base /\
    let P := uptr (base + r_offset rel) in let A := val_at s (P - reg_at) 4 in
    holds_only s s' (P - reg_at) 4 (value_arm type sv A (u32 P))).
Proof. split; [intros rela; apply rela64_value|intros rel; apply rel_arm_value]. Qed.

End values.

End LoaderReloc.

(** ** Instances *)

Module RelocDemo.
Import Loader LoaderReloc LoaderDemo.

(** The loaded module of [LoaderDemo], relocated once more. *)
Definition again : Elf64_Rela := mk_rela 8 (2 ^ 32 + 1) 5.
Definition patched_again : ld :=
  match apply_rela64 good puts 1 again (mk_ld (md final) (reg final)) with Some (_, s) => s | None => final end.

Lemma data_relocations_witness :
  exists sv base, denotes good puts elf64 final 1 sv /\ sec_addr (md final) !! 1%nat = Some base /\
    holds_only final patched_again (base + 8 - 4096) 8 (sv + 5).
Proof.
  destruct (proj1 (data_relocations good puts 1 final patched_again) again ltac:(by vm_compute)) as (sv & base & H1 & H2 & H3).
  exists 8192, 4096. vm_compute in H2. injection H2 as <-. destruct H1 as (sym & Hs & Hr). vm_compute in Hs. injection Hs as <-.
  vm_compute in Hr. injection Hr as <-. split; [|split; [by vm_compute|exact H3]].
  eexists. split; [by vm_compute|by vm_compute].
Defined.

(** A region of 32 bytes in RAM whose first word is a BL with the standard
    addend, and a target in flash, out of reach. *)
Definition target : Machine := {| PTR := 32; reg_at := 536870912 |}.
Definition caller : ld := mk_ld (mk_mod 6 0 [] None 0 None 0 false) ([255; 247; 254; 255] ++ replicate 28 0).

Example far_call :
  branch_at caller 0 = -4 /\
  (fun r => (r.1, branch_at r.2 0, reg r.2)) <$> apply_thumb (MA := target) 134218113 536870912 caller =
  Some (OVE_OK, 4, [0; 240; 2; 248; 0; 0; 0; 0; 223; 248; 0; 240; 129; 1; 0; 8] ++ replicate 16 0).
Proof. by vm_compute. Qed.

Lemma target_ok : region_ok (MA := target) (Z.of_nat 32).
Proof. split; [left; reflexivity|]. split; [reflexivity|]. split; [split; vm_compute; discriminate|vm_compute; discriminate]. Defined.


End RelocDemo.
