(* ===== verification/Fdpic.v ===== *)
(** * The FDPIC program loader (loader/ove_loader.c, [ove_loader_load_fdpic])

    An ARM FDPIC executable: the text stays in the image or is copied to the
    head of the region, the writable segments go to the region, a load map in
    the region records where each segment went, and the dynamic relocations
    of a static program are applied through it.  The image is a byte array
    at the address [img_at], the region one at [reg_at]; an access outside
    both, or a write to the image, is [None], and so is a loop that does not
    end. *)

From S2P Require Import Prelude Bits Loader.

Module Fdpic.
Import Loader.

Definition ELF_ET_DYN : Z := 3.
Definition ELF_EM_ARM : Z := 40.
Definition ELF_OSABI_ARM_FDPIC : Z := 65.
Definition ELF_EF_ARM_FDPIC : Z := 268435456.
Definition ELF_PT_LOAD : Z := 1.
Definition ELF_PT_DYNAMIC : Z := 2.
Definition ELF_PF_X : Z := 1.
Definition ELF_DT_NULL : Z := 0.
Definition ELF_DT_NEEDED : Z := 1.
Definition ELF_DT_PLTGOT : Z := 3.
Definition ELF_DT_SYMTAB : Z := 6.
Definition ELF_DT_REL : Z := 17.
Definition ELF_DT_RELSZ : Z := 18.
Definition ELF_DT_RELENT : Z := 19.
Definition ELF_R_ARM_ABS32 : Z := 2.
Definition ELF_R_ARM_RELATIVE : Z := 23.
Definition ELF_R_ARM_FUNCDESC : Z := 163.
Definition ELF_R_ARM_FUNCDESC_VALUE : Z := 164.

(** The loaded program. *)
Record ove_flat := mk_flat {
  region : Z; region_size : Z; region_used : Z; entry : Z; text_base : Z; text_size : Z; data_base : Z; data_size : Z;
  bss_size : Z; stack_size : Z; is_fdpic : bool; loadmap : Z; phdr : Z; phnum : Z; is_dynamic : bool; got : Z; dynamic : Z; region_exec : bool }.

Class Space := { img_at : Z; reg_at : Z }.

Section fdpic.
Context {SP : Space} (img : list Z).
Abbreviation F := (MO (list Z)).

Definition image_size : Z := Z.of_nat (length img).

(** ** Memory *)

(** [n] bytes at an address. *)
Definition rd (a n : Z) : F (list Z) := fun r =>
  b ← (if (img_at <=? a) && (a + n <=? img_at + image_size) then bytes_at img (a - img_at) n else bytes_at r (a - reg_at) n); Some (b, r).
Definition wr (a : Z) (data : list Z) : F unit := fun r => r' ← put_at r (a - reg_at) data; Some (tt, r').

Definition le16 (a : Z) : F Z := b ← rd a 2; mret (le_dec b).
Definition le32 (a : Z) : F Z := b ← rd a 4; mret (le_dec b).

(** ** The load map *)

Fixpoint rt_from (lm : Z) (l : list Z) (vaddr : Z) : F Z :=
  match l with
  | [] => mret 0
  | i :: l =>
      let e := lm + 4 + i * 12 in
      addr ← le32 e; pv ← le32 (e + 4); msz ← le32 (e + 8);
      if (pv <=? vaddr) && (vaddr <? u32 (pv + msz)) then mret (u32 (addr + (vaddr - pv))) else rt_from lm l vaddr
  end.
Definition fdpic_rt (lm nseg vaddr : Z) : F Z := rt_from lm (seqZ 0 nseg) vaddr.

(** ** Pass 1 *)

Record pass1 := mk_p1 {
  text_sz : Z; text_off : Z; have_text : bool; rw_lo : Z; rw_hi : Z; dyn_off : Z; dyn_sz : Z; nload : Z }.

Definition classify (phs ent : Z) (i : Z) (a : pass1) : F (Z + pass1) :=
  let ph := img_at + phs + i * ent in
  p_type ← le32 ph;
  a ← (if p_type =? ELF_PT_DYNAMIC then v ← le32 (ph + 8); sz ← le32 (ph + 20); mret {| a with dyn_off := v; dyn_sz := sz |}
       else mret a);
  if negb (p_type =? ELF_PT_LOAD) then mret (inr a) else
  p_off ← le32 (ph + 4); v ← le32 (ph + 8); msz ← le32 (ph + 20); flags ← le32 (ph + 24);
  let a := {| a with nload := nload a + 1 |} in
  if negb (Z.land flags ELF_PF_X =? 0) then mret (inr {| a with text_sz := msz; text_off := p_off; have_text := true |})
  else mret (inr {| a with rw_lo := if v <? rw_lo a then v else rw_lo a;
                           rw_hi := if rw_hi a <? u32 (v + msz) then u32 (v + msz) else rw_hi a |}).

(** ** Pass 2 *)

Record pass2 := mk_p2 { si : Z; data_v : Z; data_fsz : Z; data_msz : Z }.

Definition place (phs ent base lm lo : Z) (copy_text : bool) (i : Z) (a : pass2) : F (Z + pass2) :=
  let ph := img_at + phs + i * ent in
  p_type ← le32 ph;
  if negb (p_type =? ELF_PT_LOAD) then mret (inr a) else
  p_off ← le32 (ph + 4); p_vaddr ← le32 (ph + 8); p_filesz ← le32 (ph + 16); p_memsz ← le32 (ph + 20); p_flags ← le32 (ph + 24);
  if image_size <? p_off + p_filesz then mret (inl OVE_ERR_INVALID_PARAM) else
  '(seg_addr, a) ←
    (if negb (Z.land p_flags ELF_PF_X =? 0) then
       if copy_text then b ← rd (img_at + p_off) p_filesz; wr reg_at b;; mret (u32 reg_at, a)
       else mret (u32 (img_at + p_off), a)
     else
       let d := base + u32 (p_vaddr - lo) in
       b ← rd (img_at + p_off) p_filesz; wr d b;;
       mret (u32 d, {| a with data_v := p_vaddr; data_fsz := p_filesz; data_msz := p_memsz |}));
  let s := lm + 4 + si a * 12 in
  wr s (le_enc 4 seg_addr);; wr (s + 4) (le_enc 4 p_vaddr);; wr (s + 8) (le_enc 4 p_memsz);;
  mret (inr {| a with si := si a + 1 |}).

(** ** The dynamic table *)

Record dyn := mk_dyn { rel_v : Z; rel_sz : Z; rel_ent : Z; pltgot_v : Z; sym_v : Z; needed : bool }.

Definition dyn_entry (d : dyn) (tag val : Z) : dyn :=
  if tag =? ELF_DT_NEEDED then {| d with needed := true |}
  else if tag =? ELF_DT_REL then {| d with rel_v := val |}
  else if tag =? ELF_DT_RELSZ then {| d with rel_sz := val |}
  else if tag =? ELF_DT_RELENT then {| d with rel_ent := val |}
  else if tag =? ELF_DT_PLTGOT then {| d with pltgot_v := val |}
  else if tag =? ELF_DT_SYMTAB then {| d with sym_v := val |}
  else d.

Fixpoint dyn_walk (fuel : nat) (dp o sz : Z) (d : dyn) : F dyn :=
  match fuel with
  | O => ofail
  | S fuel =>
      if sz <? u32 (o + 8) then mret d else
      tag ← le32 (dp + o); val ← le32 (dp + o + 4);
      if tag =? ELF_DT_NULL then mret d else dyn_walk fuel dp (u32 (o + 8)) sz (dyn_entry d tag val)
  end.

(** ** Relocations *)

Section relocs.
Context (lm nseg : Z) (d : dyn) (rel0 got_base fdpool max_fd : Z).

(** Symbol [r_sym] of the dynamic symbol table. *)
Definition sym_at (r_sym : Z) : F Z := s ← fdpic_rt lm nseg (sym_v d); mret (s + u32 (r_sym * 16)).
Definition defined (sym : Z) : F bool :=
  if sym_v d =? 0 then mret false else x ← le16 (sym + 14); mret (negb (x =? 0)).

(** The place of the symbol's [FUNCDESC_VALUE] record, or 0. *)
Fixpoint find_value (fuel : nat) (r_sym p : Z) : F Z :=
  match fuel with
  | O => ofail
  | S fuel =>
      if rel_sz d <? u32 (p + rel_ent d) then mret 0 else
      i2 ← le32 (rel0 + p + 4);
      if (Z.land i2 255 =? ELF_R_ARM_FUNCDESC_VALUE) && (Z.shiftr i2 8 =? r_sym)
      then v ← le32 (rel0 + p); fdpic_rt lm nseg v
      else find_value fuel r_sym (u32 (p + rel_ent d))
  end.

(** One relocation; [used] bytes of the descriptor pool are in use. *)
Definition relocate (fuel : nat) (o used : Z) : F Z :=
  let r := rel0 + o in
  r_offset ← le32 r; r_info ← le32 (r + 4);
  let r_type := Z.land r_info 255 in
  let r_sym := Z.shiftr r_info 8 in
  place ← fdpic_rt lm nseg r_offset;
  if place =? 0 then mret used else
  if (r_type =? ELF_R_ARM_RELATIVE) || (r_type =? ELF_R_ARM_ABS32) then
    v ← le32 place; w ← fdpic_rt lm nseg v; wr place (le_enc 4 w);; mret used
  else if r_type =? ELF_R_ARM_FUNCDESC_VALUE then
    sym ← sym_at r_sym; def ← defined sym;
    '(w0, w1) ← (if (def : bool) then
                   fnv ← le32 (sym + 4); info ← rd (sym + 12) 1; add ← (if Z.shiftr (le_dec info) 4 =? 0 then le32 place else mret 0);
                   w0 ← fdpic_rt lm nseg (u32 (fnv + add)); mret (w0, got_base)
                 else mret (0, 0));
    wr place (le_enc 4 w0);; wr (place + 4) (le_enc 4 w1);; mret used
  else if r_type =? ELF_R_ARM_FUNCDESC then
    sym ← sym_at r_sym; def ← defined sym;
    '(descr, used) ←
      (if (def : bool) then
         descr ← find_value fuel r_sym 0;
         if negb (descr =? 0) then mret (descr, used)
         else if u32 (max_fd * 8) <? u32 (used + 8) then mret (0, used)
         else
           let e := fdpool + used in
           v ← le32 (sym + 4); a ← le32 place; fn ← fdpic_rt lm nseg (u32 (v + a));
           wr e (le_enc 4 fn);; wr (e + 4) (le_enc 4 got_base);; mret (u32 e, u32 (used + 8))
       else mret (0, used));
    wr place (le_enc 4 descr);; mret used
  else mret used.

Fixpoint reloc_loop (fuel : nat) (o used : Z) : F Z :=
  match fuel with
  | O => ofail
  | S fuel =>
      if rel_sz d <? u32 (o + rel_ent d) then mret used else
      used ← relocate (S (Z.to_nat max_fd)) o used; reloc_loop fuel (u32 (o + rel_ent d)) used
  end.
End relocs.

(** ** The loader *)

Definition align_to (a x : Z) : Z := Z.ldiff (u32 (x + (a - 1))) (a - 1).

(** The header: an error, or entry point and program header table. *)
Definition header : F (Z + (Z * Z * Z * Z)) :=
  if image_size <? 52 then mret (inl OVE_ERR_INVALID_PARAM) else
  if negb (bool_decide (take 5 img = [127; 69; 76; 70; 1])) then mret (inl OVE_ERR_INVALID_PARAM) else
  ty ← le16 (img_at + 16); mach ← le16 (img_at + 18);
  if negb (ty =? ELF_ET_DYN) || negb (mach =? ELF_EM_ARM) then mret (inl OVE_ERR_INVALID_PARAM) else
  osabi ← olift (img !! 7%nat); flags ← le32 (img_at + 36);
  if negb (osabi =? ELF_OSABI_ARM_FDPIC) && (Z.land flags ELF_EF_ARM_FDPIC =? 0) then mret (inl OVE_ERR_NOT_SUPPORTED) else
  e_entry ← le32 (img_at + 24); e_phoff ← le32 (img_at + 28); e_phentsize ← le16 (img_at + 42); e_phnum ← le16 (img_at + 44);
  if image_size <? e_phoff + e_phnum * e_phentsize then mret (inl OVE_ERR_INVALID_PARAM)
  else mret (inr (e_entry, e_phoff, e_phentsize, e_phnum)).

Record layout := mk_lay { rw_span : Z; rw_a : Z; loadmap_sz : Z; text_a : Z }.

Definition lay_out (a : pass1) (copy_text : bool) : layout :=
  let span := if rw_lo a <? rw_hi a then rw_hi a - rw_lo a else 0 in
  mk_lay span (align_to 4 span) (u32 (4 + u32 (nload a * 12))) (if copy_text then align_to 16 (text_sz a) else 0).

Definition p1_init : pass1 := mk_p1 0 0 false 4294967295 0 0 0 0.

(** From the first pass to the end of the second: an error, or the layout. *)
Definition load_segments (phs ent num : Z) (copy_text : bool) : F (Z + (pass1 * layout * pass2)) :=
  size ← ogets (fun r : list Z => Z.of_nat (length r));
  r ← loop (classify phs ent) (seqZ 0 num) p1_init;
  match r with
  | inl e => mret (inl e)
  | inr a =>
      if negb (have_text a) || (nload a <? 1) then mret (inl OVE_ERR_INVALID_PARAM) else
      let l := lay_out a copy_text in
      if size <? text_a l + rw_a l + loadmap_sz l then mret (inl OVE_ERR_NO_MEMORY) else
      let base := reg_at + text_a l in
      (if 0 <? rw_span l then wr base (replicate (Z.to_nat (rw_span l)) 0) else mret tt);;
      let lm := base + rw_a l in
      wr lm (le_enc 2 0);; wr (lm + 2) (le_enc 2 (nload a));;
      r ← loop (place phs ent base lm (rw_lo a) copy_text) (seqZ 0 num) (mk_p2 0 0 0 0);
      mret (match r with inl e => inl e | inr b => inr (a, l, b) end)
  end.

Definition ove_loader_load_fdpic (is_interp copy_text : bool) : F (Z * option ove_flat) :=
  size ← ogets (fun r : list Z => Z.of_nat (length r));
  h ← header;
  match h with
  | inl e => mret (e, None)
  | inr (e_entry, phs, ent, num) =>
      r ← load_segments phs ent num copy_text;
      match r with
      | inl e => mret (e, None)
      | inr (a, l, b) =>
          let base := reg_at + text_a l in
          let lm := base + rw_a l in
          d ← (if dyn_off a =? 0 then mret (mk_dyn 0 0 8 0 0 false) else
               dp ← fdpic_rt lm (nload a) (dyn_off a);
               if dp =? 0 then mret (mk_dyn 0 0 8 0 0 false)
               else dyn_walk (S (Z.to_nat (dyn_sz a / 8))) dp 0 (dyn_sz a) (mk_dyn 0 0 8 0 0 false));
          got_base ← fdpic_rt lm (nload a) (pltgot_v d);
          rel0 ← fdpic_rt lm (nload a) (rel_v d);
          let pool_off := align_to 8 (u32 (rw_a l + loadmap_sz l)) in
          let max_fd := if rel_ent d =? 0 then 0 else rel_sz d / rel_ent d in
          if size <? pool_off + max_fd * 8 then mret (OVE_ERR_NO_MEMORY, None) else
          used ← (if is_interp || needed d || (rel0 =? 0) then mret 0
                  else reloc_loop lm (nload a) d rel0 got_base (base + pool_off) max_fd (S (Z.to_nat max_fd)) 0 0);
          data ← fdpic_rt lm (nload a) (data_v b);
          ent ← fdpic_rt lm (nload a) e_entry;
          dynp ← (if dyn_off a =? 0 then mret 0 else fdpic_rt lm (nload a) (dyn_off a));
          mret (OVE_OK, Some (mk_flat base size (u32 (text_a l + pool_off + used)) ent
            (if copy_text then reg_at else img_at + text_off a) (text_sz a) data (data_fsz b) (u32 (data_msz b - data_fsz b))
            16384 true lm (if copy_text then reg_at + u32 (phs - text_off a) else img_at + phs) num (needed d) got_base dynp copy_text))
      end
  end.

End fdpic.
End Fdpic.
