(* ===== verification/FdpicLoad.v ===== *)
(** * Correctness of the FDPIC program loader

    The two passes over the program headers of [ove_loader_load_fdpic]: what
    the load map resolves, where the segments go and what is in them; and
    the whole load of an interpreter, which applies no relocation. *)

From S2P Require Import Prelude Bits Loader Fdpic.
Module FdpicLoad.
Import Loader Fdpic.

Lemma wp_seq3 {St A} (m1 m2 m3 : MO St unit) (x : MO St A) Q s : wp (m1;; m2;; m3) (fun _ => wp x Q) s -> wp (m1;; m2;; m3;; x) Q s.
Proof.
  unfold wp, mbind, MO_bind. destruct (m1 s) as [[? ?]|]; [|done]. destruct (m2 _) as [[? ?]|]; [|done]. by destruct (m3 _) as [[? ?]|].
Qed.

(** ** The segments *)

Section image.
Context {SP : Space} (img : list Z) (phs ent num : Z) (copy_text : bool).

Definition ph_fld (i k : Z) : Z := word img (phs + i * ent + k).
Definition loads (i : Z) : Prop := ph_fld i 0 = ELF_PT_LOAD.
Definition p_off (i : Z) : Z := ph_fld i 4.
Definition p_vaddr (i : Z) : Z := ph_fld i 8.
Definition p_filesz (i : Z) : Z := ph_fld i 16.
Definition p_memsz (i : Z) : Z := ph_fld i 20.
Definition exec (i : Z) : bool := negb (Z.land (ph_fld i 24) ELF_PF_X =? 0).

Global Instance loads_dec i : Decision (loads i).
Proof. unfold loads. apply _. Defined.

(** Segment [i] is a loadable one. *)
Definition seg (i : Z) : Prop := 0 <= i < num /\ loads i.
(** The loadable segments before header [i], in order. *)
Definition segs (i : Z) : list Z := filter loads (seqZ 0 i).
Definition contents (i : Z) : list Z := sl img (p_off i) (p_filesz i).

(** A well-formed program: headers large enough and inside the image, file
    contents inside the image and no longer than the memory, address ranges
    that do not wrap or overlap, and one executable segment. *)
Record program_ok : Prop := {
  po_ent : 28 <= ent; po_num : 0 <= num < 2 ^ 16; po_phs : 0 <= phs; po_in : phs + num * ent <= image_size img;
  po_file : forall i, seg i -> p_off i + p_filesz i <= image_size img /\ p_filesz i <= p_memsz i;
  po_mem : forall i, seg i -> p_vaddr i + p_memsz i <= 2 ^ 32 - 16;
  po_disj : forall i j, seg i -> seg j -> i <> j -> p_vaddr i + p_memsz i <= p_vaddr j \/ p_vaddr j + p_memsz j <= p_vaddr i;
  po_text : forall i j, seg i -> seg j -> exec i = true -> exec j = true -> i = j }.

(** Image and region are disjoint objects of a 32-bit address space. *)
Definition space_ok (R : Z) : Prop :=
  0 < img_at /\ 0 < reg_at /\ img_at + image_size img <= 2 ^ 32 /\ reg_at + R <= 2 ^ 32 /\
  (img_at + image_size img <= reg_at \/ reg_at + R <= img_at).

Context (Himg : Forall (is_word 8) img) (Hok : program_ok) (R : Z) (HS : space_ok R).

Lemma word_range bs o : Forall (is_word 8) bs -> 0 <= word bs o < 2 ^ 32.
Proof.
  intros H. unfold word. pose proof (le_dec_range (sl bs o 4) ltac:(by apply Forall_take, Forall_drop)) as Hr.
  assert (256 ^ Z.of_nat (length (sl bs o 4)) <= 256 ^ Z.of_nat 4); [|lia].
  apply Z.pow_le_mono_r; [lia|]. unfold sl. rewrite length_take. lia.
Qed.
Lemma ph_range i k : 0 <= ph_fld i k < 2 ^ 32.
Proof. by apply word_range. Qed.

Lemma seg_bounds i : seg i -> 0 <= p_off i /\ 0 <= p_filesz i <= p_memsz i /\ p_off i + p_filesz i <= image_size img /\
  0 <= p_vaddr i /\ p_vaddr i + p_memsz i <= 2 ^ 32 - 16.
Proof.
  intros H. destruct (po_file Hok i H). pose proof (po_mem Hok i H). unfold p_off, p_filesz, p_memsz, p_vaddr in *.
  pose proof (ph_range i 4). pose proof (ph_range i 8). pose proof (ph_range i 16). lia.
Qed.

Lemma contents_length i : seg i -> length (contents i) = Z.to_nat (p_filesz i).
Proof. intros H. destruct (seg_bounds i H) as (? & ? & ? & _). apply sl_length; [lia..|]. unfold image_size in *. lia. Qed.

(** ** Reads and writes *)

Lemma wp_rd_image o n (Q : list Z -> list Z -> Prop) r : 0 <= o -> 0 <= n -> o + n <= image_size img ->
  Q (sl img o n) r -> wp (rd img (img_at + o) n) Q r.
Proof.
  intros Ho Hn Hin HQ. unfold wp, rd.
  assert ((img_at <=? img_at + o) = true) as -> by (apply Z.leb_le; lia).
  assert ((img_at + o + n <=? img_at + image_size img) = true) as -> by (apply Z.leb_le; lia). cbn [andb].
  replace (img_at + o - img_at) with o by lia. by rewrite bytes_at_Some by (unfold image_size in *; lia).
Qed.

Lemma rd_region o n r : 0 <= o -> 0 <= n -> o + n <= R -> Z.of_nat (length r) = R ->
  rd img (reg_at + o) n r = Some (sl r o n, r).
Proof.
  intros Ho Hn Hin Hr. unfold rd. destruct HS as (H1 & H2 & H3 & H4 & H5).
  assert (bytes_at r (reg_at + o - reg_at) n = Some (sl r o n)) as Hb.
  { replace (reg_at + o - reg_at) with o by lia. apply bytes_at_Some; lia. }
  destruct (Z.leb_spec img_at (reg_at + o)) as [Hl|]; cbn [andb]; [|by rewrite Hb].
  destruct (Z.leb_spec (reg_at + o + n) (img_at + image_size img)) as [Hu|]; [|by rewrite Hb].
  assert (n = 0) as -> by lia. rewrite bytes_at_Some by (unfold image_size in *; lia). cbn. by rewrite sl_nil.
Qed.

Lemma wp_rd_region o n (Q : list Z -> list Z -> Prop) r : 0 <= o -> 0 <= n -> o + n <= R -> Z.of_nat (length r) = R ->
  Q (sl r o n) r -> wp (rd img (reg_at + o) n) Q r.
Proof. intros. unfold wp. by rewrite rd_region. Qed.

Lemma wp_wr o d (Q : unit -> list Z -> Prop) r : 0 <= o -> o + Z.of_nat (length d) <= Z.of_nat (length r) ->
  Q tt (overwrite r (Z.to_nat o) d) -> wp (wr (reg_at + o) d) Q r.
Proof. intros Ho Hd HQ. unfold wp, wr. replace (reg_at + o - reg_at) with o by lia. by rewrite put_at_Some. Qed.

Lemma wp_ph i k a (Q : Z -> list Z -> Prop) r : 0 <= i < num -> 0 <= k <= 24 -> a = img_at + phs + i * ent + k ->
  Q (ph_fld i k) r -> wp (le32 img a) Q r.
Proof.
  intros Hi Hk -> HQ. destruct Hok as [He Hn Hp Hin _ _ _ _]. unfold le32. apply wp_bind.
  replace (img_at + phs + i * ent + k) with (img_at + (phs + i * ent + k)) by lia.
  apply wp_rd_image; [nia..|]. by apply wp_ret.
Qed.

Lemma segs_succ i : 0 <= i -> segs (i + 1) = segs i ++ (if decide (loads i) then [i] else []).
Proof.
  intros Hi. unfold segs. rewrite seqZ_app by lia. rewrite filter_app. f_equal.
Qed.

Lemma segs_lookup i k j : 0 <= i -> segs i !! k = Some j -> 0 <= j < i /\ loads j.
Proof.
  intros Hi H. apply list_elem_of_lookup_2 in H. unfold segs in H. apply list_elem_of_filter in H as [Hl H].
  apply elem_of_seqZ in H. split; [lia|done].
Qed.

Lemma segs_elem i j : 0 <= j < i -> loads j -> exists k, segs i !! k = Some j.
Proof.
  intros Hj Hl. apply list_elem_of_lookup. unfold segs. apply list_elem_of_filter. split; [done|]. apply elem_of_seqZ. lia.
Qed.

Lemma segs_length i : 0 <= i -> Z.of_nat (length (segs i)) <= i.
Proof. intros Hi. unfold segs. pose proof (length_filter loads (seqZ 0 i)) as H. rewrite length_seqZ in H. lia. Qed.

Lemma segs_inj i k k' j : 0 <= i -> segs i !! k = Some j -> segs i !! k' = Some j -> k = k'.
Proof.
  intros Hi. apply NoDup_lookup. apply NoDup_filter, NoDup_seqZ.
Qed.

(** ** Pass 1 *)

Record scanned (i : Z) (a : pass1) : Prop := {
  sc_nload : nload a = Z.of_nat (length (segs i));
  sc_text : forall t, 0 <= t < i -> loads t -> exec t = true -> have_text a = true /\ text_sz a = p_memsz t /\ text_off a = p_off t;
  sc_have : have_text a = true -> exists t, 0 <= t < i /\ loads t /\ exec t = true;
  sc_rw : forall j, 0 <= j < i -> loads j -> exec j = false -> rw_lo a <= p_vaddr j /\ p_vaddr j + p_memsz j <= rw_hi a;
  sc_range : 0 <= rw_lo a < 2 ^ 32 /\ 0 <= rw_hi a <= 2 ^ 32 - 16;
  sc_dyn : dyn_off a = 0 \/ exists d, 0 <= d < num /\ ph_fld d 0 = ELF_PT_DYNAMIC /\ dyn_off a = p_vaddr d /\ dyn_sz a = p_memsz d }.

Lemma scanned_skip i a a' : scanned i a -> 0 <= i -> ~ loads i -> nload a' = nload a -> text_sz a' = text_sz a ->
  text_off a' = text_off a -> have_text a' = have_text a -> rw_lo a' = rw_lo a -> rw_hi a' = rw_hi a ->
  (dyn_off a' = dyn_off a /\ dyn_sz a' = dyn_sz a \/ exists d, 0 <= d < num /\ ph_fld d 0 = ELF_PT_DYNAMIC /\ dyn_off a' = p_vaddr d /\ dyn_sz a' = p_memsz d) ->
  scanned (i + 1) a'.
Proof.
  intros [H1 H2 H3 H4 H5 H6] Hi Hn E1 E2 E3 E4 E5 E6 Ed.
  assert (forall j, 0 <= j < i + 1 -> loads j -> 0 <= j < i) as Hlt.
  { intros j Hj Hl. destruct (decide (j = i)) as [->|]; [done|lia]. }
  split; rewrite ?E1, ?E2, ?E3, ?E4, ?E5, ?E6; try done.
  - rewrite segs_succ by done. rewrite decide_False, app_nil_r by done. done.
  - intros t Ht Hl. by apply H2, Hl; apply Hlt.
  - intros Hh. destruct (H3 Hh) as (t & ? & ? & ?). exists t. split; [lia|done].
  - intros j Hj Hl. by apply H4, Hl; apply Hlt.
  - destruct Ed as [[-> ->]|Ed]; [done|by right].
Qed.

Lemma scan_step i a r : 0 <= i < num -> scanned i a ->
  wp (classify img phs ent i a) (or_else (fun _ _ => False) (fun a' r' => scanned (i + 1) a' /\ r' = r)) r.
Proof.
  intros Hi Hs. pose proof Hs as [H1 H2 H3 H4 H5 H6]. unfold classify. cbv zeta.
  apply wp_bind, (wp_ph i 0); [done|lia|lia|].
  destruct (Z.eqb_spec (ph_fld i 0) ELF_PT_DYNAMIC) as [Hd|Hd].
  - apply wp_bind, wp_bind, (wp_ph i 8); [done|lia|done|]. apply wp_bind, (wp_ph i 20); [done|lia|done|].
    apply wp_ret. rewrite Hd. cbn. apply wp_ret. split; [|done].
    eapply scanned_skip; try done; [lia| |right; by exists i]. unfold loads. rewrite Hd. done.
  - apply wp_bind, wp_ret. destruct (Z.eqb_spec (ph_fld i 0) ELF_PT_LOAD) as [Hl|Hl]; cbn [negb].
    2: { apply wp_ret. split; [|done]. eapply scanned_skip; try done; [lia|by left]. }
    apply wp_bind, (wp_ph i 4); [done|lia|done|]. apply wp_bind, (wp_ph i 8); [done|lia|done|].
    apply wp_bind, (wp_ph i 20); [done|lia|done|]. apply wp_bind, (wp_ph i 24); [done|lia|done|].
    assert (seg i) as Hseg by done. pose proof (seg_bounds i Hseg) as (B1 & B2 & B3 & B4 & B5).
    assert (Z.of_nat (length (segs (i + 1))) = nload a + 1) as Hlen.
    { rewrite segs_succ by lia. rewrite decide_True by done. rewrite length_app. cbn. lia. }
    change (negb (Z.land (ph_fld i 24) ELF_PF_X =? 0)) with (exec i).
    change (ph_fld i 4) with (p_off i). change (ph_fld i 8) with (p_vaddr i). change (ph_fld i 20) with (p_memsz i).
    destruct (exec i) eqn:Hx; apply wp_ret; (split; [|done]); split; cbn [nload text_sz text_off have_text rw_lo rw_hi]; try done.
    + intros t Ht Hlt Hxt. assert (t = i) as -> by (apply (po_text Hok); [split; [lia|done]|done..]). done.
    + intros _. exists i. split; [lia|done].
    + intros j Hj Hlj Hxj. destruct (decide (j = i)) as [->|]; [congruence|]. apply H4; [lia|done..].
    + intros t Ht Hlt Hxt. destruct (decide (t = i)) as [->|]; [congruence|]. apply H2; [lia|done..].
    + intros Hh. destruct (H3 Hh) as (t & ? & ? & ?). exists t. split; [lia|done].
    + rewrite wrap_small by (unfold is_word; lia). intros j Hj Hlj Hxj. destruct (decide (j = i)) as [->|].
      * zcmp; lia.
      * destruct (H4 j) as [? ?]; [lia|done..|]. zcmp; lia.
    + rewrite wrap_small by (unfold is_word; lia). zcmp; lia.
Qed.

Lemma scan_spec r :
  wp (loop (classify img phs ent) (seqZ 0 num) p1_init) (or_else (fun _ _ => False) (fun a r' => scanned num a /\ r' = r)) r.
Proof.
  apply (wp_loop _ _ (fun i a r' => scanned i a /\ r' = r)); [apply Hok|intros i a r' Hi [Hs ->]; by apply scan_step|].
  split; [|done]. split; cbn; try done; try lia; try (by left); intros; lia.
Qed.

(** ** Layout *)

Lemma align_to_le k x : 0 <= k < 32 -> 0 <= x -> x + 2 ^ k <= 2 ^ 32 -> x <= align_to (2 ^ k) x /\ align_to (2 ^ k) x mod 2 ^ k = 0.
Proof.
  intros Hk Hx Hb. assert (0 < 2 ^ k) by (apply Z.pow_pos_nonneg; lia). unfold align_to.
  rewrite wrap_small by (unfold is_word; lia). replace (2 ^ k - 1) with (Z.ones k) by (rewrite Z.ones_equiv; lia).
  rewrite ldiff_ones by lia. split; [|by apply Z_mod_mult].
  pose proof (Z.div_mod (x + Z.ones k) (2 ^ k) ltac:(lia)) as Hd. rewrite Z.ones_equiv in *.
  pose proof (Z.mod_pos_bound (x + Z.pred (2 ^ k)) (2 ^ k) ltac:(lia)). lia.
Qed.

Section layout.
Context (a : pass1) (Ha : scanned num a).
Abbreviation lay := (lay_out a copy_text).
Abbreviation T := (text_a lay).
Abbreviation lmo := (T + rw_a lay).

(** Offset in the region of a writable segment; address of any segment. *)
Definition rw_off (j : Z) : Z := T + (p_vaddr j - rw_lo a).
Definition seg_at (j : Z) : Z :=
  if exec j then if copy_text then reg_at else img_at + p_off j else reg_at + rw_off j.
Definition ent_off (k : nat) : Z := lmo + 4 + Z.of_nat k * 12.

Lemma scanned_seg j : seg j -> exec j = true -> have_text a = true /\ text_sz a = p_memsz j /\ text_off a = p_off j.
Proof. intros [Hj Hl]. by apply (sc_text _ _ Ha). Qed.

Lemma lay_facts : have_text a = true -> 0 <= rw_span lay <= rw_a lay /\ 0 <= T /\ loadmap_sz lay = 4 + nload a * 12 /\
  (copy_text = true -> text_sz a <= T).
Proof.
  intros Hh. destruct (sc_range _ _ Ha) as [? ?]. destruct (sc_have _ _ Ha Hh) as (t & Ht & Hl & Hx).
  destruct (scanned_seg t) as (_ & E & _); [done..|].
  pose proof (seg_bounds t ltac:(done)) as (_ & ? & _ & ? & ?).
  pose proof (segs_length num ltac:(lia)). pose proof (po_num Hok). pose proof (sc_nload _ _ Ha).
  assert (0 <= rw_span lay <= 2 ^ 32 - 16) as Hsp by (cbn [lay_out rw_span]; zcmp; lia).
  split; [split; [lia|]|].
  { change (rw_a lay) with (align_to (2 ^ 2) (rw_span lay)). apply align_to_le; lia. }
  destruct (align_to_le 4 (text_sz a)) as [? _]; [lia..|]. change (2 ^ 4) with 16 in *.
  cbn [lay_out text_a loadmap_sz]. rewrite E in *. split_and!.
  - destruct copy_text; lia.
  - rewrite !wrap_small by (unfold is_word; rewrite ?wrap_small by (unfold is_word; lia); lia). done.
  - by intros ->.
Qed.

Lemma rw_facts j : seg j -> exec j = false -> T <= rw_off j /\ rw_off j + p_memsz j <= T + rw_span lay.
Proof.
  intros [Hj Hl] Hx. destruct (sc_rw _ _ Ha j Hj Hl Hx) as [? ?]. pose proof (seg_bounds j ltac:(done)) as (_ & ? & _ & ? & ?).
  unfold rw_off. cbn [lay_out rw_span]. split; [lia|]. zcmp; lia.
Qed.

Context (Hh : have_text a = true) (Hfit : T + rw_a lay + loadmap_sz lay <= R).

(** ** Pass 2 *)

Record placed (i : Z) (b : pass2) (r : list Z) : Prop := {
  pl_len : Z.of_nat (length r) = R;
  pl_si : si b = Z.of_nat (length (segs i));
  pl_map : forall k j, segs i !! k = Some j ->
    sl r (ent_off k) 12 = le_enc 4 (u32 (seg_at j)) ++ le_enc 4 (p_vaddr j) ++ le_enc 4 (p_memsz j);
  pl_data : forall j, seg j -> j < i -> exec j = false ->
    sl r (rw_off j) (p_filesz j) = contents j /\ sl r (rw_off j + p_filesz j) (p_memsz j - p_filesz j) = zeros (p_memsz j - p_filesz j);
  pl_clear : forall j, seg j -> i <= j -> exec j = false -> sl r (rw_off j) (p_memsz j) = zeros (p_memsz j);
  pl_code : copy_text = true -> forall j, seg j -> j < i -> exec j = true -> sl r 0 (p_filesz j) = contents j }.

Lemma ent_in k i j : 0 <= i <= num -> segs i !! k = Some j -> lmo + 4 <= ent_off k /\ ent_off k + 12 <= R.
Proof.
  intros Hi Hk. apply lookup_lt_Some in Hk. destruct (lay_facts Hh) as (? & ? & El & _). rewrite El in Hfit.
  rewrite (sc_nload _ _ Ha) in Hfit. unfold ent_off.
  assert (length (segs i) <= length (segs num))%nat; [|lia].
  unfold segs. replace num with (i + (num - i)) by lia. rewrite (seqZ_app 0 i) by lia. rewrite filter_app, length_app. lia.
Qed.

Lemma wp_wr3 o x y z (Q : unit -> list Z -> Prop) r : 0 <= o -> o + 12 <= Z.of_nat (length r) ->
  (forall r', changed o 12 r r' -> sl r' o 12 = le_enc 4 x ++ le_enc 4 y ++ le_enc 4 z -> Q tt r') ->
  wp (wr (reg_at + o) (le_enc 4 x);; wr (reg_at + o + 4) (le_enc 4 y);; wr (reg_at + o + 8) (le_enc 4 z)) Q r.
Proof.
  intros Ho Hr HQ.
  set (r1 := overwrite r (Z.to_nat o) (le_enc 4 x)). set (r2 := overwrite r1 (Z.to_nat (o + 4)) (le_enc 4 y)).
  set (r3 := overwrite r2 (Z.to_nat (o + 8)) (le_enc 4 z)).
  assert (changed o 4 r r1) as C1 by (apply changed_overwrite; rewrite ?le_enc_length; lia).
  assert (changed (o + 4) 4 r1 r2) as C2 by (apply changed_overwrite; rewrite ?le_enc_length, ?(proj1 C1); lia).
  assert (changed (o + 8) 4 r2 r3) as C3 by (apply changed_overwrite; rewrite ?le_enc_length, ?(proj1 C2), ?(proj1 C1); lia).
  replace (reg_at + o + 4) with (reg_at + (o + 4)) by lia. replace (reg_at + o + 8) with (reg_at + (o + 8)) by lia.
  apply wp_bind, wp_wr; [lia|rewrite le_enc_length; lia|]. fold r1.
  apply wp_bind, wp_wr; [lia|rewrite le_enc_length, (proj1 C1); lia|]. fold r2.
  apply wp_wr; [lia|rewrite le_enc_length, (proj1 C2), (proj1 C1); lia|]. fold r3. apply HQ.
  - eapply changed_trans; [eapply changed_widen; [| |exact C1]; lia|].
    eapply changed_trans; eapply changed_widen; try eassumption; lia.
  - change 12 with (4 + (4 + 4)). rewrite !sl_app by lia. f_equal; [|f_equal].
    + rewrite (proj2 C3), (proj2 C2) by lia. apply sl_overwrite_same; rewrite ?le_enc_length; lia.
    + rewrite (proj2 C3) by lia. apply sl_overwrite_same; rewrite ?le_enc_length, ?(proj1 C1); lia.
    + replace (o + 4 + 4) with (o + 8) by lia. apply sl_overwrite_same; rewrite ?le_enc_length, ?(proj1 C2), ?(proj1 C1); lia.
Qed.

(** The bytes segment [i] puts in the region. *)
Definition w_off (i : Z) : Z := if exec i then 0 else rw_off i.
Definition w_len (i : Z) : Z := if exec i && negb copy_text then 0 else p_filesz i.
Definition stored (i : Z) (r r' : list Z) : Prop :=
  changed (w_off i) (w_len i) r r' /\ sl r' (w_off i) (w_len i) = sl img (p_off i) (w_len i).

Lemma w_area i : seg i -> 0 <= w_len i <= p_filesz i /\
  (exec i = true -> w_off i = 0 /\ w_len i <= T) /\ (exec i = false -> w_off i = rw_off i /\ w_len i = p_filesz i).
Proof.
  intros Hs. pose proof (seg_bounds i Hs) as (B1 & B2 & B3 & B4 & B5). unfold w_off, w_len.
  destruct (lay_facts Hh) as (_ & HT & _ & Htx). destruct (exec i) eqn:Hx; cbn [andb]; [|split_and!; [lia..|done|done]].
  destruct (scanned_seg i Hs Hx) as (_ & Et & _). destruct copy_text; cbn [negb]; [specialize (Htx eq_refl)|]; split_and!; try done; lia.
Qed.

Lemma placed_skip i b r : placed i b r -> 0 <= i -> ~ loads i -> placed (i + 1) b r.
Proof.
  intros [P1 P2 P3 P4 P5 P6] Hi Hn. assert (segs (i + 1) = segs i) as Es.
  { rewrite segs_succ by done. by rewrite decide_False, app_nil_r by done. }
  assert (forall j, seg j -> j < i + 1 -> j < i) as Hlt.
  { intros j [_ Hl] Hj. destruct (decide (j = i)) as [->|]; [done|lia]. }
  split; rewrite ?Es; try done; intros; [apply P4; auto|apply P5; [done|lia|done]|apply P6; auto].
Qed.

Lemma placed_store i b b' r r1 r2 : placed i b r -> seg i -> stored i r r1 ->
  changed (ent_off (length (segs i))) 12 r1 r2 ->
  sl r2 (ent_off (length (segs i))) 12 = le_enc 4 (u32 (seg_at i)) ++ le_enc 4 (p_vaddr i) ++ le_enc 4 (p_memsz i) ->
  si b' = si b + 1 -> placed (i + 1) b' r2.
Proof.
  intros [P1 P2 P3 P4 P5 P6] Hs [[L1 C1] Hst] [L2 C2] He Hsi. pose proof Hs as [Hi Hl].
  assert (segs (i + 1) = segs i ++ [i]) as Es by (rewrite segs_succ by lia; by rewrite decide_True).
  destruct (lay_facts Hh) as (Hspan & HT & Elm & Htx). pose proof (seg_bounds i Hs) as (B1 & B2 & B3 & B4 & B5).
  pose proof (w_area i Hs) as (Wl & Wx & Wr).
  assert (lmo + 4 <= ent_off (length (segs i)) /\ ent_off (length (segs i)) + 12 <= R) as Hent.
  { apply (ent_in _ (i + 1) i); [lia|]. by rewrite Es, lookup_app_r, Nat.sub_diag. }
  assert (forall j o m, seg j -> j <> i -> exec j = false -> rw_off j <= o -> o + m <= rw_off j + p_memsz j -> sl r2 o m = sl r o m) as Hrw.
  { intros j o m Hj Hne Hx Ho Hm. destruct (rw_facts j Hj Hx) as [? ?]. pose proof (seg_bounds j Hj) as (_ & ? & _).
    rewrite C2, C1; [done|lia| |lia|lia]. destruct (exec i) eqn:Hxi; [destruct (Wx eq_refl); lia|].
    destruct (Wr eq_refl). destruct (rw_facts i Hs Hxi). pose proof (po_disj Hok i j Hs Hj ltac:(done)). unfold rw_off in *. lia. }
  split; rewrite ?Es.
  - lia.
  - rewrite length_app. cbn. lia.
  - intros k j Hk. apply lookup_app_Some in Hk as [Hk|[Hk1 Hk2]].
    + destruct (ent_in k i j ltac:(lia) Hk) as [? ?]. pose proof (lookup_lt_Some _ _ _ Hk). rewrite C2, C1; [by apply P3|..].
      * lia.
      * destruct (exec i) eqn:Hxi; [destruct (Wx eq_refl); lia|]. destruct (Wr eq_refl). destruct (rw_facts i Hs Hxi). lia.
      * lia.
      * unfold ent_off. lia.
    + apply list_lookup_singleton_Some in Hk2 as [? <-]. replace k with (length (segs i)) by lia. done.
  - intros j Hj Hji Hx. destruct (decide (j = i)) as [->|Hne].
    + destruct (Wr Hx) as [Ew El]. rewrite Ew, El in *. destruct (rw_facts i Hs Hx). split.
      * rewrite C2 by lia. done.
      * rewrite C2, C1 by lia. apply (sl_zeros _ _ (p_memsz i)); [lia..|]. apply P5; [done|lia|done].
    + pose proof (seg_bounds j Hj) as (_ & ? & _). destruct (P4 j) as [D1 D2]; [done|lia|done|].
      rewrite !(Hrw j) by (done || lia). done.
  - intros j Hj Hji Hx. rewrite (Hrw j); [|done|lia|done|lia|lia]. apply P5; [done|lia|done].
  - intros Hc j Hj Hji Hx. destruct (decide (j = i)) as [->|Hne].
    + destruct (Wx Hx) as [Ew Hw]. unfold w_len in Hst, Hw. rewrite Ew, Hx, Hc in *. cbn [andb negb] in *. rewrite C2 by lia. done.
    + destruct (exec i) eqn:Hxi; [destruct Hne; by apply (po_text Hok)|]. destruct (Wr eq_refl) as [Ew El]. destruct (rw_facts i Hs Hxi).
      pose proof (seg_bounds j Hj) as (_ & ? & _). destruct (scanned_seg j Hj Hx) as (_ & Et & _). specialize (Htx Hc).
      rewrite C2, C1 by lia. apply P6; [done|done|lia|done].
Qed.

(** The copy of the bytes of segment [i]. *)
Lemma wp_copy i (Q : Z * pass2 -> list Z -> Prop) b r : seg i -> Z.of_nat (length r) = R ->
  (forall r' b', stored i r r' -> si b' = si b -> Q (u32 (seg_at i), b') r') ->
  wp (if exec i then
       if copy_text then d ← rd img (img_at + p_off i) (p_filesz i); wr reg_at d;; mret (u32 reg_at, b)
       else mret (u32 (img_at + p_off i), b)
     else
       let d := reg_at + T + u32 (p_vaddr i - rw_lo a) in
       x ← rd img (img_at + p_off i) (p_filesz i); wr d x;;
       mret (u32 d, {| b with data_v := p_vaddr i; data_fsz := p_filesz i; data_msz := p_memsz i |})) Q r.
Proof.
  intros Hs Hr HQ. pose proof (seg_bounds i Hs) as (B1 & B2 & B3 & B4 & B5). pose proof (contents_length i Hs) as Hlen.
  destruct (lay_facts Hh) as (Hspan & HT & Elm & Htx). pose proof (segs_length num (proj1 (po_num Hok))). pose proof (sc_nload _ _ Ha).
  assert (forall o, o = w_off i -> w_len i = p_filesz i -> 0 <= o -> o + p_filesz i <= R ->
            stored i r (overwrite r (Z.to_nat o) (contents i))) as Hst.
  { intros o Eo El Ho Hin. unfold stored. rewrite El, <- Eo. split; [apply changed_overwrite; lia|]. change (sl img _ _) with (contents i); apply sl_overwrite_same; lia. }
  unfold seg_at in HQ. unfold w_off, w_len in Hst. destruct (exec i) eqn:Hx.
  - destruct (scanned_seg i Hs Hx) as (_ & Et & _). destruct copy_text eqn:Hc.
    + specialize (Htx eq_refl). apply wp_bind, wp_rd_image; [lia..|]. change (sl img _ _) with (contents i).
      replace reg_at with (reg_at + 0) at 1 by lia. apply wp_bind, wp_wr; [lia|lia|]. apply wp_ret, HQ; [|done].
      apply Hst; try done; lia.
    + apply wp_ret, HQ; [|done]. unfold stored, w_len. rewrite Hx, Hc. cbn. by rewrite !sl_nil.
  - cbv zeta. destruct (rw_facts i Hs Hx) as [? ?]. apply wp_bind, wp_rd_image; [lia..|]. change (sl img _ _) with (contents i).
    rewrite (wrap_small 32 (p_vaddr i - rw_lo a)) by (unfold is_word, rw_off in *; destruct (sc_range _ _ Ha); lia).
    replace (reg_at + T + (p_vaddr i - rw_lo a)) with (reg_at + rw_off i) by (unfold rw_off; lia).
    apply wp_bind, wp_wr; [lia|lia|]. apply wp_ret, HQ; [|done]. apply Hst; try done; lia.
Qed.

Lemma place_step i b r : 0 <= i < num -> placed i b r ->
  wp (place img phs ent (reg_at + T) (reg_at + T + rw_a lay) (rw_lo a) copy_text i b)
    (or_else (fun _ _ => False) (placed (i + 1))) r.
Proof.
  intros Hi HP. unfold place. cbv zeta. apply wp_bind, (wp_ph i 0); [done|lia|lia|].
  destruct (Z.eqb_spec (ph_fld i 0) ELF_PT_LOAD) as [Hl|Hl]; cbn [negb].
  2: { apply wp_ret. apply placed_skip; [done|lia|done]. }
  assert (seg i) as Hs by done. pose proof (seg_bounds i Hs) as (B1 & B2 & B3 & B4 & B5).
  apply wp_bind, (wp_ph i 4); [done|lia|done|]. apply wp_bind, (wp_ph i 8); [done|lia|done|].
  apply wp_bind, (wp_ph i 16); [done|lia|done|]. apply wp_bind, (wp_ph i 20); [done|lia|done|].
  apply wp_bind, (wp_ph i 24); [done|lia|done|].
  change (ph_fld i 4) with (p_off i). change (ph_fld i 8) with (p_vaddr i). change (ph_fld i 16) with (p_filesz i).
  change (ph_fld i 20) with (p_memsz i). rewrite (proj2 (Z.ltb_ge _ _)) by lia.
  change (negb (Z.land (ph_fld i 24) ELF_PF_X =? 0)) with (exec i).
  apply wp_bind, wp_copy; [done|apply HP|]. intros r1 b1 Hst Hb1. pose proof (pl_len _ _ _ HP) as HR1.
  assert (segs (i + 1) = segs i ++ [i]) as Es by (rewrite segs_succ by lia; by rewrite decide_True).
  assert (lmo + 4 <= ent_off (length (segs i)) /\ ent_off (length (segs i)) + 12 <= R) as Hent.
  { apply (ent_in _ (i + 1) i); [lia|]. by rewrite Es, lookup_app_r, Nat.sub_diag. }
  destruct (lay_facts Hh) as (Hspan & HT & _).
  replace (reg_at + T + rw_a lay + 4 + si b1 * 12) with (reg_at + ent_off (length (segs i)))
    by (unfold ent_off; rewrite Hb1, (pl_si _ _ _ HP); lia).
  pose proof (proj1 (proj1 Hst)).
  apply wp_seq3, wp_wr3; [lia|lia|]. intros r2 C2 He. apply wp_ret. eapply placed_store; [exact HP|exact Hs|exact Hst|exact C2|exact He|cbn; lia].
Qed.

Lemma place_spec r : placed 0 (mk_p2 0 0 0 0) r ->
  wp (loop (place img phs ent (reg_at + T) (reg_at + T + rw_a lay) (rw_lo a) copy_text) (seqZ 0 num) (mk_p2 0 0 0 0))
    (or_else (fun _ _ => False) (placed num)) r.
Proof.
  intros H. apply (wp_loop _ _ (fun i b r => placed i b r)); [apply Hok| |done]. intros i b r' Hi HP. by apply place_step.
Qed.

(** ** The load map *)

Definition covers (j v : Z) : Prop := p_vaddr j <= v < p_vaddr j + p_memsz j.
Global Instance covers_dec j v : Decision (covers j v).
Proof. unfold covers. apply _. Defined.

Lemma le32_region o x r : 0 <= o -> o + 4 <= R -> Z.of_nat (length r) = R -> 0 <= x < 2 ^ 32 -> sl r o 4 = le_enc 4 x ->
  le32 img (reg_at + o) r = Some (x, r).
Proof.
  intros Ho Hin Hr Hx E. unfold le32, mbind, MO_bind. rewrite rd_region by (done || lia). rewrite E.
  cbn [mret MO_ret]. unfold mret, MO_ret. by rewrite le_enc_dec.
Qed.

Lemma rt_entry k j v l b r : placed num b r -> segs num !! k = Some j ->
  rt_from img (reg_at + T + rw_a lay) (Z.of_nat k :: l) v r =
  if decide (covers j v) then Some (u32 (seg_at j + (v - p_vaddr j)), r) else rt_from img (reg_at + T + rw_a lay) l v r.
Proof.
  intros HP Hk. destruct (segs_lookup num k j (proj1 (po_num Hok)) Hk) as [Hj Hl].
  pose proof (seg_bounds j ltac:(done)) as (_ & ? & _ & ? & ?). destruct (ent_in k num j ltac:(lia) Hk) as [E1 E2].
  destruct (lay_facts Hh) as (Hspan & HT & _). pose proof (pl_map _ _ _ HP k j Hk) as Hm. pose proof (pl_len _ _ _ HP) as Hr.
  assert (forall n x y z, n = ent_off k -> le_enc 4 x ++ le_enc 4 y ++ le_enc 4 z = sl r n 12 ->
            sl r n 4 = le_enc 4 x /\ sl r (n + 4) 4 = le_enc 4 y /\ sl r (n + 8) 4 = le_enc 4 z) as Hparts.
  { intros n x y z -> E. rewrite (sl_sub r _ 12 4 4), (sl_sub r _ 12 8 4) by lia.
    replace (sl r (ent_off k) 4) with (sl (sl r (ent_off k) 12) 0 4) by (rewrite <- sl_sub by lia; f_equal; lia). by rewrite <- E. }
  destruct (Hparts _ _ _ _ eq_refl (eq_sym Hm)) as (W1 & W2 & W3).
  cbn [rt_from]. cbv zeta. replace (reg_at + T + rw_a lay + 4 + Z.of_nat k * 12) with (reg_at + ent_off k) by (unfold ent_off; lia).
  replace (reg_at + ent_off k + 4) with (reg_at + (ent_off k + 4)) by lia.
  replace (reg_at + ent_off k + 8) with (reg_at + (ent_off k + 8)) by lia.
  unfold mbind, MO_bind. rewrite (le32_region (ent_off k) (u32 (seg_at j))) by (done || lia || by apply (wrap_range 32)).
  rewrite (le32_region (ent_off k + 4) (p_vaddr j)), (le32_region (ent_off k + 8) (p_memsz j)) by (done || lia).
  rewrite (wrap_small 32 (p_vaddr j + p_memsz j)) by (unfold is_word; lia).
  destruct (decide (covers j v)) as [Hc|Hc]; unfold covers in Hc.
  - rewrite (proj2 (Z.leb_le _ _)), (proj2 (Z.ltb_lt _ _)) by lia. cbn. unfold mret, MO_ret. do 2 f_equal.
    unfold wrap. rewrite Zplus_mod_idemp_l. done.
  - destruct (Z.leb_spec (p_vaddr j) v), (Z.ltb_spec v (p_vaddr j + p_memsz j)); cbn; try done. lia.
Qed.

Lemma rt_suffix v b r : placed num b r -> forall m k, (k + m)%nat = length (segs num) ->
  (exists k' j, (k <= k')%nat /\ segs num !! k' = Some j /\ covers j v /\
     rt_from img (reg_at + T + rw_a lay) (seqZ (Z.of_nat k) (Z.of_nat m)) v r = Some (u32 (seg_at j + (v - p_vaddr j)), r)) \/
  (forall k' j, (k <= k')%nat -> segs num !! k' = Some j -> ~ covers j v) /\
  rt_from img (reg_at + T + rw_a lay) (seqZ (Z.of_nat k) (Z.of_nat m)) v r = Some (0, r).
Proof.
  intros HP. induction m as [|m IH]; intros k Hk.
  - right. split; [|done]. intros k' j Hk' Hj. apply lookup_lt_Some in Hj. lia.
  - destruct (lookup_lt_is_Some_2 (segs num) k) as [j Hj]; [lia|]. rewrite seqZ_cons by lia.
    rewrite (rt_entry k j v _ b r HP Hj). replace (Z.pred (Z.of_nat (S m))) with (Z.of_nat m) by lia.
    replace (Z.succ (Z.of_nat k)) with (Z.of_nat (S k)) by lia. destruct (decide (covers j v)).
    + left. by exists k, j.
    + destruct (IH (S k) ltac:(lia)) as [(k' & j' & ? & ? & ? & ?)|[Hn E]]; [left; exists k', j'; split_and!; [lia|done..]|right].
      split; [|done]. intros k' j' Hk' Hj'. destruct (decide (k' = k)) as [->|]; [congruence|]. apply (Hn k'); [lia|done].
Qed.

Lemma rt_spec v b r : placed num b r ->
  (forall j, seg j -> covers j v -> fdpic_rt img (reg_at + T + rw_a lay) (nload a) v r = Some (u32 (seg_at j + (v - p_vaddr j)), r)) /\
  ((forall j, seg j -> ~ covers j v) -> fdpic_rt img (reg_at + T + rw_a lay) (nload a) v r = Some (0, r)).
Proof.
  intros HP. unfold fdpic_rt. rewrite (sc_nload _ _ Ha). pose proof (po_num Hok) as Hn.
  destruct (rt_suffix v b r HP (length (segs num)) 0 ltac:(lia)) as [(k & j & _ & Hk & Hc & E)|[Hnone E]].
  - change (Z.of_nat 0) with 0 in E. rewrite E. destruct (segs_lookup num k j ltac:(lia) Hk) as [Hj Hl]. split.
    + intros j' Hj' Hc'. destruct (decide (j = j')) as [->|Hne]; [done|].
      pose proof (po_disj Hok j j' ltac:(done) Hj' Hne). unfold covers in *. lia.
    + intros H. by destruct (H j ltac:(done)).
  - change (Z.of_nat 0) with 0 in E. split; [|done]. intros j [Hj Hl] Hc. destruct (segs_elem num j Hj Hl) as [k Hk].
    by destruct (Hnone k j ltac:(lia) Hk).
Qed.

(** Every segment is where the load map says, with its contents. *)
Record loaded (r : list Z) : Prop := {
  ld_map : forall j v, seg j -> covers j v ->
    fdpic_rt img (reg_at + T + rw_a lay) (nload a) v r = Some (u32 (seg_at j + (v - p_vaddr j)), r);
  ld_unmapped : forall v, (forall j, seg j -> ~ covers j v) -> fdpic_rt img (reg_at + T + rw_a lay) (nload a) v r = Some (0, r);
  ld_file : forall j, seg j -> rd img (seg_at j) (p_filesz j) r = Some (contents j, r);
  ld_bss : forall j, seg j -> exec j = false ->
    rd img (seg_at j + p_filesz j) (p_memsz j - p_filesz j) r = Some (zeros (p_memsz j - p_filesz j), r);
  ld_text_in : forall j, seg j -> exec j = true -> copy_text = true -> seg_at j + p_memsz j <= reg_at + T;
  ld_data_in : forall j, seg j -> exec j = false -> reg_at + T <= seg_at j /\ seg_at j + p_memsz j <= reg_at + T + rw_a lay;
  ld_map_in : T + rw_a lay + 4 + 12 * nload a <= R }.

Lemma placed_loaded b r : placed num b r -> loaded r.
Proof.
  intros HP. pose proof (pl_len _ _ _ HP) as Hr. destruct (lay_facts Hh) as (Hspan & HT & Elm & Htx). pose proof (po_num Hok) as Hn.
  pose proof (segs_length num ltac:(lia)). pose proof (sc_nload _ _ Ha). split.
  - intros j v. apply (rt_spec v b r HP).
  - intros v. apply (rt_spec v b r HP).
  - intros j Hj. pose proof (seg_bounds j Hj) as (B1 & B2 & B3 & B4 & B5). unfold seg_at. destruct (exec j) eqn:Hx.
    + destruct copy_text eqn:Hc.
      * destruct (scanned_seg j Hj Hx) as (_ & Et & _). specialize (Htx eq_refl).
        replace reg_at with (reg_at + 0) by lia. rewrite rd_region by (done || lia). do 2 f_equal. apply (pl_code _ _ _ HP); [done|done|apply Hj|done].
      * pose proof (wp_rd_image (p_off j) (p_filesz j) (fun x r' => x = contents j /\ r' = r) r B1 ltac:(lia) B3 ltac:(done)) as W.
        unfold wp in W. destruct (rd img _ _ r) as [[x r']|]; [|done]. by destruct W as [-> ->].
    + destruct (rw_facts j Hj Hx). rewrite rd_region by (done || lia). do 2 f_equal. by apply (pl_data _ _ _ HP j Hj (proj2 (proj1 Hj)) Hx).
  - intros j Hj Hx. pose proof (seg_bounds j Hj) as (B1 & B2 & B3 & B4 & B5). unfold seg_at. rewrite Hx.
    destruct (rw_facts j Hj Hx). rewrite <- Z.add_assoc. rewrite rd_region by (done || lia). do 2 f_equal.
    by apply (pl_data _ _ _ HP j Hj (proj2 (proj1 Hj)) Hx).
  - intros j Hj Hx Hc. unfold seg_at. rewrite Hx, Hc. destruct (scanned_seg j Hj Hx) as (_ & Et & _). specialize (Htx Hc). 
    rewrite Hc in Htx. lia.
  - intros j Hj Hx. unfold seg_at. rewrite Hx. destruct (rw_facts j Hj Hx). lia.
  - lia.
Qed.

(** The region before pass 2. *)
Lemma wp_clear r (Q : unit -> list Z -> Prop) : Z.of_nat (length r) = R ->
  (forall r', placed 0 (mk_p2 0 0 0 0) r' -> Q tt r') ->
  wp ((if 0 <? rw_span lay then wr (reg_at + T) (replicate (Z.to_nat (rw_span lay)) 0) else mret tt);;
      wr (reg_at + T + rw_a lay) (le_enc 2 0);; wr (reg_at + T + rw_a lay + 2) (le_enc 2 (nload a))) Q r.
Proof.
  intros Hr HQ. destruct (lay_facts Hh) as (Hspan & HT & Elm & _). pose proof (sc_nload _ _ Ha).
  replace (reg_at + T + rw_a lay) with (reg_at + lmo) by lia. replace (reg_at + lmo + 2) with (reg_at + (lmo + 2)) by lia.
  assert (forall r', length r' = length r -> sl r' T (rw_span lay) = zeros (rw_span lay) ->
    wp (wr (reg_at + lmo) (le_enc 2 0);; wr (reg_at + (lmo + 2)) (le_enc 2 (nload a))) Q r') as Hhead.
  { intros r' Hl Hz. set (r1 := overwrite r' (Z.to_nat lmo) (le_enc 2 0)).
    assert (changed lmo 2 r' r1) as C1 by (apply changed_overwrite; rewrite ?le_enc_length; lia).
    set (r2 := overwrite r1 (Z.to_nat (lmo + 2)) (le_enc 2 (nload a))).
    assert (changed (lmo + 2) 2 r1 r2) as C2 by (apply changed_overwrite; rewrite ?le_enc_length, ?(proj1 C1); lia).
    apply wp_bind, wp_wr; [lia|rewrite le_enc_length; lia|]. fold r1.
    apply wp_wr; [lia|rewrite le_enc_length, (proj1 C1); lia|]. fold r2. apply HQ.
    split; try done; try (intros; lia).
    - rewrite (proj1 C2), (proj1 C1). lia.
    - intros j [Hj _] ?. lia.
    - intros j Hj _ Hx. destruct (rw_facts j Hj Hx). pose proof (seg_bounds j Hj) as (_ & ? & _).
      rewrite (proj2 C2), (proj2 C1) by lia. replace (rw_off j) with (T + (rw_off j - T)) by lia.
      by apply (sl_zeros _ _ (rw_span lay)); [lia..|].
    - intros _ j [Hj _]. lia. }
  assert (length (replicate (Z.to_nat (rw_span lay)) 0) = Z.to_nat (rw_span lay)) as Hrep by apply length_replicate.
  apply wp_bind. destruct (Z.ltb_spec 0 (rw_span lay)).
  - apply wp_wr; [lia|lia|]. apply Hhead; [apply overwrite_length; lia|]. unfold zeros; apply sl_overwrite_same; lia.
  - apply wp_ret, Hhead; [done|]. rewrite sl_nil by lia. unfold zeros. by replace (Z.to_nat (rw_span lay)) with 0%nat by lia.
Qed.
End layout.
End image.

(** What the passes over the program headers leave. *)
Definition segments_post {SP : Space} (img : list Z) (phs ent num : Z) (copy_text : bool) (r : list Z)
    (res : Z + (pass1 * layout * pass2)) (r' : list Z) : Prop :=
  length r' = length r /\
  match res with
  | inl e => e = OVE_ERR_INVALID_PARAM /\ (forall j, seg img phs ent num j -> exec img phs ent j = false) \/
      e = OVE_ERR_NO_MEMORY /\ exists a, scanned img phs ent num num a /\
        let l := lay_out a copy_text in Z.of_nat (length r) < text_a l + rw_a l + loadmap_sz l
  | inr (a, l, _) => l = lay_out a copy_text /\ scanned img phs ent num num a /\ have_text a = true /\
      loaded img phs ent num copy_text (Z.of_nat (length r)) a r'
  end.

Lemma load_segments_spec {SP : Space} (img : list Z) (phs ent num : Z) (copy_text : bool) (r : list Z) :
  Forall (is_word 8) img -> program_ok img phs ent num -> space_ok img (Z.of_nat (length r)) ->
  wp (load_segments img phs ent num copy_text) (segments_post img phs ent num copy_text r) r.
Proof.
  intros Himg Hok HS. unfold load_segments. apply wp_bind, wp_gets. apply wp_bind. eapply wp_mono; [by apply scan_spec|].
  intros [e|a] r' H; [done|]. destruct H as [Ha ->]. pose proof Ha as [Hn Ht Hhv Hrw Hrg _].
  destruct (have_text a) eqn:Hh; cbn [negb orb].
  2: { apply wp_ret. split; [done|]. left. split; [done|]. intros j [Hj Hl]. destruct (exec img phs ent j) eqn:Hx; [|done].
       by destruct (Ht j Hj Hl Hx). }
  destruct (Z.ltb_spec (nload a) 1) as [Hz|_].
  { destruct (Hhv eq_refl) as (t & Htr & Hl & Hx). destruct (segs_elem img phs ent num t Htr Hl) as [k Hk].
    apply lookup_lt_Some in Hk. lia. }
  cbv zeta. destruct (Z.ltb_spec (Z.of_nat (length r)) (text_a (lay_out a copy_text) + rw_a (lay_out a copy_text) + loadmap_sz (lay_out a copy_text))) as [Hsm|Hfit].
  { apply wp_ret. split; [done|]. right. split; [done|]. by exists a. }
  apply wp_seq3. eapply (wp_clear img phs ent num copy_text Himg Hok _ a Ha Hh Hfit r); [done|].
  intros r1 HP. apply wp_bind. eapply wp_mono; [by apply (place_spec img phs ent num copy_text Himg Hok _ a Ha Hh Hfit)|].
  intros [e|b] r2 H2; [done|]. apply wp_ret. split; [apply Nat2Z.inj, H2|]. split; [done|]. split; [done|]. split; [done|].
  by eapply (placed_loaded img phs ent num copy_text Himg Hok _ HS a Ha Hh Hfit).
Qed.

(** C12.  For a well-formed FDPIC program the loader's passes over the program
    headers return without an access outside image and region.  They refuse
    a program with no executable segment, or one that does not fit;
    otherwise the load map resolves every address of a segment to its place
    and every other address to 0, each segment's file contents are there
    (the text in the image, or at the head of the region), a writable
    segment is zero past them, and text, data and load map do not overlap. *)
Theorem fdpic_segments_loaded {SP : Space} (img : list Z) (phs ent num : Z) (copy_text : bool) (r : list Z) :
  Forall (is_word 8) img -> program_ok img phs ent num -> space_ok img (Z.of_nat (length r)) ->
  wp (load_segments img phs ent num copy_text) (segments_post img phs ent num copy_text r) r.
Proof. apply load_segments_spec. Qed.

(** ** The whole load *)

Section whole.
Context {SP : Space} (img : list Z) (Himg : Forall (is_word 8) img) (copy_text : bool).

Definition half (bs : list Z) (o : Z) : Z := le_dec (sl bs o 2).
Definition e_entry : Z := word img 24.
Definition e_phoff : Z := word img 28.
Definition e_phentsize : Z := half img 42.
Definition e_phnum : Z := half img 44.
Abbreviation seg := (seg img e_phoff e_phentsize e_phnum).
Abbreviation p_vaddr := (p_vaddr img e_phoff e_phentsize).
Abbreviation p_memsz := (p_memsz img e_phoff e_phentsize).
Abbreviation p_filesz := (p_filesz img e_phoff e_phentsize).
Abbreviation seg_at := (seg_at img e_phoff e_phentsize copy_text).

(** The dynamic table lies in the file contents of a segment. *)
Definition dynamic_ok : Prop := forall d, 0 <= d < e_phnum -> ph_fld img e_phoff e_phentsize d 0 = ELF_PT_DYNAMIC ->
  exists j, seg j /\ p_vaddr j <= p_vaddr d /\ 0 < p_memsz d /\ p_vaddr d + p_memsz d <= p_vaddr j + p_filesz j.

Context (Hok : program_ok img e_phoff e_phentsize e_phnum) (R : Z) (HS : space_ok img R) (Hdyn : dynamic_ok).

Lemma wp_header (Q : Z + (Z * Z * Z * Z) -> list Z -> Prop) r :
  (forall e, e = OVE_ERR_INVALID_PARAM \/ e = OVE_ERR_NOT_SUPPORTED -> Q (inl e) r) ->
  Q (inr (e_entry, e_phoff, e_phentsize, e_phnum)) r -> wp (header img) Q r.
Proof.
  intros He HQ. unfold header. destruct (Z.ltb_spec (image_size img) 52); [apply wp_ret, He; by left|].
  destruct (bool_decide _); cbn [negb]; [|apply wp_ret, He; by left].
  assert (forall o (k : Z -> MO (list Z) (Z + (Z * Z * Z * Z))), 0 <= o -> o + 2 <= image_size img ->
    wp (k (half img o)) Q r -> wp (x ← le16 img (img_at + o); k x) Q r) as H16.
  { intros o k Ho Hin Hk. apply wp_bind. unfold le16. apply wp_bind, wp_rd_image; [lia..|]. by apply wp_ret. }
  assert (forall o (k : Z -> MO (list Z) (Z + (Z * Z * Z * Z))), 0 <= o -> o + 4 <= image_size img ->
    wp (k (word img o)) Q r -> wp (x ← le32 img (img_at + o); k x) Q r) as H32.
  { intros o k Ho Hin Hk. apply wp_bind. unfold le32. apply wp_bind, wp_rd_image; [lia..|]. by apply wp_ret. }
  apply H16; [lia..|]. apply H16; [lia..|]. destruct (negb _ || negb _); [apply wp_ret, He; by left|].
  destruct (lookup_lt_is_Some_2 img 7) as [osabi Ho]; [unfold image_size in *; lia|].
  apply wp_bind. eapply wp_lift; [exact Ho|]. apply H32; [lia..|]. destruct (negb _ && _); [apply wp_ret, He; by right|].
  apply H32; [lia..|]. apply H32; [lia..|]. apply H16; [lia..|]. apply H16; [lia..|].
  destruct (_ <? _); apply wp_ret; [apply He; by left|done].
Qed.

Section found.
Context (a : pass1) (Ha : scanned img e_phoff e_phentsize e_phnum e_phnum a) (Hh : have_text a = true) (r : list Z) (Hr : Z.of_nat (length r) = R).
Context (HL : loaded img e_phoff e_phentsize e_phnum copy_text R a r).
Abbreviation lm := (reg_at + text_a (lay_out a copy_text) + rw_a (lay_out a copy_text)).

Lemma wp_rt v (Q : Z -> list Z -> Prop) : (forall x, fdpic_rt img lm (nload a) v r = Some (x, r) -> Q x r) ->
  wp (fdpic_rt img lm (nload a) v) Q r.
Proof.
  intros HQ. unfold wp.
  destruct (decide (Exists (fun j => covers img e_phoff e_phentsize j v) (segs img e_phoff e_phentsize e_phnum))) as [(j & Hj & Hc)%Exists_exists|Hn].
  - apply list_elem_of_lookup in Hj as [k Hk]. apply segs_lookup in Hk; [|apply Hok].
    rewrite (ld_map _ _ _ _ _ _ _ _ HL j v Hk Hc). apply HQ. by apply (ld_map _ _ _ _ _ _ _ _ HL).
  - assert (forall j, seg j -> ~ covers img e_phoff e_phentsize j v) as Hno.
    { intros j [Hj Hl] Hc. apply Hn, Exists_exists. exists j. split; [|done]. apply list_elem_of_lookup. by apply segs_elem. }
    rewrite (ld_unmapped _ _ _ _ _ _ _ _ HL v Hno). apply HQ. by apply (ld_unmapped _ _ _ _ _ _ _ _ HL).
Qed.

(** Part of a segment's file contents is readable. *)
Lemma wp_rd_seg j o n (Q : list Z -> list Z -> Prop) : seg j -> 0 <= o -> 0 <= n -> o + n <= p_filesz j ->
  (forall b, length b = Z.to_nat n -> Q b r) -> wp (rd img (seg_at a j + o) n) Q r.
Proof.
  intros Hj Ho Hn Hin HQ. pose proof (seg_bounds img e_phoff e_phentsize e_phnum Himg Hok j Hj) as (B1 & B2 & B3 & B4 & B5).
  unfold FdpicLoad.seg_at. pose proof (ld_map_in _ _ _ _ _ _ _ _ HL). pose proof (sc_nload _ _ _ _ _ _ Ha).
  pose proof (lay_facts img e_phoff e_phentsize e_phnum copy_text Himg Hok a Ha Hh) as (? & ? & _ & _).
  destruct (exec img e_phoff e_phentsize j) eqn:Hx; [destruct copy_text eqn:Hc|].
  - pose proof (ld_text_in _ _ _ _ _ _ _ _ HL j Hj Hx eq_refl) as Ht. unfold FdpicLoad.seg_at in Ht. rewrite Hx in Ht.
    apply (wp_rd_region img R HS); [lia..|]. apply HQ, sl_length; lia.
  - rewrite <- Z.add_assoc. apply wp_rd_image; [lia..|]. apply HQ, sl_length; unfold image_size in *; lia.
  - destruct (rw_facts img e_phoff e_phentsize e_phnum copy_text Himg Hok a Ha j Hj Hx) as [? ?].
    rewrite <- Z.add_assoc. apply (wp_rd_region img R HS); [lia..|]. apply HQ, sl_length; lia.
Qed.

Lemma wp_dyn_walk j o0 sz (Q : dyn -> list Z -> Prop) : seg j -> 0 <= o0 -> sz < 2 ^ 32 - 8 -> o0 + sz <= p_filesz j -> (forall d, Q d r) ->
  forall fuel o d, 0 <= o -> (Z.to_nat (sz / 8) < fuel + Z.to_nat (o / 8))%nat -> o mod 8 = 0 -> o <= sz ->
  wp (dyn_walk img fuel (seg_at a j + o0) o sz d) Q r.
Proof.
  intros Hj Ho0 Hsz Hin HQ. induction fuel as [|fuel IH]; intros o d Ho Hf Hm Hle.
  - assert (o / 8 <= sz / 8) by (apply Z.div_le_mono; lia). lia.
  - cbn [dyn_walk]. rewrite wrap_small by (unfold is_word; lia). destruct (Z.ltb_spec sz (o + 8)); [by apply wp_ret|].
    unfold le32. rewrite <- !Z.add_assoc.
    apply wp_bind, wp_bind, (wp_rd_seg j); [done|lia..|]. intros b1 _. apply wp_ret.
    apply wp_bind, wp_bind, (wp_rd_seg j); [done|lia..|]. intros b2 _. apply wp_ret.
    destruct (_ =? ELF_DT_NULL); [by apply wp_ret|]. apply IH; try lia.
    + replace (o + 8) with (o + 1 * 8) by lia. rewrite Z.div_add by lia.
      assert (0 <= o / 8) by (apply Z.div_pos; lia). lia.
    + replace (o + 8) with (o + 1 * 8) by lia. by rewrite Z.mod_add by lia.
Qed.

(** The address of the dynamic table. *)
Lemma dyn_at : dyn_off a <> 0 -> exists j o, seg j /\ 0 <= o /\ 0 < dyn_sz a < 2 ^ 32 - 8 /\ o + dyn_sz a <= p_filesz j /\
  fdpic_rt img lm (nload a) (dyn_off a) r = Some (seg_at a j + o, r).
Proof.
  intros Hne. destruct (sc_dyn _ _ _ _ _ _ Ha) as [?|(d & Hd & Ht & E1 & E2)]; [done|].
  destruct (Hdyn d Hd Ht) as (j & Hj & Hlo & Hpos & Hhi).
  pose proof (seg_bounds img e_phoff e_phentsize e_phnum Himg Hok j Hj) as (B1 & B2 & B3 & B4 & B5).
  exists j, (p_vaddr d - p_vaddr j). rewrite E1, E2. split_and!; try done; try lia.
  rewrite (ld_map _ _ _ _ _ _ _ _ HL j); [|done|unfold covers; lia]. do 2 f_equal. apply wrap_small. unfold is_word.
  destruct HS as (S1 & S2 & S3 & S4 & S5). pose proof (sc_nload _ _ _ _ _ _ Ha).
  pose proof (lay_facts img e_phoff e_phentsize e_phnum copy_text Himg Hok a Ha Hh) as (? & ? & _ & _).
  pose proof (ld_map_in _ _ _ _ _ _ _ _ HL). unfold FdpicLoad.seg_at. destruct (exec img e_phoff e_phentsize j) eqn:Hx; [destruct copy_text eqn:Hc|].
  - pose proof (ld_text_in _ _ _ _ _ _ _ _ HL j Hj Hx eq_refl) as Ht'. unfold FdpicLoad.seg_at in Ht'. rewrite Hx in Ht'. lia.
  - lia.
  - destruct (rw_facts img e_phoff e_phentsize e_phnum copy_text Himg Hok a Ha j Hj Hx) as [? ?]. lia.
Qed.
End found.
End whole.

End FdpicLoad.

Module FdpicDemo.
Import Loader Fdpic FdpicLoad.

Global Instance board : Space := {| img_at := 268435456; reg_at := 536870912 |}.

Definition phdr32 (type off vaddr filesz memsz flags : Z) : list Z :=
  le_enc 4 type ++ le_enc 4 off ++ le_enc 4 vaddr ++ le_enc 4 vaddr ++ le_enc 4 filesz ++ le_enc 4 memsz ++ le_enc 4 flags ++ le_enc 4 4.

(** Text with one relocation at 148, data at 4096 with the word [w] and a
    dynamic table whose DT_RELENT is [ent]. *)
Definition program (w ent : Z) : list Z :=
  [127; 69; 76; 70; 1; 1; 1; 65; 0; 0; 0; 0; 0; 0; 0; 0] ++ le_enc 2 3 ++ le_enc 2 40 ++ le_enc 4 1 ++ le_enc 4 149 ++ le_enc 4 52 ++
  le_enc 4 0 ++ le_enc 4 0 ++ le_enc 2 52 ++ le_enc 2 32 ++ le_enc 2 3 ++ le_enc 2 0 ++ le_enc 2 0 ++ le_enc 2 0 ++
  phdr32 1 0 0 156 156 5 ++ phdr32 1 156 4096 44 64 6 ++ phdr32 2 160 4100 40 40 6 ++
  le_enc 4 4096 ++ le_enc 4 23 ++ le_enc 4 w ++
  le_enc 4 17 ++ le_enc 4 148 ++ le_enc 4 18 ++ le_enc 4 8 ++ le_enc 4 19 ++ le_enc 4 ent ++ le_enc 4 3 ++ le_enc 4 4096 ++ le_enc 4 0 ++ le_enc 4 0.
Definition good : list Z := program 4104 8.
Definition empty : list Z := replicate 128 0.

Definition run (img : list Z) (is_interp copy_text : bool) (r : list Z) : option (Z * option Z * Z) :=
  match ove_loader_load_fdpic img is_interp copy_text r with
  | Some (rc, p, r') => Some (rc, entry <$> p, word r' (if copy_text then 160 else 0))
  | None => None
  end.

(** A static program gets its pointer rebased, an interpreter does not; a
    small region is refused. *)
Example fdpic_runs :
  run good false false empty = Some (OVE_OK, Some (268435456 + 149), 536870912 + 8) /\
  run good true false empty = Some (OVE_OK, Some (268435456 + 149), 4104) /\
  run good false true (replicate 288 0) = Some (OVE_OK, Some (536870912 + 149), 536870912 + 160 + 8) /\
  run good false false (replicate 91 0) = Some (OVE_ERR_NO_MEMORY, None, 0).
Proof. by vm_compute. Qed.

(** A DT_RELENT of 0 is not refused, and the relocation loop never ends. *)
Lemma relent_zero_never_returns {SP : Space} img lm nseg d rel0 got pool max_fd fuel used r : rel_ent d = 0 -> 0 <= rel_sz d ->
  reloc_loop img lm nseg d rel0 got pool max_fd fuel 0 used r = None.
Proof.
  intros He Hs. revert used r. induction fuel as [|fuel IH]; intros used r; [done|]. cbn [reloc_loop]. rewrite He.
  change (u32 (0 + 0)) with 0. rewrite (proj2 (Z.ltb_ge _ _)) by done. unfold mbind at 1, MO_bind.
  destruct (relocate _ _ _ _ _ _ _ _ _ _ _ r) as [[u r']|]; [apply IH|done].
Qed.

Example relent_zero : run (program 4104 0) false false empty = None.
Proof. by vm_compute. Qed.

Lemma good_bytes32 : Forall (is_word 8) good.
Proof.
  apply (Forall_impl (fun b => ((0 <=? b) && (b <? 256) : bool))).
  - apply forallb_True. by vm_compute.
  - intros b Hb%Is_true_true. apply andb_true_iff in Hb as [H0%Z.leb_le H1%Z.ltb_lt]. split; [exact H0|exact H1].
Defined.

Lemma good_segs i : seg good 52 32 3 i -> i = 0 \/ i = 1.
Proof.
  intros [Hi Hl]. assert (i = 0 \/ i = 1 \/ i = 2) as [-> | [-> | ->]] by lia; [by left|by right|]. by vm_compute in Hl.
Defined.

Lemma good_program : program_ok good 52 32 3.
Proof.
  split.
  - done.
  - done.
  - done.
  - by vm_compute.
  - intros i [-> | ->]%good_segs; by vm_compute.
  - intros i [-> | ->]%good_segs; by vm_compute.
  - intros i j [-> | ->]%good_segs [-> | ->]%good_segs H; try done; [left|right]; by vm_compute.
  - intros i j [-> | ->]%good_segs [-> | ->]%good_segs; by vm_compute.
Defined.

Lemma good_space n : 0 <= n <= 1024 -> space_ok good n.
Proof. intros Hn. unfold space_ok. change (image_size good) with 200. cbn. lia. Defined.

Lemma good_dynamic : dynamic_ok good.
Proof.
  intros d Hd Ht. change (e_phnum good) with 3 in Hd.
  assert (d = 0 \/ d = 1 \/ d = 2) as [-> | [-> | ->]] by lia; [by vm_compute in Ht..|].
  exists 1. split; [by vm_compute|]. by vm_compute.
Defined.

Lemma fdpic_segments_loaded_witness :
  wp (load_segments good 52 32 3 false) (segments_post good 52 32 3 false empty) empty.
Proof.
  exact (fdpic_segments_loaded good 52 32 3 false empty good_bytes32 good_program (good_space 128 ltac:(lia))).
Defined.

End FdpicDemo.
