(* ===== verification/Storage.v ===== *)
(** * The storage provider (backends/common/lxp_ove_storage_adapter.c)

    File-system and raw-block requests served by one worker: the table of
    open files and directories, mounting, byte access to a device of blocks,
    and the admission of requests.  A request runs to its end before the
    next ([g_submit_lock] and the single worker), so it is a function on the
    provider's state.  The native file system is a class, the raw block
    handle is [Block] of [Media]. *)

From S2P Require Import Prelude Media.

Definition OVE_ERR_EOF : Z := -19.
Definition OVE_ERR_NOT_DIR : Z := -25.
Definition OVE_ERR_IS_DIR : Z := -26.
Definition OVE_ERR_IO : Z := -29.
Definition OVE_ERR_BAD_HANDLE : Z := -32.

Module Storage.
Import Media Block.

Definition LXP_OVE_FS_IO_CHUNK : Z := 4096.
Definition SECTOR_MAX : Z := 4096.
Definition OVE_FS_O_READ : Z := 1.
Definition OVE_FS_O_WRITE : Z := 2.
Definition OVE_FS_O_CREATE : Z := 4.
Definition OVE_FS_O_APPEND : Z := 8.
Definition OVE_FS_O_TRUNC : Z := 16.
Definition OVE_FS_O_EXCL : Z := 32.
Definition OVE_FS_SEEK_SET : Z := 0.
Definition OVE_FS_SEEK_CUR : Z := 1.
Definition OVE_FS_SEEK_END : Z := 2.
Definition O_ALL : Z := 63.

Record volume := mk_volume { first_block : Z; vol_block_count : Z; vol_block_size : Z; partition : Z }.
Record ove_fs_stat := mk_stat { st_size : Z; mtime_sec : Z; is_dir : bool }.
Record ove_fs_statvfs := mk_vfs {
  blocks : Z; blocks_free : Z; blocks_available : Z; files : Z; files_free : Z; block_size : Z; fragment_size : Z; name_max : Z }.
Record ove_dirent := mk_dirent { d_name : list Z; d_size : Z; d_is_dir : bool }.

(** The native file system (include/ove/fs.h) over a world [W]; a mount of
    [None] is [ove_fs_mount].  A read returns the bytes it delivered. *)
Class HostFs (W native : Type) := {
  ove_fs_mount : option volume -> W -> Z * W;
  ove_fs_unmount : W -> W;
  ove_fs_volume_stat : W -> Z * ove_fs_statvfs * W;
  ove_fs_path_stat : list Z -> W -> Z * ove_fs_stat * W;
  ove_fs_open_init : list Z -> Z -> W -> Z * native * W;
  ove_fs_close_deinit : native -> W -> Z * W;
  ove_fs_read : native -> Z -> W -> Z * list Z * W;
  ove_fs_write : native -> list Z -> W -> Z * Z * W;
  ove_fs_size : native -> W -> Z * Z * W;
  ove_fs_seek : native -> Z -> Z -> W -> Z * W;
  ove_fs_tell : native -> W -> Z * W;
  ove_fs_truncate : native -> Z -> W -> Z * W;
  ove_fs_sync : native -> W -> Z * W;
  ove_fs_opendir_init : list Z -> W -> Z * native * W;
  ove_fs_readdir : native -> W -> Z * ove_dirent * W;
  ove_fs_closedir_deinit : native -> W -> Z * W;
  ove_fs_mkdir : list Z -> W -> Z * W;
  ove_fs_rmdir : list Z -> W -> Z * W;
  ove_fs_unlink : list Z -> W -> Z * W;
  ove_fs_rename : list Z -> list Z -> W -> Z * W }.

(** [LXP_FS_NAME_MAX] of the lxp headers. *)
Class Limits := { LXP_FS_NAME_MAX : nat }.

Section storage.
Context {LI : Limits} {W native : Type} {HF : HostFs W native}.
Context {B : Type}.
Context (get_info : B -> Z * ove_block_info * B) (backend_read : B -> Z -> Z -> Z * list Z * B)
        (backend_write : B -> Z -> Z -> list Z -> Z * B) (backend_sync : B -> Z * B).

(** A slot of the handle table; the handle of an object is its slot. *)
Inductive fs_handle_slot := SFree | SFile (n : native) | SDir (n : native).

(** A call on a native object: opened, closed with a result, or used. *)
Inductive fscall := COpen (o : fs_handle_slot) | CClose (o : fs_handle_slot) (rc : Z) | CUse (o : fs_handle_slot).

Record st := mk_st {
  g_handles : list fs_handle_slot; g_mounted : bool; g_mount_volume : option volume;
  g_raw_block : ove_block; g_block_info : option ove_block_info;
  bdev : dev (B := B); g_io_buffer : list Z; fs : W; fscalls : list fscall }.
Abbreviation ST := (MO st).

(** Calls into the native file system and the block device. *)
Definition fsdo {A} (f : W -> A * W) : ST A := fun s =>
  let '(a, w) := f (fs s) in Some (a, {| s with fs := w |}).
Definition fslog (c : fscall) : ST unit := omodify (fun s => {| s with fscalls := fscalls s ++ [c] |}).
Definition on_obj {A} (o : fs_handle_slot) (f : W -> A * W) : ST A := fslog (CUse o);; fsdo f.
Definition bdo {A} (f : dev -> A * dev) : ST A := fun s =>
  let '(a, d) := f (bdev s) in Some (a, {| s with bdev := d |}).

(** ** The handle table *)

Definition file_slot (h : option nat) : ST (option (nat * native)) := fun s =>
  Some (match h with
        | Some i => match g_handles s !! i with Some (SFile n) => Some (i, n) | _ => None end
        | None => None
        end, s).
Definition dir_slot (h : option nat) : ST (option (nat * native)) := fun s =>
  Some (match h with
        | Some i => match g_handles s !! i with Some (SDir n) => Some (i, n) | _ => None end
        | None => None
        end, s).
Definition is_free (o : fs_handle_slot) : bool := match o with SFree => true | _ => false end.
Definition free_slot : ST (option nat) := ogets (fun s => fst <$> list_find (fun o => is_free o = true) (g_handles s)).
Definition handles_open : ST bool := ogets (fun s => existsb (fun o => negb (is_free o)) (g_handles s)).
Definition set_slot (i : nat) (o : fs_handle_slot) : ST unit := fun s =>
  l ← ostore (g_handles s) i o; Some (tt, {| s with g_handles := l |}).

Definition ensure_mounted : ST Z :=
  m ← ogets g_mounted;
  if (m : bool) then mret OVE_OK else
  v ← ogets g_mount_volume; rc ← fsdo (ove_fs_mount v);
  if negb (rc =? OVE_OK) then mret rc else
  omodify (fun s => {| s with g_mounted := true |});; mret OVE_OK.

Definition set_info (o : option ove_block_info) : ST unit := omodify (fun s => {| s with g_block_info := o |}).

(** ** Bytes of the block device *)

(** The error, or the geometry that is now valid. *)
Definition refresh_block_info : ST (Z + ove_block_info) :=
  '(rc, info) ← bdo (ove_block_get_info get_info);
  if negb (rc =? OVE_OK) then set_info None;; mret (inl rc) else
  if (logical_block_size info =? 0) || (SECTOR_MAX <? logical_block_size info) || (block_count info =? 0)
  then set_info None;; mret (inl OVE_ERR_INVALID_PARAM)
  else set_info (Some info);; mret (inr info).

Definition UINT64_MAX : Z := 2 ^ 64 - 1.

Definition block_bounds (offset count : Z) : ST (Z + ove_block_info) :=
  o ← ogets g_block_info;
  r ← match o with Some info => mret (inr info) | None => refresh_block_info end;
  match r with
  | inl rc => mret (inl rc)
  | inr info =>
      if UINT64_MAX / logical_block_size info <? block_count info then mret (inl OVE_ERR_INVALID_PARAM) else
      let size := block_count info * logical_block_size info in
      mret (if (offset <=? size) && (count <=? size - offset) then inr info else inl OVE_ERR_INVALID_PARAM)
  end.

(** The piece of a transfer inside one block. *)
Definition chunk (size offset count : Z) : Z := Z.min (size - offset mod size) count.

(** The bytes read so far follow the result. *)
Fixpoint read_loop (fuel : nat) (h : ove_block) (size offset count : Z) (out : list Z) : ST (Z * list Z) :=
  match fuel with
  | O => ofail
  | S fuel =>
      if count =? 0 then mret (OVE_OK, out) else
      let n := chunk size offset count in
      let within := offset mod size in
      '(rc, data) ← bdo (fun d => ove_block_read get_info backend_read d h (offset / size) 1);
      if negb (rc =? OVE_OK) then mret (rc, out) else
      read_loop fuel h size (offset + n) (count - n) (out ++ take (Z.to_nat n) (drop (Z.to_nat within) data))
  end.

Definition raw_active : ST bool := ogets (fun s => active (blease (g_raw_block s))).
Definition raw_writer : ST bool := ogets (fun s => active (blease (g_raw_block s)) && negb (Z.land (bflags (g_raw_block s)) OVE_BLOCK_OPEN_WRITE =? 0)).
Definition new_handle : ove_block := mk_block no_lease 0.

Definition block_read_bytes (offset count : Z) : ST (Z * list Z) :=
  r ← block_bounds offset count;
  match r with
  | inl rc => mret (rc, [])
  | inr info =>
      if count =? 0 then mret (OVE_OK, []) else
      a ← raw_active;
      let go h := read_loop (S (Z.to_nat count)) h (logical_block_size info) offset count [] in
      let finish (r : Z * list Z) := (if negb (r.1 =? OVE_OK) then set_info None else mret tt);; mret r in
      if (a : bool) then h ← ogets g_raw_block; r ← go h; finish r
      else
        '(rc, h) ← bdo (fun d => ove_block_open get_info d new_handle 0);
        if negb (rc =? OVE_OK) then mret (rc, []) else
        r ← go h; h ← bdo (fun d => ove_block_close backend_sync d h); finish r
  end.

Fixpoint write_loop (fuel : nat) (size offset : Z) (src : list Z) : ST Z :=
  match fuel with
  | O => ofail
  | S fuel =>
      let count := Z.of_nat (length src) in
      if count =? 0 then mret OVE_OK else
      let n := chunk size offset count in
      let within := offset mod size in
      let block := offset / size in
      let piece := take (Z.to_nat n) src in
      h ← ogets g_raw_block;
      rc ← (if (within =? 0) && (n =? size) then bdo (fun d => ove_block_write get_info backend_write d h block 1 piece)
            else
              '(rc, data) ← bdo (fun d => ove_block_read get_info backend_read d h block 1);
              if negb (rc =? OVE_OK) then mret rc else
              bdo (fun d => ove_block_write get_info backend_write d h block 1 (overwrite data (Z.to_nat within) piece)));
      if negb (rc =? OVE_OK) then set_info None;; mret rc else
      write_loop fuel size (offset + n) (drop (Z.to_nat n) src)
  end.

Definition block_write_bytes (offset : Z) (src : list Z) : ST Z :=
  r ← block_bounds offset (Z.of_nat (length src));
  match r with
  | inl rc => mret rc
  | inr info =>
      if Z.of_nat (length src) =? 0 then mret OVE_OK else
      w ← raw_writer;
      if negb w then mret OVE_ERR_PERMISSION else
      write_loop (S (length src)) (logical_block_size info) offset src
  end.

(** ** Requests *)

(** A path or an output pointer may be NULL: [None], [false]. *)
Inductive fs_request :=
  | Mount (spec : option volume) | Unmount | Stop
  | VolumeStat (out : bool) | FileOpen (path : option (list Z)) (flags : Z) (out : bool)
  | ObjectOpen (path : option (list Z)) (flags : Z) (require_dir out : bool)
  | FileClose (file : option nat) | FileRead (file : option nat) (count : Z) | FileWrite (file : option nat) (count : Z)
  | FilePread (file : option nat) (count offset : Z) | FilePwrite (file : option nat) (count offset : Z)
  | FileSeek (file : option nat) (offset whence : Z) (out : bool) | FileStat (file : option nat) (out : bool)
  | FileTruncate (file : option nat) (length : Z) | FileSync (file : option nat)
  | DirOpen (path : option (list Z)) (out : bool) | DirRead (dir : option nat) (out : bool) | DirClose (dir : option nat)
  | PathStat (path : option (list Z)) (out : bool) | PathMkdir (path : option (list Z)) | PathRmdir (path : option (list Z))
  | PathUnlink (path : option (list Z)) | PathRename (old_path new_path : option (list Z))
  | BlockInfo (out : bool) | BlockRead (offset count : Z) | BlockWrite (offset count : Z) | BlockSync | BlockClose.

(** What a request stores through its output pointers, or its [transferred]
    field. *)
Inductive reply :=
  | RNone | RVolume (v : ove_fs_statvfs) | RHandle (i : nat) | RObject (dir : bool) (i : nat) | RCount (n : Z)
  | ROffset (o : Z) | RStat (x : ove_fs_stat) | RDirent (e : ove_dirent) | RInfo (x : ove_block_info).

Definition fail (rc : Z) : ST (Z * reply) := mret (rc, RNone).
Definition set_buffer (b : list Z) : ST unit := omodify (fun s => {| s with g_io_buffer := overwrite (g_io_buffer s) 0 b |}).
Definition buffer (count : Z) : ST (list Z) := ogets (fun s => take (Z.to_nat count) (g_io_buffer s)).

Definition flags_bad (flags : Z) : bool :=
  negb (Z.ldiff flags O_ALL =? 0) || (Z.land flags (Z.lor OVE_FS_O_READ OVE_FS_O_WRITE) =? 0).

Definition open_file (p : list Z) (flags : Z) (k : nat -> reply) : ST (Z * reply) :=
  slot ← free_slot;
  match slot with
  | None => fail OVE_ERR_NO_MEMORY
  | Some i =>
      '(rc, n) ← fsdo (ove_fs_open_init p flags);
      if negb (rc =? OVE_OK) then fail rc else
      fslog (COpen (SFile n));; set_slot i (SFile n);; mret (OVE_OK, k i)
  end.

Definition open_dir (p : list Z) (k : nat -> reply) : ST (Z * reply) :=
  slot ← free_slot;
  match slot with
  | None => fail OVE_ERR_NO_MEMORY
  | Some i =>
      '(rc, n) ← fsdo (ove_fs_opendir_init p);
      if negb (rc =? OVE_OK) then fail rc else
      fslog (COpen (SDir n));; set_slot i (SDir n);; mret (OVE_OK, k i)
  end.

(** Close the native object of a slot. *)
Definition close_native (o : fs_handle_slot) : ST Z :=
  match o with
  | SFree => mret OVE_OK
  | SFile n => rc ← fsdo (ove_fs_close_deinit n); fslog (CClose o rc);; mret rc
  | SDir n => rc ← fsdo (ove_fs_closedir_deinit n); fslog (CClose o rc);; mret rc
  end.

Definition close_slot (i : nat) (o : fs_handle_slot) : ST (Z * reply) :=
  rc ← close_native o;
  (if rc =? OVE_OK then set_slot i SFree else mret tt);; mret (rc, RNone).

Fixpoint close_from (i : nat) (l : list fs_handle_slot) : ST unit :=
  match l with
  | [] => mret tt
  | o :: l => close_native o;; set_slot i SFree;; close_from (S i) l
  end.
Definition close_all_handles : ST unit := l ← ogets g_handles; close_from 0 l.

(** An operation on an open file or directory. *)
Definition with_file (h : option nat) (k : nat -> native -> ST (Z * reply)) : ST (Z * reply) :=
  x ← file_slot h; match x with None => fail OVE_ERR_BAD_HANDLE | Some (i, n) => k i n end.
Definition with_dir (h : option nat) (k : nat -> native -> ST (Z * reply)) : ST (Z * reply) :=
  x ← dir_slot h; match x with None => fail OVE_ERR_BAD_HANDLE | Some (i, n) => k i n end.
Definition with_path (p : option (list Z)) (k : list Z -> ST (Z * reply)) : ST (Z * reply) :=
  match p with None => fail OVE_ERR_INVALID_PARAM | Some p => k p end.

Definition file_read (n : native) (count : Z) : ST (Z * reply) :=
  '(rc, data) ← on_obj (SFile n) (ove_fs_read n count); set_buffer data;; mret (rc, RCount (Z.of_nat (length data))).
Definition file_write (n : native) (count : Z) : ST (Z * reply) :=
  data ← buffer count; '(rc, done) ← on_obj (SFile n) (ove_fs_write n data); mret (rc, RCount done).

Definition LONG_MAX : Z := 2 ^ 31 - 1.
Definition INT32_MIN : Z := - 2 ^ 31.
Definition INT32_MAX : Z := 2 ^ 31 - 1.

(** [FS_REQ_FILE_PREAD] and [FS_REQ_FILE_PWRITE]. *)
Definition positioned (write : bool) (n : native) (count offset : Z) : ST (Z * reply) :=
  let o := SFile n in
  if (LXP_OVE_FS_IO_CHUNK <? count) || (LONG_MAX <? offset) then fail OVE_ERR_INVALID_PARAM else
  saved ← on_obj o (ove_fs_tell n);
  if saved <? 0 then fail OVE_ERR_IO else
  '(rc, size) ← on_obj o (ove_fs_size n);
  if negb (rc =? OVE_OK) then fail rc else
  if negb write && (size <=? offset) then mret (OVE_ERR_EOF, RCount 0) else
  rc ← (if write && (size <? offset) then on_obj o (ove_fs_truncate n offset) else mret OVE_OK);
  if negb (rc =? OVE_OK) then fail rc else
  rc ← on_obj o (ove_fs_seek n offset OVE_FS_SEEK_SET);
  if negb (rc =? OVE_OK) then fail rc else
  '(rc, r) ← (if write then file_write n count else file_read n count);
  restore ← on_obj o (ove_fs_seek n saved OVE_FS_SEEK_SET);
  mret (if (rc =? OVE_OK) || (rc =? OVE_ERR_EOF) then if restore =? OVE_OK then rc else restore else rc, r).

Definition simple (f : W -> Z * W) : ST (Z * reply) := rc ← fsdo f; mret (rc, RNone).

(** The part of [execute_request] that needs a mounted file system. *)
Definition execute_fs (q : fs_request) : ST (Z * reply) :=
  match q with
  | VolumeStat out =>
      if negb out then fail OVE_ERR_INVALID_PARAM else
      '(rc, v) ← fsdo ove_fs_volume_stat; mret (rc, if rc =? OVE_OK then RVolume v else RNone)
  | FileOpen path flags out =>
      with_path (if out then path else None) (fun p =>
        if flags_bad flags then fail OVE_ERR_INVALID_PARAM else open_file p flags RHandle)
  | ObjectOpen path flags require_dir out =>
      with_path (if out then path else None) (fun p =>
        '(rc, x) ← fsdo (ove_fs_path_stat p);
        if (rc =? OVE_OK) && is_dir x then
          if negb (Z.land flags (Z.lor OVE_FS_O_WRITE (Z.lor OVE_FS_O_CREATE OVE_FS_O_TRUNC)) =? 0) then fail OVE_ERR_IS_DIR
          else open_dir p (RObject true)
        else if negb (rc =? OVE_OK) && negb (rc =? OVE_ERR_NOT_FOUND) then fail rc
        else if require_dir then fail (if rc =? OVE_ERR_NOT_FOUND then rc else OVE_ERR_NOT_DIR)
        else if flags_bad flags then fail OVE_ERR_INVALID_PARAM else open_file p flags (RObject false))
  | FileClose h => with_file h (fun i n => close_slot i (SFile n))
  | FileRead h count =>
      with_file h (fun _ n => if LXP_OVE_FS_IO_CHUNK <? count then fail OVE_ERR_INVALID_PARAM else file_read n count)
  | FileWrite h count =>
      with_file h (fun _ n => if LXP_OVE_FS_IO_CHUNK <? count then fail OVE_ERR_INVALID_PARAM else file_write n count)
  | FilePread h count offset => with_file h (fun _ n => positioned false n count offset)
  | FilePwrite h count offset => with_file h (fun _ n => positioned true n count offset)
  | FileSeek h offset whence out =>
      with_file h (fun _ n =>
        if negb out || (offset <? INT32_MIN) || (INT32_MAX <? offset) || (whence <? OVE_FS_SEEK_SET) || (OVE_FS_SEEK_END <? whence)
        then fail OVE_ERR_INVALID_PARAM else
        rc ← on_obj (SFile n) (ove_fs_seek n offset whence);
        if negb (rc =? OVE_OK) then fail rc else
        position ← on_obj (SFile n) (ove_fs_tell n);
        if position <? 0 then fail OVE_ERR_IO else mret (OVE_OK, ROffset position))
  | FileStat h out =>
      with_file h (fun _ n =>
        if negb out then fail OVE_ERR_INVALID_PARAM else
        '(rc, size) ← on_obj (SFile n) (ove_fs_size n);
        if negb (rc =? OVE_OK) then fail rc else mret (OVE_OK, RStat (mk_stat size 0 false)))
  | FileTruncate h len => with_file h (fun _ n => rc ← on_obj (SFile n) (ove_fs_truncate n len); fail rc)
  | FileSync h => with_file h (fun _ n => rc ← on_obj (SFile n) (ove_fs_sync n); fail rc)
  | DirOpen path out => with_path (if out then path else None) (fun p => open_dir p RHandle)
  | DirRead h out =>
      with_dir h (fun _ n =>
        if negb out then fail OVE_ERR_INVALID_PARAM else
        '(rc, e) ← on_obj (SDir n) (ove_fs_readdir n); mret (rc, if rc =? OVE_OK then RDirent (mk_dirent (take (LXP_FS_NAME_MAX - 1) (d_name e)) (d_size e) (d_is_dir e)) else RNone))
  | DirClose h => with_dir h (fun i n => close_slot i (SDir n))
  | PathStat path out =>
      with_path (if out then path else None) (fun p =>
        '(rc, x) ← fsdo (ove_fs_path_stat p); mret (rc, if rc =? OVE_OK then RStat x else RNone))
  | PathMkdir path => with_path path (fun p => simple (ove_fs_mkdir p))
  | PathRmdir path => with_path path (fun p => simple (ove_fs_rmdir p))
  | PathUnlink path => with_path path (fun p => simple (ove_fs_unlink p))
  | PathRename a b => with_path a (fun a => with_path b (fun b => simple (ove_fs_rename a b)))
  | _ => fail OVE_ERR_INVALID_PARAM
  end.

Definition unmount_now : ST unit :=
  m ← ogets g_mounted;
  (if (m : bool) then fsdo (fun w => (tt, ove_fs_unmount w)) else mret tt);; omodify (fun s => {| s with g_mounted := false |}).
Definition close_raw_block : ST unit := fun s =>
  let '(b, d) := ove_block_close backend_sync (bdev s) (g_raw_block s) in
  Some (tt, {| s with g_raw_block := b; bdev := d |}).

Definition execute_request (q : fs_request) : ST (Z * reply) :=
  match q with
  | Mount spec =>
      h ← handles_open; m ← ogets g_mounted;
      match spec with
      | Some v =>
          if m || h then fail OVE_ERR_BUSY else
          omodify (fun s => {| s with g_mount_volume := Some v |});; rc ← ensure_mounted; fail rc
      | None => rc ← ensure_mounted; fail rc
      end
  | Unmount => h ← handles_open; if (h : bool) then fail OVE_ERR_BUSY else unmount_now;; fail OVE_OK
  | Stop =>
      close_all_handles;; a ← raw_active; (if (a : bool) then close_raw_block else mret tt);; unmount_now;; fail OVE_OK
  | BlockInfo out =>
      if negb out then fail OVE_ERR_INVALID_PARAM else
      r ← refresh_block_info; match r with inl rc => fail rc | inr info => mret (OVE_OK, RInfo info) end
  | BlockRead offset count =>
      if LXP_OVE_FS_IO_CHUNK <? count then fail OVE_ERR_INVALID_PARAM else
      '(rc, data) ← block_read_bytes offset count; set_buffer data;; mret (rc, RCount (if rc =? OVE_OK then count else 0))
  | BlockWrite offset count =>
      if LXP_OVE_FS_IO_CHUNK <? count then fail OVE_ERR_INVALID_PARAM else
      data ← buffer count; rc ← block_write_bytes offset data; mret (rc, RCount (if rc =? OVE_OK then count else 0))
  | BlockSync =>
      a ← raw_active; h ← ogets g_raw_block;
      if (a : bool) then rc ← bdo (fun d => ove_block_sync get_info backend_sync d h); fail rc else fail OVE_ERR_NOT_REGISTERED
  | BlockClose => close_raw_block;; fail OVE_OK
  | _ =>
      w ← raw_writer;
      if (w : bool) then fail OVE_ERR_BUSY else
      rc ← ensure_mounted;
      if negb (rc =? OVE_OK) then fail rc else execute_fs q
  end.
End storage.

(** ** Admission *)

(** [ove_time_get_us] and [ove_time_delay_us] over a clock [C]. *)
Class Clock (C : Type) := { ove_time_get_us : C -> Z * C; ove_time_delay_us : Z -> C -> C }.

Record server := mk_server { g_server_period_start_us : Z; g_server_requests : Z }.

Definition fs_server_admit {C} `{Clock C} (period_us : Z) (s : server) (c : C) : server * C :=
  let '(now, c) := ove_time_get_us c in
  let s := if (g_server_period_start_us s =? 0) || (now <? g_server_period_start_us s) ||
              (period_us <=? now - g_server_period_start_us s) then mk_server now 0 else s in
  let '(s, c) :=
    (if negb (g_server_requests s =? 0) then
       let release := u64 (g_server_period_start_us s + period_us) in
       let c := if now <? release then ove_time_delay_us (u32 (release - now)) c else c in
       let '(now, c) := ove_time_get_us c in (mk_server now 0, c)
     else (s, c)) in
  (mk_server (g_server_period_start_us s) (u32 (g_server_requests s + 1)), c).
End Storage.

(** A concrete platform: one file in memory, a disk of four blocks of four
    bytes, and a clock that counts its readings. *)
Module StorageDemo.
Import Media Block Storage.

Definition put (d : list Z) (o : nat) (b : list Z) : list Z := overwrite d o b.

#[export] Instance mem_fs : HostFs (list Z * Z) unit := {
  ove_fs_mount := fun _ w => (OVE_OK, w); ove_fs_unmount := fun w => w;
  ove_fs_volume_stat := fun w => (OVE_ERR_NOT_SUPPORTED, mk_vfs 0 0 0 0 0 0 0 0, w);
  ove_fs_path_stat := fun p w => match p with [] => (OVE_OK, mk_stat 0 0 true, w) | _ => (OVE_OK, mk_stat (Z.of_nat (length w.1)) 0 false, w) end;
  ove_fs_open_init := fun _ _ w => (OVE_OK, tt, w); ove_fs_close_deinit := fun _ w => (OVE_OK, w);
  ove_fs_read := fun _ c w => let b := take (Z.to_nat c) (drop (Z.to_nat w.2) w.1) in (OVE_OK, b, (w.1, w.2 + Z.of_nat (length b)));
  ove_fs_write := fun _ b w => (OVE_OK, Z.of_nat (length b), (put w.1 (Z.to_nat w.2) b, w.2 + Z.of_nat (length b)));
  ove_fs_size := fun _ w => (OVE_OK, Z.of_nat (length w.1), w);
  ove_fs_seek := fun _ o wh w => (OVE_OK, (w.1, if wh =? OVE_FS_SEEK_SET then o else if wh =? OVE_FS_SEEK_CUR then w.2 + o else Z.of_nat (length w.1) + o));
  ove_fs_tell := fun _ w => (w.2, w);
  ove_fs_truncate := fun _ l w => (OVE_OK, (take (Z.to_nat l) w.1 ++ replicate (Z.to_nat l - length w.1) 0, w.2));
  ove_fs_sync := fun _ w => (OVE_OK, w); ove_fs_opendir_init := fun _ w => (OVE_OK, tt, w);
  ove_fs_readdir := fun _ w => (OVE_ERR_EOF, mk_dirent [] 0 false, w); ove_fs_closedir_deinit := fun _ w => (OVE_OK, w);
  ove_fs_mkdir := fun _ w => (OVE_OK, w); ove_fs_rmdir := fun _ w => (OVE_OK, w);
  ove_fs_unlink := fun _ w => (OVE_OK, w); ove_fs_rename := fun _ _ w => (OVE_OK, w) }.
#[export] Instance limits : Limits := {| LXP_FS_NAME_MAX := 64 |}.

(** The disk always has its four blocks: what is read or written outside
    them fails. *)
Definition disk_contents (b : list Z) : list Z := take 16 (b ++ replicate 16 0).
Definition disk_info (b : list Z) : Z * ove_block_info * list Z := (OVE_OK, mk_info 4 4 4 4 1, b).
Definition disk_read (b : list Z) (first n : Z) : Z * list Z * list Z :=
  if (0 <=? first) && (first <? 4) then (OVE_OK, take 4 (drop (Z.to_nat (first * 4)) (disk_contents b)), b) else (OVE_ERR_IO, [], b).
Definition disk_write (b : list Z) (first n : Z) (d : list Z) : Z * list Z :=
  if (0 <=? first) && (first <? 4) then (OVE_OK, put (disk_contents b) (Z.to_nat (first * 4)) d) else (OVE_ERR_IO, b).
Definition disk_sync (b : list Z) : Z * list Z := (OVE_OK, b).

#[export] Instance ticks : Clock Z := {| ove_time_get_us := fun c => (c, c + 1); ove_time_delay_us := fun d c => c + d |}.

Abbreviation dst := (st (W := list Z * Z) (native := unit) (B := list Z)).

(** No medium seen yet, nothing open. *)
Definition start (w : list Z * Z) (b : list Z) : dst :=
  mk_st [SFree; SFree] false None (mk_block no_lease 0) None (mk_dev (mk_media 0 0 false []) b []) (replicate 8 7) w [].

Definition run (qs : list fs_request) (s : dst) : option (list (Z * reply) * dst) :=
  foldr (fun q k s => match execute_request disk_info disk_read disk_write disk_sync q s with
                      | Some (r, s') => '(rs, t) ← k s'; Some (r :: rs, t) | None => None end) (fun s => Some ([], s)) qs s.
Definition replies (qs : list fs_request) (w : list Z * Z) (b : list Z) : option (list (Z * reply)) := fst <$> run qs (start w b).

(** A positioned read in the middle of a sequential one, and a request on a
    closed handle. *)
Example storage_run :
  replies [FileOpen (Some [1]) 3 true; FileRead (Some 0%nat) 2; FilePread (Some 0%nat) 3 4; FileRead (Some 0%nat) 2; Unmount;
           FileClose (Some 0%nat); FileRead (Some 0%nat) 2; Unmount] ([10; 11; 12; 13; 14; 15; 16], 0) [] =
  Some [(OVE_OK, RHandle 0); (OVE_OK, RCount 2); (OVE_OK, RCount 3); (OVE_OK, RCount 2); (OVE_ERR_BUSY, RNone);
        (OVE_OK, RNone); (OVE_ERR_BAD_HANDLE, RNone); (OVE_OK, RNone)].
Proof. by vm_compute. Qed.

(** The provider with a raw handle opened for writing and the geometry
    known. *)
Definition raw_start (b : list Z) : dst :=
  let '(_, h, d) := ove_block_open disk_info (mk_dev (mk_media 0 0 false []) b []) new_handle 1 in
  mk_st [SFree; SFree] false None h (Some (mk_info 4 4 4 4 1)) d (replicate 8 7) ([], 0) [].

(** An unaligned write over three blocks. *)
Example raw_run :
  (fun x => (x.1, disk_contents (back (bdev x.2)))) <$> block_write_bytes disk_info disk_read disk_write 3 [1; 2; 3; 4; 5; 6] (raw_start []) =
    Some (OVE_OK, [0; 0; 0; 1; 2; 3; 4; 5; 6; 0; 0; 0; 0; 0; 0; 0]) /\
  fst <$> block_write_bytes disk_info disk_read disk_write 12 [1; 2; 3; 4; 5; 6] (raw_start []) = Some OVE_ERR_INVALID_PARAM.
Proof. by vm_compute. Qed.
End StorageDemo.
