(* ===== verification/StorageInv.v ===== *)
(** * The storage provider keeps its handles (proofs on [Storage])

    The log of the calls on native objects against the handle table: every
    object is used and closed while it is open, and the table holds exactly
    the open ones, after any sequence of requests. *)

From S2P Require Import Prelude Media Storage.
Module StorageInv.
Import Media Block Storage.

(** ** The log of native calls *)

Section log.
Context {native : Type}.
Abbreviation obj := (fs_handle_slot (native := native)).

(** [logs l L]: in [l] every object closed or used was open, and [L] are the
    objects still open.  A close that failed may be tried again, or the
    object is given up. *)
Inductive logs : list fscall -> list obj -> Prop :=
  | log_nil : logs [] []
  | log_open l L o : logs l L -> logs (l ++ [COpen o]) (o :: L)
  | log_close l L L' o rc : logs l L -> L ≡ₚ o :: L' -> logs (l ++ [CClose o rc]) L'
  | log_retry l L o rc : logs l L -> o ∈ L -> rc <> OVE_OK -> logs (l ++ [CClose o rc]) L
  | log_use l L o : logs l L -> o ∈ L -> logs (l ++ [CUse o]) L.

(** The objects of a handle table. *)
Definition opened (l : list obj) : list obj := filter (fun o => is_free o = false) l.

#[global] Arguments opened : simpl never.

Lemma opened_insert (l : list obj) i o : l !! i = Some SFree -> is_free o = false -> opened (<[i:=o]> l) ≡ₚ o :: opened l.
Proof.
  intros Hi Ho. rewrite <- (take_drop_middle l i SFree Hi) at 2. rewrite insert_take_drop by (by apply lookup_lt_Some in Hi).
  unfold opened. rewrite !filter_app. rewrite (filter_cons_True _ o) by done. rewrite (filter_cons_False _ SFree) by done.
  rewrite Permutation_middle. done.
Qed.

Lemma opened_remove (l : list obj) i o : l !! i = Some o -> is_free o = false -> opened l ≡ₚ o :: opened (<[i:=SFree]> l).
Proof.
  intros Hi Ho. rewrite <- (take_drop_middle l i o Hi) at 1. rewrite insert_take_drop by (by apply lookup_lt_Some in Hi).
  unfold opened. rewrite !filter_app. rewrite (filter_cons_True _ o) by done. rewrite (filter_cons_False _ SFree) by done.
  by rewrite Permutation_middle.
Qed.

Lemma opened_elem (l : list obj) i o : l !! i = Some o -> is_free o = false -> o ∈ opened l.
Proof. intros Hi Ho. apply list_elem_of_filter. split; [done|]. by eapply list_elem_of_lookup_2. Qed.
End log.

Create HintDb keeps.

Lemma wp_seq2 {St X Y A} (m1 : MO St X) (m2 : MO St Y) (x : MO St A) Q s : wp (m1;; m2) (fun _ => wp x Q) s -> wp (m1;; m2;; x) Q s.
Proof. unfold wp, mbind, MO_bind. destruct (m1 s) as [[? ?]|]; [|done]. by destruct (m2 _) as [[? ?]|]. Qed.

Section inv.
Context {LI : Limits} {W native : Type} {HF : HostFs W native} {B : Type}.
Context (get_info : B -> Z * ove_block_info * B) (backend_read : B -> Z -> Z -> Z * list Z * B)
        (backend_write : B -> Z -> Z -> list Z -> Z * B) (backend_sync : B -> Z * B).
Abbreviation st := (Storage.st (W := W) (native := native) (B := B)).
Abbreviation obj := (fs_handle_slot (native := native)).

Record inv (s : st) : Prop := {
  inv_log : exists L, logs (fscalls s) L /\ L ≡ₚ opened (g_handles s);
  inv_mounted : opened (g_handles s) <> [] -> g_mounted s = true;
  inv_info : forall i, g_block_info s = Some i -> 0 < logical_block_size i }.

(** [m] keeps the invariant and the handle table. *)
Definition keeps {A} (m : MO st A) : Prop := forall s, inv s -> wp m (fun _ s' => inv s' /\ g_handles s' = g_handles s) s.

Lemma keeps_ret {A} (a : A) : keeps (mret a).
Proof. intros s Hs. by apply wp_ret. Qed.
Lemma keeps_bind {A C} (m : MO st A) (k : A -> MO st C) : keeps m -> (forall a, keeps (k a)) -> keeps (m ≫= k).
Proof.
  intros Hm Hk s Hs. apply wp_bind. eapply wp_mono; [by apply Hm|]. intros a s' [Hs' E].
  eapply wp_mono; [by apply Hk|]. intros c s'' [? ?]. split; [done|congruence].
Qed.
Lemma keeps_gets {A} (f : st -> A) : keeps (ogets f).
Proof. intros s Hs. by apply wp_gets. Qed.
Lemma keeps_fsdo {A} (f : W -> A * W) : keeps (fsdo f).
Proof. intros s []. unfold wp, fsdo. destruct (f (fs s)). split; [by split|done]. Qed.
Lemma keeps_bdo {A} (f : dev -> A * dev) : keeps (bdo f).
Proof. intros s []. unfold wp, bdo. destruct (f (bdev s)). split; [by split|done]. Qed.
Lemma keeps_if {A} (b : bool) (m1 m2 : MO st A) : keeps m1 -> keeps m2 -> keeps (if b then m1 else m2).
Proof. by destruct b. Qed.
Lemma keeps_no_info : keeps (set_info None).
Proof. intros s []. split; [by split|done]. Qed.
Lemma keeps_buffer b : keeps (set_buffer b).
Proof. intros s []. split; [by split|done]. Qed.
Lemma keeps_close_raw_block : keeps (close_raw_block backend_sync).
Proof. intros s []. unfold wp, close_raw_block. destruct (ove_block_close _ _ _). split; [by split|done]. Qed.
#[local] Hint Resolve keeps_ret keeps_gets keeps_fsdo keeps_bdo keeps_no_info keeps_buffer keeps_close_raw_block : keeps.

Lemma keeps_raw_active : keeps raw_active.
Proof. apply keeps_gets. Qed.
Lemma keeps_raw_writer : keeps raw_writer.
Proof. apply keeps_gets. Qed.
Lemma keeps_handles_open : keeps handles_open.
Proof. apply keeps_gets. Qed.
Lemma keeps_read_buffer n : keeps (buffer n).
Proof. apply keeps_gets. Qed.
#[local] Hint Resolve keeps_raw_active keeps_raw_writer keeps_handles_open keeps_read_buffer : keeps.

(** Walk through a program whose steps keep the invariant. *)
Ltac keeps_tac := repeat first
  [ solve [auto with keeps] | apply keeps_bind; [|intros ?] | apply keeps_if
  | match goal with |- keeps (match ?x with _ => _ end) => destruct x end ].

Lemma keeps_set_mounted : keeps (omodify (fun s => {| s with g_mounted := true |})).
Proof. intros s []. split; [by split|done]. Qed.
#[local] Hint Resolve keeps_set_mounted : keeps.

Lemma keeps_ensure_mounted : keeps ensure_mounted.
Proof. unfold ensure_mounted. keeps_tac. Qed.

(** Block geometry has unsigned fields. *)
Context (Hinfo : forall b, 0 <= logical_block_size (get_info b).1.2).

(** As [keeps], with a result in [P]. *)
Definition gives {A} (m : MO st A) (P : A -> Prop) : Prop :=
  forall s, inv s -> wp m (fun a s' => inv s' /\ g_handles s' = g_handles s /\ P a) s.

Lemma gives_keeps {A} (m : MO st A) P : gives m P -> keeps m.
Proof. intros Hm s Hs. eapply wp_mono; [by apply Hm|]. by intros a s' (? & ? & _). Qed.
Lemma keeps_gives {A} (m : MO st A) : keeps m -> gives m (fun _ => True).
Proof. intros Hm s Hs. eapply wp_mono; [by apply Hm|]. by intros a s' (? & ?). Qed.
Lemma gives_bind {A C} (m : MO st A) P (k : A -> MO st C) Q : gives m P -> (forall a, P a -> gives (k a) Q) -> gives (m ≫= k) Q.
Proof.
  intros Hm Hk s Hs. apply wp_bind. eapply wp_mono; [by apply Hm|]. intros a s' (Hs' & E & Ha).
  eapply wp_mono; [by apply (Hk a Ha)|]. intros c s'' (? & ? & ?). split_and!; [done|congruence|done].
Qed.
Lemma gives_ret {A} (a : A) (P : A -> Prop) : P a -> gives (mret a) P.
Proof. intros Ha s Hs. by apply wp_ret. Qed.

Definition geometry_ok (r : Z + ove_block_info) : Prop := forall i, r = inr i -> 0 < logical_block_size i.

Lemma gives_refresh : gives (refresh_block_info get_info) geometry_ok.
Proof.
  unfold refresh_block_info. apply gives_bind with (P := fun p : Z * ove_block_info => 0 <= logical_block_size p.2).
  - intros s Hs. pose proof (keeps_bdo (ove_block_get_info get_info) s Hs) as Hk. unfold wp, bdo in *.
    pose proof (Hinfo (back (bdev s))) as Hb. unfold ove_block_get_info in *. destruct (get_info (back (bdev s))) as [[rc info] b].
    destruct (rc =? OVE_OK); [destruct (media_call _ _ _) as [[? ?] ?]; tauto|].
    destruct (rc =? OVE_ERR_NOT_REGISTERED); [destruct (media_call _ _ _) as [[? ?] ?]; tauto|tauto].
  - intros [rc info] Hz. cbn [snd] in Hz.
    assert (forall e, gives (set_info None;; mret (inl e)) geometry_ok) as Hl.
    { intros e. eapply gives_bind; [apply keeps_gives, keeps_no_info|]. intros ? _. by apply gives_ret. }
    destruct (negb _); [apply Hl|]. destruct (_ || _) eqn:Hc; [apply Hl|].
    apply orb_false_iff in Hc as [[Hc%Z.eqb_neq _]%orb_false_iff _]. intros s [].
    apply wp_bind, wp_modify, wp_ret. split; [|split; [done|intros i [= <-]; lia]]. split; try done. intros i [= <-]. lia.
Qed.

Lemma gives_bounds offset count : gives (block_bounds get_info offset count) geometry_ok.
Proof.
  unfold block_bounds. intros s Hs. apply wp_bind, wp_gets.
  destruct (g_block_info s) as [info|] eqn:Hi.
  - apply wp_bind, wp_ret. destruct (_ <? _); apply wp_ret; (split; [done|split; [done|]]); [done|].
    destruct (_ && _); [|done]. intros i [= <-]. by apply (inv_info _ Hs).
  - eapply (gives_bind _ geometry_ok); [apply gives_refresh| |done]. intros [rc|info] Hg; [by apply gives_ret|].
    destruct (_ <? _); apply gives_ret; [done|]. by destruct (_ && _).
Qed.

Lemma chunk_pos size offset count : 0 < size -> 0 < count -> 0 < chunk size offset count <= count.
Proof. intros ? ?. unfold chunk. pose proof (Z.mod_pos_bound offset size ltac:(done)). lia. Qed.

Lemma keeps_read_loop h size : 0 < size -> forall fuel offset count out, 0 <= count -> (Z.to_nat count < fuel)%nat ->
  keeps (read_loop get_info backend_read fuel h size offset count out).
Proof.
  intros Hsz. induction fuel as [|fuel IH]; intros offset count out Hc Hf; [lia|]. cbn [read_loop].
  destruct (Z.eqb_spec count 0); [apply keeps_ret|]. pose proof (chunk_pos size offset count Hsz ltac:(lia)).
  apply keeps_bind; [apply keeps_bdo|]. intros [rc data]. destruct (negb _); [apply keeps_ret|]. apply IH; lia.
Qed.

Lemma keeps_write_loop size : 0 < size -> forall fuel offset src, (length src < fuel)%nat ->
  keeps (write_loop get_info backend_read backend_write fuel size offset src).
Proof.
  intros Hsz. induction fuel as [|fuel IH]; intros offset src Hf; [lia|]. cbn [write_loop].
  destruct (Z.eqb_spec (Z.of_nat (length src)) 0); [apply keeps_ret|].
  pose proof (chunk_pos size offset (Z.of_nat (length src)) Hsz ltac:(lia)).
  apply keeps_bind; [apply keeps_gets|]. intros h. apply keeps_bind.
  { keeps_tac. }
  intros rc. destruct (negb _); [keeps_tac|]. apply IH. rewrite length_drop. lia.
Qed.

Lemma keeps_read_bytes offset count : 0 <= count -> keeps (block_read_bytes get_info backend_read backend_sync offset count).
Proof.
  intros Hc. unfold block_read_bytes. eapply gives_keeps, gives_bind; [apply gives_bounds|].
  intros [rc|info] Hg; apply keeps_gives; [apply keeps_ret|]. specialize (Hg _ eq_refl).
  assert (forall h, keeps (read_loop get_info backend_read (S (Z.to_nat count)) h (logical_block_size info) offset count [])) as Hr
    by (intros h; apply keeps_read_loop; lia).
  cbv zeta. keeps_tac; try apply Hr.
Qed.

Lemma keeps_write_bytes offset src : keeps (block_write_bytes get_info backend_read backend_write offset src).
Proof.
  unfold block_write_bytes. eapply gives_keeps, gives_bind; [apply gives_bounds|].
  intros [rc|info] Hg; apply keeps_gives; [apply keeps_ret|]. specialize (Hg _ eq_refl).
  pose proof (keeps_write_loop _ Hg (S (length src)) offset src ltac:(lia)). keeps_tac.
Qed.

(** ** Objects in use *)

(** [m], which works on the open object [o], keeps the invariant and the
    handle table. *)
Definition works {A} (o : obj) (m : MO st A) : Prop :=
  forall s, inv s -> o ∈ opened (g_handles s) -> wp m (fun _ s' => inv s' /\ g_handles s' = g_handles s) s.

Lemma works_keeps {A} o (m : MO st A) : keeps m -> works o m.
Proof. intros Hm s Hs _. by apply Hm. Qed.
Lemma works_bind {A C} o (m : MO st A) (k : A -> MO st C) : works o m -> (forall a, works o (k a)) -> works o (m ≫= k).
Proof.
  intros Hm Hk s Hs Ho. apply wp_bind. eapply wp_mono; [by apply Hm|]. intros a s' [Hs' E].
  eapply wp_mono; [apply Hk; [done|by rewrite E]|]. intros c s'' [? ?]. split; [done|congruence].
Qed.
Lemma works_if {A} o (b : bool) (m1 m2 : MO st A) : works o m1 -> works o m2 -> works o (if b then m1 else m2).
Proof. by destruct b. Qed.

Lemma works_on_obj {A} o (f : W -> A * W) : works o (on_obj o f).
Proof.
  intros s [(L & HL & HP) Hm Hi] Ho. unfold on_obj, fslog. apply wp_bind, wp_modify.
  match goal with |- wp _ _ ?s1 => apply (keeps_fsdo f s1) end.
  split; cbn; [|done|done]. exists L. split; [|done]. apply log_use; [done|]. by rewrite HP.
Qed.
Lemma works_fail o rc : works o (fail rc).
Proof. apply works_keeps, keeps_ret. Qed.
Lemma works_ret {A} o (a : A) : works o (mret a).
Proof. apply works_keeps, keeps_ret. Qed.
#[local] Hint Resolve works_on_obj works_fail works_ret : keeps.
#[local] Hint Extern 5 (works _ _) => apply works_keeps : keeps.

Ltac works_tac := repeat first
  [ solve [auto with keeps] | apply works_bind; [|intros ?] | apply works_if
  | match goal with |- works _ (match ?x with _ => _ end) => destruct x end ].

Lemma works_read n count : works (SFile n) (file_read n count).
Proof. unfold file_read. works_tac. Qed.
Lemma works_write n count : works (SFile n) (file_write n count).
Proof. unfold file_write. works_tac. Qed.
#[local] Hint Resolve works_read works_write : keeps.

Lemma works_positioned w n count offset : works (SFile n) (positioned w n count offset).
Proof. unfold positioned. cbv zeta. works_tac. Qed.

(** ** Opening and closing *)

(** [m] keeps the invariant; it may change the table. *)
Definition safe {A} (m : MO st A) : Prop := forall s, inv s -> wp m (fun _ => inv) s.

Lemma keeps_safe {A} (m : MO st A) : keeps m -> safe m.
Proof. intros Hm s Hs. eapply wp_mono; [by apply Hm|]. by intros a s' [? _]. Qed.
Lemma safe_bind {A C} (m : MO st A) (k : A -> MO st C) : safe m -> (forall a, safe (k a)) -> safe (m ≫= k).
Proof. intros Hm Hk s Hs. apply wp_bind. eapply wp_mono; [by apply Hm|]. intros a s' Hs'. by apply Hk. Qed.

(** A new object goes into the free slot. *)
Lemma wp_store o i s (Q : unit -> st -> Prop) : inv s -> g_mounted s = true -> g_handles s !! i = Some SFree -> is_free o = false ->
  (forall s', inv s' -> Q tt s') -> wp (fslog (COpen o);; set_slot i o) Q s.
Proof.
  intros [(L & HL & HP) Hm Hi] Hmt Hf Ho HQ. unfold fslog, set_slot. apply wp_bind, wp_modify. unfold wp. cbn.
  unfold ostore. rewrite decide_True by (by eapply lookup_lt_Some). cbn. apply HQ. split; cbn; [|done|done].
  exists (o :: L). split; [by apply log_open|]. unfold aset. by rewrite opened_insert, HP.
Qed.

(** [m], started on a mounted file system, keeps the invariant. *)
Definition safe_m {A} (m : MO st A) : Prop := forall s, inv s -> g_mounted s = true -> wp m (fun _ => inv) s.

Lemma keeps_safe_m {A} (m : MO st A) : keeps m -> safe_m m.
Proof. intros Hm s Hs _. by apply keeps_safe. Qed.

Lemma wp_free_slot (Q : option nat -> st -> Prop) s : (forall i, g_handles s !! i = Some SFree -> Q (Some i) s) -> Q None s ->
  wp free_slot Q s.
Proof.
  intros H1 H2. unfold free_slot. apply wp_gets. destruct (list_find _ _) as [[i o]|] eqn:E; [|done]. cbn.
  apply list_find_Some in E as (Hi & Hf & _). destruct o; try done. by apply H1.
Qed.

Lemma fsdo_state {A} (f : W -> A * W) s (Q : A -> st -> Prop) :
  (forall a w, inv {| s with fs := w |} -> Q a {| s with fs := w |}) -> inv s -> wp (fsdo f) Q s.
Proof. intros HQ []. unfold wp, fsdo. destruct (f (fs s)). apply HQ. by split. Qed.

Lemma safe_open_file p flags k : safe_m (open_file p flags k).
Proof.
  intros s Hs Hm. unfold open_file. apply wp_bind, wp_free_slot; [|by apply wp_ret]. intros i Hi.
  apply wp_bind, fsdo_state; [|done]. intros [rc n] w Hs1. destruct (negb _); [by apply wp_ret|].
  apply wp_seq2, wp_store with (i := i) (o := SFile n); try done.
Qed.
Lemma safe_open_dir p k : safe_m (open_dir p k).
Proof.
  intros s Hs Hm. unfold open_dir. apply wp_bind, wp_free_slot; [|by apply wp_ret]. intros i Hi.
  apply wp_bind, fsdo_state; [|done]. intros [rc n] w Hs1. destruct (negb _); [by apply wp_ret|].
  apply wp_seq2, wp_store with (i := i) (o := SDir n); try done.
Qed.

(** The call that closes an object. *)
Lemma wp_close_native o s (Q : Z -> st -> Prop) : is_free o = false ->
  (forall rc w, Q rc {| s with fs := w; fscalls := fscalls s ++ [CClose o rc] |}) -> wp (close_native o) Q s.
Proof.
  intros Ho HQ. unfold close_native. destruct o as [|n|n]; [done|..]; unfold wp, fsdo, fslog, mbind, MO_bind;
    [destruct (ove_fs_close_deinit n (fs s)) as [rc w]|destruct (ove_fs_closedir_deinit n (fs s)) as [rc w]]; apply HQ.
Qed.

(** Closing one slot, the result being ignored. *)
Lemma safe_drop i o s (Q : unit -> st -> Prop) : inv s -> g_handles s !! i = Some o ->
  (forall s', inv s' -> g_handles s' = <[i:=SFree]> (g_handles s) -> g_mounted s' = g_mounted s -> Q tt s') ->
  wp (close_native o;; set_slot i SFree) Q s.
Proof.
  intros [(L & HL & HP) Hm Hi] Hio HQ. pose proof (lookup_lt_Some _ _ _ Hio) as Hlt.
  apply wp_bind. destruct (is_free o) eqn:Ho.
  - destruct o; try done. apply wp_ret. unfold wp, set_slot, ostore. rewrite decide_True by done. cbn. unfold aset. apply HQ; [|done|done].
    rewrite list_insert_id by done. split; cbn; [by exists L|done|done].
  - apply wp_close_native; [done|]. intros rc w. unfold wp, set_slot, ostore. cbn. rewrite decide_True by done. cbn. unfold aset.
    apply HQ; [|done|done]. pose proof (opened_remove _ _ _ Hio Ho) as Hrm. split; cbn; [|intros _; apply Hm; intros E0; rewrite E0 in Hrm; by apply Permutation_nil_cons in Hrm|done].
    exists (opened (<[i:=SFree]> (g_handles s))). split; [|done]. eapply log_close; [exact HL|]. by rewrite HP.
Qed.

Lemma safe_close_slot i o s : inv s -> g_handles s !! i = Some o -> is_free o = false -> wp (close_slot i o) (fun _ => inv) s.
Proof.
  intros [(L & HL & HP) Hm Hi] Hio Ho. pose proof (lookup_lt_Some _ _ _ Hio) as Hlt. pose proof (opened_remove _ _ _ Hio Ho) as Hrm.
  unfold close_slot. apply wp_bind, wp_close_native; [done|]. intros rc w. destruct (Z.eqb_spec rc OVE_OK) as [->|Hne]; apply wp_bind.
  - unfold wp at 1, set_slot, ostore. cbn. rewrite decide_True by done. cbn. unfold aset.
    split; cbn; [|intros _; apply Hm; intros E0; rewrite E0 in Hrm; by apply Permutation_nil_cons in Hrm|done]. exists (opened (<[i:=SFree]> (g_handles s))).
    split; [|done]. eapply log_close; [exact HL|]. by rewrite HP.
  - apply wp_ret, wp_ret. split; cbn; [|done|done]. exists L. split; [|done]. apply log_retry; [done| |done].
    rewrite HP. by eapply opened_elem.
Qed.

Lemma safe_close_from l : forall i s (Q : unit -> st -> Prop), inv s -> (forall k, g_handles s !! (i + k)%nat = l !! k) ->
  (forall s', inv s' -> (forall k, g_handles s' !! (i + k)%nat = (fun _ => SFree) <$> l !! k) ->
     (forall k, (k < i)%nat -> g_handles s' !! k = g_handles s !! k) -> Q tt s') -> wp (close_from i l) Q s.
Proof.
  induction l as [|o l IH]; intros i s Q Hs Hl HQ; cbn [close_from].
  - apply wp_ret. apply HQ; [done| |done]. intros k. by rewrite Hl.
  - pose proof (Hl 0%nat) as H0. rewrite Nat.add_0_r in H0. cbn in H0. pose proof (lookup_lt_Some _ _ _ H0).
    apply wp_seq2. eapply safe_drop; [done|exact H0|]. intros s1 Hs1 E _. apply IH; [done| |].
    + intros k. rewrite E, list_lookup_insert_ne by lia. change (l !! k) with ((o :: l) !! S k). rewrite <- Hl. f_equal. lia.
    + intros s2 Hs2 H2 Hlow. apply HQ; [done| |].
      * intros [|k]; [|change ((o :: l) !! S k) with (l !! k); rewrite <- H2; f_equal; lia]. rewrite Nat.add_0_r, Hlow, E by lia. by rewrite list_lookup_insert_eq.
      * intros k Hk. rewrite Hlow, E by lia. apply list_lookup_insert_ne. lia.
Qed.

(** ** Requests *)

Lemma wp_file_slot h s (Q : option (nat * native) -> st -> Prop) :
  (forall i n, g_handles s !! i = Some (SFile n) -> Q (Some (i, n)) s) -> Q None s -> wp (file_slot h) Q s.
Proof.
  intros H1 H2. unfold wp, file_slot. destruct h as [i|]; [|done].
  destruct (g_handles s !! i) as [[| |]|] eqn:E; try done. by apply H1.
Qed.
Lemma wp_dir_slot h s (Q : option (nat * native) -> st -> Prop) :
  (forall i n, g_handles s !! i = Some (SDir n) -> Q (Some (i, n)) s) -> Q None s -> wp (dir_slot h) Q s.
Proof.
  intros H1 H2. unfold wp, dir_slot. destruct h as [i|]; [|done].
  destruct (g_handles s !! i) as [[| |]|] eqn:E; try done. by apply H1.
Qed.

Lemma safe_with_file h k s : inv s ->
  (forall i n, g_handles s !! i = Some (SFile n) -> wp (k i n) (fun _ => inv) s) -> wp (with_file h k) (fun _ => inv) s.
Proof.
  intros Hs Hk. unfold with_file. apply wp_bind, wp_file_slot; [apply Hk|by apply wp_ret].
Qed.
Lemma safe_with_dir h k s : inv s ->
  (forall i n, g_handles s !! i = Some (SDir n) -> wp (k i n) (fun _ => inv) s) -> wp (with_dir h k) (fun _ => inv) s.
Proof.
  intros Hs Hk. unfold with_dir. apply wp_bind, wp_dir_slot; [apply Hk|by apply wp_ret].
Qed.

Lemma works_file h k : (forall i n, works (SFile n) (k i n)) -> safe_m (with_file h k).
Proof.
  intros Hk s Hs _. apply safe_with_file; [done|]. intros i n Hi. eapply wp_mono; [apply Hk; [done|]|by intros ? ? [? _]].
  by eapply opened_elem.
Qed.
Lemma works_dir h k : (forall i n, works (SDir n) (k i n)) -> safe_m (with_dir h k).
Proof.
  intros Hk s Hs _. apply safe_with_dir; [done|]. intros i n Hi. eapply wp_mono; [apply Hk; [done|]|by intros ? ? [? _]].
  by eapply opened_elem.
Qed.

Lemma safe_m_bind {A C} (m : MO st A) (k : A -> MO st C) :
  (forall s, inv s -> wp m (fun _ s' => inv s' /\ g_mounted s' = g_mounted s) s) -> (forall a, safe_m (k a)) -> safe_m (m ≫= k).
Proof.
  intros Hm Hk s Hs Hmt. apply wp_bind. eapply wp_mono; [by apply Hm|]. intros a s' [? E]. apply Hk; [done|congruence].
Qed.

Lemma fsdo_mounted {A} (f : W -> A * W) s : inv s -> wp (fsdo f) (fun _ s' => inv s' /\ g_mounted s' = g_mounted s) s.
Proof. intros Hs. apply fsdo_state; [|done]. by intros a w. Qed.

Lemma safe_fs q : safe_m (execute_fs q).
Proof.
  destruct q; cbn [execute_fs]; try (apply keeps_safe_m; unfold with_path, simple, fail; keeps_tac; fail).
  - destruct out, path as [p|]; cbn [with_path]; try (apply keeps_safe_m, keeps_ret). destruct (flags_bad _); [apply keeps_safe_m, keeps_ret|apply safe_open_file].
  - destruct out, path as [p|]; cbn [with_path]; try (apply keeps_safe_m, keeps_ret).
    apply safe_m_bind; [intros s; apply fsdo_mounted|]. intros [rc x].
    repeat match goal with |- safe_m (if ?b then _ else _) => destruct b end;
      try apply (keeps_safe_m (fail _) (keeps_ret _)); [apply safe_open_dir|apply safe_open_file].
  - intros s Hs _. apply safe_with_file; [done|]. intros i n Hi. by apply safe_close_slot.
  - apply works_file. intros i n. works_tac.
  - apply works_file. intros i n. works_tac.
  - apply works_file. intros i n. apply works_positioned.
  - apply works_file. intros i n. apply works_positioned.
  - apply works_file. intros i n. works_tac.
  - apply works_file. intros i n. works_tac.
  - apply works_file. intros i n. works_tac.
  - apply works_file. intros i n. works_tac.
  - destruct out, path as [p|]; cbn [with_path]; try (apply keeps_safe_m, keeps_ret). apply safe_open_dir.
  - apply works_dir. intros i n. works_tac.
  - intros s Hs _. apply safe_with_dir; [done|]. intros i n Hi. by apply safe_close_slot.
Qed.

(** Sizes are unsigned. *)
Definition request_ok (q : fs_request) : Prop :=
  match q with BlockRead _ count => 0 <= count | _ => True end.

Lemma ensure_mounted_safe {A} (k : Z -> MO st A) s : inv s ->
  (forall rc s', inv s' -> (rc = OVE_OK -> g_mounted s' = true) -> wp (k rc) (fun _ => inv) s') ->
  wp (rc ← ensure_mounted; k rc) (fun _ => inv) s.
Proof.
  intros Hs Hk. unfold ensure_mounted. apply wp_bind, wp_bind, wp_gets. destruct (g_mounted s) eqn:Hm; [apply wp_ret; by apply Hk|].
  apply wp_bind, wp_gets, wp_bind, fsdo_state; [|done]. intros rc w Hs1.
  destruct (Z.eqb_spec rc OVE_OK) as [|Hne]; cbn [negb]; [|apply wp_ret; by apply Hk].
  apply wp_bind, wp_modify, wp_ret. apply Hk; [|done]. destruct Hs1. by split.
Qed.

Lemma unmount_safe s (Q : unit -> st -> Prop) : inv s -> opened (g_handles s) = [] ->
  (forall s', inv s' -> opened (g_handles s') = [] -> g_mounted s' = false -> Q tt s') -> wp unmount_now Q s.
Proof.
  intros Hs Ho HQ. unfold unmount_now. apply wp_bind, wp_gets, wp_bind.
  assert (forall s1, inv s1 -> opened (g_handles s1) = [] -> wp (omodify (fun s => {| s with g_mounted := false |})) Q s1) as H.
  { intros s1 [] H1. apply wp_modify, HQ; [by split|done|done]. }
  destruct (g_mounted s); [|by apply wp_ret, H]. apply fsdo_state; [|done]. intros a w Hs1. by apply H.
Qed.

Lemma opened_nil (l : list obj) : (forall k o, l !! k = Some o -> o = SFree) -> opened l = [].
Proof.
  intros H. destruct (opened l) as [|x t] eqn:E; [done|]. assert (x ∈ opened l) as Hx by (rewrite E; left).
  apply list_elem_of_filter in Hx as [Hf [k Hk]%list_elem_of_lookup]. by rewrite (H k x Hk) in Hf.
Qed.

Lemma storage_stop s : inv s ->
  wp (execute_request get_info backend_read backend_write backend_sync Stop)
    (fun _ s' => inv s' /\ opened (g_handles s') = [] /\ g_mounted s' = false) s.
Proof.
  intros Hs. cbn [execute_request]. unfold close_all_handles. apply wp_bind, wp_bind, wp_gets.
  apply safe_close_from; [done|done|]. intros s1 Hs1 Hf _.
  assert (opened (g_handles s1) = []) as Ho.
  { apply opened_nil. intros k o Hk. pose proof (Hf k) as E. rewrite Nat.add_0_l, Hk in E. destruct (g_handles s !! k); cbn in E; congruence. }
  apply wp_bind. eapply wp_mono; [by apply keeps_raw_active|]. intros b s2 [Hs2 E2].
  apply wp_bind. eapply wp_mono; [apply (keeps_if b (close_raw_block backend_sync) (mret tt)); [apply keeps_close_raw_block|apply keeps_ret|done]|].
  intros _ s3 [Hs3 E3]. apply wp_bind, unmount_safe; [done|by rewrite E3, E2|]. intros s4 ? ? ?. by apply wp_ret.
Qed.

Lemma execute_safe q : request_ok q -> safe (execute_request get_info backend_read backend_write backend_sync q).
Proof.
  intros Hq s Hs.
  assert (forall q', wp (w ← raw_writer; if (w : bool) then fail OVE_ERR_BUSY else rc ← ensure_mounted;
            if negb (rc =? OVE_OK) then fail rc else execute_fs q') (fun _ => inv) s) as Hfs.
  { intros q'. apply wp_bind. eapply wp_mono; [by apply keeps_raw_writer|]. intros [] s1 [Hs1 _]; [by apply wp_ret|].
    apply ensure_mounted_safe; [done|]. intros rc s2 Hs2 Hm. destruct (Z.eqb_spec rc OVE_OK) as [Hr|]; cbn [negb]; [|by apply wp_ret].
    by apply safe_fs; [|apply Hm]. }
  destruct q; cbn [execute_request]; try apply Hfs.
  - apply wp_bind, wp_gets, wp_bind, wp_gets. destruct spec as [v|].
    + destruct (_ || _); [by apply wp_ret|]. apply wp_bind, wp_modify. apply ensure_mounted_safe; [destruct Hs; by split|].
      intros. by apply wp_ret.
    + apply ensure_mounted_safe; [done|]. intros. by apply wp_ret.
  - apply wp_bind, wp_gets. destruct (existsb _ _) eqn:He; [by apply wp_ret|]. apply wp_bind, unmount_safe; [done| |].
    + apply opened_nil. intros k o Hk. destruct (is_free o) eqn:Hf; [by destruct o|]. exfalso.
      assert (existsb (fun o => negb (is_free o)) (g_handles s) = true) as Ht; [|congruence].
      apply existsb_exists. exists o. rewrite Hf. split; [|done]. apply list_elem_of_In. by eapply list_elem_of_lookup_2.
    + intros s' ? _ _. by apply wp_ret.
  - eapply wp_mono; [by apply storage_stop|]. by intros ? ? [? _].
  - apply keeps_safe; [|done]. destruct (negb out); [apply keeps_ret|]. eapply keeps_bind; [eapply gives_keeps, gives_refresh|].
    intros [rc|info]; apply keeps_ret.
  - apply keeps_safe; [|done]. destruct (_ <? _); [apply keeps_ret|]. pose proof (keeps_read_bytes offset count Hq). keeps_tac.
  - apply keeps_safe; [|done]. destruct (_ <? _); [apply keeps_ret|]. apply keeps_bind; [apply keeps_read_buffer|]. intros d.
    pose proof (keeps_write_bytes offset d). keeps_tac.
  - apply keeps_safe; [|done]. keeps_tac.
  - apply keeps_safe; [|done]. keeps_tac.
Qed.

(** A sequence of requests. *)
Fixpoint requests (qs : list fs_request) : MO st unit :=
  match qs with
  | [] => mret tt
  | q :: qs => execute_request get_info backend_read backend_write backend_sync q;; requests qs
  end.

Lemma requests_safe qs s : Forall request_ok qs -> inv s -> wp (requests qs) (fun _ => inv) s.
Proof.
  intros Hq. revert s. induction Hq as [|q qs Hq _ IH]; intros s Hs; cbn [requests]; [by apply wp_ret|].
  apply wp_bind. eapply wp_mono; [by apply execute_safe|]. intros x s' Hs'. by apply IH.
Qed.

(** The provider as [storage_run_begin] sets it up. *)
Definition idle (s : st) : Prop :=
  opened (g_handles s) = [] /\ fscalls s = [] /\ g_mounted s = false /\ g_block_info s = None.

Lemma idle_inv s : idle s -> inv s.
Proof. intros (Ho & Hc & Hm & Hi). split; [|by rewrite Ho|by rewrite Hi]. exists []. rewrite Hc, Ho. split; [constructor|done]. Qed.
End inv.

End StorageInv.

Module HandlesDemo.
Import Media Block Storage StorageDemo StorageInv.

Definition session : list fs_request :=
  [FileOpen (Some [1]) 3 true; DirOpen (Some []) true; FilePwrite (Some 0%nat) 4 9; Unmount; FileClose (Some 0%nat); BlockRead 3 6;
   FileOpen (Some [1]) 1 true].
Lemma info_nonneg b : 0 <= logical_block_size (disk_info b).1.2.
Proof. done. Defined.
Lemma session_ok : Forall request_ok session.
Proof. repeat constructor; done. Defined.
Lemma start_idle w b : idle (start w b).
Proof. done. Defined.

End HandlesDemo.
