(* ===== verification/StorageBlocks.v ===== *)
(** * Byte access to a device of blocks (proofs on [Storage])

    [block_read_bytes] and [block_write_bytes] on a device of whole blocks
    behave like reads and writes of an array of bytes. *)

From S2P Require Import Prelude Bits Media Storage.
Module StorageBlocks.
Import Media Block Storage.

Section blocks.
Context {LI : Limits} {W native : Type} {HF : HostFs W native} {B : Type}.
Context (get_info : B -> Z * ove_block_info * B) (backend_read : B -> Z -> Z -> Z * list Z * B)
        (backend_write : B -> Z -> Z -> list Z -> Z * B) (dev_sync : B -> Z * B).
Abbreviation st := (Storage.st (W := W) (native := native) (B := B)).

(** The device holds [bc] blocks of [bs] bytes, [contents] in order.  Any
    transfer may fail; a failed write may spoil its own block only. *)
Context (contents : B -> list Z) (bs bc : Z).
Record disk : Prop := {
  dk_size : 0 < bs /\ 0 < bc /\ bs * bc <= UINT64_MAX;
  dk_length : forall b, Z.of_nat (length (contents b)) = bs * bc;
  dk_info : forall b, contents (get_info b).2 = contents b /\
    ((get_info b).1.1 = OVE_OK -> logical_block_size (get_info b).1.2 = bs /\ block_count (get_info b).1.2 = bc);
  dk_read : forall b i, contents (backend_read b i 1).2 = contents b /\
    ((backend_read b i 1).1.1 = OVE_OK -> 0 <= i < bc -> (backend_read b i 1).1.2 = sl (contents b) (i * bs) bs);
  dk_write : forall b i d, 0 <= i < bc -> Z.of_nat (length d) = bs ->
    if (backend_write b i 1 d).1 =? OVE_OK then contents (backend_write b i 1 d).2 = overwrite (contents b) (Z.to_nat (i * bs)) d
    else changed (i * bs) bs (contents b) (contents (backend_write b i 1 d).2);
  dk_sync : forall b, contents (dev_sync b).2 = contents b }.
Context (HD : disk).

Definition bytes (d : dev (B := B)) : list Z := contents (back d).

Lemma get_info_bytes d : bytes (ove_block_get_info get_info d).2 = bytes d.
Proof.
  unfold ove_block_get_info, bytes. pose proof (proj1 (dk_info HD (back d))) as H. destruct (get_info (back d)) as [[rc info] b].
  cbn in H. destruct (rc =? OVE_OK); [by destruct (media_call _ _ _) as [[? ?] ?]|].
  destruct (rc =? OVE_ERR_NOT_REGISTERED); [by destruct (media_call _ _ _) as [[? ?] ?]|done].
Qed.

Lemma get_info_geometry d : (ove_block_get_info get_info d).1.1 = OVE_OK ->
  logical_block_size (ove_block_get_info get_info d).1.2 = bs /\ block_count (ove_block_get_info get_info d).1.2 = bc.
Proof.
  unfold ove_block_get_info. pose proof (proj2 (dk_info HD (back d))) as H. destruct (get_info (back d)) as [[rc info] b].
  cbn in H. destruct (rc =? OVE_OK); [by destruct (media_call _ _ _) as [[? ?] ?]|].
  destruct (rc =? OVE_ERR_NOT_REGISTERED); [by destruct (media_call _ _ _) as [[? ?] ?]|done].
Qed.

Lemma open_bytes d b fl : bytes (ove_block_open get_info d b fl).2 = bytes d.
Proof.
  unfold ove_block_open. destruct (_ || _); [done|]. pose proof (get_info_bytes d) as H.
  destruct (ove_block_get_info get_info d) as [[rc info] d1]. cbn in H. destruct (negb _); [done|]. destruct (_ && _); [done|].
  destruct (media_call _ _ _) as [[m l] r]. done.
Qed.

Lemma close_bytes d b : bytes (ove_block_close dev_sync d b).2 = bytes d.
Proof.
  unfold ove_block_close, Block.backend_sync, bytes. pose proof (dk_sync HD (back d)) as H.
  destruct (_ && _); [destruct (dev_sync (back d)) as [rc bk]; cbn in H |- *|];
    by destruct (media_call _ _ _) as [[m l] r].
Qed.

Lemma read_block d h i (x := ove_block_read get_info backend_read d h i 1) : 0 <= i < bc ->
  bytes x.2 = bytes d /\ (x.1.1 = OVE_OK -> x.1.2 = sl (bytes d) (i * bs) bs).
Proof.
  intros Hi. subst x. unfold ove_block_read. destruct (negb _); [done|]. pose proof (dk_read HD (back d) i) as [H1 H2].
  destruct (backend_read (back d) i 1) as [[rc data] bk]. cbn in H1, H2 |- *. split; [|by intros ->; apply H2].
  destruct (negb _); [|done]. unfold refresh_presence_after_error. by rewrite get_info_bytes.
Qed.

Lemma write_block d h i data (x := ove_block_write get_info backend_write d h i 1 data) : 0 <= i < bc -> Z.of_nat (length data) = bs ->
  (x.1 = OVE_OK -> bytes x.2 = overwrite (bytes d) (Z.to_nat (i * bs)) data) /\ changed (i * bs) bs (bytes d) (bytes x.2).
Proof.
  intros Hi Hl. subst x. pose proof (dk_length HD (back d)) as Hlen. destruct (dk_size HD) as (? & ? & _).
  pose proof (changed_refl (i * bs) bs (bytes d)) as Hr.
  unfold ove_block_write. destruct (valid d h 0); cbn [negb]; [|cbn [fst snd]; split; [intros Hk; discriminate Hk|exact Hr]]. destruct (valid d h OVE_MEDIA_RAW_WRITE); cbn [negb]; [|cbn [fst snd]; split; [intros Hk; discriminate Hk|exact Hr]].
  pose proof (dk_write HD (back d) i data Hi Hl) as H1.
  destruct (backend_write (back d) i 1 data) as [rc bk]. cbn in H1 |- *. destruct (Z.eqb_spec rc OVE_OK) as [->|Hne]; cbn [negb].
  - split; [done|]. unfold bytes at 2. cbn. rewrite H1. apply changed_overwrite; unfold bytes in *; [nia|done|nia].
  - split; [done|]. unfold refresh_presence_after_error. by rewrite get_info_bytes.
Qed.

(** ** Transfers of bytes *)

Definition disk_of (s : st) : list Z := bytes (bdev s).

Lemma wp_bdo {A} (f : dev -> A * dev) s (Q : A -> st -> Prop) : Q (f (bdev s)).1 {| s with bdev := (f (bdev s)).2 |} -> wp (bdo f) Q s.
Proof. unfold wp, bdo. by destruct (f (bdev s)). Qed.

(** The piece of a transfer at [offset]. *)
Lemma piece_facts offset count n : 0 <= offset -> 0 < count -> offset + count <= bs * bc -> n = chunk bs offset count ->
  0 <= offset / bs < bc /\ 0 <= offset mod bs < bs /\ offset = offset / bs * bs + offset mod bs /\
  0 < n <= count /\ offset mod bs + n <= bs /\ 0 <= offset / bs * bs /\ offset / bs * bs + bs <= bs * bc.
Proof.
  intros Ho Hc Hin ->. destruct (dk_size HD) as (Hb & _). unfold chunk.
  pose proof (Z.mod_pos_bound offset bs Hb). pose proof (Z.div_mod offset bs ltac:(lia)).
  assert (0 <= offset / bs) by (apply Z.div_pos; lia). assert (offset / bs < bc) by (apply Z.div_lt_upper_bound; lia).
  split_and!; try lia; nia.
Qed.

Lemma read_loop_spec h D : forall fuel offset count out s, 0 <= offset -> 0 <= count -> offset + count <= bs * bc ->
  (Z.to_nat count < fuel)%nat -> disk_of s = D ->
  wp (read_loop get_info backend_read fuel h bs offset count out) (fun r s' => disk_of s' = D /\
    (r.1 = OVE_OK -> r.2 = out ++ sl D offset count)) s.
Proof.
  induction fuel as [|fuel IH]; intros offset count out s Ho Hc Hin Hf HDs; [lia|]. cbn [read_loop].
  destruct (Z.eqb_spec count 0) as [->|Hne]; [apply wp_ret; cbn; by rewrite sl_nil, app_nil_r|].
  set (n := chunk bs offset count). destruct (piece_facts offset count n Ho ltac:(lia) Hin eq_refl) as (Hi & Hw & Hoff & Hn & Hwn & Hlo & Hend).
  cbv zeta. apply wp_bind, wp_bdo. destruct (read_block (bdev s) h (offset / bs) Hi) as [Hk Hr].
  destruct (ove_block_read _ _ _ _ _ _) as [[rc data] d']. cbn [fst snd] in *.
  destruct (Z.eqb_spec rc OVE_OK) as [->|]; cbn [negb]; [|apply wp_ret; split; [by rewrite <- HDs|done]].
  specialize (Hr eq_refl). eapply wp_mono; [apply (IH (offset + n)); [lia|lia|lia|lia|by rewrite <- HDs]|].
  intros r s' [E1 E2]. split; [done|]. intros H. rewrite (E2 H), <- app_assoc. f_equal.
  replace count with (n + (count - n)) at 2 by lia. rewrite (sl_app D offset) by lia. f_equal.
  rewrite Hr. change (take (Z.to_nat n) (drop (Z.to_nat (offset mod bs)) ?l)) with (sl l (offset mod bs) n).
  rewrite <- sl_sub by lia. unfold disk_of in HDs. rewrite HDs. f_equal. lia.
Qed.

(** The blocks a transfer touches. *)
Definition hull_lo (offset : Z) : Z := offset / bs * bs.
Definition hull_len (offset len : Z) : Z := (offset + len + bs - 1) / bs * bs - hull_lo offset.

Lemma hull_bounds offset len : 0 <= offset -> 0 <= len -> hull_lo offset <= offset /\ offset + len <= hull_lo offset + hull_len offset len.
Proof.
  intros Ho Hl. destruct (dk_size HD) as (Hb & _). unfold hull_len, hull_lo.
  pose proof (Z.mod_pos_bound offset bs Hb). pose proof (Z.div_mod offset bs ltac:(lia)).
  pose proof (Z.mod_pos_bound (offset + len + bs - 1) bs Hb). pose proof (Z.div_mod (offset + len + bs - 1) bs ltac:(lia)). lia.
Qed.

(** One piece of a write: the whole block, or a block read, patched and
    written back. *)
Definition write_piece (h : ove_block) (offset : Z) (piece : list Z) : MO st Z :=
  if (offset mod bs =? 0) && (Z.of_nat (length piece) =? bs) then bdo (fun d => ove_block_write get_info backend_write d h (offset / bs) 1 piece)
  else
    '(rc, data) ← bdo (fun d => ove_block_read get_info backend_read d h (offset / bs) 1);
    if negb (rc =? OVE_OK) then mret rc else
    bdo (fun d => ove_block_write get_info backend_write d h (offset / bs) 1 (overwrite data (Z.to_nat (offset mod bs)) piece)).

Lemma write_piece_spec h offset piece s : 0 <= offset -> 0 <= offset / bs < bc -> offset mod bs + Z.of_nat (length piece) <= bs ->
  wp (write_piece h offset piece) (fun rc s' => (rc = OVE_OK -> disk_of s' = overwrite (disk_of s) (Z.to_nat offset) piece) /\
    changed (hull_lo offset) bs (disk_of s) (disk_of s')) s.
Proof.
  intros Ho Hi Hw. destruct (dk_size HD) as (Hb & _). pose proof (dk_length HD (back (bdev s))) as Hlen.
  pose proof (Z.mod_pos_bound offset bs Hb). pose proof (Z.div_mod offset bs ltac:(lia)) as Hdiv. unfold write_piece, hull_lo.
  assert (0 <= offset / bs * bs /\ offset / bs * bs + bs <= bs * bc) as [Hlo Hend] by nia.
  destruct (Z.eqb_spec (offset mod bs) 0) as [Hm|Hm]; [destruct (Z.eqb_spec (Z.of_nat (length piece)) bs) as [Hp|Hp]|]; cbn [andb].
  1: { apply wp_bdo. destruct (write_block (bdev s) h (offset / bs) piece Hi Hp) as [H1 H2]. split; [|exact H2].
       intros Hrc. unfold disk_of in *. cbn [bdev]. rewrite (H1 Hrc). f_equal. lia. }
  all: apply wp_bind, wp_bdo; destruct (read_block (bdev s) h (offset / bs) Hi) as [Hk Hr];
    destruct (ove_block_read _ _ _ _ _ _) as [[rc data] d']; cbn [fst snd] in *;
    (destruct (Z.eqb_spec rc OVE_OK) as [->|]; cbn [negb];
      [|apply wp_ret; unfold disk_of; cbn [bdev]; rewrite Hk; split; [done|apply changed_refl]]);
    specialize (Hr eq_refl); apply wp_bdo; cbn [bdev];
    (assert (Z.of_nat (length data) = bs) as Hd by (rewrite Hr, sl_length by (unfold bytes; lia); lia));
    (assert (Z.of_nat (length (overwrite data (Z.to_nat (offset mod bs)) piece)) = bs) as Ho2 by (rewrite overwrite_length by lia; done));
    (destruct (write_block d' h (offset / bs) _ Hi Ho2) as [H1 H2]); rewrite Hk in H1, H2; (split; [|exact H2]);
    intros Hrc; unfold disk_of; cbn [bdev]; rewrite (H1 Hrc), Hr; unfold sl;
    rewrite overwrite_nested by (unfold bytes in *; lia); f_equal; lia.
Qed.

Lemma write_loop_eq fuel offset src : Z.of_nat (length src) <> 0 ->
  write_loop (W := W) (native := native) get_info backend_read backend_write (S fuel) bs offset src =
  (let n := chunk bs offset (Z.of_nat (length src)) in
   h ← ogets g_raw_block; rc ← write_piece h offset (take (Z.to_nat n) src);
   if negb (rc =? OVE_OK) then set_info None;; mret rc
   else write_loop get_info backend_read backend_write fuel bs (offset + n) (drop (Z.to_nat n) src)).
Proof.
  intros Hne. cbn [write_loop]. rewrite (proj2 (Z.eqb_neq _ _) Hne). cbv zeta. unfold write_piece.
  assert (Z.of_nat (length (take (Z.to_nat (chunk bs offset (Z.of_nat (length src)))) src)) = chunk bs offset (Z.of_nat (length src))) as ->; [|done].
  destruct (dk_size HD) as (Hb & _). rewrite length_take. unfold chunk. pose proof (Z.mod_pos_bound offset bs Hb). lia.
Qed.

Lemma write_loop_spec : forall fuel offset src s, 0 <= offset -> offset + Z.of_nat (length src) <= bs * bc ->
  (length src < fuel)%nat ->
  wp (write_loop get_info backend_read backend_write fuel bs offset src) (fun rc s' =>
    (rc = OVE_OK -> sl (disk_of s') offset (Z.of_nat (length src)) = src /\ changed offset (Z.of_nat (length src)) (disk_of s) (disk_of s')) /\
    changed (hull_lo offset) (hull_len offset (Z.of_nat (length src))) (disk_of s) (disk_of s')) s.
Proof.
  destruct (dk_size HD) as (Hb & _).
  induction fuel as [|fuel IH]; intros offset src s Ho Hin Hf; [lia|].
  destruct (decide (Z.of_nat (length src) = 0)) as [H0|H0].
  { cbn [write_loop]. rewrite H0. cbn. apply wp_ret. split; [intros _; split; [|apply changed_refl]|apply changed_refl].
    rewrite sl_nil by done. symmetry. apply nil_length_inv. lia. }
  rewrite write_loop_eq by done. cbv zeta. set (n := chunk bs offset (Z.of_nat (length src))).
  destruct (piece_facts offset (Z.of_nat (length src)) n Ho ltac:(lia) Hin eq_refl) as (Hi & Hw & Hoff & Hn & Hwn & Hlo & Hend).
  set (piece := take (Z.to_nat n) src). set (rest := drop (Z.to_nat n) src).
  assert (Z.of_nat (length piece) = n) as Hp by (unfold piece; rewrite length_take; lia).
  assert (Z.of_nat (length rest) = Z.of_nat (length src) - n) as Hrl by (unfold rest; rewrite length_drop; lia).
  destruct (hull_bounds offset (Z.of_nat (length src)) Ho ltac:(lia)) as [Hh1 Hh2].
  apply wp_bind, wp_gets, wp_bind. eapply wp_mono; [apply write_piece_spec; [done|done|lia]|].
  intros rc s1 [H1 H2]. pose proof (dk_length HD (back (bdev s))) as Hlen.
  assert (hull_lo offset + bs <= hull_lo offset + hull_len offset (Z.of_nat (length src))) as Hbl.
  { unfold hull_len, hull_lo in *. pose proof (Z.mod_pos_bound (offset + Z.of_nat (length src) + bs - 1) bs Hb).
    pose proof (Z.div_mod (offset + Z.of_nat (length src) + bs - 1) bs ltac:(lia)).
    assert (offset / bs + 1 <= (offset + Z.of_nat (length src) + bs - 1) / bs); [|nia].
    apply Z.div_le_lower_bound; [done|]. nia. }
  assert (changed (hull_lo offset) (hull_len offset (Z.of_nat (length src))) (disk_of s) (disk_of s1)) as H3
    by (eapply changed_widen; [| |exact H2]; lia).
  destruct (Z.eqb_spec rc OVE_OK) as [->|Hne]; cbn [negb].
  2: { apply wp_bind, wp_modify, wp_ret. done. }
  specialize (H1 eq_refl). eapply wp_mono; [apply (IH (offset + n) rest s1); [lia|lia|lia]|].
  assert (changed offset n (disk_of s) (disk_of s1)) as C1.
  { rewrite H1. apply changed_overwrite; [done|done|unfold disk_of, bytes; lia]. }
  intros rc s2 [H4 H5]. rewrite Hrl in H4, H5. split.
  - intros Hrc. destruct (H4 Hrc) as [E C2]. split.
    + replace (Z.of_nat (length src)) with (n + (Z.of_nat (length src) - n)) by lia. rewrite sl_app by lia. rewrite E.
      rewrite (proj2 C2) by lia. rewrite H1, sl_overwrite_same by (done || (unfold disk_of, bytes; lia)).
      apply take_drop.
    + eapply changed_trans; eapply changed_widen; [| |exact C1| | |exact C2]; lia.
  - eapply changed_trans; [exact H3|]. eapply changed_widen; [| |exact H5].
    + unfold hull_lo. apply Z.mul_le_mono_nonneg_r; [lia|]. apply Z.div_le_mono; lia.
    + unfold hull_len. replace (offset + n + (Z.of_nat (length src) - n) + bs - 1) with (offset + Z.of_nat (length src) + bs - 1) by lia. lia.
Qed.

(** A geometry that is already known is the device's. *)
Definition known_geometry (s : st) : Prop :=
  forall i, g_block_info s = Some i -> logical_block_size i = bs /\ block_count i = bc.

Lemma bounds_spec offset count s : known_geometry s -> wp (block_bounds get_info offset count) (fun r s' =>
  disk_of s' = disk_of s /\ match r with inl rc => rc <> OVE_OK | inr i => logical_block_size i = bs /\ offset + count <= bs * bc end) s.
Proof.
  intros Hg. unfold block_bounds. apply wp_bind, wp_gets, wp_bind.
  assert (forall i s1, logical_block_size i = bs -> block_count i = bc -> disk_of s1 = disk_of s ->
    wp (if UINT64_MAX / logical_block_size i <? block_count i then mret (inl OVE_ERR_INVALID_PARAM) else
        let size := block_count i * logical_block_size i in
        mret (if (offset <=? size) && (count <=? size - offset) then inr i else inl OVE_ERR_INVALID_PARAM))
      (fun r s' => disk_of s' = disk_of s /\ match r with inl rc => rc <> OVE_OK | inr i => logical_block_size i = bs /\ offset + count <= bs * bc end) s1) as Hk.
  { intros i s1 E1 E2 E3. destruct (_ <? _); cbv zeta; apply wp_ret; [done|]. split; [done|].
    destruct (Z.leb_spec offset (block_count i * logical_block_size i)), (Z.leb_spec count (block_count i * logical_block_size i - offset));
      cbn [andb]; try done. split; [done|]. rewrite E1, E2 in *. lia. }
  destruct (g_block_info s) as [i|] eqn:Hi; [apply wp_ret; by apply Hk; [apply Hg..|]|].
  unfold refresh_block_info. apply wp_bind, wp_bdo. pose proof (get_info_bytes (bdev s)) as Hby.
  pose proof (get_info_geometry (bdev s)) as Hge. destruct (ove_block_get_info get_info (bdev s)) as [[rc info] d]. cbn [fst snd] in *.
  destruct (Z.eqb_spec rc OVE_OK) as [->|]; cbn [negb]; [|apply wp_bind, wp_modify, wp_ret, wp_ret; done].
  destruct (_ || _); [apply wp_bind, wp_modify, wp_ret, wp_ret; done|]. apply wp_bind, wp_modify, wp_ret.
  destruct (Hge eq_refl). by apply Hk.
Qed.

Lemma read_bytes_spec offset count s : known_geometry s -> 0 <= offset -> 0 <= count ->
  wp (block_read_bytes get_info backend_read dev_sync offset count) (fun r s' => disk_of s' = disk_of s /\
    (r.1 = OVE_OK -> offset + count <= bs * bc /\ r.2 = sl (disk_of s) offset count)) s.
Proof.
  intros Hg Ho Hc. unfold block_read_bytes. apply wp_bind. eapply wp_mono; [by apply bounds_spec|].
  intros [rc|info] s1 [E1 Hi]; [by apply wp_ret|].
  destruct Hi as [E2 Hin]. destruct (Z.eqb_spec count 0) as [->|]; [apply wp_ret; cbn; by rewrite sl_nil|].
  apply wp_bind, wp_gets. cbv zeta. rewrite E2.
  assert (forall h s2, disk_of s2 = disk_of s ->
    wp (read_loop get_info backend_read (S (Z.to_nat count)) h bs offset count []) (fun r s' => disk_of s' = disk_of s /\
      (r.1 = OVE_OK -> r.2 = sl (disk_of s) offset count)) s2) as Hl.
  { intros h s2 E. eapply wp_mono; [apply (read_loop_spec h (disk_of s)); [done|done|done|lia|done]|]. by intros r s3. }
  assert (forall (r : Z * list Z) s3, disk_of s3 = disk_of s -> (r.1 = OVE_OK -> r.2 = sl (disk_of s) offset count) ->
    wp ((if negb (r.1 =? OVE_OK) then set_info None else mret tt);; mret r) (fun r s' => disk_of s' = disk_of s /\
      (r.1 = OVE_OK -> offset + count <= bs * bc /\ r.2 = sl (disk_of s) offset count)) s3) as Hfin.
  { intros r s3 E H. apply wp_bind. destruct (negb _); [apply wp_modify|apply wp_ret]; apply wp_ret; (split; [done|]); intros Hr;
      (split; [done|by apply H]). }
  destruct (active _).
  - apply wp_bind, wp_gets, wp_bind. eapply wp_mono; [by apply Hl|]. intros r s3 [E3 H3]. by apply Hfin.
  - apply wp_bind, wp_bdo. pose proof (open_bytes (bdev s1) new_handle 0) as Hop.
    destruct (ove_block_open get_info (bdev s1) new_handle 0) as [[rc h] d]. cbn [fst snd] in *.
    destruct (Z.eqb_spec rc OVE_OK) as [->|]; cbn [negb]; [|apply wp_ret; split; [unfold disk_of in *; cbn [bdev]; congruence|done]].
    apply wp_bind. eapply wp_mono; [apply Hl; unfold disk_of in *; cbn [bdev]; congruence|]. intros r s3 [E3 H3].
    apply wp_bind, wp_bdo, Hfin; [|done]. unfold disk_of in *. cbn [bdev]. by rewrite close_bytes.
Qed.

Lemma write_bytes_spec offset src s : known_geometry s -> 0 <= offset ->
  wp (block_write_bytes get_info backend_read backend_write offset src) (fun rc s' =>
    (rc = OVE_OK -> offset + Z.of_nat (length src) <= bs * bc /\ sl (disk_of s') offset (Z.of_nat (length src)) = src /\
       changed offset (Z.of_nat (length src)) (disk_of s) (disk_of s')) /\
    changed (hull_lo offset) (hull_len offset (Z.of_nat (length src))) (disk_of s) (disk_of s')) s.
Proof.
  intros Hg Ho. unfold block_write_bytes. apply wp_bind. eapply wp_mono; [by apply bounds_spec|].
  intros [rc|info] s1 [E1 Hi]; [apply wp_ret; rewrite E1; split; [done|apply changed_refl]|].
  destruct Hi as [E2 Hin]. destruct (Z.eqb_spec (Z.of_nat (length src)) 0) as [H0|].
  { apply wp_ret. rewrite E1. split; [intros _; split; [done|split; [|apply changed_refl]]|apply changed_refl].
    rewrite H0, sl_nil by done. symmetry. apply nil_length_inv. lia. }
  unfold raw_writer. apply wp_bind, wp_gets. destruct (negb _); [apply wp_ret; rewrite E1; split; [done|apply changed_refl]|].
  rewrite E2. eapply wp_mono; [apply write_loop_spec; [done|done|lia]|]. rewrite E1. intros rc s2 [H1 H2]. split; [|done].
  intros Hrc. by destruct (H1 Hrc).
Qed.

(** ** Completion *)

(** No transfer inside the device fails. *)
Definition reliable : Prop := forall b i, 0 <= i < bc ->
  (backend_read b i 1).1.1 = OVE_OK /\ forall d, Z.of_nat (length d) = bs -> (backend_write b i 1 d).1 = OVE_OK.

(** The raw handle is usable, for writing if [w]. *)
Definition usable (w : bool) (d : dev (B := B)) (h : ove_block) : Prop :=
  valid d h 0 = true /\ (w = true -> valid d h OVE_MEDIA_RAW_WRITE = true).

Lemma usable_med w d d' h : med d' = med d -> usable w d h -> usable w d' h.
Proof.
  intros E Hu. unfold usable. assert (forall f, valid d' h f = valid d h f) as Hv by (intros f; unfold valid; rewrite E; reflexivity).
  rewrite !Hv. exact Hu.
Qed.

Context (Hrel : reliable).

Lemma read_ok w d h i (x := ove_block_read get_info backend_read d h i 1) : 0 <= i < bc -> usable w d h ->
  x.1.1 = OVE_OK /\ usable w x.2 h.
Proof.
  intros Hi Hu. subst x. unfold ove_block_read. rewrite (proj1 Hu). cbn [negb]. destruct (Hrel (back d) i Hi) as [Hr _].
  destruct (backend_read (back d) i 1) as [[rc data] bk]. cbn in Hr |- *. rewrite Hr. split; [done|].
  by eapply usable_med; [|exact Hu].
Qed.

Lemma write_ok d h i data (x := ove_block_write get_info backend_write d h i 1 data) : 0 <= i < bc -> Z.of_nat (length data) = bs ->
  usable true d h -> x.1 = OVE_OK /\ usable true x.2 h.
Proof.
  intros Hi Hl Hu. subst x. unfold ove_block_write. rewrite (proj1 Hu), (proj2 Hu eq_refl). cbn [negb].
  destruct (Hrel (back d) i Hi) as [_ Hw]. specialize (Hw data Hl). destruct (backend_write (back d) i 1 data) as [rc bk].
  cbn in Hw |- *. rewrite Hw. split; [done|]. by eapply usable_med; [|exact Hu].
Qed.

Lemma read_loop_ok h : forall fuel offset count out (s : st), 0 <= offset -> 0 <= count -> offset + count <= bs * bc ->
  (Z.to_nat count < fuel)%nat -> usable false (bdev s) h ->
  wp (read_loop get_info backend_read fuel h bs offset count out) (fun r _ => r.1 = OVE_OK) s.
Proof.
  induction fuel as [|fuel IH]; intros offset count out s Ho Hc Hin Hf Hu; [lia|]. cbn [read_loop].
  destruct (Z.eqb_spec count 0) as [->|Hne]; [by apply wp_ret|].
  destruct (piece_facts offset count _ Ho ltac:(lia) Hin eq_refl) as (Hi & Hw & Hoff & Hn & Hwn & Hlo & Hend).
  cbv zeta. apply wp_bind, wp_bdo. destruct (read_ok false (bdev s) h (offset / bs) Hi Hu) as [Hk Hu'].
  destruct (ove_block_read _ _ _ _ _ _) as [[rc data] d']. cbn [fst snd] in *. subst rc. cbn [negb].
  apply IH; [lia|lia|lia|lia|done].
Qed.

Lemma write_piece_ok h offset piece (s : st) : 0 <= offset -> 0 <= offset / bs < bc -> offset mod bs + Z.of_nat (length piece) <= bs ->
  usable true (bdev s) h -> g_raw_block s = h ->
  wp (write_piece h offset piece) (fun rc s' => rc = OVE_OK /\ usable true (bdev s') h /\ g_raw_block s' = h) s.
Proof.
  intros Ho Hi Hw Hu Hh. destruct (dk_size HD) as (Hb & _). pose proof (Z.mod_pos_bound offset bs Hb). unfold write_piece.
  destruct (Z.eqb_spec (offset mod bs) 0) as [Hm|Hm]; [destruct (Z.eqb_spec (Z.of_nat (length piece)) bs) as [Hp|Hp]|]; cbn [andb].
  1: { apply wp_bdo. by destruct (write_ok (bdev s) h (offset / bs) piece Hi Hp Hu). }
  all: apply wp_bind, wp_bdo; destruct (read_ok true (bdev s) h (offset / bs) Hi Hu) as [Hk Hu'];
    destruct (read_block (bdev s) h (offset / bs) Hi) as [_ Hr]; pose proof (dk_length HD (back (bdev s))) as Hlen;
    destruct (ove_block_read _ _ _ _ _ _) as [[rc data] d']; cbn [fst snd] in *; specialize (Hr Hk); subst rc; cbn [negb]; apply wp_bdo; cbn [bdev];
    (assert (Z.of_nat (length data) = bs) as Hd by (rewrite Hr, sl_length by (unfold bytes; nia); lia));
    (assert (Z.of_nat (length (overwrite data (Z.to_nat (offset mod bs)) piece)) = bs) as Ho2 by (rewrite overwrite_length by lia; done));
    by destruct (write_ok d' h (offset / bs) _ Hi Ho2 Hu').
Qed.

Lemma write_loop_ok h : forall fuel offset src (s : st), 0 <= offset -> offset + Z.of_nat (length src) <= bs * bc -> (length src < fuel)%nat ->
  usable true (bdev s) h -> g_raw_block s = h ->
  wp (write_loop get_info backend_read backend_write fuel bs offset src) (fun rc _ => rc = OVE_OK) s.
Proof.
  induction fuel as [|fuel IH]; intros offset src s Ho Hin Hf Hu Hh; [lia|].
  destruct (decide (Z.of_nat (length src) = 0)) as [H0|H0]; [cbn [write_loop]; rewrite H0; by apply wp_ret|].
  rewrite write_loop_eq by done. cbv zeta. set (n := chunk bs offset (Z.of_nat (length src))).
  destruct (piece_facts offset (Z.of_nat (length src)) n Ho ltac:(lia) Hin eq_refl) as (Hi & Hw & Hoff & Hn & Hwn & Hlo & Hend).
  apply wp_bind, wp_gets, wp_bind. rewrite Hh.
  eapply wp_mono; [apply write_piece_ok; [done|done|rewrite length_take; lia|done|done]|]. intros rc s1 (-> & Hu1 & Hh1). cbn [negb].
  apply IH; [lia|rewrite length_drop; lia|rewrite length_drop; lia|done|done].
Qed.

Definition ready (s : st) : Prop := known_geometry s /\ g_block_info s <> None /\ active (blease (g_raw_block s)) = true /\
  Z.land (bflags (g_raw_block s)) OVE_BLOCK_OPEN_WRITE <> 0 /\ usable true (bdev s) (g_raw_block s).

Lemma bounds_ok offset count (s : st) i : g_block_info s = Some i -> logical_block_size i = bs -> block_count i = bc -> 0 <= count ->
  offset + count <= bs * bc -> block_bounds get_info offset count s = Some (inr i, s).
Proof.
  intros Hi E1 E2 Hc Hin. unfold block_bounds, ogets, mbind, MO_bind. rewrite Hi. unfold mret, MO_ret. rewrite E1, E2.
  destruct (dk_size HD) as (Hb & Hbc & Hm). rewrite (proj2 (Z.ltb_ge _ _)) by (apply Z.div_le_lower_bound; lia).
  by rewrite !(proj2 (Z.leb_le _ _)) by lia.
Qed.

Lemma transfers_complete offset count src (s : st) : ready s -> 0 <= offset -> 0 <= count -> offset + count <= bs * bc ->
  offset + Z.of_nat (length src) <= bs * bc ->
  wp (block_read_bytes get_info backend_read dev_sync offset count) (fun r _ => r.1 = OVE_OK) s /\
  wp (block_write_bytes get_info backend_read backend_write offset src) (fun rc _ => rc = OVE_OK) s.
Proof.
  intros (Hg & Hk & Ha & Hf & Hu) Ho Hc Hin Hin2. destruct (g_block_info s) as [i|] eqn:Hi; [|done]. destruct (Hg i Hi) as [E1 E2]. split.
  - unfold block_read_bytes. apply wp_bind. unfold wp at 1. rewrite (bounds_ok offset count s i Hi E1 E2 Hc Hin).
    destruct (Z.eqb_spec count 0) as [->|]; [by apply wp_ret|]. apply wp_bind, wp_gets. rewrite Ha. cbv zeta. apply wp_bind, wp_gets, wp_bind.
    rewrite E1. assert (usable false (bdev s) (g_raw_block s)) as Hu' by (split; [exact (proj1 Hu)|intros Hx; discriminate Hx]).
    eapply wp_mono; [apply (read_loop_ok (g_raw_block s)); [exact Ho|exact Hc|exact Hin|lia|exact Hu']|].
    intros r s' Hr. rewrite Hr. apply wp_bind, wp_ret, wp_ret. exact Hr.
  - unfold block_write_bytes. apply wp_bind. unfold wp at 1. rewrite (bounds_ok offset (Z.of_nat (length src)) s i Hi E1 E2 ltac:(lia) Hin2).
    destruct (Z.eqb_spec (Z.of_nat (length src)) 0); [by apply wp_ret|]. unfold raw_writer. apply wp_bind, wp_gets. rewrite Ha.
    rewrite (proj2 (Z.eqb_neq _ _)) by done. cbn [negb andb]. rewrite E1. apply (write_loop_ok (g_raw_block s)); [exact Ho|exact Hin2|lia|exact Hu|reflexivity].
Qed.
End blocks.

(** C9. Byte access to a device of blocks.  Whatever transfers fail: reading
    a range never changes the device, and when it succeeds the range is
    inside the device and exactly its bytes come back.  When a write
    succeeds, the range is inside the device and holds exactly the bytes
    given, and every other byte of the device is as before, although whole
    blocks were read and written back; when it fails, no byte outside the
    blocks of the range has changed.  Both succeed for a range inside the
    device when the raw handle is a current writer and no transfer fails. *)
Theorem storage_blocks_refine {LI : Limits} {W native : Type} {HF : HostFs W native} {B : Type}
    (get_info : B -> Z * ove_block_info * B) (backend_read : B -> Z -> Z -> Z * list Z * B)
    (backend_write : B -> Z -> Z -> list Z -> Z * B) (dev_sync : B -> Z * B) (contents : B -> list Z) (bs bc : Z)
    (offset count : Z) (src : list Z) (s : Storage.st (W := W) (native := native) (B := B)) :
  disk get_info backend_read backend_write dev_sync contents bs bc -> known_geometry bs bc s -> 0 <= offset -> 0 <= count ->
  wp (block_read_bytes get_info backend_read dev_sync offset count) (fun r s' => disk_of contents s' = disk_of contents s /\
    (r.1 = OVE_OK -> offset + count <= bs * bc /\ r.2 = sl (disk_of contents s) offset count)) s /\
  wp (block_write_bytes get_info backend_read backend_write offset src) (fun rc s' =>
    (rc = OVE_OK -> offset + Z.of_nat (length src) <= bs * bc /\ sl (disk_of contents s') offset (Z.of_nat (length src)) = src /\
       changed offset (Z.of_nat (length src)) (disk_of contents s) (disk_of contents s')) /\
    changed (hull_lo bs offset) (hull_len bs offset (Z.of_nat (length src))) (disk_of contents s) (disk_of contents s')) s /\
  (reliable backend_read backend_write bs bc -> ready bs bc s -> offset + count <= bs * bc -> offset + Z.of_nat (length src) <= bs * bc ->
    wp (block_read_bytes get_info backend_read dev_sync offset count) (fun r _ => r.1 = OVE_OK) s /\
    wp (block_write_bytes get_info backend_read backend_write offset src) (fun rc _ => rc = OVE_OK) s).
Proof.
  intros HD Hg Ho Hc. split; [by eapply read_bytes_spec|]. split; [by eapply write_bytes_spec|]. intros. by eapply transfers_complete.
Qed.
End StorageBlocks.

Module BlocksDemo.
Import Media Block Storage StorageDemo StorageBlocks.

Lemma demo_length b : length (disk_contents b) = 16%nat.
Proof. unfold disk_contents. rewrite length_take, length_app, length_replicate. lia. Qed.
Lemma contents_full b : length b = 16%nat -> disk_contents b = b.
Proof. intros H. unfold disk_contents. rewrite take_app_le by lia. apply take_ge. lia. Qed.

Lemma demo_disk : disk disk_info disk_read disk_write disk_sync disk_contents 4 4.
Proof.
  split.
  - done.
  - intros b. by rewrite demo_length.
  - intros b. done.
  - intros b i. unfold disk_read. destruct (_ && _) eqn:H; [|done]. split; [done|]. intros _ _. cbn [fst snd]. unfold sl. done.
  - intros b i d Hi Hd. unfold disk_write. rewrite (proj2 (Z.leb_le 0 i)), (proj2 (Z.ltb_lt i 4)) by lia. cbn [andb fst snd Z.eqb OVE_OK].
    apply contents_full. unfold put. rewrite overwrite_length; rewrite demo_length; lia.
  - done.
Qed.

Lemma demo_reliable : reliable disk_read disk_write 4 4.
Proof.
  intros b i Hi. unfold disk_read, disk_write. rewrite (proj2 (Z.leb_le 0 i)), (proj2 (Z.ltb_lt i 4)) by lia. done.
Qed.

Lemma demo_known : known_geometry 4 4 (raw_start []).
Proof. intros i [= <-]. done. Qed.

Lemma demo_ready : ready 4 4 (raw_start []).
Proof. split; [apply demo_known|]. by vm_compute. Qed.

Lemma storage_blocks_refine_witness :
  (wp (block_read_bytes disk_info disk_read disk_sync 3 6) (fun r s' => disk_of disk_contents s' = disk_of disk_contents (raw_start []) /\
    (r.1 = OVE_OK -> 3 + 6 <= 4 * 4 /\ r.2 = sl (disk_of disk_contents (raw_start [])) 3 6)) (raw_start []) /\
  wp (block_write_bytes disk_info disk_read disk_write 3 [1; 2; 3; 4; 5; 6]) (fun rc s' =>
    (rc = OVE_OK -> 3 + Z.of_nat (length [1; 2; 3; 4; 5; 6]) <= 4 * 4 /\ sl (disk_of disk_contents s') 3 (Z.of_nat (length [1; 2; 3; 4; 5; 6])) = [1; 2; 3; 4; 5; 6] /\
       changed 3 (Z.of_nat (length [1; 2; 3; 4; 5; 6])) (disk_of disk_contents (raw_start [])) (disk_of disk_contents s')) /\
    changed (hull_lo 4 3) (hull_len 4 3 (Z.of_nat (length [1; 2; 3; 4; 5; 6]))) (disk_of disk_contents (raw_start [])) (disk_of disk_contents s')) (raw_start [])) /\
  wp (block_read_bytes disk_info disk_read disk_sync 3 6) (fun r _ => r.1 = OVE_OK) (raw_start []) /\
  wp (block_write_bytes disk_info disk_read disk_write 3 [1; 2; 3; 4; 5; 6]) (fun rc _ => rc = OVE_OK) (raw_start []).
Proof.
  pose proof (storage_blocks_refine disk_info disk_read disk_write disk_sync disk_contents 4 4 3 6 [1; 2; 3; 4; 5; 6] (raw_start [])
    demo_disk demo_known ltac:(lia) ltac:(lia)) as (H1 & H2 & H3).
  split; [exact (conj H1 H2)|]. apply (H3 demo_reliable demo_ready); [lia|cbn; lia].
Defined.
End BlocksDemo.
