(* ===== verification/StorageFiles.v ===== *)
(** * Positioned transfers and admission (proofs on [Storage])

    [FS_REQ_FILE_PREAD] and [FS_REQ_FILE_PWRITE] against a native file that
    is a sequence of bytes with a position, and the spacing of the requests
    the storage server admits. *)

From S2P Require Import Prelude Bits Media Storage.
Module StorageFiles.
Import Media Block Storage.

(** ** Positioned transfers *)

Section files.
Context {LI : Limits} {W native : Type} {HF : HostFs W native} {B : Type}.
Abbreviation st := (Storage.st (W := W) (native := native) (B := B)).

(** The native file [n]: a sequence of bytes and a position.  Any call may
    fail; a failed call changes neither, except that a failed write may
    spoil the contents.  Transfers may be short. *)
Context (n : native) (isopen : W -> Prop) (data : W -> list Z) (pos : W -> Z).
Definition same (w w' : W) : Prop := isopen w' /\ data w' = data w /\ pos w' = pos w.
(** [o] is at most the length: [d] with [b] written at [o]. *)
Definition written (d : list Z) (o : Z) (b : list Z) : list Z := overwrite d (Z.to_nat o) b.
(** Resized to [l] bytes, zeros being added. *)
Definition resized (d : list Z) (l : Z) : list Z := take (Z.to_nat l) d ++ replicate (Z.to_nat l - length d) 0.

Record file_laws : Prop := {
  fl_pos : forall w, isopen w -> 0 <= pos w;
  fl_tell : forall w, isopen w -> same w (ove_fs_tell n w).2 /\ ((ove_fs_tell n w).1 = pos w \/ (ove_fs_tell n w).1 < 0);
  fl_size : forall w, isopen w -> same w (ove_fs_size n w).2 /\
    ((ove_fs_size n w).1.1 = OVE_OK -> (ove_fs_size n w).1.2 = Z.of_nat (length (data w)));
  fl_seek : forall w o, isopen w -> 0 <= o -> let '(rc, w') := ove_fs_seek n o OVE_FS_SEEK_SET w in
    isopen w' /\ data w' = data w /\ rc <> OVE_ERR_EOF /\ pos w' = if rc =? OVE_OK then o else pos w;
  fl_read : forall w c, isopen w -> 0 <= c -> let '(rc, b, w') := ove_fs_read n c w in
    isopen w' /\ data w' = data w /\ (rc = OVE_OK -> Z.of_nat (length b) <= c /\ b = sl (data w) (pos w) (Z.of_nat (length b)));
  fl_write : forall w b, isopen w -> let '(rc, k, w') := ove_fs_write n b w in
    isopen w' /\ (rc = OVE_OK -> pos w <= Z.of_nat (length (data w)) ->
      0 <= k <= Z.of_nat (length b) /\ data w' = written (data w) (pos w) (take (Z.to_nat k) b));
  fl_truncate : forall w l, isopen w -> let '(rc, w') := ove_fs_truncate n l w in
    isopen w' /\ pos w' = pos w /\ data w' = if rc =? OVE_OK then resized (data w) l else data w }.
Context (HL : file_laws).

Definition opened_file (s : st) : Prop := isopen (fs s).

Lemma wp_on_obj {A} o (f : W -> A * W) (s : st) (Q : A -> st -> Prop) :
  (let s := {| s with fscalls := fscalls s ++ [CUse o] |} in Q (f (fs s)).1 {| s with fs := (f (fs s)).2 |}) -> wp (on_obj o f) Q s.
Proof. unfold on_obj, fslog, fsdo, omodify, wp, mbind, MO_bind. cbn. by destruct (f (fs s)). Qed.

(** The outcome of a positioned transfer. *)
Record transferred (write : bool) (count offset : Z) (s s' : st) (rc : Z) (r : reply) : Prop := {
  tr_open : isopen (fs s');
  tr_pos : rc = OVE_OK \/ rc = OVE_ERR_EOF -> pos (fs s') = pos (fs s);
  tr_read : write = false -> data (fs s') = data (fs s) /\ (rc = OVE_OK -> exists k, r = RCount k /\ 0 <= k <= count /\
    take (Z.to_nat k) (g_io_buffer s') = sl (data (fs s)) offset k);
  tr_write : write = true -> rc = OVE_OK -> exists k, r = RCount k /\ 0 <= k <= count /\
    data (fs s') = written (if Z.of_nat (length (data (fs s))) <? offset then resized (data (fs s)) offset else data (fs s)) offset
      (take (Z.to_nat k) (g_io_buffer s)) }.

Lemma file_read_spec count (s : st) : isopen (fs s) -> 0 <= count ->
  wp (file_read n count) (fun '(rc, r) s' => isopen (fs s') /\ data (fs s') = data (fs s) /\
    (rc = OVE_OK -> exists k, r = RCount k /\ 0 <= k <= count /\ take (Z.to_nat k) (g_io_buffer s') = sl (data (fs s)) (pos (fs s)) k)) s.
Proof.
  intros Ho Hc. unfold file_read. apply wp_bind, wp_on_obj. cbv zeta. cbn [fs fscalls].
  pose proof (fl_read HL (fs s) count Ho Hc) as H. destruct (ove_fs_read n count (fs s)) as [[rc b] w]. cbn [fst snd].
  destruct H as (H1 & H2 & H3). apply wp_bind, wp_modify, wp_ret. cbn [fs g_io_buffer]. split; [done|]. split; [done|].
  intros Hrc. destruct (H3 Hrc) as [H4 H5]. exists (Z.of_nat (length b)). split; [done|]. split; [lia|].
  rewrite <- H5. unfold overwrite. rewrite take_0, Nat2Z.id. cbn [app]. apply take_app_length.
Qed.

Lemma file_write_spec count (s : st) : isopen (fs s) -> 0 <= count -> pos (fs s) <= Z.of_nat (length (data (fs s))) ->
  wp (file_write n count) (fun '(rc, r) s' => isopen (fs s') /\
    (rc = OVE_OK -> exists k, r = RCount k /\ 0 <= k <= count /\
       data (fs s') = written (data (fs s)) (pos (fs s)) (take (Z.to_nat k) (g_io_buffer s)))) s.
Proof.
  intros Ho Hc Hp. unfold file_write, buffer. apply wp_bind, wp_gets, wp_bind, wp_on_obj. cbv zeta. cbn [fs fscalls].
  pose proof (fl_write HL (fs s) (take (Z.to_nat count) (g_io_buffer s)) Ho) as H.
  destruct (ove_fs_write n _ (fs s)) as [[rc k] w]. cbn [fst snd]. destruct H as (H1 & H2). apply wp_ret. cbn [fs]. split; [done|].
  intros Hrc. destruct (H2 Hrc Hp) as [H3 H4]. rewrite length_take in H3. exists k. split; [done|]. split; [lia|].
  rewrite H4, take_take. do 2 f_equal. lia.
Qed.

Lemma positioned_spec write count offset (s : st) : isopen (fs s) -> 0 <= count -> 0 <= offset ->
  wp (positioned write n count offset) (fun '(rc, r) s' => transferred write count offset s s' rc r) s.
Proof.
  intros Ho Hc Hoff.
  assert (forall rc r (s' : st), isopen (fs s') -> data (fs s') = data (fs s) -> pos (fs s') = pos (fs s) ->
    rc <> OVE_OK -> transferred write count offset s s' rc r) as Hfail by (intros; by split).
  unfold positioned. cbv zeta. destruct (_ || _); [apply wp_ret; by apply Hfail|].
  apply wp_bind, wp_on_obj. cbv zeta. cbn [fs fscalls]. destruct (fl_tell HL (fs s) Ho) as [(T1 & T2 & T3) T4].
  destruct (ove_fs_tell n (fs s)) as [saved w1]. cbn [fst snd] in *.
  destruct (Z.ltb_spec saved 0); [apply wp_ret; by apply Hfail|]. assert (saved = pos (fs s)) as -> by lia. clear T4.
  apply wp_bind, wp_on_obj. cbv zeta. cbn [fs fscalls]. destruct (fl_size HL w1 T1) as [(S1 & S2 & S3) S4].
  destruct (ove_fs_size n w1) as [[rc size] w2]. cbn [fst snd] in *.
  destruct (Z.eqb_spec rc OVE_OK) as [->|]; cbn [negb]; [|apply wp_ret; apply Hfail; cbn; congruence || done].
  specialize (S4 eq_refl). rewrite T2 in S4. subst size.
  destruct (negb write && (Z.of_nat (length (data (fs s))) <=? offset)) eqn:Heof.
  { apply wp_ret. apply Hfail; cbn; congruence || done. }
  set (d := if write && (Z.of_nat (length (data (fs s))) <? offset) then resized (data (fs s)) offset else data (fs s)).
  assert (offset <= Z.of_nat (length d)) as Hd.
  { unfold d, resized. destruct write; cbn [andb negb] in *; [destruct (Z.ltb_spec (Z.of_nat (length (data (fs s)))) offset); [|lia]|apply Z.leb_gt in Heof; lia].
    rewrite length_app, length_take, length_replicate. lia. }
  apply wp_bind.
  assert (forall (Q : Z -> st -> Prop) (s2 : st), fs s2 = w2 -> g_io_buffer s2 = g_io_buffer s ->
    (forall rc s3, isopen (fs s3) -> g_io_buffer s3 = g_io_buffer s -> pos (fs s3) = pos (fs s) ->
       (rc = OVE_OK -> data (fs s3) = d) -> (write = false -> data (fs s3) = data (fs s)) -> Q rc s3) ->
    wp (if write && (Z.of_nat (length (data (fs s))) <? offset) then on_obj (SFile n) (ove_fs_truncate n offset) else mret OVE_OK) Q s2) as Htr.
  { intros Q s2 E1 E2 HQ. unfold d in HQ. destruct (write && _) eqn:Hg.
    - apply wp_on_obj. cbv zeta. cbn [fs fscalls]. rewrite E1. pose proof (fl_truncate HL w2 offset S1) as Ht.
      destruct (ove_fs_truncate n offset w2) as [rc w]. cbn [fst snd]. destruct Ht as (H1 & H2 & H3). apply HQ; cbn [fs g_io_buffer]; try done.
      + congruence.
      + intros ->. cbn in H3. congruence.
      + intros ->. done.
    - apply wp_ret, HQ; rewrite ?E1; try done; congruence. }
  apply Htr; [done|done|]. clear Htr. intros rc s3 O3 B3 P3 D3 D3'.
  destruct (Z.eqb_spec rc OVE_OK) as [->|Hne]; cbn [negb].
  2: { apply wp_ret. split; [done|by intros _|intros Hw; split; [by apply D3'|done]|done]. }
  specialize (D3 eq_refl). apply wp_bind, wp_on_obj. cbv zeta. cbn [fs fscalls]. pose proof (fl_seek HL (fs s3) offset O3 Hoff) as H4.
  destruct (ove_fs_seek n offset OVE_FS_SEEK_SET (fs s3)) as [rc w4]. cbn [fst snd]. destruct H4 as (O4 & D4 & _ & P4).
  destruct (Z.eqb_spec rc OVE_OK) as [->|Hne]; cbn [negb] in P4 |- *.
  2: { apply wp_ret. split; cbn [fs]; [done|intros _; congruence|intros Hw; split; [rewrite D4; by apply D3'|done]|done]. }
  match goal with |- wp _ _ ?s4 => set (s4' := s4) end.
  assert (forall rc r (s5 : st), isopen (fs s5) ->
    (write = false -> data (fs s5) = data (fs s) /\ (rc = OVE_OK -> exists k, r = RCount k /\ 0 <= k <= count /\
        take (Z.to_nat k) (g_io_buffer s5) = sl (data (fs s)) offset k)) ->
    (write = true -> rc = OVE_OK -> exists k, r = RCount k /\ 0 <= k <= count /\ data (fs s5) = written d offset (take (Z.to_nat k) (g_io_buffer s))) ->
    wp (restore ← on_obj (SFile n) (ove_fs_seek n (pos (fs s)) OVE_FS_SEEK_SET);
        mret (if (rc =? OVE_OK) || (rc =? OVE_ERR_EOF) then if restore =? OVE_OK then rc else restore else rc, r))
      (fun '(rc, r) s' => transferred write count offset s s' rc r) s5) as Hend.
  { intros rc r s5 O5 HR HWr. apply wp_bind, wp_on_obj. cbv zeta. cbn [fs fscalls].
    pose proof (fl_seek HL (fs s5) (pos (fs s)) O5 (fl_pos HL _ Ho)) as H6.
    destruct (ove_fs_seek n (pos (fs s)) OVE_FS_SEEK_SET (fs s5)) as [rs w6]. cbn [fst snd]. destruct H6 as (O6 & D6 & E6 & P6). apply wp_ret.
    assert ((if (rc =? OVE_OK) || (rc =? OVE_ERR_EOF) then if rs =? OVE_OK then rc else rs else rc) = OVE_OK -> rc = OVE_OK) as Hrc.
    { destruct (_ || _); [|done]. by destruct (Z.eqb_spec rs OVE_OK). }
    split; cbn [fs g_io_buffer].
    - done.
    - destruct (Z.eqb_spec rc OVE_OK), (Z.eqb_spec rc OVE_ERR_EOF), (Z.eqb_spec rs OVE_OK); cbn [orb]; intros [|]; done.
    - intros Hw. destruct (HR Hw) as [H7 H8]. split; [congruence|]. intros Hok. by apply H8, Hrc.
    - intros Hw Hok. destruct (HWr Hw (Hrc Hok)) as (k & H7 & H8 & H9). exists k. split; [done|]. split; [done|].
      rewrite D6, H9. unfold d. by rewrite Hw. }
  apply wp_bind. destruct write.
  - eapply wp_mono; [apply (file_write_spec count s4'); [exact O4|done|cbn; rewrite P4, D4, D3; lia]|].
    intros [rc r] s5 [O5 H5]. apply Hend; [done|done|]. intros _ Hrc. destruct (H5 Hrc) as (k & H6 & H7 & H8).
    exists k. split; [done|]. split; [done|]. rewrite H8. cbn [s4' fs g_io_buffer]. by rewrite D4, D3, P4, B3.
  - eapply wp_mono; [apply (file_read_spec count s4'); [exact O4|done]|].
    intros [rc r] s5 (O5 & H5 & H6). apply Hend; [done| |done]. intros _. cbn [s4' fs] in H5, H6.
    rewrite D4, (D3' eq_refl) in H5, H6. rewrite P4 in H6. split; [done|]. exact H6.
Qed.
End files.


(** ** Admission *)

(** The time a clock shows; reading it and waiting do not go back. *)
Class ClockLaws (C : Type) `{Clock C} (time : C -> Z) : Prop := {
  cl_get : forall c, (ove_time_get_us c).1 = time c /\ time c <= time (ove_time_get_us c).2;
  cl_delay : forall d c, 0 <= d -> time c + d <= time (ove_time_delay_us d c) }.

(** Requests admitted one after the other, the clock moving on in between
    and not yet at the end of its 64 bits: the instants at which they were
    admitted. *)
Inductive admitted {C} `{Clock C} (time : C -> Z) (period : Z) : server -> C -> list Z -> Prop :=
  | adm_nil s c : admitted time period s c []
  | adm_cons s c s' c' c'' l : fs_server_admit period s c = (s', c') -> time c' + period < 2 ^ 64 -> time c' <= time c'' ->
      admitted time period s' c'' l -> admitted time period s c (g_server_period_start_us s' :: l).

Section admission.
Context {C : Type} {CK : Clock C} {time : C -> Z} {CL : ClockLaws C time} (period : Z) (Hp : 0 <= period < 2 ^ 32).

(** Before the first request, or after one. *)
Definition server_ok (s : server) (c : C) : Prop :=
  s = mk_server 0 0 \/ g_server_requests s = 1 /\ 0 < g_server_period_start_us s <= time c.

Lemma admit_spec s c s' c' : 0 < time c -> time c' + period < 2 ^ 64 -> server_ok s c -> fs_server_admit period s c = (s', c') ->
  g_server_requests s' = 1 /\ time c <= g_server_period_start_us s' <= time c' /\
  (g_server_requests s = 1 -> g_server_period_start_us s + period <= g_server_period_start_us s').
Proof.
  intros Hc Hend Hs. unfold fs_server_admit. destruct (cl_get c) as [E1 E2]. destruct (ove_time_get_us c) as [now c1].
  cbn [fst snd] in E1, E2. subst now. destruct Hs as [->|[Hr Hst]].
  - cbn [g_server_period_start_us g_server_requests Z.eqb orb negb]. intros [= <- <-]. cbn [g_server_requests g_server_period_start_us]. split; [reflexivity|lia].
  - rewrite (proj2 (Z.eqb_neq (g_server_period_start_us s) 0)), (proj2 (Z.ltb_ge (time c) (g_server_period_start_us s))) by lia. cbn [orb].
    destruct (Z.leb_spec period (time c - g_server_period_start_us s)).
    { cbn [g_server_requests g_server_period_start_us Z.eqb negb]. intros [= <- <-]. cbn [g_server_requests g_server_period_start_us]. split; [reflexivity|lia]. }
    rewrite Hr. cbn [Z.eqb negb].
    destruct (cl_get (ove_time_delay_us (u32 (u64 (g_server_period_start_us s + period) - time c)) c1)) as [E3 E4].
    destruct (Z.ltb_spec (time c) (u64 (g_server_period_start_us s + period))) as [Hlt|Hge].
    + destruct (ove_time_get_us (ove_time_delay_us _ c1)) as [now2 c2]. cbn [fst snd] in E3, E4.
      intros [= <- <-]. cbn [g_server_requests g_server_period_start_us]. split; [reflexivity|]. subst now2.
      pose proof (cl_delay (u32 (u64 (g_server_period_start_us s + period) - time c)) c1
        ltac:(apply (wrap_range 32); lia)) as Hd.
      assert (0 <= u32 (u64 (g_server_period_start_us s + period) - time c)) by (apply (wrap_range 32); lia).
      assert (u64 (g_server_period_start_us s + period) = g_server_period_start_us s + period) as W by (apply wrap_small; unfold is_word; lia).
      rewrite W in *. rewrite (wrap_small 32 (g_server_period_start_us s + period - time c)) in * by (unfold is_word; lia). lia.
    + destruct (cl_get c1) as [E5 E6]. destruct (ove_time_get_us c1) as [now2 c2]. cbn [fst snd] in E5, E6.
      intros [= <- <-]. cbn [g_server_requests g_server_period_start_us]. split; [reflexivity|]. subst now2. rewrite wrap_small in Hge by (unfold is_word; lia). lia.
Qed.

Lemma admitted_spaced s c l : admitted time period s c l -> 0 < time c -> server_ok s c ->
  (g_server_requests s = 1 -> forall a, l !! 0%nat = Some a -> g_server_period_start_us s + period <= a) /\
  forall i a b, l !! i = Some a -> l !! S i = Some b -> a + period <= b.
Proof.
  induction 1 as [s c|s c s' c' c'' l Ha Hend Hle _ IH]; intros Hc Hs; [done|].
  destruct (admit_spec s c s' c' Hc Hend Hs Ha) as (H1 & H2 & H3).
  destruct (IH ltac:(lia) ltac:(right; split; [done|lia])) as [H4 H5]. split.
  - intros Hr a [= <-]. by apply H3.
  - intros [|i] a b Hi Hb; cbn in *; [injection Hi as <-; by apply H4|by eapply H5].
Qed.
End admission.

(** The storage server admits at most one request per period: whatever
    happens between two requests, the instants at which consecutive requests
    are admitted are at least a period apart, since a request that comes too
    early is held back for the rest of the period. *)
Theorem storage_admission_spaced {C : Type} {CK : Clock C} {time : C -> Z} {CL : ClockLaws C time} (period : Z) (c : C) (l : list Z) :
  0 <= period < 2 ^ 32 -> 0 < time c -> admitted time period (mk_server 0 0) c l ->
  forall i a b, l !! i = Some a -> l !! S i = Some b -> a + period <= b.
Proof. intros Hp Hc Ha. by eapply (admitted_spaced period Hp (mk_server 0 0) c l Ha Hc (or_introl eq_refl)). Qed.
End StorageFiles.

Module FilesDemo.
Import Media Block Storage StorageDemo StorageFiles.

Lemma mem_file : file_laws tt (fun w : list Z * Z => 0 <= w.2) fst snd.
Proof.
  split; unfold same; cbn.
  - done.
  - intros w Hw. split; [done|by left].
  - done.
  - intros w o Hw Ho. done.
  - intros w c Hw Hc. split; [lia|]. split; [done|]. intros _. rewrite length_take, length_drop.
    split; [lia|]. unfold sl. destruct (decide (Z.to_nat c <= length w.1 - Z.to_nat w.2)%nat).
    + f_equal. lia.
    + rewrite !take_ge; [done|rewrite length_drop; lia|rewrite length_drop; lia].
  - intros w b Hw. split; [lia|]. intros _ _. split; [lia|]. rewrite Nat2Z.id, take_ge by lia. done.
  - intros w l Hw. done.
Qed.

(** One open file, at position 2. *)
Definition one_file : dst :=
  mk_st [SFile tt; SFree] true None (mk_block no_lease 0) None (mk_dev (mk_media 0 0 false []) [] []) [1; 2; 3] ([10; 11; 12; 13], 2) [].


(** The write above: the gap is filled, the position stays. *)
Example pwrite_run :
  (fun x => (x.1, fs x.2)) <$> execute_request disk_info disk_read disk_write disk_sync (FilePwrite (Some 0%nat) 3 6) one_file =
  Some ((OVE_OK, RCount 3), ([10; 11; 12; 13; 0; 0; 1; 2; 3], 2)).
Proof. by vm_compute. Qed.

#[local] Instance tick_laws : ClockLaws Z (fun c => c).
Proof. split; cbn; intros; lia. Defined.

Lemma storage_admission_spaced_witness : 5 + 1000 <= 1006.
Proof.
  refine (storage_admission_spaced (time := fun c : Z => c) 1000 5 [5; 1006] ltac:(lia) ltac:(lia) _ 0%nat 5 1006 eq_refl eq_refl).
  eapply (adm_cons _ _ (mk_server 0 0) 5 (mk_server 5 1) 6 20); [reflexivity|lia|lia|].
  eapply (adm_cons _ _ (mk_server 5 1) 20 (mk_server 1006 1) 1007 1007); [vm_compute; reflexivity|lia|apply Z.le_refl|]. constructor.
Defined.
End FilesDemo.
