(* ===== verification/Gpio.v ===== *)
(** * GPIO interrupt lines (src/ove_gpio.c)

    A table of eight callback slots and a bitmap of claimed lines, both in
    atomics.  The code is modelled at the granularity of its atomic
    operations and of its loads and stores of slot fields: each is one step,
    and the steps of all threads interleave.  The interrupt handler runs to
    completion before a thread goes on, as on one core.  The HAL is the class
    [GpioHal]. *)

From S2P Require Import Prelude.

Definition OVE_ERR_ALREADY_EXISTS : Z := -23.

Module Gpio.

(** [board_desc.h], generated for each board. *)
Class Board := {
  OVE_GPIO_PORT_COUNT : Z; OVE_GPIO_PINS_PER_PORT : Z;
  board_sane : 0 < OVE_GPIO_PORT_COUNT /\ 0 < OVE_GPIO_PINS_PER_PORT /\
    OVE_GPIO_PORT_COUNT * OVE_GPIO_PINS_PER_PORT + 31 < 2 ^ 32 }.

(** [include/ove/hal/hal_gpio.h]: each call returns a status and may change
    the hardware. *)
Class GpioHal (W : Type) := {
  ove_hal_gpio_configure : Z -> Z -> Z -> W -> Z * W;
  ove_hal_gpio_set : Z -> Z -> Z -> W -> Z * W;
  ove_hal_gpio_get : Z -> Z -> W -> Z * W;
  ove_hal_gpio_irq_hw_register : Z -> Z -> Z -> W -> Z * W;
  ove_hal_gpio_irq_hw_enable : Z -> Z -> W -> Z * W;
  ove_hal_gpio_irq_hw_disable : Z -> Z -> W -> Z * W;
  ove_hal_gpio_irq_hw_unregister : Z -> Z -> W -> Z * W }.

Definition OVE_GPIO_IRQ_RISING : Z := 1.
Definition OVE_GPIO_IRQ_FALLING : Z := 2.
Definition OVE_GPIO_IRQ_BOTH : Z := 3.
Definition GPIO_IRQ_MAX : nat := 8.
Definition GPIO_IRQ_FREE : Z := 0.
Definition GPIO_IRQ_REGISTERED : Z := 1.
Definition GPIO_IRQ_RESERVING : Z := 2.
Definition GPIO_IRQ_RELEASING : Z := 3.
Definition GPIO_IRQ_CLAIM_BITS : Z := 32.

(** [callback] is a pointer, 0 for NULL. *)
Record gpio_irq_entry := mk_entry {
  port : Z; pin : Z; callback : Z; user_data : Z; registered : Z; enabled : Z }.

Section gpio.
Context {BD : Board} {W : Type} {HAL : GpioHal W}.

Definition GPIO_IRQ_CLAIM_WORDS : nat :=
  Z.to_nat ((OVE_GPIO_PORT_COUNT * OVE_GPIO_PINS_PER_PORT + GPIO_IRQ_CLAIM_BITS - 1) / GPIO_IRQ_CLAIM_BITS).

Definition validate_port_pin (p q : Z) : Z :=
  if (OVE_GPIO_PORT_COUNT <=? p) || (OVE_GPIO_PINS_PER_PORT <=? q) then OVE_ERR_INVALID_PARAM else OVE_OK.

Definition ove_gpio_configure (p q mode : Z) (w : W) : Z * W :=
  if negb (validate_port_pin p q =? OVE_OK) then (OVE_ERR_INVALID_PARAM, w) else ove_hal_gpio_configure p q mode w.
Definition ove_gpio_set (p q value : Z) (w : W) : Z * W :=
  if negb (validate_port_pin p q =? OVE_OK) then (OVE_ERR_INVALID_PARAM, w) else ove_hal_gpio_set p q value w.
Definition ove_gpio_get (p q : Z) (w : W) : Z * W :=
  if negb (validate_port_pin p q =? OVE_OK) then (OVE_ERR_INVALID_PARAM, w) else ove_hal_gpio_get p q w.

(** ** The claim bitmap *)

Definition line (p q : Z) : Z := u32 (u32 (p * OVE_GPIO_PINS_PER_PORT) + q).
Definition word (p q : Z) : nat := Z.to_nat (line p q / GPIO_IRQ_CLAIM_BITS).
Definition mask (p q : Z) : Z := u32 (Z.shiftl 1 (line p q mod GPIO_IRQ_CLAIM_BITS)).

(** [atomic_fetch_or] and [atomic_fetch_and]: the answer and the new words. *)
Definition claim_irq_line (claims : list Z) (p q : Z) : option (Z * list Z) :=
  w ← claims !! word p q;
  Some (if Z.land w (mask p q) =? 0 then OVE_OK else OVE_ERR_ALREADY_EXISTS,
        <[word p q := Z.lor w (mask p q)]> claims).
Definition release_irq_line (claims : list Z) (p q : Z) : option (list Z) :=
  w ← claims !! word p q; Some (<[word p q := Z.ldiff w (mask p q)]> claims).

(** ** Calls in progress *)

Inductive call :=
  | Register (p q mode cb ud : Z) | Unregister (p q : Z) | Enable (p q : Z) | Disable (p q : Z).

(** The next access of a thread.  [RScan] to [RRelease] are those of
    [ove_gpio_irq_register]: claim, compare-exchange of slot [i], the [n]-th
    store into it, the HAL call, the store of the outcome, the release.
    [SLoad], [SPort] and [SPin] are the tests of the other three on slot [i],
    the rest their bodies. *)
Inductive pc :=
  | RClaim | RScan (i : nat) | RFull | RStore (i n : nat) | RHw (i : nat) | RPublish (i : nat) (ret : Z) | RRelease (ret : Z)
  | SLoad (i : nat) | SPort (i : nat) | SPin (i : nat)
  | UCas (i : nat) | UDis (i : nat) | UHw (i : nat) | UPut (i : nat) (ret : Z) | URel (ret : Z)
  | EHw (i : nat) | ESet (i : nat) | DClr (i : nat) | DHw (i : nat).

Definition cport (c : call) : Z := match c with Register p _ _ _ _ | Unregister p _ | Enable p _ | Disable p _ => p end.
Definition cpin (c : call) : Z := match c with Register _ q _ _ _ | Unregister _ q | Enable _ q | Disable _ q => q end.
Definition ckey (c : call) : Z * Z := (cport c, cpin c).
Definition is_register (c : call) : bool := match c with Register _ _ _ _ _ => true | _ => false end.

(** What the threads do, as seen from outside: a return, and the effects
    of a call that are not its return. *)
Inductive event :=
  | EReturn (c : call) (rc : Z)
  | ERefused (k : Z * Z) | EMissing (k : Z * Z) | EMask (k : Z * Z) | EGone (k : Z * Z)
  | ECall (k : Z * Z) (cb ud : Z) | EQuiet (k : Z * Z).

Record st := mk_st {
  irq_table : list gpio_irq_entry; irq_claims : list Z; hw : W; calls : gmap nat (call * pc) }.

Definition init (w : W) : st :=
  mk_st (replicate GPIO_IRQ_MAX (mk_entry 0 0 0 0 0 0)) (replicate GPIO_IRQ_CLAIM_WORDS 0) w ∅.

Inductive next := Go (p : pc) | Ret (rc : Z).

Definition put (i : nat) (e : gpio_irq_entry) (s : st) : st := {| s with irq_table := <[i := e]> (irq_table s) |}.
Definition set_claims (l : list Z) (s : st) : st := {| s with irq_claims := l |}.
Definition set_hw (w : W) (s : st) : st := {| s with hw := w |}.

(** The head of the loop over the slots, and what follows the loop. *)
Definition loop (c : call) (i : nat) : next * list event :=
  if (i <? GPIO_IRQ_MAX)%nat
  then (Go (match c with Register _ _ _ _ _ => RScan i | Unregister _ _ => SPort i | _ => SLoad i end), [])
  else match c with Register _ _ _ _ _ => (Go RFull, []) | _ => (Ret OVE_ERR_NOT_SUPPORTED, [EMissing (ckey c)]) end.

(** The stores of [ove_gpio_irq_register] into its slot, in order. *)
Definition fill (c : call) (n : nat) (e : gpio_irq_entry) : gpio_irq_entry :=
  match c with
  | Register p q _ cb ud =>
      match n with
      | 0%nat => {| e with port := p |} | 1%nat => {| e with pin := q |} | 2%nat => {| e with callback := cb |}
      | 3%nat => {| e with user_data := ud |} | _ => {| e with enabled := 0 |}
      end
  | _ => e
  end.

Definition cmode (c : call) : Z := match c with Register _ _ m _ _ => m | _ => 0 end.

(** One access of a thread that is at [p] in call [c]. *)
Definition advance (c : call) (p : pc) (s : st) : option (st * (next * list event)) :=
  let '(a, b) := ckey c in
  match p with
  | RClaim =>
      '(rc, l) ← claim_irq_line (irq_claims s) a b;
      Some (set_claims l s, if negb (rc =? OVE_OK) then (Ret OVE_ERR_ALREADY_EXISTS, [ERefused (a, b)]) else loop c 0)
  | RScan i =>
      e ← irq_table s !! i;
      Some (if registered e =? GPIO_IRQ_FREE then (put i {| e with registered := GPIO_IRQ_RESERVING |} s, (Go (RStore i 0), []))
            else (s, loop c (S i)))
  | RFull => l ← release_irq_line (irq_claims s) a b; Some (set_claims l s, (Ret OVE_ERR_NO_MEMORY, []))
  | RStore i n => e ← irq_table s !! i; Some (put i (fill c n e) s, (Go (if (n =? 4)%nat then RHw i else RStore i (S n)), []))
  | RHw i => let '(ret, w) := ove_hal_gpio_irq_hw_register a b (cmode c) (hw s) in Some (set_hw w s, (Go (RPublish i ret), []))
  | RPublish i ret =>
      e ← irq_table s !! i;
      Some (put i {| e with registered := if ret =? OVE_OK then GPIO_IRQ_REGISTERED else GPIO_IRQ_FREE |} s,
            (if negb (ret =? OVE_OK) then Go (RRelease ret) else Ret ret, []))
  | RRelease ret => l ← release_irq_line (irq_claims s) a b; Some (set_claims l s, (Ret ret, []))
  | SLoad i => e ← irq_table s !! i; Some (s, if registered e =? GPIO_IRQ_REGISTERED then (Go (SPort i), []) else loop c (S i))
  | SPort i => e ← irq_table s !! i; Some (s, if port e =? a then (Go (SPin i), []) else loop c (S i))
  | SPin i =>
      e ← irq_table s !! i;
      Some (s, if pin e =? b
               then (Go (match c with Enable _ _ => EHw i | Disable _ _ => DClr i | _ => UCas i end), [])
               else loop c (S i))
  | UCas i =>
      e ← irq_table s !! i;
      Some (if registered e =? GPIO_IRQ_REGISTERED
            then (put i {| e with registered := GPIO_IRQ_RELEASING |} s, (Go (UDis i), [EMask (a, b)]))
            else (s, loop c (S i)))
  | UDis i => e ← irq_table s !! i; Some (put i {| e with enabled := 0 |} s, (Go (UHw i), []))
  | UHw i => let '(ret, w) := ove_hal_gpio_irq_hw_unregister a b (hw s) in Some (set_hw w s, (Go (UPut i ret), []))
  | UPut i ret =>
      e ← irq_table s !! i;
      Some (put i {| e with registered := if ret =? OVE_OK then GPIO_IRQ_FREE else GPIO_IRQ_REGISTERED |} s,
            if ret =? OVE_OK then (Go (URel ret), [EGone (a, b)]) else (Ret ret, []))
  | URel ret => l ← release_irq_line (irq_claims s) a b; Some (set_claims l s, (Ret ret, []))
  | EHw i =>
      let '(ret, w) := ove_hal_gpio_irq_hw_enable a b (hw s) in
      Some (set_hw w s, (if negb (ret =? OVE_OK) then Ret ret else Go (ESet i), []))
  | ESet i => e ← irq_table s !! i; Some (put i {| e with enabled := 1 |} s, (Ret OVE_OK, []))
  | DClr i => e ← irq_table s !! i; Some (put i {| e with enabled := 0 |} s, (Go (DHw i), [EMask (a, b)]))
  | DHw i => let '(ret, w) := ove_hal_gpio_irq_hw_disable a b (hw s) in Some (set_hw w s, (Ret ret, []))
  end.

(** ** The three entry points *)

(** A call up to its first access: [ove_gpio_irq_register] checks its
    arguments. *)
Definition start (c : call) : next :=
  match c with
  | Register p q mode cb _ =>
      if negb (validate_port_pin p q =? OVE_OK) || (cb =? 0) ||
         (negb (mode =? OVE_GPIO_IRQ_RISING) && negb (mode =? OVE_GPIO_IRQ_FALLING) && negb (mode =? OVE_GPIO_IRQ_BOTH))
      then Ret OVE_ERR_INVALID_PARAM else Go RClaim
  | Unregister _ _ => Go (SPort 0)
  | Enable _ _ | Disable _ _ => Go (SLoad 0)
  end.

(** [ove_gpio_irq_dispatch]: the callback of the first slot that matches. *)
Fixpoint ove_gpio_irq_dispatch (l : list gpio_irq_entry) (p q : Z) : list event :=
  match l with
  | [] => [EQuiet (p, q)]
  | e :: l =>
      if negb (registered e =? GPIO_IRQ_REGISTERED) then ove_gpio_irq_dispatch l p q else
      if negb (enabled e =? 0) && (port e =? p) && (pin e =? q)
      then if negb (callback e =? 0) then [ECall (p, q) (callback e) (user_data e)] else [EQuiet (p, q)]
      else ove_gpio_irq_dispatch l p q
  end.

Inductive action := Start (t : nat) (c : call) | Step (t : nat) | Irq (p q : Z).

Definition resume (t : nat) (c : call) (x : next * list event) (s : st) : st * list event :=
  match x.1 with
  | Go p => ({| s with calls := <[t := (c, p)]> (calls s) |}, x.2)
  | Ret rc => ({| s with calls := delete t (calls s) |}, x.2 ++ [EReturn c rc])
  end.

Definition step (a : action) (s : st) : option (st * list event) :=
  match a with
  | Start t c => match calls s !! t with Some _ => None | None => Some (resume t c (start c, []) s) end
  | Step t => '(c, p) ← calls s !! t; '(s, x) ← advance c p s; Some (resume t c x s)
  | Irq p q => Some (s, ove_gpio_irq_dispatch (irq_table s) p q)
  end.

Fixpoint run (l : list action) (s : st) : option (st * list event) :=
  match l with
  | [] => Some (s, [])
  | a :: l => '(s, ev) ← step a s; '(s, ev') ← run l s; Some (s, ev ++ ev')
  end.
End gpio.
End Gpio.
