(* ===== verification/GpioInv.v ===== *)
(** * The interrupt table as a registry of lines

    The table of [Gpio] refines a map from lines to callbacks, under every
    interleaving in which calls on one line do not overlap and registrations
    overlap only registrations.  Without the second condition they do not:
    the last theorem is a run in which unregistering one line tears down
    another. *)

From S2P Require Import Prelude Gpio.

Module GpioInv.
Import Gpio.

Section inv.
Context {BD : Board} {W : Type} {HAL : GpioHal W}.
Local Abbreviation st := (st (W := W)).
Local Abbreviation registry := (gmap (Z * Z) (Z * Z * bool)).

(** ** The registry

    A line is mapped to its callback, the callback's argument, and whether
    an interrupt calls it. *)

Definition estep (e : event) (m m' : registry) : Prop :=
  match e with
  | EReturn (Register p q _ cb ud) rc =>
      if rc =? OVE_OK then m !! (p, q) = None /\ m' = <[(p, q) := (cb, ud, false)]> m else m' = m
  | EReturn (Unregister p q) rc => m' = m /\ (rc = OVE_OK -> m !! (p, q) = None)
  | EReturn (Enable p q) rc =>
      if rc =? OVE_OK then exists cb ud b, m !! (p, q) = Some (cb, ud, b) /\ m' = <[(p, q) := (cb, ud, true)]> m else m' = m
  | EReturn (Disable p q) rc => m' = m /\ (rc = OVE_OK -> exists cb ud, m !! (p, q) = Some (cb, ud, false))
  | ERefused k => is_Some (m !! k) /\ m' = m
  | EMissing k => m !! k = None /\ m' = m
  | EMask k => exists cb ud b, m !! k = Some (cb, ud, b) /\ m' = <[k := (cb, ud, false)]> m
  | EGone k => is_Some (m !! k) /\ m' = delete k m
  | ECall k cb ud => m !! k = Some (cb, ud, true) /\ m' = m
  | EQuiet k => (forall cb ud, m !! k <> Some (cb, ud, true)) /\ m' = m
  end.

Fixpoint esteps (l : list event) (m m' : registry) : Prop :=
  match l with [] => m' = m | e :: l => exists m1, estep e m m1 /\ esteps l m1 m' end.

Lemma esteps_app l1 l2 m m1 m2 : esteps l1 m m1 -> esteps l2 m1 m2 -> esteps (l1 ++ l2) m m2.
Proof. revert m. induction l1 as [|e l1 IH]; cbn; [by intros m -> |]. intros m (m' & H1 & H2) H3. exists m'. eauto. Qed.

(** Which calls may overlap. *)
Definition may_start (s : st) (c : call) : bool :=
  (0 <=? cport c) && (0 <=? cpin c) &&
  bool_decide (map_Forall (fun _ x => ckey x.1 <> ckey c /\ is_register x.1 = is_register c) (calls s)).

Fixpoint disciplined (l : list action) (s : st) : bool :=
  match l with
  | [] => true
  | a :: l =>
      match a with Start _ c => may_start s c | _ => true end &&
      match step a s with Some (s', _) => disciplined l s' | None => true end
  end.

(** ** Slots *)

Definition live (e : gpio_irq_entry) : bool := (registered e =? GPIO_IRQ_REGISTERED) || (registered e =? GPIO_IRQ_RELEASING).
Definition ekey (e : gpio_irq_entry) : Z * Z := (port e, pin e).
Definition evalue (e : gpio_irq_entry) : Z * Z * bool :=
  (callback e, user_data e, (registered e =? GPIO_IRQ_REGISTERED) && negb (enabled e =? 0)).
Definition valid (k : Z * Z) : Prop := 0 <= k.1 < OVE_GPIO_PORT_COUNT /\ 0 <= k.2 < OVE_GPIO_PINS_PER_PORT.

Record table_ok (m : registry) (l : list gpio_irq_entry) : Prop := {
  to_len : length l = GPIO_IRQ_MAX;
  to_map k v : m !! k = Some v <-> exists i e, l !! i = Some e /\ live e = true /\ ekey e = k /\ evalue e = v;
  to_uniq i j e f : l !! i = Some e -> l !! j = Some f -> live e = true -> live f = true -> ekey e = ekey f -> i = j;
  to_valid i e : l !! i = Some e -> live e = true -> valid (ekey e) /\ callback e <> 0;
  to_code i e : l !! i = Some e -> 0 <= registered e <= 3 }.

(** What the registry becomes when a slot is rewritten. *)
Definition without (e : gpio_irq_entry) (m : registry) : registry := if live e then delete (ekey e) m else m.
Definition adding (e : gpio_irq_entry) (m : registry) : registry := if live e then <[ekey e := evalue e]> m else m.

Lemma table_without m l i e k v : table_ok m l -> l !! i = Some e ->
  without e m !! k = Some v <-> exists j f, j <> i /\ l !! j = Some f /\ live f = true /\ ekey f = k /\ evalue f = v.
Proof.
  intros HT He. unfold without. destruct (live e) eqn:El.
  - rewrite lookup_delete_Some, (to_map _ _ HT). split.
    + intros (Hk & j & f & Hj & Hl & Hf & Hv). exists j, f. split; [congruence|done].
    + intros (j & f & Hj & Hf & Hl & Hk & Hv). split; [|by exists j, f].
      intros Hk'. apply Hj. apply (to_uniq _ _ HT j i f e); congruence.
  - rewrite (to_map _ _ HT). split; intros (j & f & H); [|destruct H as [_ H]; by exists j, f].
    exists j, f. split; [|done]. intros ->. destruct H as (Hj & Hl & _). congruence.
Qed.

Lemma table_put m l i e e' : table_ok m l -> l !! i = Some e -> 0 <= registered e' <= 3 ->
  (live e' = true -> valid (ekey e') /\ callback e' <> 0 /\ without e m !! ekey e' = None) ->
  table_ok (adding e' (without e m)) (<[i := e']> l).
Proof.
  intros HT He Hc Hl. pose proof (lookup_lt_Some _ _ _ He) as Hi.
  assert (Hin : forall j f, <[i := e']> l !! j = Some f <-> (j = i /\ f = e') \/ (j <> i /\ l !! j = Some f)).
  { intros j f. rewrite list_lookup_insert_Some. split; [intros [(-> & <- & _)|[Hj Hf]]|intros [[-> ->]|[Hj Hf]]]; auto. }
  assert (Hnone : live e' = true -> forall j f, j <> i -> l !! j = Some f -> live f = true -> ekey f <> ekey e').
  { intros Hl' j f Hj Hf Hlf Hk. destruct (Hl Hl') as (_ & _ & Hn).
    rewrite (proj2 (table_without m l i e (ekey e') (evalue f) HT He)) in Hn; [done|]. by exists j, f. }
  split.
  - rewrite length_insert. apply HT.
  - intros k v. unfold adding. destruct (live e') eqn:El.
    + rewrite lookup_insert_Some, (table_without m l i e k v HT He). split.
      * intros [[<- <-]|(_ & j & f & Hj & Hf & H)]; [exists i, e'|exists j, f]; (split; [apply Hin; auto|done]).
      * intros (j & f & Hj & Hlf & <- & <-). apply Hin in Hj as [[-> ->]|[Hj Hf]]; [by left|].
        right. split; [|by exists j, f]. intros Hk. by apply (Hnone eq_refl j f Hj Hf Hlf).
    + rewrite (table_without m l i e k v HT He). split.
      * intros (j & f & Hj & Hf & H). exists j, f. split; [apply Hin; auto|done].
      * intros (j & f & Hj & H). apply Hin in Hj as [[-> ->]|[Hj Hf]]; [destruct H; congruence|]. by exists j, f.
  - intros j1 j2 f1 f2 H1 H2 L1 L2 Hk. apply Hin in H1 as [[-> ->]|[H1 H1']], H2 as [[-> ->]|[H2 H2']]; [done| | |].
    + exfalso. by apply (Hnone L1 j2 f2).
    + exfalso. by apply (Hnone L2 j1 f1).
    + by apply (to_uniq _ _ HT j1 j2 f1 f2).
  - intros j f Hj Lf. apply Hin in Hj as [[-> ->]|[Hj Hf]]; [by destruct (Hl Lf) as (? & ? & _)|]. by apply (to_valid _ _ HT j).
  - intros j f Hj. apply Hin in Hj as [[-> ->]|[Hj Hf]]; [done|]. by apply (to_code _ _ HT j).
Qed.

Lemma table_none m l k : table_ok m l -> (forall i e, l !! i = Some e -> live e = true -> ekey e <> k) -> m !! k = None.
Proof.
  intros HT H. destruct (m !! k) as [v|] eqn:E; [|done]. apply (to_map _ _ HT) in E as (i & e & Hi & Hl & Hk & _).
  by destruct (H i e Hi Hl).
Qed.

Lemma table_some m l i e : table_ok m l -> l !! i = Some e -> live e = true -> m !! ekey e = Some (evalue e).
Proof. intros HT Hi Hl. apply (to_map _ _ HT). by exists i, e. Qed.

(** ** The claim bitmap *)

Definition claimed (l : list Z) (k : Z * Z) : bool :=
  match l !! word k.1 k.2 with Some w => Z.testbit w (line k.1 k.2 mod GPIO_IRQ_CLAIM_BITS) | None => false end.

Lemma line_small k : valid k -> line k.1 k.2 = k.1 * OVE_GPIO_PINS_PER_PORT + k.2.
Proof.
  intros [H1 H2]. destruct board_sane as (HP & HN & HB). unfold line.
  assert (0 <= k.1 * OVE_GPIO_PINS_PER_PORT) by nia.
  assert (k.1 * OVE_GPIO_PINS_PER_PORT + k.2 < OVE_GPIO_PORT_COUNT * OVE_GPIO_PINS_PER_PORT) by nia.
  rewrite (wrap_small 32 (k.1 * _)) by (unfold is_word; lia). apply wrap_small. unfold is_word; lia.
Qed.

Lemma line_inj k k' : valid k -> valid k' -> line k.1 k.2 = line k'.1 k'.2 -> k = k'.
Proof.
  intros Hk Hk'. rewrite !line_small by done. destruct k as [a b], k' as [a' b'], Hk as [_ Hb], Hk' as [_ Hb']. cbn in *.
  intros H. destruct (Z.div_mod_unique OVE_GPIO_PINS_PER_PORT a a' b b'); [lia|lia|lia|congruence].
Qed.

Lemma gpio_word_range k : valid k -> (word k.1 k.2 < GPIO_IRQ_CLAIM_WORDS)%nat.
Proof.
  intros Hk. pose proof board_sane. unfold word, GPIO_IRQ_CLAIM_WORDS, GPIO_IRQ_CLAIM_BITS.
  rewrite line_small by done. destruct Hk as [H1 H2].
  assert (k.1 * OVE_GPIO_PINS_PER_PORT + k.2 < OVE_GPIO_PORT_COUNT * OVE_GPIO_PINS_PER_PORT) by nia.
  apply Z2Nat.inj_lt; [dlia|dlia|]. apply Z.div_lt_upper_bound; [lia|]. dlia.
Qed.

Lemma mask_bit p q : mask p q = 2 ^ (line p q mod GPIO_IRQ_CLAIM_BITS).
Proof.
  assert (0 <= line p q mod 32 < 32) by (apply Z.mod_pos_bound; lia).
  unfold mask, GPIO_IRQ_CLAIM_BITS. rewrite Z.shiftl_mul_pow2, Z.mul_1_l by lia. apply wrap_small.
  split; [lia|]. apply Z.pow_lt_mono_r; lia.
Qed.

Lemma land_pow2_testbit w n : 0 <= n -> (Z.land w (2 ^ n) =? 0) = negb (Z.testbit w n).
Proof.
  intros Hn. destruct (Z.testbit w n) eqn:E; cbn.
  - apply Z.eqb_neq. intros H. apply (f_equal (fun z => Z.testbit z n)) in H.
    rewrite Z.land_spec, E, Z.pow2_bits_true, Z.bits_0 in H by lia. done.
  - apply Z.eqb_eq, Z.bits_inj'. intros m Hm. rewrite Z.land_spec, Z.bits_0. destruct (Z.eq_dec m n) as [->|Hne]; [by rewrite E|].
    by rewrite Z.pow2_bits_false, andb_false_r by lia.
Qed.

(** Words that agree with a rewritten bit [b] of line [k] and with the old
    ones elsewhere. *)
Definition flips (l l' : list Z) (k : Z * Z) (b : bool) : Prop :=
  length l' = length l /\ claimed l' k = b /\ forall k', valid k' -> k' <> k -> claimed l' k' = claimed l k'.

Lemma flips_put (l : list Z) (k : Z * Z) w w' b : valid k -> l !! word k.1 k.2 = Some w ->
  (forall n, 0 <= n -> Z.testbit w' n = if decide (n = line k.1 k.2 mod GPIO_IRQ_CLAIM_BITS) then b else Z.testbit w n) ->
  flips l (<[word k.1 k.2 := w']> l) k b.
Proof.
  intros Hk Hw Hb. pose proof (lookup_lt_Some _ _ _ Hw) as Hlt. unfold GPIO_IRQ_CLAIM_BITS in *.
  assert (forall z, 0 <= z mod 32) by (intros; apply Z.mod_pos_bound; lia).
  split; [by rewrite length_insert|]. unfold claimed, GPIO_IRQ_CLAIM_BITS. split.
  - by rewrite list_lookup_insert_eq, Hb, decide_True by done.
  - intros k' Hk' Hne. destruct (decide (word k'.1 k'.2 = word k.1 k.2)) as [Heq|Hw'].
    + rewrite Heq, list_lookup_insert_eq, Hw, Hb, decide_False; [done| |done|done].
      intros Hm. apply Hne, line_inj; [done|done|]. unfold word, GPIO_IRQ_CLAIM_BITS in Heq.
      assert (0 <= line k.1 k.2 /\ 0 <= line k'.1 k'.2) as [? ?] by (unfold line, wrap; split; apply Z.mod_pos_bound; lia).
      apply Z2Nat.inj in Heq; dlia.
    + by rewrite list_lookup_insert_ne by done.
Qed.

Lemma words_lookup (l : list Z) (k : Z * Z) : length l = GPIO_IRQ_CLAIM_WORDS -> valid k -> exists w, l !! word k.1 k.2 = Some w.
Proof. intros Hl Hk. apply lookup_lt_is_Some_2. rewrite Hl. by apply gpio_word_range. Qed.

Lemma bit_nonneg p q : 0 <= line p q mod GPIO_IRQ_CLAIM_BITS.
Proof. apply Z.mod_pos_bound. unfold GPIO_IRQ_CLAIM_BITS. lia. Qed.

Lemma claim_spec (l : list Z) (k : Z * Z) : length l = GPIO_IRQ_CLAIM_WORDS -> valid k ->
  exists l', claim_irq_line l k.1 k.2 = Some (if claimed l k then OVE_ERR_ALREADY_EXISTS else OVE_OK, l') /\ flips l l' k true.
Proof.
  intros Hl Hk. destruct (words_lookup l k Hl Hk) as [w Hw]. pose proof (bit_nonneg k.1 k.2) as Hn.
  eexists. unfold claim_irq_line, claimed. rewrite Hw. cbn. rewrite mask_bit, land_pow2_testbit by done.
  split; [by destruct (Z.testbit _ _)|]. eapply flips_put; [done..|]. intros n Hn'. rewrite Z.lor_spec, Z.pow2_bits_eqb by done.
  case_decide as E; [subst; by rewrite Z.eqb_refl, orb_true_r|]. by rewrite (proj2 (Z.eqb_neq _ _)), orb_false_r by congruence.
Qed.

Lemma release_spec (l : list Z) (k : Z * Z) : length l = GPIO_IRQ_CLAIM_WORDS -> valid k ->
  exists l', release_irq_line l k.1 k.2 = Some l' /\ flips l l' k false.
Proof.
  intros Hl Hk. destruct (words_lookup l k Hl Hk) as [w Hw]. pose proof (bit_nonneg k.1 k.2) as Hn.
  eexists. unfold release_irq_line. rewrite Hw. cbn. rewrite mask_bit. split; [done|].
  eapply flips_put; [done..|]. intros n Hn'. rewrite Z.ldiff_spec, Z.pow2_bits_eqb by done.
  case_decide as E; [subst; by rewrite Z.eqb_refl, andb_false_r|]. by rewrite (proj2 (Z.eqb_neq _ _)), andb_true_r by congruence.
Qed.
End inv.
End GpioInv.
