(* ===== verification/GpioRefine.v ===== *)
(** * The interrupt table refines a registry

    The invariant of [Gpio] that relates the slots, the claim bitmap and the
    calls in progress to the registry of [GpioInv], and the theorems. *)

From S2P Require Import Prelude Gpio GpioInv.

Module GpioRefine.
Import Gpio GpioInv.

Section refine.
Context {BD : Board} {W : Type} {HAL : GpioHal W}.
Local Abbreviation st := (st (W := W)).
Local Abbreviation registry := (gmap (Z * Z) (Z * Z * bool)).

(** ** Threads

    The slot a thread has reserved or is releasing, and whether it holds its
    line's claim for a line that is not in the registry. *)

Definition owner (p : pc) : option (nat * Z) :=
  match p with
  | RStore i _ | RHw i | RPublish i _ => Some (i, GPIO_IRQ_RESERVING)
  | UDis i | UHw i | UPut i _ => Some (i, GPIO_IRQ_RELEASING)
  | _ => None
  end.
Definition holding (p : pc) : bool :=
  match p with RScan _ | RFull | RStore _ _ | RHw _ | RPublish _ _ | RRelease _ | URel _ => true | _ => false end.

Fixpoint filled (c : call) (n : nat) (e : gpio_irq_entry) : Prop :=
  match n with 0%nat => True | S n => filled c n e /\ fill c n e = e end.

(** No slot before the [i]-th holds the line. *)
Definition before (l : list gpio_irq_entry) (k : Z * Z) (i : nat) : Prop :=
  (i <= GPIO_IRQ_MAX)%nat /\ forall j e, (j < i)%nat -> l !! j = Some e -> live e = true -> ekey e <> k.
Definition slot (l : list gpio_irq_entry) (i : nat) (P : gpio_irq_entry -> Prop) : Prop := exists e, l !! i = Some e /\ P e.
Definition holds_line (k : Z * Z) (r : Z) (e : gpio_irq_entry) : Prop := ekey e = k /\ registered e = r.
Definition sure (c : call) (e : gpio_irq_entry) : Prop :=
  match c with Unregister _ _ => True | _ => ekey e = ckey c -> registered e = GPIO_IRQ_REGISTERED end.

Definition reg_ok (l : list gpio_irq_entry) (c : call) (p : pc) : Prop :=
  match p with
  | RClaim | RFull => True | RRelease ret => ret <> OVE_OK
  | RScan i => (i < GPIO_IRQ_MAX)%nat
  | RStore i n => (n <= 4)%nat /\ slot l i (filled c n)
  | RHw i | RPublish i _ => slot l i (filled c 5)
  | _ => False
  end.
Definition oth_ok (l : list gpio_irq_entry) (c : call) (p : pc) : Prop :=
  let k := ckey c in
  match p with
  | SLoad i => (i < GPIO_IRQ_MAX)%nat /\ before l k i
  | SPort i => (i < GPIO_IRQ_MAX)%nat /\ before l k i /\ slot l i (sure c)
  | SPin i => (i < GPIO_IRQ_MAX)%nat /\ before l k i /\ slot l i (fun e => sure c e /\ port e = cport c)
  | UCas i => match c with Unregister _ _ => (i < GPIO_IRQ_MAX)%nat /\ before l k i /\ slot l i (fun e => ekey e = k) | _ => False end
  | UDis i => match c with Unregister _ _ => slot l i (holds_line k GPIO_IRQ_RELEASING) | _ => False end
  | UHw i | UPut i _ =>
      match c with Unregister _ _ => slot l i (fun e => holds_line k GPIO_IRQ_RELEASING e /\ enabled e = 0) | _ => False end
  | URel ret => match c with Unregister _ _ => ret = OVE_OK | _ => False end
  | EHw i | ESet i => match c with Enable _ _ => slot l i (holds_line k GPIO_IRQ_REGISTERED) | _ => False end
  | DClr i => match c with Disable _ _ => slot l i (holds_line k GPIO_IRQ_REGISTERED) | _ => False end
  | DHw i => match c with Disable _ _ => slot l i (fun e => holds_line k GPIO_IRQ_REGISTERED e /\ enabled e = 0) | _ => False end
  | _ => False
  end.
Definition thread_ok (l : list gpio_irq_entry) (c : call) (p : pc) : Prop :=
  match c with Register _ _ _ cb _ => valid (ckey c) /\ cb <> 0 /\ reg_ok l c p | _ => oth_ok l c p end.

(** Each reserved slot has one owner; calls in progress are on different
    lines and registrations overlap only registrations; a claim is set for
    the registered lines and those of the threads that hold it. *)
Record own_ok (l : list gpio_irq_entry) (cs : gmap nat (call * pc)) : Prop := {
  ow_owns t c p i r : cs !! t = Some (c, p) -> owner p = Some (i, r) -> slot l i (fun e => registered e = r);
  ow_owned i e : l !! i = Some e -> registered e = 2 \/ registered e = 3 ->
    exists t c p, cs !! t = Some (c, p) /\ owner p = Some (i, registered e);
  ow_excl t t' c c' p p' i r r' : cs !! t = Some (c, p) -> cs !! t' = Some (c', p') ->
    owner p = Some (i, r) -> owner p' = Some (i, r') -> t = t' }.
Record serial_ok (cs : gmap nat (call * pc)) : Prop := {
  se_line t t' c c' p p' : cs !! t = Some (c, p) -> cs !! t' = Some (c', p') -> ckey c = ckey c' -> t = t';
  se_phase t t' c c' p p' : cs !! t = Some (c, p) -> cs !! t' = Some (c', p') -> is_register c = is_register c' }.
Record claim_ok (m : registry) (claims : list Z) (cs : gmap nat (call * pc)) : Prop := {
  cl_words : length claims = GPIO_IRQ_CLAIM_WORDS;
  cl_bit k : valid k ->
    claimed claims k = true <-> is_Some (m !! k) \/ exists t c p, cs !! t = Some (c, p) /\ ckey c = k /\ holding p = true;
  cl_hold t c p : cs !! t = Some (c, p) -> holding p = true -> valid (ckey c) /\ m !! ckey c = None }.

Record inv (m : registry) (l : list gpio_irq_entry) (claims : list Z) (cs : gmap nat (call * pc)) : Prop := {
  iv_table : table_ok m l;
  iv_claim : claim_ok m claims cs;
  iv_own : own_ok l cs;
  iv_serial : serial_ok cs;
  iv_thread t c p : cs !! t = Some (c, p) -> thread_ok l c p }.

Definition owner_of (o : option pc) : option (nat * Z) := match o with Some p => owner p | None => None end.
Definition held_by (o : option pc) : bool := match o with Some p => holding p | None => false end.
Definition upd (t : nat) (c : call) (o : option pc) (m : gmap nat (call * pc)) : gmap nat (call * pc) :=
  match o with Some p => <[t := (c, p)]> m | None => delete t m end.

Lemma upd_ne t c o m t' : t' <> t -> upd t c o m !! t' = m !! t'.
Proof. intros. unfold upd. destruct o; [by rewrite lookup_insert_ne by done|by rewrite lookup_delete_ne by done]. Qed.
Lemma upd_Some t c o m t' c' p' : upd t c o m !! t' = Some (c', p') ->
  (t' = t /\ c' = c /\ o = Some p') \/ (t' <> t /\ m !! t' = Some (c', p')).
Proof.
  destruct (decide (t' = t)) as [->|Hne]; [|rewrite upd_ne by done; auto].
  unfold upd. destruct o; [rewrite lookup_insert_eq|by rewrite lookup_delete_eq]. intros [= -> ->]. auto.
Qed.
Lemma upd_eq t c p m : upd t c (Some p) m !! t = Some (c, p).
Proof. apply lookup_insert_eq. Qed.

(** A thread moves from [p] to [o], or returns. *)
Section move.
Context (cs : gmap nat (call * pc)) (t : nat) (c : call) (p : pc) (o : option pc).
Hypothesis Ht : cs !! t = Some (c, p).

Lemma serial_move : serial_ok cs -> serial_ok (upd t c o cs).
Proof.
  intros S. split; intros t1 t2 c1 c2 p1 p2 H1 H2;
    apply upd_Some in H1 as [(-> & -> & _)|[_ H1]]; apply upd_Some in H2 as [(-> & -> & _)|[_ H2]]; try done;
    first [by eapply (se_phase _ S); eauto|intros E; by eapply (se_line _ S); eauto].
Qed.

Lemma claim_move m m' claims claims' : serial_ok cs -> claim_ok m claims cs ->
  (forall k, k <> ckey c -> m' !! k = m !! k) -> length claims' = GPIO_IRQ_CLAIM_WORDS ->
  (forall k, valid k -> k <> ckey c -> claimed claims' k = claimed claims k) ->
  (valid (ckey c) -> claimed claims' (ckey c) = true <-> is_Some (m' !! ckey c) \/ held_by o = true) ->
  (held_by o = true -> valid (ckey c) /\ m' !! ckey c = None) ->
  claim_ok m' claims' (upd t c o cs).
Proof.
  intros S C Hm Hlen Hcl Hline Hheld.
  assert (Hkey : forall t' c' p', t' <> t -> cs !! t' = Some (c', p') -> ckey c' <> ckey c).
  { intros t' c' p' Hne H E. by apply Hne, (se_line _ S t' t c' c p' p). }
  split.
  - done.
  - intros k Hk. destruct (decide (k = ckey c)) as [->|Hne].
    + rewrite (Hline Hk). split; intros [H|H]; [by left| |by left|].
      * right. destruct o as [p'|]; [|done]. exists t, c, p'. by rewrite upd_eq.
      * right. destruct H as (t' & c' & p' & H1 & H2 & H3). apply upd_Some in H1 as [(-> & -> & ->)|[Hn H4]]; [done|].
        by destruct (Hkey t' c' p' Hn H4).
    + rewrite (Hcl k Hk Hne), (cl_bit _ _ _ C k Hk), (Hm k Hne).
      split; (intros [H|(t' & c' & p' & H1 & H2 & H3)]; [by left|right]); exists t', c', p'; (split; [|done]).
      * rewrite upd_ne; [done|]. intros ->. congruence.
      * by apply upd_Some in H1 as [(-> & -> & _)|[Hn H4]].
  - intros t' c' p' H Hh. apply upd_Some in H as [(-> & -> & ->)|[Hn H4]]; [by apply Hheld|].
    rewrite (Hm (ckey c') (Hkey _ _ _ Hn H4)). by apply (cl_hold _ _ _ C t' c' p').
Qed.

(** Nothing changes hands. *)
Lemma own_keep l : own_ok l cs -> owner_of o = owner p -> own_ok l (upd t c o cs).
Proof.
  intros O Ho.
  assert (Hold : forall t' c' p' x, upd t c o cs !! t' = Some (c', p') -> owner p' = Some x ->
    exists p0, cs !! t' = Some (c', p0) /\ owner p0 = Some x).
  { intros t' c' p' x H Hx. apply upd_Some in H as [(-> & -> & ->)|[_ H]]; [exists p; split; [done|cbn in Ho; congruence]|by exists p']. }
  split.
  - intros t' c' p' i r H Hx. destruct (Hold _ _ _ _ H Hx) as (p0 & H1 & H2). by apply (ow_owns _ _ O t' c' p0).
  - intros i e He Hr. destruct (ow_owned _ _ O i e He Hr) as (t' & c' & p' & H1 & H2).
    destruct (decide (t' = t)) as [->|Hn]; [|exists t', c', p'; by rewrite upd_ne].
    rewrite Ht in H1. injection H1 as <- <-. destruct o as [p1|]; [|cbn in Ho; congruence]. exists t, c, p1. rewrite upd_eq.
    split; [done|]. cbn in Ho. congruence.
  - intros t1 t2 c1 c2 p1 p2 i r1 r2 H1 H2 O1 O2.
    destruct (Hold _ _ _ _ H1 O1) as (q1 & A1 & B1), (Hold _ _ _ _ H2 O2) as (q2 & A2 & B2).
    by apply (ow_excl _ _ O t1 t2 c1 c2 q1 q2 i r1 r2).
Qed.

(** Slot [i], free of other owners, is rewritten. *)
Lemma own_put l i e e' : own_ok l cs -> l !! i = Some e ->
  (owner p = Some (i, registered e) \/ owner p = None /\ registered e <> 2 /\ registered e <> 3) ->
  owner_of o = (if (registered e' =? 2) || (registered e' =? 3) then Some (i, registered e') else None) ->
  own_ok (<[i := e']> l) (upd t c o cs).
Proof.
  intros O He Hp Ho. pose proof (lookup_lt_Some _ _ _ He) as Hi.
  assert (Hfree : forall t' c' p' r, t' <> t -> cs !! t' = Some (c', p') -> owner p' <> Some (i, r)).
  { intros t' c' p' r Hn H1 H2. destruct Hp as [Hp|[_ Hp]]; [by apply Hn, (ow_excl _ _ O t' t c' c p' p i r (registered e))|].
    destruct (ow_owns _ _ O t' c' p' i r H1 H2) as (f & Hf & Hr). assert (f = e) as -> by congruence.
    destruct p'; cbn in H2; unfold GPIO_IRQ_RESERVING, GPIO_IRQ_RELEASING in H2; naive_solver lia. }
  assert (Hself : forall j r, owner_of o = Some (j, r) -> j = i /\ r = registered e').
  { intros j r H. rewrite Ho in H. destruct (_ || _); naive_solver. }
  split.
  - intros t' c' p' j r H Hx. apply upd_Some in H as [(-> & -> & ->)|[Hn H]].
    + destruct (Hself j r Hx) as [-> ->]. exists e'. by rewrite list_lookup_insert_eq.
    + destruct (ow_owns _ _ O t' c' p' j r H Hx) as (f & Hf & Hr). exists f. split; [|done].
      rewrite list_lookup_insert_ne; [done|]. intros <-. by apply (Hfree t' c' p' r Hn H).
  - intros j f Hf Hr. destruct (decide (j = i)) as [->|Hn].
    + rewrite list_lookup_insert_eq in Hf by done. injection Hf as <-.
      rewrite (proj2 (orb_true_iff _ _)) in Ho by (destruct Hr; [left|right]; by apply Z.eqb_eq).
      destruct o as [p1|]; [|done]. exists t, c, p1. by rewrite upd_eq.
    + rewrite list_lookup_insert_ne in Hf by done. destruct (ow_owned _ _ O j f Hf Hr) as (t' & c' & p' & H1 & H2).
      exists t', c', p'. split; [|done]. rewrite upd_ne; [done|]. intros ->. rewrite Ht in H1. injection H1 as <- <-.
      destruct Hp as [Hp|[Hp _]]; congruence.
  - intros t1 t2 c1 c2 p1 p2 j r1 r2 H1 H2 O1 O2.
    apply upd_Some in H1 as [(-> & -> & E1)|[N1 H1]]; apply upd_Some in H2 as [(-> & -> & E2)|[N2 H2]]; [done| | |].
    + rewrite E1 in Hself. destruct (Hself j r1 O1) as [-> _]. by destruct (Hfree t2 c2 p2 r2 N2 H2).
    + rewrite E2 in Hself. destruct (Hself j r2 O2) as [-> _]. by destruct (Hfree t1 c1 p1 r1 N1 H1).
    + by apply (ow_excl _ _ O t1 t2 c1 c2 p1 p2 j r1 r2).
Qed.

(** What the other threads know survives the rewriting of a slot that the
    moving thread may write. *)
Lemma thread_frame l i e e' : own_ok l cs -> serial_ok cs -> l !! i = Some e ->
  (if is_register c then owner p = Some (i, registered e) \/ registered e = 0 else ekey e = ckey c /\ ekey e' = ckey c) ->
  forall t' c' p', t' <> t -> cs !! t' = Some (c', p') -> thread_ok l c' p' -> thread_ok (<[i := e']> l) c' p'.
Proof.
  intros O S He Hc t' c' p' Hn H. pose proof (se_phase _ S t t' c c' p p' Ht H) as Hph.
  assert (Hk : ckey c' <> ckey c) by (intros E; by apply Hn, (se_line _ S t' t c' c p' p)).
  destruct (is_register c') eqn:Er; rewrite Hph in Hc.
  - assert (Hslot : forall j r P, owner p' = Some (j, r) -> slot l j P -> slot (<[i := e']> l) j P).
    { intros j r P Ho (f & Hf & HP). exists f. split; [|done]. rewrite list_lookup_insert_ne; [done|]. intros ->.
      destruct Hc as [Hc|Hc]; [by apply Hn, (ow_excl _ _ O t' t c' c p' p j r (registered e))|].
      destruct (ow_owns _ _ O t' c' p' j r H Ho) as (g & Hg & Hr). assert (g = e) as -> by congruence.
      destruct p'; cbn in Ho; unfold GPIO_IRQ_RESERVING, GPIO_IRQ_RELEASING in Ho; naive_solver lia. }
    destruct c'; try done. cbn. intros (Hv & Hcb & Hreg). split; [done|]. split; [done|].
    destruct p'; cbn in *; try done; [destruct Hreg; split; [done|]|..]; by eapply Hslot.
  - destruct Hc as [Hke Hke'].
    assert (Hslot : forall j (P : gpio_irq_entry -> Prop), (ekey e' <> ckey c' -> ekey e <> ckey c' -> P e -> port e = port e' -> P e') ->
      slot l j P -> slot (<[i := e']> l) j P).
    { intros j P HP (f & Hf & HPf). destruct (decide (j = i)) as [->|Hj].
      - exists e'. rewrite list_lookup_insert_eq by (by eapply lookup_lt_Some). split; [done|].
        assert (f = e) as -> by congruence. apply HP; [congruence..|done|]. unfold ekey in *. congruence.
      - exists f. by rewrite list_lookup_insert_ne. }
    assert (Hbefore : forall j, before l (ckey c') j -> before (<[i := e']> l) (ckey c') j).
    { intros j [Hj Hb]. split; [done|]. intros j' f Hlt Hf Hl. apply list_lookup_insert_Some in Hf as [(-> & <- & _)|[_ Hf]].
      - congruence.
      - by apply (Hb j' f). }
    destruct c'; try done; unfold thread_ok, oth_ok; destruct p'; try done; intuition;
      (eapply Hslot; [|eassumption]); unfold sure, holds_line; cbn; naive_solver.
Qed.
End move.

(** An upper bound on the accesses a call has left. *)
Definition rank (p : pc) : nat :=
  match p with
  | RClaim => 40 | RScan i => 20 + (8 - i) | RFull => 1 | RStore _ n => 10 + (5 - n) | RHw _ => 4 | RPublish _ _ => 3 | RRelease _ => 1
  | SLoad i => 22 + 3 * (8 - i) | SPort i => 21 + 3 * (8 - i) | SPin i => 20 + 3 * (8 - i) | UCas i => 19 + 3 * (8 - i)
  | UDis _ | EHw _ | DClr _ => 9 | UHw _ | ESet _ | DHw _ => 8 | UPut _ _ => 7 | URel _ => 6
  end.

Definition goto (n : next) : option pc := match n with Go p => Some p | Ret _ => None end.
Definition said (c : call) (x : next * list event) : list event :=
  match x.1 with Go _ => x.2 | Ret rc => x.2 ++ [EReturn c rc] end.

Lemma resume_eq t c x (s : st) :
  resume t c x s = ({| s with calls := upd t c (goto x.1) (calls s) |}, said c x).
Proof. unfold resume, said, upd. by destruct x as [[p|rc] ev]. Qed.

Section step.
Context (m : registry) (l : list gpio_irq_entry) (claims : list Z) (cs : gmap nat (call * pc)).
Context (t : nat) (c : call) (p : pc).
Hypothesis I : inv m l claims cs.
Hypothesis Ht : cs !! t = Some (c, p).

(** The call goes on as [x] says: the registry follows. *)
Definition outcome (l' : list gpio_irq_entry) (claims' : list Z) (x : next * list event) : Prop :=
  (exists m', esteps (said c x) m m' /\ inv m' l' claims' (upd t c (goto x.1) cs)) /\
  forall p', goto x.1 = Some p' -> (rank p' < rank p)%nat.

Lemma line_bit : valid (ckey c) -> claimed claims (ckey c) = true <-> is_Some (m !! ckey c) \/ holding p = true.
Proof.
  intros Hk. rewrite (cl_bit _ _ _ (iv_claim _ _ _ _ I) _ Hk). split; (intros [H|H]; [by left|right]).
  - destruct H as (t' & c' & p' & H1 & H2 & H3). pose proof (se_line _ (iv_serial _ _ _ _ I) t' t c' c p' p H1 Ht H2) as ->. congruence.
  - by exists t, c, p.
Qed.

Lemma other_threads o : (forall p', o = Some p' -> thread_ok l c p') ->
  forall t' c' p', upd t c o cs !! t' = Some (c', p') -> thread_ok l c' p'.
Proof.
  intros Ho t' c' p' H. apply upd_Some in H as [(-> & -> & ->)|[_ H]]; [by apply Ho|]. by apply (iv_thread _ _ _ _ I t').
Qed.

(** A step that only looks, or talks to the hardware. *)
Lemma look o : owner_of o = owner p -> held_by o = holding p -> (forall p', o = Some p' -> thread_ok l c p') ->
  inv m l claims (upd t c o cs).
Proof.
  intros Ho Hh Hok. destruct I as [HT HC HO HS HTh]. split; [done| |by eapply own_keep|by apply (serial_move cs t c p)|by apply other_threads].
  apply (claim_move cs t c p o Ht m m claims claims HS HC); [done|apply HC|done| |].
  - intros Hk. rewrite Hh. by apply line_bit.
  - rewrite Hh. by apply (cl_hold _ _ _ HC t c p).
Qed.

(** A step on the claim of the call's line. *)
Lemma flip claims' b o : valid (ckey c) -> flips claims claims' (ckey c) b -> owner_of o = owner p ->
  (b = true <-> is_Some (m !! ckey c) \/ held_by o = true) -> (held_by o = true -> m !! ckey c = None) ->
  (forall p', o = Some p' -> thread_ok l c p') ->
  inv m l claims' (upd t c o cs).
Proof.
  intros Hv (F1 & F2 & F3) Ho Hb Hh Hok. destruct I as [HT HC HO HS HTh].
  split; [done| |by eapply own_keep|by apply (serial_move cs t c p)|by apply other_threads].
  apply (claim_move cs t c p o Ht m m claims claims' HS HC); [done|rewrite F1; apply HC|by apply F3|by rewrite F2|].
  intros H. split; [done|by apply Hh].
Qed.

(** A step that writes a slot the call owns, or claims a free one. *)
Lemma write i e e' o : l !! i = Some e -> 0 <= registered e' <= 3 ->
  (live e' = true -> valid (ekey e') /\ callback e' <> 0 /\ without e m !! ekey e' = None /\ ekey e' = ckey c) ->
  (live e = true -> ekey e = ckey c) ->
  (owner p = Some (i, registered e) \/ owner p = None /\ registered e <> 2 /\ registered e <> 3) ->
  owner_of o = (if (registered e' =? 2) || (registered e' =? 3) then Some (i, registered e') else None) ->
  (if is_register c then owner p = Some (i, registered e) \/ registered e = 0 else ekey e = ckey c /\ ekey e' = ckey c) ->
  (valid (ckey c) -> is_Some (m !! ckey c) \/ holding p = true <-> is_Some (adding e' (without e m) !! ckey c) \/ held_by o = true) ->
  (held_by o = true -> valid (ckey c) /\ adding e' (without e m) !! ckey c = None) ->
  (forall p', o = Some p' -> thread_ok (<[i := e']> l) c p') ->
  inv (adding e' (without e m)) (<[i := e']> l) claims (upd t c o cs).
Proof.
  intros He Hc Hl Hl0 Hp Ho Hfr Hbit Hheld Hok. destruct I as [HT HC HO HS HTh]. split.
  - apply table_put; [done..|]. intros H. by destruct (Hl H) as (? & ? & ? & _).
  - apply (claim_move cs t c p o Ht m _ claims claims HS HC); [|apply HC|done| |done].
    + intros k Hk. unfold adding, without in *. destruct (live e') eqn:E', (live e) eqn:E; [| | |done].
      * destruct (Hl eq_refl) as (_ & _ & _ & ->). by rewrite lookup_insert_ne, (Hl0 eq_refl), lookup_delete_ne by done.
      * destruct (Hl eq_refl) as (_ & _ & _ & ->). by rewrite lookup_insert_ne by done.
      * by rewrite (Hl0 eq_refl), lookup_delete_ne by done.
    + intros Hv. rewrite <-(Hbit Hv). by apply line_bit.
  - by eapply own_put.
  - by apply (serial_move cs t c p).
  - intros t' c' p' H. apply upd_Some in H as [(-> & -> & ->)|[Hn H]]; [by apply Hok|].
    apply (thread_frame cs t c p Ht l i e e' HO HS He Hfr t' c' p' Hn H). by apply (HTh t').
Qed.

Lemma in_table i : (i < GPIO_IRQ_MAX)%nat -> exists e, l !! i = Some e.
Proof. intros. apply lookup_lt_is_Some_2. by rewrite (to_len _ _ (iv_table _ _ _ _ I)). Qed.

(** Another thread's slot is for another line. *)
Lemma releasing_line i e : l !! i = Some e -> registered e = 3 -> owner p = None -> ekey e <> ckey c.
Proof.
  intros He Hr Hp Hk. destruct I as [HT HC HO HS HTh].
  destruct (ow_owned _ _ HO i e He (or_intror Hr)) as (t' & c' & p' & H1 & H2). rewrite Hr in H2.
  assert (t' = t) as ->; [|congruence]. apply (se_line _ HS t' t c' c p' p H1 Ht). rewrite <-Hk.
  pose proof (HTh t' c' p' H1) as Hok.
  destruct c', p'; try done; cbn in H2; unfold GPIO_IRQ_RESERVING, GPIO_IRQ_RELEASING in H2; simplify_eq;
    cbn in Hok; try (by destruct Hok as (_ & _ & [])); destruct Hok as (f & Hf & Hkf); unfold holds_line in Hkf; intuition congruence.
Qed.

Lemma before_next i e : before l (ckey c) i -> l !! i = Some e -> (live e = true -> ekey e <> ckey c) -> before l (ckey c) (S i).
Proof.
  intros [Hi Hb] He Hn. pose proof (lookup_lt_Some _ _ _ He) as Hlt. rewrite (to_len _ _ (iv_table _ _ _ _ I)) in Hlt. split; [done|].
  intros j f Hj Hf Hl. destruct (decide (j = i)) as [->|]; [|apply (Hb j f); [lia|done..]]. assert (f = e) as -> by congruence. auto.
Qed.


Lemma live_cases e : 0 <= registered e <= 3 -> live e = true <-> registered e = 1 \/ registered e = 3.
Proof. intros. unfold live, GPIO_IRQ_REGISTERED, GPIO_IRQ_RELEASING. rewrite orb_true_iff, !Z.eqb_eq. done. Qed.

(** Slots that are not in the registry. *)
Lemma write_idle i e e' o : is_register c = true -> l !! i = Some e ->
  (registered e = 0 /\ owner p = None \/ registered e = 2 /\ owner p = Some (i, 2)) ->
  (registered e' = 0 /\ owner_of o = None \/ registered e' = 2 /\ owner_of o = Some (i, 2)) ->
  holding p = true -> held_by o = true ->
  (forall p', o = Some p' -> thread_ok (<[i := e']> l) c p') ->
  inv m (<[i := e']> l) claims (upd t c o cs).
Proof.
  intros Hr He Hp Ho Hhp Hho Hok.
  assert (live e = false) as El by (unfold live; destruct Hp as [[-> _]|[-> _]]; done).
  assert (live e' = false) as El' by (unfold live; destruct Ho as [[-> _]|[-> _]]; done).
  assert (adding e' (without e m) = m) as Em by (unfold adding, without; by rewrite El, El').
  pose proof (cl_hold _ _ _ (iv_claim _ _ _ _ I) t c p Ht Hhp) as Hh.
  rewrite <-Em. apply write; rewrite ?Em, ?El, ?El', ?Hr; [done|lia|done|done| | | | |done|done].
  - destruct Hp as [[-> ->]|[-> ->]]; [by right|by left].
  - destruct Ho as [[-> ->]|[-> ->]]; done.
  - destruct Hp as [[-> ->]|[-> ->]]; auto.
  - by rewrite Hhp, Hho.
Qed.

(** The slot of a registered line. *)
Lemma write_live i e e' o : is_register c = false -> l !! i = Some e -> ekey e = ckey c -> ekey e' = ckey c ->
  callback e' = callback e ->
  (registered e = 1 /\ owner p = None \/ registered e = 3 /\ owner p = Some (i, 3)) ->
  (registered e' = 1 /\ owner_of o = None \/ registered e' = 3 /\ owner_of o = Some (i, 3)) ->
  holding p = false -> held_by o = false ->
  (forall p', o = Some p' -> thread_ok (<[i := e']> l) c p') ->
  m !! ckey c = Some (evalue e) /\ inv (<[ckey c := evalue e']> m) (<[i := e']> l) claims (upd t c o cs).
Proof.
  intros Hr He Hk Hk' Hcb Hp Ho Hhp Hho Hok.
  assert (live e = true) as El by (unfold live; destruct Hp as [[-> _]|[-> _]]; done).
  assert (live e' = true) as El' by (unfold live; destruct Ho as [[-> _]|[-> _]]; done).
  destruct (to_valid _ _ (iv_table _ _ _ _ I) i e He El) as [Hv Hn].
  assert (m !! ckey c = Some (evalue e)) as Hm by (rewrite <-Hk; apply (table_some m l i); [apply (iv_table _ _ _ _ I)|done..]).
  split; [done|].
  assert (adding e' (without e m) = <[ckey c := evalue e']> m) as Em.
  { unfold adding, without. rewrite El, El', Hk, Hk'. apply insert_delete_eq. }
  rewrite <-Em. apply write; rewrite ?Em, ?El, ?El', ?Hr; [done|lia| |done| | |done| |by rewrite Hho|done].
  - intros _. rewrite Hk', Hcb, <-Hk. split; [done|]. split; [done|]. split; [|done]. unfold without. by rewrite El, lookup_delete_eq.
  - destruct Hp as [[-> ->]|[-> ->]]; [right; repeat split; lia|by left].
  - destruct Ho as [[-> ->]|[-> ->]]; done.
  - rewrite Hhp, Hho, Hm, lookup_insert_eq. intros _. split; (intros _; left; by eexists).
Qed.
End step.

(** *** Each access of a thread *)

Section access.
Context (m : registry) (l : list gpio_irq_entry) (claims : list Z) (cs : gmap nat (call * pc)) (t : nat) (w : W).

Definition advances (c : call) (p : pc) : Prop :=
  exists l' claims' w' x, advance c p (mk_st l claims w cs) = Some (mk_st l' claims' w' cs, x) /\ outcome m cs t c p l' claims' x.

(** At [p] in call [c], thread [t] can move and the registry follows. *)
Definition can_move (c : call) (p : pc) : Prop := inv m l claims cs -> cs !! t = Some (c, p) -> advances c p.

Lemma advances_intro c p l' claims' w' n ev m' :
  advance c p (mk_st l claims w cs) = Some (mk_st l' claims' w' cs, (n, ev)) ->
  esteps (said c (n, ev)) m m' -> inv m' l' claims' (upd t c (goto n) cs) ->
  (forall p', goto n = Some p' -> (rank p' < rank p)%nat) -> advances c p.
Proof. intros H1 H2 H3 H4. exists l', claims', w', (n, ev). split; [done|]. split; [by exists m'|done]. Qed.

(** The loop of the three calls that search the table. *)
Lemma search c p i : inv m l claims cs -> cs !! t = Some (c, p) ->
  is_register c = false -> owner p = None -> holding p = false -> before l (ckey c) i ->
  ((i < 8)%nat -> (22 + 3 * (8 - i) < rank p + match c with Unregister _ _ => 1 | _ => 0 end)%nat) ->
  outcome m cs t c p l claims (loop c i).
Proof.
  intros I Ht Hr Ho Hh Hb Hrk. pose proof (look m l claims cs t c p I Ht) as Hlook.
  unfold loop. destruct (Nat.ltb_spec i GPIO_IRQ_MAX) as [Hlt|Hge].
  - destruct (in_table m l claims cs I i Hlt) as [e He]. specialize (Hrk Hlt).
    destruct c as [|a b|a b|a b]; [done|..]; (split; [exists m; split; [done|apply Hlook; cbn; try done]|]);
      cbn; intros ? [= <-]; cbn in *; try lia; try (split; [done|]); try done. split; [done|]. by exists e.
  - assert (m !! ckey c = None) as Hn.
    { apply (table_none _ l); [apply (iv_table _ _ _ _ I)|]. intros j e Hj Hl. destruct Hb as [_ Hb]. apply (Hb j e); [|done..].
      apply lookup_lt_Some in Hj. rewrite (to_len _ _ (iv_table _ _ _ _ I)) in Hj. lia. }
    assert (inv m l claims (upd t c None cs)) as Hi by (by apply Hlook).
    destruct c as [|a b|a b|a b]; [done|..]; (split; [|done]); exists m; (split; [|done]); cbn; exists m; (split; [done|]); exists m; done.
Qed.

(** *** [ove_gpio_irq_register] *)

Section register.
Context (a b mode cb ud : Z).
Local Abbreviation c := (Register a b mode cb ud).

Lemma move_claim : can_move c RClaim.
Proof.
  intros I Ht. destruct (iv_thread _ _ _ _ I t _ _ Ht) as (Hv & Hcb & _).
  destruct (claim_spec claims (a, b) (cl_words _ _ _ (iv_claim _ _ _ _ I)) Hv) as (claims' & Hcl & Hf).
  pose proof (line_bit m l claims cs t c RClaim I Ht Hv) as Hbit. change (ckey c) with (a, b) in Hbit. cbn in Hcl, Hbit. destruct (claimed claims (a, b)) eqn:E.
  - destruct (proj1 Hbit eq_refl) as [Hm|]; [|done].
    eapply (advances_intro _ _ l claims' w (Ret OVE_ERR_ALREADY_EXISTS) [ERefused (a, b)] m); [cbn; by rewrite Hcl| | |done].
    + exists m. split; [done|]. exists m. done.
    + apply (flip m l claims cs t c RClaim I Ht claims' true); [done..| |done|done]. cbn. tauto.
  - assert (m !! (a, b) = None) as Hm by (destruct (m !! (a, b)) eqn:E'; [destruct Hbit as [_ Hbit]; discriminate Hbit; left; by eexists|done]).
    eapply (advances_intro _ _ l claims' w (Go (RScan 0)) [] m); [cbn; by rewrite Hcl|done| |intros ? [= <-]; cbn; lia].
    apply (flip m l claims cs t c RClaim I Ht claims' true); [done|done|done| |done|].
    + cbn. tauto.
    + intros ? [= <-]. cbn. unfold GPIO_IRQ_MAX. repeat split; first [done|apply Hv|lia].
Qed.

Lemma move_scan i : can_move c (RScan i).
Proof.
  intros I Ht. destruct (iv_thread _ _ _ _ I t _ _ Ht) as (Hv & Hcb & Hi). cbn in Hi.
  destruct (in_table m l claims cs I i Hi) as [e He]. destruct (Z.eqb_spec (registered e) GPIO_IRQ_FREE) as [Hr|Hr].
  - eapply (advances_intro _ _ _ claims w (Go (RStore i 0)) [] m); [|done| |intros ? [= <-]; cbn; unfold GPIO_IRQ_MAX in Hi; lia].
    + cbn. rewrite He. cbn. rewrite Hr. done.
    + apply (write_idle m l claims cs t c (RScan i) I Ht i e); [done|done|by left|by right|done|done|].
      intros ? [= <-]. split; [done|]. split; [done|]. split; [lia|]. eexists. split; [|done].
      apply list_lookup_insert_eq. by eapply lookup_lt_Some.
  - assert (advance c (RScan i) (mk_st l claims w cs) = Some (mk_st l claims w cs, loop c (S i))) as Ha.
    { cbn. rewrite He. cbn. by rewrite (proj2 (Z.eqb_neq _ _) Hr). }
    unfold loop in Ha. destruct (Nat.ltb_spec (S i) GPIO_IRQ_MAX).
    + eapply (advances_intro _ _ _ _ _ _ _ m Ha); [done| |intros ? [= <-]; cbn; unfold GPIO_IRQ_MAX in *; lia].
      apply (look m l claims cs t c (RScan i) I Ht); [done..|]. intros ? [= <-]. done.
    + eapply (advances_intro _ _ _ _ _ _ _ m Ha); [done| |intros ? [= <-]; cbn; unfold GPIO_IRQ_MAX in *; lia].
      apply (look m l claims cs t c (RScan i) I Ht); [done..|]. intros ? [= <-]. done.
Qed.

(** Giving the claim back at the end. *)
Lemma give_back p rc : holding p = true -> owner p = None -> rc <> OVE_OK ->
  (forall s : st, advance c p s = (cl ← release_irq_line (irq_claims s) a b; Some (set_claims cl s, (Ret rc, [])))) ->
  can_move c p.
Proof.
  intros Hh Ho Hrc Ha I Ht. destruct (cl_hold _ _ _ (iv_claim _ _ _ _ I) t _ _ Ht Hh) as [Hv Hm].
  destruct (release_spec claims (a, b) (cl_words _ _ _ (iv_claim _ _ _ _ I)) Hv) as (claims' & Hcl & Hf). cbn in Hcl.
  eapply (advances_intro _ _ l claims' w (Ret rc) [] m); [rewrite Ha; cbn; by rewrite Hcl| | |done].
  - exists m. split; [|done]. cbn. by rewrite (proj2 (Z.eqb_neq _ _) Hrc).
  - apply (flip m l claims cs t c p I Ht claims' false); [done..|by rewrite Ho| |done|done].
    cbn. rewrite Hm. split; [done|]. intros [[? H]|H]; discriminate H.
Qed.

Lemma move_full : can_move c RFull.
Proof. by apply (give_back _ OVE_ERR_NO_MEMORY). Qed.

Lemma move_release ret : can_move c (RRelease ret).
Proof. intros I Ht. destruct (iv_thread _ _ _ _ I t _ _ Ht) as (_ & _ & Hr). by apply (give_back _ ret). Qed.

Lemma fill_registered n e : registered (fill c n e) = registered e.
Proof. by destruct n as [|[|[|[|n]]]]. Qed.

Lemma filled_next n e : (n <= 4)%nat -> filled c n e -> filled c (S n) (fill c n e).
Proof. destruct e. intros Hn. do 5 (destruct n as [|n]; [cbn; naive_solver|]). lia. Qed.

Lemma owned_slot p i n : inv m l claims cs -> cs !! t = Some (c, p) -> owner p = Some (i, 2) -> slot l i (filled c n) ->
  exists e, l !! i = Some e /\ registered e = 2 /\ filled c n e.
Proof.
  intros I Ht Ho (e & He & Hf). destruct (ow_owns _ _ (iv_own _ _ _ _ I) t c p i 2 Ht Ho) as (f & Hf' & Hr).
  assert (f = e) as -> by congruence. by exists e.
Qed.

Lemma move_store i n : can_move c (RStore i n).
Proof.
  intros I Ht. destruct (iv_thread _ _ _ _ I t _ _ Ht) as (Hv & Hcb & Hn & Hs).
  destruct (owned_slot _ i n I Ht eq_refl Hs) as (e & He & Hr & Hf).
  eapply (advances_intro _ _ _ claims w _ [] m); [cbn -[fill]; rewrite He; done|..].
  - unfold said. by destruct (n =? 4)%nat.
  - apply (write_idle m l claims cs t c (RStore i n) I Ht i e); [done|done|by right| |done|by destruct (n =? 4)%nat|].
    + right. rewrite fill_registered. split; [done|]. by destruct (n =? 4)%nat.
    + assert (slot (<[i := fill c n e]> l) i (filled c (S n))) as Hs'.
      { exists (fill c n e). rewrite list_lookup_insert_eq by (by eapply lookup_lt_Some). split; [done|]. by apply filled_next. }
      intros p'. destruct (Nat.eqb_spec n 4) as [->|Hne]; intros [= <-]; (split; [done|]; split; [done|]); [done|]. split; [lia|done].
  - intros p'. destruct (Nat.eqb_spec n 4) as [->|Hne]; intros [= <-]; cbn -[Nat.sub]; lia.
Qed.

Lemma move_hw i : can_move c (RHw i).
Proof.
  intros I Ht. pose proof (iv_thread _ _ _ _ I t _ _ Ht) as Hok. unfold advances. cbn.
  destruct (ove_hal_gpio_irq_hw_register a b mode w) as [ret w'].
  exists l, claims, w', (Go (RPublish i ret), []). split; [done|]. split; [|intros ? [= <-]; cbn; lia].
  exists m. split; [done|]. apply (look m l claims cs t c (RHw i) I Ht); [done..|]. by intros ? [= <-].
Qed.

Lemma move_publish i ret : can_move c (RPublish i ret).
Proof.
  intros I Ht. destruct (iv_thread _ _ _ _ I t _ _ Ht) as (Hv & Hcb & Hs).
  destruct (owned_slot _ i 5 I Ht eq_refl Hs) as (e & He & Hr & Hf). destruct (Z.eqb_spec ret OVE_OK) as [->|Hret].
  - destruct (cl_hold _ _ _ (iv_claim _ _ _ _ I) t _ _ Ht eq_refl) as [_ Hm].
    set (e' := {| e with registered := GPIO_IRQ_REGISTERED |}).
    assert (ekey e' = (a, b) /\ evalue e' = (cb, ud, false) /\ callback e' = cb) as (Hk & Hval & Hcb').
    { destruct e. cbn in *. unfold e', ekey, evalue. cbn. naive_solver. }
    assert (live e = false) as El by (unfold live; by rewrite Hr).
    assert (adding e' (without e m) = <[(a, b) := (cb, ud, false)]> m) as Em by (unfold adding, without; by rewrite El, Hk, Hval).
    eapply (advances_intro _ _ _ claims w (Ret OVE_OK) [] (<[(a, b) := (cb, ud, false)]> m)); [cbn; rewrite He; done| | |done].
    + eexists. split; [|done]. done.
    + rewrite <-Em. apply (write m l claims cs t c (RPublish i OVE_OK) I Ht i e e'); rewrite ?Em, ?El; try done; [|left; by rewrite Hr|left; by rewrite Hr|].
      * intros _. rewrite Hk, Hcb'. unfold without. by rewrite El.
      * intros _. change (ckey c) with (a, b). rewrite lookup_insert_eq. cbn. split; [intros _; left; by eexists|by right].
  - eapply (advances_intro _ _ _ claims w (Go (RRelease ret)) [] m); [|done| |intros ? [= <-]; cbn; lia].
    + cbn. rewrite He. cbn. by rewrite (proj2 (Z.eqb_neq _ _) Hret).
    + apply (write_idle m l claims cs t c (RPublish i ret) I Ht i e); [done|done|by right|by left|done|done|].
      by intros ? [= <-].
Qed.
End register.

(** *** The calls that search the table *)

Section searching.
Context (c : call).
Hypothesis Hc : is_register c = false.

Lemma oth_thread p : inv m l claims cs -> cs !! t = Some (c, p) -> oth_ok l c p.
Proof. intros I Ht. pose proof (iv_thread _ _ _ _ I t c p Ht) as H. by destruct c. Qed.

Lemma thread_oth p (l' : list gpio_irq_entry) : oth_ok l' c p -> thread_ok l' c p.
Proof. by destruct c. Qed.

(** Slot [i] is not it. *)
Lemma go_on p i e w' : inv m l claims cs -> cs !! t = Some (c, p) -> owner p = None -> holding p = false ->
  l !! i = Some e -> before l (ckey c) i -> (live e = true -> ekey e <> ckey c) ->
  (22 + 3 * (8 - S i) < rank p + match c with Unregister _ _ => 1 | _ => 0 end)%nat ->
  advance c p (mk_st l claims w cs) = Some (mk_st l claims w' cs, loop c (S i)) -> advances c p.
Proof.
  intros I Ht Ho Hh He Hb Hn Hr Ha. exists l, claims, w', (loop c (S i)). split; [done|].
  apply search; [done..| |done]. by apply (before_next m l claims cs c I i e).
Qed.

(** Slot [i] passes a test. *)
Lemma passes p p' w' : inv m l claims cs -> cs !! t = Some (c, p) -> owner p' = owner p -> holding p' = holding p -> oth_ok l c p' ->
  (rank p' < rank p)%nat -> advance c p (mk_st l claims w cs) = Some (mk_st l claims w' cs, (Go p', [])) -> advances c p.
Proof.
  intros I Ht Ho Hh Hok Hr Ha. eapply (advances_intro _ _ l claims w' _ _ m Ha); [done| |by intros ? [= <-]].
  apply (look m l claims cs t c p I Ht); [done..|]. intros ? [= <-]. by apply thread_oth.
Qed.

Lemma move_load i : can_move c (SLoad i).
Proof.
  intros I Ht. destruct (oth_thread _ I Ht) as [Hi Hb]. destruct (in_table m l claims cs I i Hi) as [e He].
  destruct (Z.eqb_spec (registered e) GPIO_IRQ_REGISTERED) as [Hr|Hr].
  - eapply (passes _ (SPort i) w I Ht); [done..| |cbn; lia|].
    + split; [done|]. split; [done|]. exists e. split; [done|]. unfold sure. by destruct c.
    + unfold advance, ckey. cbn. rewrite He. cbn. by rewrite Hr.
  - eapply (go_on _ i e w I Ht); [done..| |cbn -[Nat.sub]; unfold GPIO_IRQ_MAX in Hi; destruct c; lia|].
    + intros Hl. apply live_cases in Hl as [Hl|Hl]; [done| |by apply (to_code _ _ (iv_table _ _ _ _ I) i)].
      by apply (releasing_line m l claims cs t c (SLoad i) I Ht i e).
    + unfold advance, ckey. cbn. rewrite He. cbn. by rewrite (proj2 (Z.eqb_neq _ _) Hr).
Qed.

Lemma move_port i : can_move c (SPort i).
Proof.
  intros I Ht. destruct (oth_thread _ I Ht) as (Hi & Hb & e & He & Hs).
  destruct (Z.eqb_spec (port e) (cport c)) as [Hr|Hr].
  - eapply (passes _ (SPin i) w I Ht); [done..| |cbn; lia|].
    + split; [done|]. split; [done|]. by exists e.
    + unfold advance, ckey. cbn. rewrite He. cbn. by rewrite Hr, Z.eqb_refl.
  - eapply (go_on _ i e w I Ht); [done..| |cbn -[Nat.sub]; unfold GPIO_IRQ_MAX in Hi; destruct c; lia|].
    + intros _. unfold ekey, ckey. congruence.
    + unfold advance, ckey. cbn. rewrite He. cbn. by rewrite (proj2 (Z.eqb_neq _ _) Hr).
Qed.

Lemma move_pin i : can_move c (SPin i).
Proof.
  intros I Ht. destruct (oth_thread _ I Ht) as (Hi & Hb & e & He & Hs & Hp).
  destruct (Z.eqb_spec (pin e) (cpin c)) as [Hr|Hr].
  - assert (ekey e = ckey c) as Hk by (unfold ekey, ckey; congruence).
    eapply (passes _ (match c with Enable _ _ => EHw i | Disable _ _ => DClr i | _ => UCas i end) w I Ht);
      [by destruct c|by destruct c| |cbn -[Nat.sub]; destruct c; cbn -[Nat.sub]; unfold GPIO_IRQ_MAX in Hi; lia|].
    + destruct c; try done; cbn.
      * split; [done|]. split; [done|]. by exists e.
      * exists e. split; [done|]. split; [done|]. by apply Hs.
      * exists e. split; [done|]. split; [done|]. by apply Hs.
    + unfold advance, ckey. cbn. rewrite He. cbn. by rewrite Hr, Z.eqb_refl.
  - eapply (go_on _ i e w I Ht); [done..| |cbn -[Nat.sub]; unfold GPIO_IRQ_MAX in Hi; destruct c; lia|].
    + intros _. unfold ekey, ckey. congruence.
    + unfold advance, ckey. cbn. rewrite He. cbn. by rewrite (proj2 (Z.eqb_neq _ _) Hr).
Qed.
End searching.

(** *** Their bodies *)

Section bodies.
Context (a b : Z).

(** A slot of the call's line is rewritten; the registry's entry becomes
    [v]. *)
Lemma rewrites c p n ev i e e' : inv m l claims cs -> cs !! t = Some (c, p) -> is_register c = false ->
  l !! i = Some e -> ekey e = ckey c -> ekey e' = ckey c -> callback e' = callback e ->
  (registered e = 1 /\ owner p = None \/ registered e = 3 /\ owner p = Some (i, 3)) ->
  (registered e' = 1 /\ owner_of (goto n) = None \/ registered e' = 3 /\ owner_of (goto n) = Some (i, 3)) ->
  holding p = false -> held_by (goto n) = false ->
  (forall p', goto n = Some p' -> oth_ok (<[i := e']> l) c p' /\ (rank p' < rank p)%nat) ->
  (m !! ckey c = Some (evalue e) -> esteps (said c (n, ev)) m (<[ckey c := evalue e']> m)) ->
  advance c p (mk_st l claims w cs) = Some (mk_st (<[i := e']> l) claims w cs, (n, ev)) -> advances c p.
Proof.
  intros I Ht Hr He Hk Hk' Hcb Hp Ho Hhp Hho Hok Hev Ha.
  destruct (write_live m l claims cs t c p I Ht i e e' (goto n) Hr He Hk Hk' Hcb Hp Ho Hhp Hho) as [Hm Hi].
  { intros p' Hp'. apply thread_oth; [done|]. by apply Hok. }
  apply (advances_intro c p _ _ _ _ _ _ Ha (Hev Hm) Hi). intros p' Hp'. by apply Hok.
Qed.

Lemma slot_put i e (P : gpio_irq_entry -> Prop) : is_Some (l !! i) -> P e -> slot (<[i := e]> l) i P.
Proof. intros Hi HP. exists e. split; [|done]. apply list_lookup_insert_eq. by apply lookup_lt_is_Some_1. Qed.

Lemma move_cas i : can_move (Unregister a b) (UCas i).
Proof.
  intros I Ht. destruct (oth_thread (Unregister a b) eq_refl _ I Ht) as (Hi & Hb & e & He & Hk).
  destruct (Z.eqb_spec (registered e) GPIO_IRQ_REGISTERED) as [Hr|Hr].
  - apply (rewrites _ _ (Go (UDis i)) [EMask (a, b)] i e {| e with registered := GPIO_IRQ_RELEASING |}); try done; [by left|by right| | |].
    + intros ? [= <-]. split; [|cbn -[Nat.sub]; unfold GPIO_IRQ_MAX in Hi; lia]. by apply slot_put.
    + intros Hm. eexists. split; [|done]. by exists (callback e), (user_data e); eexists.
    + cbn. rewrite He. cbn. by rewrite Hr.
  - eapply (go_on (Unregister a b) eq_refl _ i e w I Ht); [done..| |cbn -[Nat.sub]; unfold GPIO_IRQ_MAX in Hi; lia|].
    + intros Hl. apply live_cases in Hl as [Hl|Hl]; [by destruct Hr| |by apply (to_code _ _ (iv_table _ _ _ _ I) i)].
      by apply (releasing_line m l claims cs t _ (UCas i) I Ht i e).
    + cbn. rewrite He. cbn. by rewrite (proj2 (Z.eqb_neq _ _) Hr).
Qed.

Lemma keeps_value k v : m !! k = Some v -> <[k := v]> m = m.
Proof. apply insert_id. Qed.

Lemma move_udis i : can_move (Unregister a b) (UDis i).
Proof.
  intros I Ht. destruct (oth_thread (Unregister a b) eq_refl _ I Ht) as (e & He & Hk & Hr).
  apply (rewrites _ _ (Go (UHw i)) [] i e {| e with enabled := 0 |}); try done; [by right|by right| | |by cbn; rewrite He].
  - intros ? [= <-]. split; [|cbn; lia]. by apply slot_put.
  - intros Hm. cbn. apply keeps_value. rewrite Hm. unfold evalue. cbn. by rewrite Hr.
Qed.

Lemma move_uhw i : can_move (Unregister a b) (UHw i).
Proof.
  intros I Ht. pose proof (oth_thread (Unregister a b) eq_refl _ I Ht) as Hok. destruct (ove_hal_gpio_irq_hw_unregister a b w) as [ret w'] eqn:E.
  apply (passes (Unregister a b) eq_refl _ (UPut i ret) w' I Ht); [done|done|done|cbn; lia|]. cbn. by rewrite E.
Qed.

Lemma move_uput i ret : can_move (Unregister a b) (UPut i ret).
Proof.
  intros I Ht. destruct (oth_thread (Unregister a b) eq_refl _ I Ht) as (e & He & (Hk & Hr) & Hen).
  destruct (Z.eqb_spec ret OVE_OK) as [->|Hret].
  - set (e' := {| e with registered := GPIO_IRQ_FREE |}).
    assert (live e = true) as El by (unfold live; by rewrite Hr).
    assert (adding e' (without e m) = delete (a, b) m) as Em by (unfold adding, without; cbn; rewrite El, Hk; done).
    pose proof (table_some m l i e (iv_table _ _ _ _ I) He El) as Hm. rewrite Hk in Hm.
    eapply (advances_intro _ _ _ claims w (Go (URel OVE_OK)) [EGone (a, b)] (delete (a, b) m));
      [cbn; rewrite He; done| | |intros ? [= <-]; cbn; lia].
    + eexists. split; [|done]. split; [by eexists|done].
    + destruct (to_valid _ _ (iv_table _ _ _ _ I) i e He El) as [Hv _]. rewrite Hk in Hv.
      rewrite <-Em. apply (write m l claims cs t _ (UPut i OVE_OK) I Ht i e e'); rewrite ?Em; try done; [left; by rewrite Hr| | |].
      * intros _. split; [by right|]. intros _. left. by eexists.
      * intros _. split; [done|]. apply lookup_delete_eq.
      * by intros ? [= <-].
  - apply (rewrites _ _ (Ret ret) [] i e {| e with registered := GPIO_IRQ_REGISTERED |}); try done; [by right|by left| |].
    + intros Hm. rewrite keeps_value; [by exists m|]. rewrite Hm. unfold evalue. cbn. by rewrite Hr, Hen.
    + cbn. rewrite He. cbn. by rewrite (proj2 (Z.eqb_neq _ _) Hret).
Qed.

Lemma move_urel ret : can_move (Unregister a b) (URel ret).
Proof.
  intros I Ht. pose proof (oth_thread (Unregister a b) eq_refl _ I Ht) as Hret. cbn in Hret. subst ret.
  destruct (cl_hold _ _ _ (iv_claim _ _ _ _ I) t _ _ Ht eq_refl) as [Hv Hm].
  destruct (release_spec claims (a, b) (cl_words _ _ _ (iv_claim _ _ _ _ I)) Hv) as (claims' & Hcl & Hf). cbn in Hcl.
  eapply (advances_intro _ _ l claims' w (Ret OVE_OK) [] m); [cbn; by rewrite Hcl| | |done].
  - by exists m.
  - apply (flip m l claims cs t _ (URel OVE_OK) I Ht claims' false); [done..| |done|done].
    cbn. rewrite Hm. split; [done|]. intros [[? H]|H]; discriminate H.
Qed.

Lemma move_ehw i : can_move (Enable a b) (EHw i).
Proof.
  intros I Ht. pose proof (oth_thread (Enable a b) eq_refl _ I Ht) as Hok. destruct (ove_hal_gpio_irq_hw_enable a b w) as [ret w'] eqn:E.
  destruct (Z.eqb_spec ret OVE_OK) as [->|Hret].
  - apply (passes (Enable a b) eq_refl _ (ESet i) w' I Ht); [done|done|done|cbn; lia|]. cbn. by rewrite E.
  - eapply (advances_intro _ _ l claims w' (Ret ret) [] m); [|exists m|by apply (look m l claims cs t _ (EHw i) I Ht)|done].
    + cbn. rewrite E. by rewrite (proj2 (Z.eqb_neq _ _) Hret).
    + split; [|done]. cbn. by rewrite (proj2 (Z.eqb_neq _ _) Hret).
Qed.

Lemma move_eset i : can_move (Enable a b) (ESet i).
Proof.
  intros I Ht. destruct (oth_thread (Enable a b) eq_refl _ I Ht) as (e & He & Hk & Hr).
  apply (rewrites _ _ (Ret OVE_OK) [] i e {| e with enabled := 1 |}); try done; [by left|by left| |by cbn; rewrite He].
  intros Hm. eexists. split; [|done]. cbn. exists (callback e), (user_data e); eexists. split; [done|].
  unfold evalue. cbn. by rewrite Hr.
Qed.

Lemma move_dclr i : can_move (Disable a b) (DClr i).
Proof.
  intros I Ht. destruct (oth_thread (Disable a b) eq_refl _ I Ht) as (e & He & Hk & Hr).
  apply (rewrites _ _ (Go (DHw i)) [EMask (a, b)] i e {| e with enabled := 0 |}); try done; [by left|by left| | |by cbn; rewrite He].
  - intros ? [= <-]. split; [|cbn; lia]. by apply slot_put.
  - intros Hm. eexists. split; [|done]. exists (callback e), (user_data e); eexists. split; [done|].
    unfold evalue. cbn. by rewrite andb_false_r.
Qed.

Lemma move_dhw i : can_move (Disable a b) (DHw i).
Proof.
  intros I Ht. pose proof (oth_thread (Disable a b) eq_refl _ I Ht) as (e & He & (Hk & Hr) & Hen).
  destruct (ove_hal_gpio_irq_hw_disable a b w) as [ret w'] eqn:E.
  eapply (advances_intro _ _ l claims w' (Ret ret) [] m); [|exists m|by apply (look m l claims cs t _ (DHw i) I Ht)|done].
  - cbn. by rewrite E.
  - split; [|done]. split; [done|]. intros _. exists (callback e), (user_data e).
    pose proof (table_some m l i e (iv_table _ _ _ _ I) He) as Hm. rewrite Hk in Hm. change (ckey _) with (a, b) in Hm.
    rewrite Hm; unfold live, evalue; rewrite Hr, ?Hen; done.
Qed.
End bodies.

Lemma every_move c p : can_move c p.
Proof.
  intros I Ht. pose proof (iv_thread _ _ _ _ I t c p Ht) as Hok.
  destruct c as [a b mode cb ud|a b|a b|a b]; destruct p; cbn in Hok; try (by destruct Hok as (_ & _ & [])); try done;
    revert I Ht; first [apply move_claim|apply move_scan|apply move_full|apply move_store|apply move_hw|apply move_publish
      |apply move_release|by apply move_load|by apply move_port|by apply move_pin|apply move_cas|apply move_udis|apply move_uhw
      |apply move_uput|apply move_urel|apply move_ehw|apply move_eset|apply move_dclr|apply move_dhw].
Qed.
End access.

(** ** Interrupts and starts *)

Definition fires (k : Z * Z) (e : gpio_irq_entry) : Prop := registered e = GPIO_IRQ_REGISTERED /\ enabled e <> 0 /\ ekey e = k.
#[local] Instance fires_dec k e : Decision (fires k e).
Proof. unfold fires. apply _. Defined.

Lemma dispatch_spec a b l :
  (exists e, e ∈ l /\ fires (a, b) e /\ ove_gpio_irq_dispatch l a b =
     if negb (callback e =? 0) then [ECall (a, b) (callback e) (user_data e)] else [EQuiet (a, b)]) \/
  (forall e, e ∈ l -> ~ fires (a, b) e) /\ ove_gpio_irq_dispatch l a b = [EQuiet (a, b)].
Proof.
  induction l as [|e l IH]; [right; split; [intros e H; by apply not_elem_of_nil in H|done]|]. cbn.
  destruct (decide (fires (a, b) e)) as [Hf|Hf].
  - left. exists e. split; [left|]. split; [done|]. destruct Hf as (-> & Hen & [= -> ->]).
    by rewrite (proj2 (Z.eqb_neq _ _) Hen), !Z.eqb_refl.
  - assert (forall (A : Type) (x y : A), (if negb (registered e =? GPIO_IRQ_REGISTERED) then x else
      if negb (enabled e =? 0) && (port e =? a) && (pin e =? b) then y else x) = x) as ->.
    { intros A x y. destruct (Z.eqb_spec (registered e) GPIO_IRQ_REGISTERED) as [Hr|]; [|done]. cbn.
      destruct (Z.eqb_spec (enabled e) 0), (Z.eqb_spec (port e) a), (Z.eqb_spec (pin e) b); try done.
      destruct Hf. split; [done|]. split; [done|]. unfold ekey. congruence. }
    destruct IH as [(f & Hin & Hff & ->)|[Hn ->]].
    + left. exists f. split; [by right|done].
    + right. split; [|done]. intros f Hin. apply elem_of_cons in Hin as [->|Hin]; [done|by apply Hn].
Qed.

Lemma dispatch_ok m l a b : table_ok m l -> esteps (ove_gpio_irq_dispatch l a b) m m.
Proof.
  intros HT. destruct (dispatch_spec a b l) as [(e & Hin & (Hr & Hen & Hk) & ->)|[Hn ->]].
  - apply list_elem_of_lookup in Hin as [i He]. assert (live e = true) as El by (unfold live; by rewrite Hr).
    destruct (to_valid _ _ HT i e He El) as [_ Hcb]. rewrite (proj2 (Z.eqb_neq _ _) Hcb). cbn.
    exists m. split; [|done]. split; [|done]. rewrite <-Hk, (table_some m l i e HT He El). unfold evalue.
    by rewrite Hr, (proj2 (Z.eqb_neq _ _) Hen).
  - exists m. split; [|done]. split; [|done]. intros cb ud Hm.
    apply (to_map _ _ HT) in Hm as (i & e & He & _ & Hk & Hv). apply (Hn e); [by eapply list_elem_of_lookup_2|].
    unfold evalue in Hv. injection Hv as _ _ Hb. apply andb_true_iff in Hb as [Hr Hen].
    apply Z.eqb_eq in Hr. apply negb_true_iff, Z.eqb_neq in Hen. done.
Qed.

Lemma gpio_start_inv m l claims cs t c p : inv m l claims cs -> cs !! t = None ->
  map_Forall (fun _ x => ckey x.1 <> ckey c /\ is_register x.1 = is_register c) cs ->
  owner p = None -> holding p = false -> thread_ok l c p -> inv m l claims (<[t := (c, p)]> cs).
Proof.
  intros [HT HC HO HS HTh] Ht Hcs Ho Hh Hok.
  assert (Hold : forall t' c' p', <[t := (c, p)]> cs !! t' = Some (c', p') ->
    (t' = t /\ c' = c /\ p' = p) \/ (cs !! t' = Some (c', p') /\ ckey c' <> ckey c /\ is_register c' = is_register c)).
  { intros t' c' p' H. apply lookup_insert_Some in H as [[<- [= -> ->]]|[_ H]]; [by left|right].
    split; [done|]. by apply (Hcs t' (c', p')). }
  assert (Hnew : forall t' x, cs !! t' = Some x -> <[t := (c, p)]> cs !! t' = Some x).
  { intros t' x H. rewrite lookup_insert_ne; [done|congruence]. }
  split.
  - done.
  - split; [apply HC| |].
    + intros k Hk. rewrite (cl_bit _ _ _ HC k Hk). split; (intros [H|(t' & c' & p' & H1 & H2 & H3)]; [by left|right]).
      * exists t', c', p'. by rewrite (Hnew _ _ H1).
      * destruct (Hold _ _ _ H1) as [(-> & -> & ->)|[H4 _]]; [congruence|]. by exists t', c', p'.
    + intros t' c' p' H Hh'. destruct (Hold _ _ _ H) as [(-> & -> & ->)|[H4 _]]; [congruence|]. by apply (cl_hold _ _ _ HC t' c' p').
  - split.
    + intros t' c' p' i r H Ho'. destruct (Hold _ _ _ H) as [(-> & -> & ->)|[H4 _]]; [congruence|]. by apply (ow_owns _ _ HO t' c' p').
    + intros i e He Hr. destruct (ow_owned _ _ HO i e He Hr) as (t' & c' & p' & H1 & H2). exists t', c', p'. by rewrite (Hnew _ _ H1).
    + intros t1 t2 c1 c2 p1 p2 i r1 r2 H1 H2 O1 O2. destruct (Hold _ _ _ H1) as [(-> & -> & ->)|[A1 _]]; [congruence|].
      destruct (Hold _ _ _ H2) as [(-> & -> & ->)|[A2 _]]; [congruence|]. by apply (ow_excl _ _ HO t1 t2 c1 c2 p1 p2 i r1 r2).
  - split; intros t1 t2 c1 c2 p1 p2 H1 H2; destruct (Hold _ _ _ H1) as [(-> & -> & ->)|(A1 & B1 & C1)];
      destruct (Hold _ _ _ H2) as [(-> & -> & ->)|(A2 & B2 & C2)]; try done; try (intros E; congruence).
    + by apply (se_line _ HS t1 t2 c1 c2 p1 p2).
    + by rewrite C1.
  - intros t' c' p' H. destruct (Hold _ _ _ H) as [(-> & -> & ->)|[H4 _]]; [done|]. by apply (HTh t').
Qed.

(** ** Runs *)

Definition st_inv (m : registry) (s : st) : Prop := inv m (irq_table s) (irq_claims s) (calls s).

Lemma init_inv w : st_inv ∅ (init w).
Proof.
  assert (forall i e, replicate GPIO_IRQ_MAX (mk_entry 0 0 0 0 0 0) !! i = Some e -> registered e = 0 /\ live e = false) as Hz.
  { intros i e H. by apply lookup_replicate in H as [-> _]. }
  split; cbn [init irq_table irq_claims calls].
  - split; [by rewrite length_replicate| | | |].
    + intros k v. rewrite lookup_empty. split; [done|]. intros (i & e & H & Hl & _). destruct (Hz i e H). congruence.
    + intros i j e f H _ Hl. destruct (Hz i e H). congruence.
    + intros i e H Hl. destruct (Hz i e H). congruence.
    + intros i e H. destruct (Hz i e H). lia.
  - split; [by rewrite length_replicate| |].
    + intros k Hk. unfold claimed. destruct (words_lookup (replicate GPIO_IRQ_CLAIM_WORDS 0) k) as [v Hv]; [by rewrite length_replicate|done|].
      rewrite Hv. apply lookup_replicate in Hv as [-> _]. rewrite Z.bits_0, lookup_empty.
      split; [done|]. intros [[? H]|(t & c & p & H & _)]; [done|]. by rewrite lookup_empty in H.
    + intros t c p H. by rewrite lookup_empty in H.
  - split; intros *; try (intros H; by rewrite lookup_empty in H). intros H. destruct (Hz i e H). lia.
  - split; intros * H; by rewrite lookup_empty in H.
  - intros t c p H. by rewrite lookup_empty in H.
Qed.

Lemma validate_ok a b : validate_port_pin a b = OVE_OK -> 0 <= a -> 0 <= b -> valid (a, b).
Proof.
  unfold validate_port_pin. destruct (Z.leb_spec OVE_GPIO_PORT_COUNT a), (Z.leb_spec OVE_GPIO_PINS_PER_PORT b);
    intros E Ha Hb; try discriminate E. split; cbn; lia.
Qed.

Lemma start_ok m s t c s' ev : st_inv m s -> may_start s c = true -> step (Start t c) s = Some (s', ev) ->
  esteps ev m m /\ st_inv m s'.
Proof.
  intros I Hms Hst. cbn in Hst. destruct (calls s !! t) eqn:Ht; [done|]. injection Hst as Hst.
  unfold may_start in Hms. rewrite !andb_true_iff, !Z.leb_le, bool_decide_eq_true in Hms. destruct Hms as [[Ha Hb] Hcs].
  assert (Hgo : forall p, s' = {| s with calls := <[t := (c, p)]> (calls s) |} -> owner p = None -> holding p = false ->
    thread_ok (irq_table s) c p -> st_inv m s').
  { intros p -> Ho Hh Hok. by apply gpio_start_inv. }
  assert (Hbefore : forall k, before (irq_table s) k 0) by (intros k; split; [unfold GPIO_IRQ_MAX; lia|lia]).
  destruct c as [a b mode cb ud|a b|a b|a b]; unfold resume, start in Hst.
  - destruct (validate_port_pin a b =? OVE_OK) eqn:Ev, (cb =? 0) eqn:Ecb; cbn in Hst;
      try destruct (_ && _); injection Hst as <- <-; try (split; [exists m; done|]; unfold st_inv; cbn; by rewrite delete_id).
    split; [done|]. apply (Hgo RClaim); [done..|]. apply Z.eqb_eq in Ev. apply Z.eqb_neq in Ecb.
    split; [by apply validate_ok|done].
  - injection Hst as <- <-. split; [done|]. apply (Hgo (SPort 0)); [done..|]. split; [unfold GPIO_IRQ_MAX; lia|]. split; [done|].
    destruct (in_table m (irq_table s) (irq_claims s) (calls s) I 0) as [e He]; [unfold GPIO_IRQ_MAX; lia|]. by exists e.
  - injection Hst as <- <-. split; [done|]. apply (Hgo (SLoad 0)); [done..|]. split; [unfold GPIO_IRQ_MAX; lia|done].
  - injection Hst as <- <-. split; [done|]. apply (Hgo (SLoad 0)); [done..|]. split; [unfold GPIO_IRQ_MAX; lia|done].
Qed.

Lemma step_moves m s t c p : st_inv m s -> calls s !! t = Some (c, p) ->
  exists s' ev m', step (Step t) s = Some (s', ev) /\ esteps ev m m' /\ st_inv m' s' /\
    (calls s' !! t = None \/ exists p', calls s' !! t = Some (c, p') /\ (rank p' < rank p)%nat).
Proof.
  intros I Ht. destruct s as [l claims w cs].
  destruct (every_move m l claims cs t w c p I Ht) as (l' & claims' & w' & x & Ha & (m' & Hev & Hi) & Hr). cbn in Ht.
  cbn -[advance]. rewrite Ht. cbn -[advance]. rewrite Ha. cbn. rewrite resume_eq.
  eexists _, _, m'. split; [done|]. split; [done|]. split; [done|]. cbn.
  destruct (goto x.1) as [p'|]; cbn; [right|left; apply lookup_delete_eq].
  exists p'. rewrite lookup_insert_eq. split; [done|]. by apply Hr.
Qed.

Lemma run_ok acts : forall m s s' evs, st_inv m s -> disciplined acts s = true -> run acts s = Some (s', evs) ->
  exists m', esteps evs m m' /\ st_inv m' s'.
Proof.
  induction acts as [|a acts IH]; intros m s s' evs I Hd Hr; [by injection Hr as <- <-; exists m|].
  cbn -[step] in Hd, Hr. apply andb_true_iff in Hd as [Hms Hd]. destruct (step a s) as [[s1 ev]|] eqn:E; [|done]. cbn in Hr.
  destruct (run acts s1) as [[s2 ev2]|] eqn:E2; [|done]. injection Hr as <- <-.
  assert (exists m1, esteps ev m m1 /\ st_inv m1 s1) as (m1 & Hev & I1).
  { destruct a as [t c|t|a b].
    - exists m. by apply (start_ok m s t c).
    - destruct (calls s !! t) as [[c p]|] eqn:Ht; [|cbn in E; by rewrite Ht in E].
      destruct (step_moves m s t c p I Ht) as (s3 & ev3 & m1 & E3 & H1 & H2 & _). rewrite E in E3. injection E3 as <- <-. by exists m1.
    - injection E as <- <-. exists m. split; [|done]. apply dispatch_ok, I. }
  destruct (IH m1 s1 s2 ev2 I1 Hd E2) as (m2 & Hev2 & I2). exists m2. split; [by eapply esteps_app|done].
Qed.

(** C10. As long as calls on one line do not overlap, and registrations overlap
    only registrations, the interrupt table is a registry of lines under every
    interleaving: each return and each callback of the dispatcher is the one
    the registry allows, the slots in use are exactly its entries, a line with
    no call in progress is claimed exactly when it is registered, and when no
    call is in progress no slot is left reserved.  Every call can always move,
    and reaches its end. *)
Theorem gpio_irq_refines (w : W) (acts : list action) (s : st) (evs : list event) :
  disciplined acts (init w) = true -> run acts (init w) = Some (s, evs) ->
  exists m, esteps evs ∅ m /\
    (forall k v, m !! k = Some v <-> exists i e, irq_table s !! i = Some e /\ live e = true /\ ekey e = k /\ evalue e = v) /\
    (forall k, valid k -> (forall t x, calls s !! t = Some x -> ckey x.1 <> k) ->
      claimed (irq_claims s) k = bool_decide (is_Some (m !! k))) /\
    (calls s = ∅ -> Forall (fun e => registered e = GPIO_IRQ_FREE \/ registered e = GPIO_IRQ_REGISTERED) (irq_table s)) /\
    (forall t c p, calls s !! t = Some (c, p) -> exists s' ev, step (Step t) s = Some (s', ev) /\
      (calls s' !! t = None \/ exists p', calls s' !! t = Some (c, p') /\ (rank p' < rank p)%nat)).
Proof.
  intros Hd Hr. destruct (run_ok acts ∅ (init w) s evs (init_inv w) Hd Hr) as (m & Hev & I). exists m.
  split; [done|]. split; [apply (to_map _ _ (iv_table _ _ _ _ I))|]. split; [|split].
  - intros k Hk Hno. apply eq_true_iff_eq. rewrite bool_decide_eq_true, (cl_bit _ _ _ (iv_claim _ _ _ _ I) k Hk).
    split; [|by left]. intros [H|(t & c & p & H1 & H2 & _)]; [done|]. by destruct (Hno t _ H1).
  - intros Hc. apply Forall_lookup_2. intros i e He. pose proof (to_code _ _ (iv_table _ _ _ _ I) i e He) as Hcode.
    unfold GPIO_IRQ_FREE, GPIO_IRQ_REGISTERED. destruct (decide (registered e = 2 \/ registered e = 3)) as [H|H]; [|lia].
    destruct (ow_owned _ _ (iv_own _ _ _ _ I) i e He H) as (t & c & p & H1 & _). by rewrite Hc, lookup_empty in H1.
  - intros t c p Ht. destruct (step_moves m s t c p I Ht) as (s' & ev & m' & H1 & _ & _ & H2). by exists s', ev.
Qed.
End refine.
End GpioRefine.

Module GpioDemo.
Import Gpio GpioInv GpioRefine.

(** Nine ports of sixteen pins and a HAL that always succeeds. *)
#[local] Instance board : Board := {
  OVE_GPIO_PORT_COUNT := 9; OVE_GPIO_PINS_PER_PORT := 16; board_sane := conj eq_refl (conj eq_refl eq_refl) }.
#[local] Instance hal : GpioHal unit := {
  ove_hal_gpio_configure _ _ _ w := (0, w); ove_hal_gpio_set _ _ _ w := (0, w); ove_hal_gpio_get _ _ w := (0, w);
  ove_hal_gpio_irq_hw_register _ _ _ w := (0, w); ove_hal_gpio_irq_hw_enable _ _ w := (0, w);
  ove_hal_gpio_irq_hw_disable _ _ w := (0, w); ove_hal_gpio_irq_hw_unregister _ _ w := (0, w) }.

Definition steps (t n : nat) : list action := replicate n (Step t).

(** Two registrations overlap, one line is enabled, fires and goes away. *)
Definition session : list action :=
  Start 1 (Register 0 0 1 100 5) :: Start 2 (Register 0 1 3 200 6) :: steps 1 3 ++ steps 2 10 ++ steps 1 6 ++
  Start 1 (Enable 0 1) :: steps 1 8 ++ [Irq 0 1; Irq 0 0] ++ Start 2 (Unregister 0 1) :: steps 2 9 ++ [Irq 0 1].
Definition session_end : st * list event := default (init tt, []) (run session (init tt)).

Example session_run : run session (init tt) = Some session_end /\ session_end.2 =
  [EReturn (Register 0 1 3 200 6) OVE_OK; EReturn (Register 0 0 1 100 5) OVE_OK; EReturn (Enable 0 1) OVE_OK;
   ECall (0, 1) 200 6; EQuiet (0, 0); EMask (0, 1); EGone (0, 1); EReturn (Unregister 0 1) OVE_OK; EQuiet (0, 1)].
Proof. split; vm_compute; reflexivity. Qed.

Lemma session_disciplined : disciplined session (init tt) = true.
Proof. vm_compute. reflexivity. Qed.

Lemma gpio_irq_refines_witness : exists m, esteps session_end.2 ∅ m /\
  (forall k v, m !! k = Some v <-> exists i e, irq_table session_end.1 !! i = Some e /\ live e = true /\ ekey e = k /\ evalue e = v).
Proof.
  destruct (gpio_irq_refines tt session session_end.1 session_end.2 session_disciplined ltac:(vm_compute; reflexivity)) as (m & H1 & H2 & _).
  exists m. split; [exact H1|exact H2].
Defined.

(** Line (0, 0) is registered and unregistered; it is registered again while
    line (0, 1) is taking its old slot, and unregistered while that slot
    still names it. *)
Definition race : list action :=
  Start 1 (Register 0 0 1 100 0) :: steps 1 9 ++ Start 1 (Unregister 0 0) :: steps 1 7 ++
  Start 2 (Register 0 1 1 200 0) :: steps 2 2 ++ Start 1 (Register 0 0 1 100 0) :: steps 1 10 ++
  Start 1 (Unregister 0 0) :: steps 1 2 ++ steps 2 7 ++ Start 2 (Enable 0 1) :: steps 2 5 ++ steps 1 5 ++
  [Irq 0 1; Start 2 (Register 0 1 1 200 0); Step 2].

End GpioDemo.
