(* ===== verification/Backtrace.v ===== *)
(** * Stack scanning on Cortex-M (backends/common/ove_arm_backtrace.c)

    The unwinder looks at the words of a stack for saved pairs of frame
    pointer and return address.  Addresses are 32 bits; memory is read
    through two functions, undefined outside what the caller may read. *)

From S2P Require Import Prelude.

Module Backtrace.

Definition OVE_ARM_STACK_SCAN_WORDS : nat := 256.

Section backtrace.
Context (rd16 rd32 : Z -> option Z).

Definition ove_arm_backtrace_lr_is_post_bl (lr text_lo text_hi : Z) : option bool :=
  if (lr <? u32 (text_lo + 4)) || (text_hi <=? lr) then Some false else
  if negb (Z.land lr 1 =? 0) then Some false else
  hw2 ← rd16 (lr - 2);
  if Z.land hw2 0xFF87 =? 0x4780 then Some true else
  hw1 ← rd16 (lr - 4);
  Some ((Z.land hw1 0xF800 =? 0xF000) && (Z.land hw2 0xD000 =? 0xD000)).

Section scan.
Context (text_lo text_hi sram_lo sram_hi fill : Z).

(** The loop: [n] words are left to look at, [room] entries of [out] are
    free. *)
Fixpoint scan_words (n : nat) (scan prev_word last_r7 room : Z) : option (list Z) :=
  match n with
  | O => Some []
  | S n =>
      if room <=? 0 then Some [] else
      if (scan <? sram_lo) || (sram_hi <=? scan) then Some [] else
      val ← rd32 scan;
      if negb (fill =? 0) && (val =? fill) then Some [] else
      let reject := scan_words n (scan + 4) val last_r7 room in
      if Z.land val 1 =? 0 then reject else
      let lr := Z.ldiff val 1 in
      if (lr <? text_lo) || (text_hi <=? lr) then reject else
      call ← ove_arm_backtrace_lr_is_post_bl lr text_lo text_hi;
      if negb call then reject else
      if 128 <? u32 (prev_word - u32 (scan + 4)) then reject else
      if negb (last_r7 =? 0) && ((prev_word <=? last_r7) || (u32 (scan - 4) <=? last_r7)) then reject else
      rest ← scan_words n (scan + 4) val prev_word (room - 1);
      Some (lr :: rest)
  end.

(** [out] is whether the pointer is not NULL; the result is what is stored
    through it. *)
Definition ove_arm_backtrace_walk (psp : Z) (out : bool) (max : Z) : option (list Z) :=
  if negb out || (max <=? 0) then Some [] else
  scan_words OVE_ARM_STACK_SCAN_WORDS (psp + 32) 0 0 max.
End scan.

(** ** What a call leaves on the stack *)

(** [lr] is in the text, with a call instruction before it. *)
Definition return_address (text_lo text_hi lr : Z) : Prop :=
  text_lo + 4 <= lr < text_hi /\ Z.Even lr /\ ove_arm_backtrace_lr_is_post_bl lr text_lo text_hi = Some true.

(** The word at [slot] is a saved return address with the Thumb bit, and the
    word below it is the frame pointer [r7] of a frame just above. *)
Definition saved_pair (text_lo text_hi : Z) (slot r7 lr : Z) : Prop :=
  rd32 slot = Some (lr + 1) /\ rd32 (slot - 4) = Some r7 /\ return_address text_lo text_hi lr /\ slot + 4 <= r7 <= slot + 132.

(** Pairs that go up the stack from [last], each above the frame pointer of
    the one before. *)
Fixpoint ascending (text_lo text_hi last : Z) (l : list (Z * Z * Z)) : Prop :=
  match l with
  | [] => True
  | (slot, r7, lr) :: l => saved_pair text_lo text_hi slot r7 lr /\ last < slot - 4 /\ ascending text_lo text_hi r7 l
  end.

(** ** Every address found is a saved one *)

Section safe.
Context (text_lo text_hi sram_lo sram_hi fill : Z).
Hypothesis Htext : 0 <= text_lo /\ text_lo + 4 < 2 ^ 32 /\ text_hi <= 2 ^ 32.
Hypothesis Hsram : 0 < sram_lo /\ sram_hi + 132 <= 2 ^ 32.
Hypothesis Hrd16 : forall a, text_lo <= a < text_hi -> Z.Even a -> exists v, rd16 a = Some v.
Hypothesis Hrd32 : forall a, sram_lo <= a < sram_hi -> a mod 4 = 0 -> exists v, rd32 a = Some v /\ 0 <= v < 2 ^ 32.

Lemma odd_bit v : Z.land v 1 = v mod 2.
Proof. by apply (land_ones_mod v 1 1). Qed.

Lemma clear_thumb v : Z.land v 1 <> 0 -> Z.ldiff v 1 + 1 = v /\ Z.Even (Z.ldiff v 1).
Proof.
  intros Hv. rewrite odd_bit in Hv. change (Z.ldiff v 1) with (Z.ldiff v (Z.ones 1)).
  rewrite Z.ldiff_ones_r, Z.shiftr_div_pow2, Z.shiftl_mul_pow2 by lia. change (2 ^ 1) with 2.
  split; [dlia|]. exists (v / 2). lia.
Qed.

Lemma post_bl_total lr : Z.Even lr -> exists b, ove_arm_backtrace_lr_is_post_bl lr text_lo text_hi = Some b /\
  (b = true -> text_lo + 4 <= lr < text_hi).
Proof.
  intros [k ->]. unfold ove_arm_backtrace_lr_is_post_bl. rewrite wrap_small by (unfold is_word; lia).
  destruct (Z.ltb_spec (2 * k) (text_lo + 4)), (Z.leb_spec text_hi (2 * k)); [by exists false..|]. cbn [orb].
  rewrite odd_bit. replace (2 * k mod 2) with 0 by dlia. cbn.
  destruct (Hrd16 (2 * k - 2)) as [h2 ->]; [lia|exists (k - 1); lia|]. cbn. destruct (_ =? _); [by exists true|].
  destruct (Hrd16 (2 * k - 4)) as [h1 ->]; [lia|exists (k - 2); lia|]. cbn. eexists. split; [done|]. lia.
Qed.

Local Abbreviation walk := (scan_words text_lo text_hi sram_lo sram_hi fill).

(** What the loop knows of the word before [scan]: it has been read, or
    there is none. *)
Definition previous (scan prev : Z) : Prop :=
  prev = 0 \/ rd32 (scan - 4) = Some prev /\ 0 <= prev < 2 ^ 32 /\ sram_lo <= scan - 4.

Lemma frame_pointer scan prev : sram_lo <= scan < sram_hi -> previous scan prev -> u32 (prev - u32 (scan + 4)) <= 128 ->
  rd32 (scan - 4) = Some prev /\ sram_lo <= scan - 4 /\ scan + 4 <= prev <= scan + 132.
Proof.
  intros Hs Hp Hd. rewrite (wrap_small 32 (scan + 4)) in Hd by (unfold is_word; lia). unfold wrap in Hd.
  destruct Hp as [->|(Hr & Hv & Hlo)].
  - rewrite <-(Z.mod_unique (0 - (scan + 4)) (2 ^ 32) (-1) (2 ^ 32 - (scan + 4))) in Hd by lia. lia.
  - split; [done|]. split; [done|]. destruct (Z.le_gt_cases (scan + 4) prev).
    + rewrite Z.mod_small in Hd by lia. lia.
    + rewrite <-(Z.mod_unique (prev - (scan + 4)) (2 ^ 32) (-1) (2 ^ 32 + prev - (scan + 4))) in Hd by lia. lia.
Qed.

Lemma scan_words_sound n : forall scan prev last room, scan mod 4 = 0 -> 0 <= last -> previous scan prev ->
  exists fs, walk n scan prev last room = Some (snd <$> fs) /\ Z.of_nat (length fs) <= Z.max 0 room /\ (length fs <= n)%nat /\
    ascending text_lo text_hi last fs.
Proof.
  induction n as [|n IH]; intros scan prev last room Hal Hlast Hprev; [exists []; cbn; split; [done|]; lia|]. cbn [scan_words].
  assert (Hstop : exists fs : list (Z * Z * Z), Some [] = Some (snd <$> fs) /\ Z.of_nat (length fs) <= Z.max 0 room /\ (length fs <= S n)%nat /\
    ascending text_lo text_hi last fs) by (exists []; cbn; split; [done|]; lia).
  destruct (Z.leb_spec room 0); [done|].
  destruct (Z.ltb_spec scan sram_lo), (Z.leb_spec sram_hi scan); [done..|]. cbn [orb].
  destruct (Hrd32 scan) as (v & Hv & Hvr); [lia|done|]. rewrite Hv. cbn [mbind option_bind].
  destruct (negb (fill =? 0) && (v =? fill)); [done|].
  assert (previous (scan + 4) v) as Hnext by (right; rewrite Z.add_simpl_r; split; [done|split; [done|lia]]).
  assert (Hal' : (scan + 4) mod 4 = 0) by dlia.
  assert (Hskip : exists fs, walk n (scan + 4) v last room = Some (snd <$> fs) /\ Z.of_nat (length fs) <= Z.max 0 room /\
    (length fs <= S n)%nat /\ ascending text_lo text_hi last fs).
  { destruct (IH (scan + 4) v last room Hal' Hlast Hnext) as (fs & F1 & F2 & F3 & F4). exists fs. split; [done|]. split; [done|]. split; [lia|done]. }
  cbv zeta. destruct (Z.eqb_spec (Z.land v 1) 0) as [|Hodd]; [done|]. destruct (clear_thumb v Hodd) as [Hlr Hev].
  destruct ((_ <? text_lo) || _); [done|]. destruct (post_bl_total (Z.ldiff v 1) Hev) as (b & Hb & Hrange). rewrite Hb. cbn [mbind option_bind].
  destruct b; [|done]. cbn [negb]. specialize (Hrange eq_refl).
  destruct (Z.ltb_spec 128 (u32 (prev - u32 (scan + 4)))) as [|Hd]; [done|].
  destruct (frame_pointer scan prev ltac:(lia) Hprev Hd) as (Hr7 & Hlo & Hbound).
  rewrite (wrap_small 32 (scan - 4)) by (unfold is_word; lia).
  destruct (negb (last =? 0) && _) eqn:Hasc; [done|].
  destruct (IH (scan + 4) v prev (room - 1) Hal' ltac:(lia) Hnext) as (fs & F1 & F2 & F3 & F4). rewrite F1. cbn.
  exists ((scan, prev, Z.ldiff v 1) :: fs). cbn. split; [done|]. split; [lia|]. split; [lia|]. split; [|split; [|done]].
  - split; [by rewrite Hlr|]. split; [done|]. split; [by split|done].
  - apply andb_false_iff in Hasc as [E|E]; [apply negb_false_iff, Z.eqb_eq in E; lia|].
    apply orb_false_iff in E as [_ E]. apply Z.leb_gt in E. lia.
Qed.

(** C35. Whatever is on the stack, the walk returns without reading outside
    the SRAM and the text, stores at most [max] entries after at most 256
    words, and every entry is a return address behind a call instruction,
    saved with the Thumb bit next to a plausible frame pointer; the pairs lie
    ever higher on the stack, each above the frame pointer of the one
    before. *)
Theorem backtrace_sound (psp max : Z) : psp mod 4 = 0 ->
  exists fs, ove_arm_backtrace_walk text_lo text_hi sram_lo sram_hi fill psp true max = Some (snd <$> fs) /\
    Z.of_nat (length fs) <= Z.max 0 max /\ (length fs <= OVE_ARM_STACK_SCAN_WORDS)%nat /\ ascending text_lo text_hi 0 fs.
Proof.
  intros Hal. unfold ove_arm_backtrace_walk. cbn [negb orb]. destruct (Z.leb_spec max 0).
  - exists []. cbn. split; [done|]. split; [lia|]. split; [lia|done].
  - apply scan_words_sound; [dlia|done|by left].
Qed.

(** ** The frames of a regular stack are found *)

(** A word that the scan takes for nothing. *)
Definition plain (v : Z) : Prop :=
  (fill <> 0 -> v <> fill) /\
  (Z.Even v \/ Z.Odd v /\ (v - 1 < text_lo \/ text_hi <= v - 1 \/ ove_arm_backtrace_lr_is_post_bl (v - 1) text_lo text_hi = Some false)).

Definition words_at (a : Z) (l : list Z) : Prop :=
  forall i v, l !! i = Some v -> sram_lo <= a + 4 * Z.of_nat i < sram_hi /\ rd32 (a + 4 * Z.of_nat i) = Some v.

(** A frame, from its lower end: locals, then the saved pair. *)
Record frame := mk_frame { locals : list Z; saved_r7 : Z; saved_lr : Z }.
Definition frame_words (f : frame) : list Z := locals f ++ [saved_r7 f; saved_lr f + 1].

(** The frames lie one above the other from [a]; after the last one comes the
    fill pattern or the end of the SRAM.  [last] is the frame pointer that
    was saved before. *)
Fixpoint stack (a last : Z) (fs : list frame) : Prop :=
  match fs with
  | [] => sram_hi <= a \/ sram_lo <= a < sram_hi /\ fill <> 0 /\ rd32 a = Some fill
  | f :: fs =>
      let slot := a + 4 * Z.of_nat (length (locals f)) + 4 in
      words_at a (frame_words f) /\ Forall plain (locals f) /\ plain (saved_r7 f) /\
      return_address text_lo text_hi (saved_lr f) /\ (fill <> 0 -> saved_lr f + 1 <> fill) /\
      slot + 4 <= saved_r7 f <= slot + 132 /\ last < slot - 4 /\ stack (slot + 4) (saved_r7 f) fs
  end.
Definition total_words (fs : list frame) : nat := length (concat (frame_words <$> fs)).

Lemma land_even v : Z.Even v -> Z.land v 1 = 0.
Proof. intros [k ->]. rewrite odd_bit. dlia. Qed.
Lemma land_odd v : Z.Odd v -> Z.land v 1 = 1.
Proof. intros [k ->]. rewrite odd_bit. dlia. Qed.
Lemma ldiff_odd v : Z.Odd v -> Z.ldiff v 1 = v - 1.
Proof. intros H. destruct (clear_thumb v) as [H1 _]; [by rewrite land_odd|]. lia. Qed.

Lemma no_room n scan prev last room : room <= 0 -> walk n scan prev last room = Some [].
Proof. intros. destruct n; [done|]. cbn. by rewrite (proj2 (Z.leb_le room 0)). Qed.

Lemma fill_test v : (fill <> 0 -> v <> fill) -> negb (fill =? 0) && (v =? fill) = false.
Proof. intros H. destruct (Z.eqb_spec fill 0); [done|]. cbn. apply Z.eqb_neq. auto. Qed.

Lemma skip_word n scan prev last room v : 0 < room -> words_at scan [v] -> plain v ->
  walk (S n) scan prev last room = walk n (scan + 4) v last room.
Proof.
  intros Hroom Hw [Hf Hp]. destruct (Hw 0%nat v eq_refl) as [Hs Hv]. rewrite Z.add_0_r in Hs, Hv. cbn [scan_words].
  rewrite (proj2 (Z.leb_gt room 0)), (proj2 (Z.ltb_ge scan sram_lo)), (proj2 (Z.leb_gt sram_hi scan)), Hv by lia.
  cbn [orb mbind option_bind]. rewrite (fill_test v Hf). destruct Hp as [He|[Ho Hp]]; [by rewrite land_even|].
  rewrite (land_odd v Ho), (ldiff_odd v Ho). cbn [Z.eqb].
  destruct (Z.ltb_spec (v - 1) text_lo), (Z.leb_spec text_hi (v - 1)); [done..|]. cbn [orb].
  destruct Hp as [Hp|[Hp|Hp]]; [lia|lia|]. by rewrite Hp.
Qed.

Lemma words_at_cons a v l : words_at a (v :: l) -> words_at a [v] /\ words_at (a + 4) l.
Proof.
  intros H. split.
  - intros [|i] x Hx; [by apply (H 0%nat)|done].
  - intros i x Hx. destruct (H (S i) x Hx) as [H1 H2]. replace (a + 4 + 4 * Z.of_nat i) with (a + 4 * Z.of_nat (S i)) by lia. done.
Qed.

Lemma skip_words n l : forall scan prev last room, 0 < room -> words_at scan l -> Forall plain l ->
  exists prev', walk (length l + n) scan prev last room = walk n (scan + 4 * Z.of_nat (length l)) prev' last room.
Proof.
  induction l as [|v l IH]; intros scan prev last room Hr Hw Hp; [exists prev; cbn; by rewrite Z.add_0_r|].
  apply words_at_cons in Hw as [Hv Hw]. inversion_clear Hp as [|? ? Hpv Hpl]. cbn [length Nat.add]. rewrite (skip_word _ _ _ _ _ v) by done.
  destruct (IH (scan + 4) v last room Hr Hw Hpl) as [prev' ->]. exists prev'. f_equal. lia.
Qed.

Lemma take_pair n slot r7 lr last room : 0 < room -> 0 <= last -> words_at slot [lr + 1] -> return_address text_lo text_hi lr ->
  (fill <> 0 -> lr + 1 <> fill) -> slot + 4 <= r7 <= slot + 132 -> last < slot - 4 -> sram_lo <= slot - 4 ->
  walk (S n) slot r7 last room = (rest ← walk n (slot + 4) (lr + 1) r7 (room - 1); Some (lr :: rest)).
Proof.
  intros Hroom Hlast Hw (Hrange & Hev & Hcall) Hf Hr7 Hasc Hlo. destruct (Hw 0%nat (lr + 1) eq_refl) as [Hs Hv].
  rewrite Z.add_0_r in Hs, Hv. cbn [scan_words].
  rewrite (proj2 (Z.leb_gt room 0)), (proj2 (Z.ltb_ge slot sram_lo)), (proj2 (Z.leb_gt sram_hi slot)), Hv by lia.
  cbn [orb mbind option_bind]. rewrite (fill_test _ Hf). assert (Z.Odd (lr + 1)) as Ho by (destruct Hev as [k ->]; exists k; lia).
  rewrite (land_odd _ Ho), (ldiff_odd _ Ho), Z.add_simpl_r. cbn [Z.eqb].
  rewrite (proj2 (Z.ltb_ge lr text_lo)), (proj2 (Z.leb_gt text_hi lr)), Hcall by lia. cbn [orb mbind option_bind negb].
  rewrite (wrap_small 32 (slot + 4)), (wrap_small 32 (r7 - (slot + 4))), (wrap_small 32 (slot - 4)) by (unfold is_word; lia).
  rewrite (proj2 (Z.ltb_ge 128 _)), (proj2 (Z.leb_gt r7 last)), (proj2 (Z.leb_gt (slot - 4) last)) by lia.
  by rewrite andb_false_r.
Qed.

Lemma words_at_app a l1 l2 : words_at a (l1 ++ l2) -> words_at a l1 /\ words_at (a + 4 * Z.of_nat (length l1)) l2.
Proof.
  intros H. split.
  - intros i v Hv. apply H. by apply lookup_app_l_Some.
  - intros i v Hv. destruct (H (length l1 + i)%nat v) as [H1 H2]; [by rewrite lookup_app_r, Nat.add_sub_swap, Nat.sub_diag by lia|].
    replace (a + 4 * Z.of_nat (length l1) + 4 * Z.of_nat i) with (a + 4 * Z.of_nat (length l1 + i)) by lia. done.
Qed.

Lemma scan_stack fs : forall n scan prev last room, 0 <= last -> (total_words fs <= n)%nat -> stack scan last fs ->
  walk n scan prev last room = Some (take (Z.to_nat room) (saved_lr <$> fs)).
Proof.
  induction fs as [|f fs IH]; intros n scan prev last room Hlast Hn Hst.
  - cbn. rewrite take_nil. destruct n; [done|]. cbn [scan_words]. destruct (room <=? 0); [done|].
    destruct Hst as [Hhi|(Hs & Hf & Hv)]; [by rewrite (proj2 (Z.leb_le sram_hi scan) Hhi), orb_true_r|].
    destruct ((scan <? sram_lo) || _); [done|]. rewrite Hv. cbn. by rewrite (proj2 (Z.eqb_neq _ _) Hf), Z.eqb_refl.
  - destruct (Z.le_gt_cases room 0) as [Hr|Hr]; [by rewrite no_room, Z2Nat.nonpos by done|].
    destruct Hst as (Hw & Hl & Hp & Hret & Hf & Hr7 & Hasc & Hst). apply words_at_app in Hw as [Hw1 Hw].
    apply words_at_cons in Hw as [Hw2 Hw3]. destruct (Hw2 0%nat (saved_r7 f) eq_refl) as [Hs2 _].
    assert (exists n', n = (length (locals f) + S (S n'))%nat /\ (total_words fs <= n')%nat) as (n' & -> & Hn').
    { unfold total_words, frame_words in *. cbn in Hn. rewrite !length_app in Hn. cbn in Hn.
      exists (n - length (locals f) - 2)%nat. lia. }
    destruct (skip_words (S (S n')) (locals f) scan prev last room Hr Hw1 Hl) as [prev' ->].
    rewrite (skip_word _ _ _ _ _ (saved_r7 f)) by done. rewrite (take_pair n' _ _ (saved_lr f)); [|done|done|done|done|done|lia|lia|lia].
    rewrite (IH n' _ _ (saved_r7 f) (room - 1)); [|lia|done|done]. cbn [mbind option_bind fmap list_fmap].
    replace (Z.to_nat room) with (S (Z.to_nat (room - 1))) by lia. done.
Qed.

End safe.
End backtrace.

(** Two frames at address 0x20000020, below the fill pattern. *)
Module BacktraceDemo.
Definition rd16 (a : Z) : option Z :=
  if (a <? 0x08000000) || (0x08001000 <=? a) then None else
  Some (if a =? 0x080000fe then 0x4798 else if a =? 0x080001fc then 0xf000 else if a =? 0x080001fe then 0xd000 else 0).
Definition words : list Z :=
  replicate 8 0 ++ [7; 0x20000100; 0x20000030; 0x08000101; 1; 2; 0x20000048; 0x08000201] ++ replicate 48 0xa5a5a5a5.
Definition rd32 (a : Z) : option Z :=
  if (a <? 0x20000000) || (0x20000100 <=? a) then None else words !! Z.to_nat ((a - 0x20000000) / 4).

Example demo_walk : ove_arm_backtrace_walk rd16 rd32 0x08000000 0x08001000 0x20000000 0x20000100 0xa5a5a5a5 0x20000000 true 8 =
  Some [0x08000100; 0x08000200].
Proof. vm_compute. reflexivity. Qed.

Lemma text_readable a : 0x08000000 <= a < 0x08001000 -> Z.Even a -> exists v, rd16 a = Some v.
Proof.
  intros Ha _. unfold rd16. rewrite (proj2 (Z.ltb_ge _ _)), (proj2 (Z.leb_gt _ _)) by lia. by eexists.
Qed.

Lemma sram_readable a : 0x20000000 <= a < 0x20000100 -> a mod 4 = 0 -> exists v, rd32 a = Some v /\ 0 <= v < 2 ^ 32.
Proof.
  intros Ha _. unfold rd32. rewrite (proj2 (Z.ltb_ge _ _)), (proj2 (Z.leb_gt _ _)) by lia. cbn [orb].
  assert (Forall (fun v => 0 <= v < 2 ^ 32) words) as Hw by (apply (bool_decide_unpack _); vm_compute; exact I).
  destruct (lookup_lt_is_Some_2 words (Z.to_nat ((a - 0x20000000) / 4))) as [v Hv].
  { change (length words) with 64%nat. apply Nat2Z.inj_lt. rewrite Z2Nat.id by dlia. dlia. }
  exists v. split; [done|]. by apply (Forall_lookup_1 _ _ _ _ Hw Hv).
Qed.

Lemma backtrace_sound_witness : exists fs,
  ove_arm_backtrace_walk rd16 rd32 0x08000000 0x08001000 0x20000000 0x20000100 0xa5a5a5a5 0x20000000 true 8 = Some (snd <$> fs) /\
  Z.of_nat (length fs) <= Z.max 0 8 /\ (length fs <= OVE_ARM_STACK_SCAN_WORDS)%nat /\ ascending rd16 rd32 0x08000000 0x08001000 0 fs.
Proof.
  exact (backtrace_sound rd16 rd32 0x08000000 0x08001000 0x20000000 0x20000100 0xa5a5a5a5 ltac:(lia) ltac:(lia)
    text_readable sram_readable 0x20000000 8 eq_refl).
Defined.

Definition frames : list frame :=
  [mk_frame [7; 0x20000100] 0x20000030 0x08000100; mk_frame [1; 2] 0x20000048 0x08000200].

Lemma words_decide a l : forallb (fun i => let b := a + 4 * Z.of_nat i in
    (0x20000000 <=? b) && (b <? 0x20000100) && bool_decide (rd32 b = l !! i)) (seq 0 (length l)) = true ->
  words_at rd32 0x20000000 0x20000100 a l.
Proof.
  intros H i v Hv. rewrite forallb_forall in H.
  assert (List.In i (seq 0 (length l))) as Hi by (apply List.in_seq; apply lookup_lt_Some in Hv; lia).
  specialize (H i Hi). rewrite !andb_true_iff, Z.leb_le, Z.ltb_lt, bool_decide_eq_true in H. destruct H as [H ->]. by split.
Qed.

Lemma plain_small v : 0 <= v < 0x08000000 -> plain rd16 0x08000000 0x08001000 0xa5a5a5a5 v.
Proof. intros Hv. split; [lia|]. destruct (Z.Even_or_Odd v) as [H|H]; [by left|right]. split; [done|]. left. lia. Qed.

Lemma plain_even v : Z.Even v -> plain rd16 0x08000000 0x08001000 0xa5a5a5a5 v.
Proof. intros [k ->]. split; [lia|]. left. by exists k. Qed.

Lemma frames_stack : stack rd16 rd32 0x08000000 0x08001000 0x20000000 0x20000100 0xa5a5a5a5 0x20000020 0 frames.
Proof.
  split; [apply words_decide; vm_compute; reflexivity|]. split.
  { constructor; [apply plain_small; lia|]. constructor; [apply plain_even; exists 0x10000080; reflexivity|constructor]. }
  split; [apply plain_even; exists 0x10000018; reflexivity|].
  split; [split; [cbn; lia|split; [exists 0x04000080; reflexivity|vm_compute; reflexivity]]|].
  split; [cbn; lia|]. split; [cbn; lia|]. split; [cbn; lia|].
  split; [apply words_decide; vm_compute; reflexivity|]. split.
  { constructor; [apply plain_small; lia|]. constructor; [apply plain_small; lia|constructor]. }
  split; [apply plain_even; exists 0x10000024; reflexivity|].
  split; [split; [cbn; lia|split; [exists 0x04000100; reflexivity|vm_compute; reflexivity]]|].
  split; [cbn; lia|]. split; [cbn; lia|]. split; [cbn; lia|].
  right. split; [cbn; lia|]. split; [lia|vm_compute; reflexivity].
Qed.

End BacktraceDemo.
End Backtrace.
